(** * Merrill Portfolio Beta: a shallow embedding of the two user scripts

    The repository holds two versions of one user script, both in
    [src/merrill-portfolio-beta.js]:

    - version 0.1.0 (lines 1-522): Stooq only, no cache;
    - version 0.2.0 (lines 523-970): Stooq or Yahoo, a 24 hour cache in
      [localStorage], a failure handler per holding, an editable table.

    Module [V1] embeds the first script and module [V2] the second; the
    functions keep their JavaScript names.

    Modelling conventions.

    - A JavaScript number is a [num]: an exact rational ([Fin q]) or [NaN].
      Rounding to binary64, overflow, signed zeros and the infinities are
      outside the model.  The divisions of the modelled code are by a
      divisor that the code has checked, by a positive count, or by a sum of
      positive weights; a division by zero, which JavaScript evaluates to an
      infinity or to NaN, is [NaN] here.  The one place where an infinity
      is followed is the beta on its way to the cache ([Binary64],
      [V2.Overflow]).
    - A JavaScript string is a [string] of 8-bit characters; white space and
      letter case follow JavaScript on the ASCII range, characters above it
      are letters without case.  The properties of tickers are stated for
      texts of ASCII characters; beyond them the normalization is modelled
      on UTF-16 code units ([Utf16], [V1.Wide], [V2.Wide]).
    - Arrays are lists, [Map] and [localStorage] are [gmap]s, the network,
      the clock and the storage quota are an explicit environment.
    - The page is data: a table is its text, the texts of its header cells
      and the cells of its rows; a cell is the text of its first link, the
      texts of its text nodes, its [textContent] and its [innerText]. *)

From Stdlib Require Import QArith Qcanon Qround Qabs Lqa ZArith Ascii String List.
From stdpp Require Import base numbers list strings gmap fin_maps option pretty sorting.

Local Open Scope Z_scope.
Local Open Scope Qc_scope.
Local Open Scope list_scope.

(* [set_solver] clears hypotheses that are already gone. *)
Set Warnings "-clear-no-such-hyp".

(** * Numbers *)

Inductive num : Type :=
| Fin (q : Qc)
| NaN.

Global Instance num_eq_dec : EqDecision num.
Proof. solve_decision. Defined.

Global Instance num_inhabited : Inhabited num := populate NaN.

Definition lift2 (f : Qc -> Qc -> Qc) (x y : num) : num :=
  match x, y with
  | Fin a, Fin b => Fin (f a b)
  | _, _ => NaN
  end.

Definition nadd : num -> num -> num := lift2 Qcplus.
Definition nsub : num -> num -> num := lift2 Qcminus.
Definition nmul : num -> num -> num := lift2 Qcmult.

(** [x / y]: the quotient of two finite numbers, [NaN] when an operand is
    [NaN] or the divisor is zero. *)
Definition ndiv (x y : num) : num :=
  match x, y with
  | Fin a, Fin b => if decide (b = 0) then NaN else Fin (a / b)
  | _, _ => NaN
  end.

(** [x > y], [x <= y] and [x === y] on numbers: false when an operand is
    [NaN]. *)
Definition ngt (x y : num) : bool :=
  match x, y with
  | Fin a, Fin b => bool_decide (b < a)
  | _, _ => false
  end.

Definition nle (x y : num) : bool :=
  match x, y with
  | Fin a, Fin b => bool_decide (a ≤ b)
  | _, _ => false
  end.

Definition nstrict_eq (x y : num) : bool :=
  match x, y with
  | Fin a, Fin b => bool_decide (a = b)
  | _, _ => false
  end.

(** [Number.isFinite] and [isNaN] on a number.  [num] has no infinity, so
    each test is the negation of the other here; in JavaScript an infinity
    is neither finite nor [NaN] (see [Binary64] below). *)
Definition isFinite (x : num) : bool :=
  match x with Fin _ => true | NaN => false end.

Definition isNaN (x : num) : bool := negb (isFinite x).

Definition of_Z (z : Z) : num := Fin (Qc_of_Z z).
Definition of_nat (n : nat) : num := of_Z (Z.of_nat n).

Declare Scope num_scope.
Delimit Scope num_scope with num.
Bind Scope num_scope with num.
Infix "+" := nadd : num_scope.
Infix "-" := nsub : num_scope.
Infix "*" := nmul : num_scope.
Infix "/" := ndiv : num_scope.

(** [arr[i]] read as a number: an index out of range gives [undefined],
    which every arithmetic operation turns into [NaN]. *)
Definition at_index (arr : list num) (i : nat) : num :=
  default NaN (arr !! i).

(** [arr.reduce((s, x) => s + x, 0)] *)
Definition sum (arr : list num) : num :=
  fold_left nadd arr (of_Z 0).

(** * Strings *)

(** A string as its list of characters, and back. *)
Definition chars (s : string) : list ascii := list_ascii_of_string s.
Definition str (l : list ascii) : string := string_of_list_ascii l.

Definition code (c : ascii) : N := N_of_ascii c.

(** White space of [trim] and of the class [\s], on the ASCII range. *)
Definition isSpace (c : ascii) : bool := Ascii.is_space c.

(** The class [[a-z]] under the flag [i]. *)
Definition isLetter (c : ascii) : bool :=
  ((65 <=? code c)%N && (code c <=? 90)%N)
  || ((97 <=? code c)%N && (code c <=? 122)%N).

(** The case mappings of [toLowerCase] and [toUpperCase] on the ASCII
    range.  A character beyond it is left as it is: the mappings of
    JavaScript there are those of Unicode, which change letters beyond
    ASCII, some into several, and depend on the place of a letter in its
    word (see [Utf16] below). *)
Definition lowerChar (c : ascii) : ascii :=
  if ((65 <=? code c)%N && (code c <=? 90)%N)
  then ascii_of_N (code c + 32) else c.

Definition upperChar (c : ascii) : ascii :=
  if ((97 <=? code c)%N && (code c <=? 122)%N)
  then ascii_of_N (code c - 32) else c.

Definition dot : ascii := "."%char.
Definition comma : ascii := ","%char.
Definition cr : ascii := "013"%char.
Definition lf : ascii := "010"%char.

Fixpoint dropSpaces (l : list ascii) : list ascii :=
  match l with
  | c :: l' => if isSpace c then dropSpaces l' else l
  | [] => []
  end.

Module JsString.

(** [s.trim()] *)
Definition trim (l : list ascii) : list ascii :=
  rev (dropSpaces (rev (dropSpaces l))).

(** [s.toLowerCase()], [s.toUpperCase()] *)
Definition toLowerCase (l : list ascii) : list ascii := map lowerChar l.
Definition toUpperCase (l : list ascii) : list ascii := map upperChar l.

(** [s.replace(/\s+/g, "")] *)
Definition removeSpaces (l : list ascii) : list ascii :=
  List.filter (fun c => negb (isSpace c)) l.

(** [s.includes(".")] *)
Definition includesDot (l : list ascii) : bool :=
  existsb (fun c => bool_decide (c = dot)) l.

(** [s.replace(/\./g, "-")] *)
Definition dotsToHyphens (l : list ascii) : list ascii :=
  map (fun c => if bool_decide (c = dot) then "-"%char else c) l.

(** [/\.[a-z]{2,}$/i.test(s)]: the string ends with a dot followed by two
    letters or more, and nothing else. *)
Fixpoint lettersThenDot (n : nat) (rl : list ascii) : bool :=
  match rl with
  | c :: rl' =>
      if isLetter c then lettersThenDot (S n) rl'
      else bool_decide (c = dot) && (2 <=? n)%nat
  | [] => false
  end.

Definition hasSuffix (l : list ascii) : bool := lettersThenDot 0 (rev l).

(** Puts a character in front of the first piece of a split. *)
Definition consHead (c : ascii) (ws : list (list ascii)) :=
  match ws with
  | w :: ws' => (c :: w) :: ws'
  | [] => [[c]]
  end.

(** [s.split(sep)] for a separator of one character. *)
Fixpoint split (sep : ascii) (l : list ascii) : list (list ascii) :=
  match l with
  | [] => [[]]
  | c :: l' =>
      if bool_decide (c = sep) then [] :: split sep l'
      else consHead c (split sep l')
  end.

(** [s.split(/\r?\n/)] *)
Fixpoint splitLines (l : list ascii) : list (list ascii) :=
  match l with
  | [] => [[]]
  | c :: l' =>
      if bool_decide (c = lf) then [] :: splitLines l'
      else
        match l' with
        | d :: l'' =>
            if bool_decide (c = cr) && bool_decide (d = lf)
            then [] :: splitLines l''
            else consHead c (splitLines l')
        | [] => consHead c (splitLines l')
        end
  end.

(** [/%/.test(s)] *)
Definition hasPercent (l : list ascii) : bool :=
  existsb (fun c => bool_decide (c = "%"%char)) l.

(** [s.replace(/[$,%]/g, "")] *)
Definition dropMoneyChars (l : list ascii) : list ascii :=
  List.filter
    (fun c => negb (bool_decide (c = "$"%char) || bool_decide (c = comma)
                    || bool_decide (c = "%"%char))) l.

End JsString.

(** ** [Number(s)] on a string

    The decimal literals of [StringToNumber]: white space around, an
    optional sign, digits with an optional fraction, an optional exponent;
    the empty string is zero.  Hexadecimal, octal and binary literals and
    [Infinity] are not modelled: they read as [NaN]. *)

Definition digit (c : ascii) : option Z := Z.of_nat <$> Ascii.is_nat c.

(** Reads digits: their value after [acc], how many, and what follows. *)
Fixpoint readDigits (acc : Z) (n : nat) (l : list ascii) : Z * nat * list ascii :=
  match l with
  | c :: l' =>
      match digit c with
      | Some d => readDigits (10 * acc + d) (S n) l'
      | None => (acc, n, l)
      end
  | [] => (acc, n, [])
  end.

Definition readSign (l : list ascii) : bool * list ascii :=
  match l with
  | c :: l' =>
      if bool_decide (c = "-"%char) then (true, l')
      else if bool_decide (c = "+"%char) then (false, l')
      else (false, l)
  | [] => (false, [])
  end.

Definition readFraction (l : list ascii) : Z * nat * list ascii :=
  match l with
  | c :: l' => if bool_decide (c = dot) then readDigits 0 0 l' else (0%Z, 0%nat, l)
  | [] => (0%Z, 0%nat, [])
  end.

(** The exponent, when there is one: [None] when it is malformed. *)
Definition readExponent (l : list ascii) : option Z :=
  match l with
  | [] => Some 0%Z
  | c :: l' =>
      if bool_decide (c = "e"%char) || bool_decide (c = "E"%char) then
        let '(neg, l1) := readSign l' in
        let '(e, n, rest) := readDigits 0 0 l1 in
        match n, rest with
        | S _, [] => Some (if neg then - e else e)%Z
        | _, _ => None
        end
      else None
  end.

Definition toNumber (l : list ascii) : num :=
  let t := JsString.trim l in
  match t with
  | [] => of_Z 0
  | _ =>
      let '(neg, l0) := readSign t in
      let '(ip, ni, l1) := readDigits 0 0 l0 in
      let '(fp, nf, l2) := readFraction l1 in
      match (ni + nf)%nat, readExponent l2 with
      | S _, Some e =>
          let m := (inject_Z ip + inject_Z fp / inject_Z (10 ^ Z.of_nat nf))%Q in
          let v := (m * Qpower (inject_Z 10) e)%Q in
          Fin (Q2Qc (if neg then Qopp v else v))
      | _, _ => NaN
      end
  end.

(** [Number(x)] where [x] is a string or [undefined]. *)
Definition Number (x : option (list ascii)) : num :=
  match x with
  | Some l => toNumber l
  | None => NaN
  end.

(** A JavaScript string is falsy when it is empty; [undefined] is falsy. *)
Definition truthy (x : option (list ascii)) : bool :=
  match x with
  | Some (_ :: _) => true
  | _ => false
  end.

(** [parseInt(s)] in base ten: leading white space, an optional sign, then
    the longest run of digits; [None] is [NaN], when there is no digit.  The
    prefix [0x] is not modelled. *)
Definition parseInt (l : list ascii) : option Z :=
  let '(neg, l0) := readSign (dropSpaces l) in
  let '(v, n, _) := readDigits 0 0 l0 in
  match n with
  | O => None
  | S _ => Some (if neg then - v else v)%Z
  end.

(** [Math.floor(x)] *)
Definition floor (x : num) : num :=
  match x with
  | Fin q => of_Z (Qfloor q)
  | NaN => NaN
  end.

(** [x || y] on numbers: [x] is falsy when it is zero or [NaN]. *)
Definition orElse (x y : num) : num :=
  match x with
  | Fin q => if decide (q = 0) then y else x
  | NaN => y
  end.

(** [Math.max], [Math.min]: [NaN] when an operand is. *)
Definition nmax (x y : num) : num :=
  match x, y with
  | Fin a, Fin b => if decide (a ≤ b) then y else x
  | _, _ => NaN
  end.

Definition nmin (x y : num) : num :=
  match x, y with
  | Fin a, Fin b => if decide (a ≤ b) then x else y
  | _, _ => NaN
  end.

(** * Strings beyond ASCII

    A JavaScript string is a sequence of UTF-16 code units, and its case
    mappings are those of Unicode.  What the normalization of a ticker
    uses of a string is modelled a second time here, on code units, for
    the texts made of ASCII characters and of the Greek letter sigma: the
    capital sigma has two small forms, and [toLowerCase] chooses between
    them by the place of the letter in its word.  A unit that is neither
    ASCII nor a sigma is left as it is by the two case mappings below,
    which is not what JavaScript does with every such unit. *)

Module Utf16.

(** A character of the 8-bit strings as a code unit. *)
Definition ofAscii (c : ascii) : N := N_of_ascii c.

Definition ofString (s : string) : list N := map ofAscii (chars s).

Definition capitalSigma : N := 931.
Definition finalSigma : N := 962.
Definition smallSigma : N := 963.

(** White space and line terminators: what [trim] removes and the class
    [\s] matches. *)
Definition isSpace (c : N) : bool :=
  existsb (N.eqb c)
    [9; 10; 11; 12; 13; 32; 160; 5760; 8232; 8233; 8239; 8287; 12288; 65279]%N
  || ((8192 <=? c)%N && (c <=? 8202)%N).

(** The class [[a-z]] under the flag [i], without the flag [u]: no unit
    beyond ASCII is matched. *)
Definition isLetter (c : N) : bool :=
  ((65 <=? c)%N && (c <=? 90)%N) || ((97 <=? c)%N && (c <=? 122)%N).

(** The cased letters and the case-ignorable characters of Unicode among
    the units of this model: the letters of ASCII and the sigmas are
    cased; the apostrophe, the full stop, the colon, the circumflex and
    the grave accent are case-ignorable. *)
Definition isCased (c : N) : bool :=
  isLetter c || (c =? capitalSigma)%N || (c =? finalSigma)%N || (c =? smallSigma)%N.

Definition isCaseIgnorable (c : N) : bool :=
  existsb (N.eqb c) [39; 46; 58; 94; 96]%N.

(** Case-ignorable characters, as many as there are, and then a cased
    letter. *)
Fixpoint casedNext (l : list N) : bool :=
  match l with
  | c :: l' => isCased c || (isCaseIgnorable c && casedNext l')
  | [] => false
  end.

(** The condition [Final_Sigma] of Unicode at a capital sigma: a cased
    letter comes before it, and none comes after it, case-ignorable
    characters set aside; [before] holds the units before it, the nearest
    first. *)
Definition isFinalSigma (before after : list N) : bool :=
  casedNext before && negb (casedNext after).

Definition lowerUnit (c : N) : N :=
  if ((65 <=? c)%N && (c <=? 90)%N) then (c + 32)%N else c.

Definition upperUnit (c : N) : N :=
  if ((97 <=? c)%N && (c <=? 122)%N) then (c - 32)%N
  else if (c =? finalSigma)%N || (c =? smallSigma)%N then capitalSigma
  else c.

Fixpoint lowerFrom (before l : list N) : list N :=
  match l with
  | [] => []
  | c :: rest =>
      (if (c =? capitalSigma)%N
       then if isFinalSigma before rest then finalSigma else smallSigma
       else lowerUnit c)
      :: lowerFrom (c :: before) rest
  end.

(** [s.toLowerCase()], [s.toUpperCase()] *)
Definition toLowerCase (l : list N) : list N := lowerFrom [] l.
Definition toUpperCase (l : list N) : list N := map upperUnit l.

Fixpoint dropSpaces (l : list N) : list N :=
  match l with
  | c :: l' => if isSpace c then dropSpaces l' else l
  | [] => []
  end.

(** [s.trim()] *)
Definition trim (l : list N) : list N :=
  rev (dropSpaces (rev (dropSpaces l))).

(** [s.replace(/\s+/g, "")] *)
Definition removeSpaces (l : list N) : list N :=
  List.filter (fun c => negb (isSpace c)) l.

(** [s.includes(".")] *)
Definition includesDot (l : list N) : bool := existsb (N.eqb 46) l.

(** [s.replace(/\./g, "-")] *)
Definition dotsToHyphens (l : list N) : list N :=
  map (fun c => if (c =? 46)%N then 45%N else c) l.

(** [/\.[a-z]{2,}$/i.test(s)] *)
Fixpoint lettersThenDot (n : nat) (rl : list N) : bool :=
  match rl with
  | c :: rl' =>
      if isLetter c then lettersThenDot (S n) rl'
      else (c =? 46)%N && (2 <=? n)%nat
  | [] => false
  end.

Definition hasSuffix (l : list N) : bool := lettersThenDot 0 (rev l).

End Utf16.

(** * Arrays *)

(** [arr.slice(start)] for an integer [start]: a negative [start] counts
    from the end. *)
Definition slice {A : Type} (start : Z) (arr : list A) : list A :=
  let len := Z.of_nat (length arr) in
  let k := if (start <? 0)%Z then Z.max (len + start) 0 else Z.min start len in
  drop (Z.to_nat k) arr.

(** [arr.slice(-(x))] where [x] is a number holding an integer. *)
Definition sliceLast {A : Type} (x : num) (arr : list A) : list A :=
  match x with
  | Fin q => slice (- Qfloor q) arr
  | NaN => arr
  end.

(** [arr.sort(cmp)]: the sort is stable; [before a b] says that [cmp(a, b)]
    is negative.  An insertion sort from the right keeps equal elements in
    their order. *)
Section Sort.
Context {A : Type} (before : A -> A -> bool).

Fixpoint insertSorted (x : A) (l : list A) : list A :=
  match l with
  | [] => [x]
  | y :: l' => if before y x then y :: insertSorted x l' else x :: l
  end.

Definition sort (l : list A) : list A := foldr insertSorted [] l.
End Sort.

(** * Outcomes *)

(** A computation that returns or throws [new Error(message)]. *)
Inductive outcome (A : Type) : Type :=
| Ok (a : A)
| Throw (message : string).
Arguments Ok {A} a.
Arguments Throw {A} message.

Global Instance outcome_eq_dec {A} `{EqDecision A} : EqDecision (outcome A).
Proof. solve_decision. Defined.

(** * Values read back from JSON *)

(** The primitive values of JavaScript. *)
Inductive prim : Type :=
| PUndefined
| PNull
| PBool (b : bool)
| PNum (x : num)
| PStr (s : string).

Global Instance prim_eq_dec : EqDecision prim.
Proof. solve_decision. Defined.

(** What [JSON.parse] returns in this program: a primitive, or an object
    whose fields hold primitives.  An array has none of the fields the
    code reads and behaves here as an object without them; fields that
    hold arrays or objects are outside the model. *)
Inductive value : Type :=
| Prim (p : prim)
| Obj (fields : gmap string prim).

Global Instance value_eq_dec : EqDecision value.
Proof. solve_decision. Defined.

Definition null : value := Prim PNull.

(** A string held by [localStorage], read through [JSON.parse]: the value
    it denotes, or a text that is not JSON (the empty string is one). *)
Inductive item : Type :=
| Garbage
| Json (v : value).

Global Instance item_eq_dec : EqDecision item.
Proof. solve_decision. Defined.

(** [JSON.parse(raw)] *)
Definition JSON_parse (raw : item) : outcome value :=
  match raw with
  | Json v => Ok v
  | Garbage => Throw "SyntaxError"
  end.

(** A number inside [JSON.stringify]: [NaN] is written as [null].  So is
    an infinity, which [num] has not (see [Binary64.jsonNumber] below). *)
Definition jsonNumber (x : num) : prim :=
  match x with
  | Fin _ => PNum x
  | NaN => PNull
  end.

(** [v.name]: reading a property of [null] throws. *)
Definition getProp (v : value) (name : string) : outcome prim :=
  match v with
  | Obj fields => Ok (default PUndefined (fields !! name))
  | Prim PNull | Prim PUndefined => Throw "TypeError"
  | Prim _ => Ok PUndefined
  end.

(** [ToNumber] on a primitive. *)
Definition primToNumber (p : prim) : num :=
  match p with
  | PUndefined => NaN
  | PNull => of_Z 0
  | PBool b => of_Z (if b then 1 else 0)
  | PNum x => x
  | PStr s => toNumber (chars s)
  end.

(** Whether a value is truthy: [if (v)]. *)
Definition isTruthy (v : value) : bool :=
  match v with
  | Obj _ => true
  | Prim PUndefined | Prim PNull => false
  | Prim (PBool b) => b
  | Prim (PNum (Fin q)) => negb (bool_decide (q = 0))
  | Prim (PNum NaN) => false
  | Prim (PStr s) => negb (bool_decide (s = ""))
  end.

(** [x.toFixed(2)] read back as a number: the nearest multiple of one
    hundredth, a tie going away from zero. *)
Definition toFixed2 (q : Qc) : Qc :=
  let m := Qc_of_Z (Qfloor (Qabs q * 100 + (1 # 2))%Q) / Qc_of_Z 100 in
  if decide (q < 0) then - m else m.

(** * The infinities

    [num] has no infinity.  Where one matters, in the beta that the second
    script writes to its cache, a number is an [extended]: a [num] or an
    infinity. *)
Inductive extended : Type :=
| Finite (x : num)
| Infinity (negative : bool).

Global Instance extended_eq_dec : EqDecision extended.
Proof. solve_decision. Defined.

Module Binary64.

(** The largest number is [2^1024 - 2^971].  A real from [2^1024 - 2^970]
    on, half way to [2^1024] or beyond, rounds to [Infinity]; so does its
    opposite to [-Infinity]. *)
Definition overflowFrom : Qc := Qc_of_Z (2 ^ 1024 - 2 ^ 970).

(** The result of an operation whose exact value is [x], as far as
    overflow goes: rounding is not modelled. *)
Definition overflow (x : num) : extended :=
  match x with
  | Fin q =>
      if decide (overflowFrom ≤ q) then Infinity false
      else if decide (q ≤ - overflowFrom) then Infinity true
      else Finite x
  | NaN => Finite NaN
  end.

(** [isNaN] and [Number.isFinite]: an infinity is neither [NaN] nor
    finite. *)
Definition isNaN (x : extended) : bool :=
  match x with
  | Finite x => isNaN x
  | Infinity _ => false
  end.

Definition isFinite (x : extended) : bool :=
  match x with
  | Finite x => isFinite x
  | Infinity _ => false
  end.

(** A number inside [JSON.stringify]: [NaN] and the infinities are written
    as [null]. *)
Definition jsonNumber (x : extended) : prim :=
  match x with
  | Finite x => jsonNumber x
  | Infinity _ => PNull
  end.

End Binary64.

(** * Rows *)

(** [{ date, close }] *)
Record priceRow : Type := PriceRow { p_date : string; close : num }.

(** [{ date, r }] *)
Record returnRow : Type := ReturnRow { date : string; r : num }.

Global Instance priceRow_eq_dec : EqDecision priceRow.
Proof. solve_decision. Defined.

Global Instance returnRow_eq_dec : EqDecision returnRow.
Proof. solve_decision. Defined.

(** [{ asset: xs, mkt: ys }] *)
Record aligned : Type := Aligned { asset : list num; mkt : list num }.

Global Instance aligned_eq_dec : EqDecision aligned.
Proof. solve_decision. Defined.

(** [{ ticker, weight }] *)
Record holding : Type := Holding { h_ticker : string; h_weight : num }.

Global Instance holding_eq_dec : EqDecision holding.
Proof. solve_decision. Defined.

(** [new Map(mkt.map(x => [x.date, x.r]))]: entries are set from left to
    right, so the last row of a date is the one the map keeps. *)
Definition mktMap (mktRets : list returnRow) : gmap string num :=
  fold_left (fun m x => <[date x := r x]> m) mktRets ∅.

(** * Formatting and matching *)

(** [x.toFixed(d)] on a finite number: the nearest multiple of [10^-d], a
    tie going away from zero, written with [d] decimals; a negative number
    keeps its sign even when it rounds to zero.  The exponent notation that
    JavaScript switches to from [10^21] on is outside the model. *)
Definition scaledRound (d : nat) (q : Qc) : N :=
  Z.to_N (Qfloor (Qabs q * inject_Z (10 ^ Z.of_nat d) + (1 # 2))%Q).

Definition zeroPad (width : nat) (l : list ascii) : list ascii :=
  replicate (width - length l) "0"%char ++ l.

Definition toFixed (d : nat) (q : Qc) : list ascii :=
  let n := scaledRound d q in
  let whole := chars (pretty (n / 10 ^ N.of_nat d)%N) in
  let frac := zeroPad d (chars (pretty (n mod 10 ^ N.of_nat d)%N)) in
  let body := match d with O => whole | S _ => whole ++ dot :: frac end in
  if decide (q < 0) then "-"%char :: body else body.

(** [x.toFixed(d)] on any number. *)
Definition numToFixed (d : nat) (x : num) : list ascii :=
  match x with
  | Fin q => toFixed d q
  | NaN => chars "NaN"
  end.

(** [lines.join(sep)] *)
Fixpoint joinWith (sep : list ascii) (ls : list (list ascii)) : list ascii :=
  match ls with
  | [] => []
  | [l] => l
  | l :: ls' => l ++ sep ++ joinWith sep ls'
  end.

(** [s.replaceAll(c, rep)] for a pattern of one character. *)
Definition replaceAll (c : ascii) (rep : string) (l : list ascii) : list ascii :=
  flat_map (fun x => if bool_decide (x = c) then chars rep else [x]) l.

(** The classes [[A-Z]], [[a-z]] and [[0-9]]. *)
Definition isUpper (c : ascii) : bool := (65 <=? code c)%N && (code c <=? 90)%N.
Definition isLower (c : ascii) : bool := (97 <=? code c)%N && (code c <=? 122)%N.
Definition isDigit (c : ascii) : bool := (48 <=? code c)%N && (code c <=? 57)%N.

(** Whether the pattern [pat] matches at the start of [l]. *)
Fixpoint startsWith (pat l : list ascii) : bool :=
  match pat, l with
  | [], _ => true
  | p :: pat', c :: l' => bool_decide (p = c) && startsWith pat' l'
  | _ :: _, [] => false
  end.

(** Whether [p] holds of [l] from some position on: a pattern that is not
    anchored. *)
Fixpoint anywhere (p : list ascii -> bool) (l : list ascii) : bool :=
  p l || match l with
         | [] => false
         | _ :: l' => anywhere p l'
         end.

(** [/word/i.test(s)] for a word in lower case. *)
Definition mentions (word : string) (l : list ascii) : bool :=
  anywhere (startsWith (chars word)) (JsString.toLowerCase l).

(** [/first\s*second/i.test(s)] for two words in lower case. *)
Definition mentionsPair (first second : string) (l : list ascii) : bool :=
  anywhere
    (fun s => startsWith (chars first) s
              && startsWith (chars second)
                   (dropSpaces (drop (String.length first) s)))
    (JsString.toLowerCase l).

(** The first piece of [s.trim().split(" ")]. *)
Definition firstWord (l : list ascii) : list ascii :=
  hd [] (JsString.split " "%char (JsString.trim l)).

(** * The page *)

(** A table cell as the scripts read it: the text of its first link, if it
    has one, the texts of its child text nodes, its [textContent] and its
    [innerText]. *)
Record cell : Type := Cell {
  anchor : option string;
  textNodes : list string;
  textContent : string;
  innerText : string
}.

(** A table of the page: its [innerText], the [innerText] of the header
    cells that the script selects, and the [td] cells of each row of its
    body. *)
Record table : Type := Table {
  tableText : string;
  headers : list string;
  bodyRows : list (list cell)
}.

(** [headers.findIndex(p)]: [-1] when no header matches. *)
Definition headerIndex (p : list ascii -> bool) (hs : list (list ascii)) : Z :=
  match list_find (fun h => p h = true) hs with
  | Some (i, _) => Z.of_nat i
  | None => (-1)%Z
  end.

(** [tds[idx]]: [undefined] out of range. *)
Definition cellAt (tds : list cell) (idx : Z) : option cell :=
  if (idx <? 0)%Z then None else tds !! Z.to_nat idx.

(** * Version 0.1.0 *)

Module V1.

Definition DEFAULT_LOOKBACK_DAYS : num := of_Z 252.
Definition DEFAULT_MARKET : string := "spy.us".

(** [header.findIndex((h) => h.toLowerCase() === name)]: [None] stands
    for the index [-1]. *)
Definition findColumn (name : string) (header : list (list ascii)) : option nat :=
  fst <$> list_find (fun h => JsString.toLowerCase h = chars name) header.

(** The body of the loop over the data lines (lines 84-90). *)
Definition parseLine (dateIdx closeIdx : nat) (line : list ascii) : option priceRow :=
  let parts := JsString.split comma line in
  let date := parts !! dateIdx in
  let close := Number (parts !! closeIdx) in
  if negb (truthy date) || negb (isFinite close) then None
  else Some (PriceRow (str (default [] date)) close).

(** [parseStooqCsv] (lines 73-94). *)
Definition parseStooqCsv (csvText : string) : list priceRow :=
  let lines := JsString.splitLines (JsString.trim (chars csvText)) in
  if (length lines <? 3)%nat then []
  else
    let header := JsString.split comma (hd [] lines) in
    match findColumn "date" header, findColumn "close" header with
    | Some dateIdx, Some closeIdx =>
        let rows := omap (parseLine dateIdx closeIdx) (tl lines) in
        sort (fun a b => String.ltb (p_date a) (p_date b)) rows
    | _, _ => []
    end.

(** [toReturns] (lines 96-106): the loop runs [i] from [1] to
    [priceRows.length - 1] and reads the rows [i - 1] and [i]. *)
Definition toReturns (priceRows : list priceRow) : list returnRow :=
  fold_left
    (fun rets i =>
       match priceRows !! (i - 1)%nat, priceRows !! i with
       | Some row0, Some row1 =>
           let p0 := close row0 in
           let p1 := close row1 in
           if negb (isFinite p0) || negb (isFinite p1) || nle p0 (of_Z 0)
           then rets
           else rets ++ [ReturnRow (p_date row1) (p1 / p0 - of_Z 1)%num]
       | _, _ => rets
       end)
    (seq 1 (length priceRows - 1)) [].

(** [alignReturns] (lines 108-120). *)
Definition alignReturns (assetRets mktRets : list returnRow) : aligned :=
  let m := mktMap mktRets in
  fold_left
    (fun acc a =>
       match m !! date a with
       | None => acc
       | Some v => Aligned (asset acc ++ [r a]) (mkt acc ++ [v])
       end)
    assetRets (Aligned [] []).

(** [variance] (lines 122-128). *)
Definition variance (arr : list num) : num :=
  if (length arr <? 2)%nat then NaN
  else
    let mean := (sum arr / of_nat (length arr))%num in
    let v := fold_left (fun v x => (v + (x - mean) * (x - mean))%num)
               arr (of_Z 0) in
    (v / of_nat (length arr - 1))%num.

(** [covariance] (lines 130-137). *)
Definition covariance (a b : list num) : num :=
  if negb (length a =? length b)%nat || (length a <? 2)%nat then NaN
  else
    let meanA := (sum a / of_nat (length a))%num in
    let meanB := (sum b / of_nat (length b))%num in
    let c := fold_left
               (fun c i =>
                  (c + (at_index a i - meanA) * (at_index b i - meanB))%num)
               (seq 0 (length a)) (of_Z 0) in
    (c / of_nat (length a - 1))%num.

(** [betaFromReturns] (lines 139-144). *)
Definition betaFromReturns (assetR mktR : list num) : num :=
  let v := variance mktR in
  if negb (isFinite v) || nstrict_eq v (of_Z 0) then NaN
  else
    let c := covariance assetR mktR in
    (c / v)%num.

(** [normalizeToStooqSymbol] (lines 146-160). *)
Definition normalizeToStooqSymbol (rawTicker : string) : string :=
  let t := JsString.trim (chars rawTicker) in
  match t with
  | [] => ""
  | _ =>
      if JsString.hasSuffix t then str (JsString.toLowerCase t)
      else
        let t := JsString.removeSpaces t in
        if JsString.includesDot t then str (JsString.toLowerCase t)
        else str (JsString.toLowerCase t ++ chars ".us")
  end.

(** [safeNum] (lines 162-165); [None] is [undefined], which [String]
    turns into a text that is no number. *)
Definition safeNum (x : option (list ascii)) : num :=
  let n := Number (JsString.trim ∘ JsString.dropMoneyChars <$> x) in
  if isFinite n then n else NaN.

(** The body of the loop of [parseHoldings] (lines 409-419). *)
Definition parseHolding (line : list ascii) : option holding :=
  let parts := JsString.trim <$> JsString.split comma line in
  if (length parts <? 2)%nat then None
  else
    let ticker := default [] (parts !! 0%nat) in
    let rawW := parts !! 1%nat in
    let w := safeNum rawW in
    if negb (isFinite w) then None
    else
      let w := if JsString.hasPercent (default [] rawW)
               then (w / of_Z 100)%num else w in
      if negb (ngt w (of_Z 0)) then None
      else Some (Holding (str ticker) w).

(** [parseHoldings] (lines 400-421). *)
Definition parseHoldings (text : string) : list holding :=
  let lines :=
    List.filter (fun l => truthy (Some l))
      (JsString.trim <$> JsString.splitLines (chars text)) in
  omap parseHolding lines.

(** One row of the results: [{ ticker, stooq, weight, beta, n }]. *)
Record result : Type :=
  Result { ticker : string; stooq : string; weight : num; beta : num; n : nat }.

Global Instance result_eq_dec : EqDecision result.
Proof. solve_decision. Defined.

(** What the click leaves on the panel: the message that no holding was
    parsed, the message of a caught error, or the table with the
    portfolio beta. *)
Inductive shown : Type :=
| NoHoldingsParsed
| ErrorShown (message : string)
| Rendered (results : list result) (portfolioBeta : num) (marketSym : string).

Global Instance shown_eq_dec : EqDecision shown.
Proof. solve_decision. Defined.

(** The weights normalized to sum to one (lines 352-355). *)
Definition normalizeWeights (holdings : list holding) : outcome (list holding) :=
  let wSum := fold_left (fun s h => (s + h_weight h)%num) holdings (of_Z 0) in
  if negb (ngt wSum (of_Z 0)) then Throw "Weights sum to 0."
  else Ok ((fun h => Holding (h_ticker h) (h_weight h / wSum)%num) <$> holdings).

(** The beta and the sample size that the loop records for a holding
    (lines 377 and 384): [beta] and [n]. *)
Definition estimate (aligned : aligned) : num * nat :=
  (betaFromReturns (asset aligned) (mkt aligned),
   Nat.min (length (asset aligned)) (length (mkt aligned))).

(** The portfolio beta (lines 388-392). *)
Definition portfolioBeta (results : list result) : num :=
  fold_left
    (fun s r =>
       let b := if isFinite (beta r) then beta r else of_Z 0 in
       (s + weight r * b)%num)
    results (of_Z 0).

(** [results.sort((a, b) => b.weight - a.weight)] of [renderResults]. *)
Definition byWeight (a b : result) : bool := ngt (weight a) (weight b).

Section Handler.

(** The transport: what [gmFetchText(STOOQ_DAILY_URL(symbol))] resolves
    to, or the error it rejects with.  The answer depends on the symbol
    alone: a symbol requested twice during one click is answered the same
    way both times. *)
Variable http : string -> outcome string.

(** [fetchPrices] (lines 446-455).  The pause of one second before the
    rows are returned has no part in the result. *)
Definition fetchPrices (symbol : string) : outcome (list priceRow) :=
  match http symbol with
  | Throw e => Throw e
  | Ok txt =>
      let rows := parseStooqCsv txt in
      match rows with
      | [] => Throw ("No price data from Stooq for " +:+ symbol
                     +:+ ". Check symbol format (e.g., aapl.us).")
      | _ => Ok rows
      end
  end.

(** The body of the loop over the holdings (lines 366-386): [None] is
    [continue]. *)
Definition holdingResult (lookback : num) (marketRets : list returnRow)
    (h : holding) : outcome (option result) :=
  let sym := normalizeToStooqSymbol (h_ticker h) in
  if decide (sym = "") then Ok None
  else
    match fetchPrices sym with
    | Throw e => Throw e
    | Ok assetPrices =>
        let assetSlice := sliceLast (lookback + of_Z 5)%num assetPrices in
        let assetRets := toReturns assetSlice in
        let aligned := alignReturns assetRets marketRets in
        Ok (Some (Result (h_ticker h) sym (h_weight h)
                    (fst (estimate aligned)) (snd (estimate aligned))))
    end.

(** The loop: the first exception leaves it. *)
Fixpoint holdingsLoop (lookback : num) (marketRets : list returnRow)
    (holdings : list holding) (results : list result) : outcome (list result) :=
  match holdings with
  | [] => Ok results
  | h :: rest =>
      match holdingResult lookback marketRets h with
      | Throw e => Throw e
      | Ok None => holdingsLoop lookback marketRets rest results
      | Ok (Some res) => holdingsLoop lookback marketRets rest (results ++ [res])
      end
  end.

(** The part of the handler that runs under [try] (lines 342-394). *)
Definition calculate (marketInput lookbackInput holdingsInput : string)
  : outcome shown :=
  let marketSym :=
    let m := normalizeToStooqSymbol marketInput in
    if decide (m = "") then DEFAULT_MARKET else m in
  let lookback :=
    nmax (of_Z 60)
      (nmin (of_Z 1500)
         (floor (orElse (safeNum (Some (chars lookbackInput)))
                   DEFAULT_LOOKBACK_DAYS))) in
  let holdings := parseHoldings holdingsInput in
  match holdings with
  | [] => Ok NoHoldingsParsed
  | _ =>
      match normalizeWeights holdings with
      | Throw e => Throw e
      | Ok holdings =>
          match fetchPrices marketSym with
          | Throw e => Throw e
          | Ok marketPrices =>
              let marketSlice := sliceLast (lookback + of_Z 5)%num marketPrices in
              let marketRets := toReturns marketSlice in
              match holdingsLoop lookback marketRets holdings [] with
              | Throw e => Throw e
              | Ok results =>
                  Ok (Rendered (sort byWeight results)
                        (portfolioBeta results) marketSym)
              end
          end
      end
  end.

(** The click handler of [mb_calc] (lines 337-398): what [catch] turns
    an exception into. *)
Definition mb_calc (marketInput lookbackInput holdingsInput : string) : shown :=
  match calculate marketInput lookbackInput holdingsInput with
  | Ok s => s
  | Throw e => ErrorShown e
  end.

End Handler.

(** ** The lookback *)

(** The lookback of the click handler (line 343). *)
Definition lookback (lookbackInput : string) : num :=
  nmax (of_Z 60)
    (nmin (of_Z 1500)
       (floor (orElse (safeNum (Some (chars lookbackInput)))
                 DEFAULT_LOOKBACK_DAYS))).

(** ** The results table *)

(** [escapeHtml] (lines 513-520). *)
Definition escapeHtml (s : list ascii) : list ascii :=
  replaceAll "'"%char "&#039;"
    (replaceAll "034"%char "&quot;"
       (replaceAll ">"%char "&gt;"
          (replaceAll "<"%char "&lt;"
             (replaceAll "&"%char "&amp;" s)))).

(** The test of [bad] (line 458), which is also the test that fades a row
    (line 506). *)
Definition unreliable (res : result) : bool :=
  negb (isFinite (beta res)) || (n res <? 60)%nat.

(** The test of [good] (line 459). *)
Definition reliable (res : result) : bool :=
  isFinite (beta res) && (60 <=? n res)%nat.

(** One row of the table: the cells for the ticker, the weight, the beta,
    the product of weight and beta, and the sample size; [None] is the
    dash; [faded] says that the row is dimmed. *)
Record tableRow : Type := TableRow {
  cellTicker : list ascii;
  cellWeight : list ascii;
  cellBeta : option (list ascii);
  cellProduct : option (list ascii);
  cellN : nat;
  faded : bool
}.

(** The panel after [renderResults]: the market and the portfolio beta of
    the status lines, the number of the warning line when there is one,
    the rows of the table and the portfolio beta of its foot. *)
Record rendering : Type := Rendering {
  statusMarket : string;
  statusBeta : list ascii;
  warning : option nat;
  rows : list tableRow;
  footBeta : list ascii
}.

(** [Number.isFinite(x) ? x.toFixed(3) : alt] *)
Definition fixed3 (x : num) : option (list ascii) :=
  match x with
  | Fin q => Some (toFixed 3 q)
  | NaN => None
  end.

(** The body of the loop over the sorted results (lines 496-508). *)
Definition renderRow (res : result) : tableRow :=
  let wb := if isFinite (beta res) then (weight res * beta res)%num else NaN in
  TableRow (escapeHtml (chars (ticker res)))
    (numToFixed 2 (weight res * of_Z 100)%num ++ chars "%")
    (fixed3 (beta res))
    (fixed3 wb)
    (n res)
    (unreliable res).

(** [renderResults] (lines 457-521). *)
Definition renderResults (results : list result) (portfolioBeta : num)
    (marketSym : string) : rendering :=
  let bad := List.filter unreliable results in
  let shownBeta := default (chars "NaN") (fixed3 portfolioBeta) in
  Rendering marketSym shownBeta
    (match bad with [] => None | _ => Some (length bad) end)
    (renderRow <$> sort byWeight results)
    shownBeta.

(** ** Scraping the page *)

(** The first match of [/[A-Z]{1,5}(?:\.[A-Z])?/]: from the first capital
    letter on, up to five capital letters, and then a dot and a capital
    letter when they follow. *)
Fixpoint capitals (l : list ascii) : list ascii :=
  match l with
  | c :: l' => if isUpper c then c :: capitals l' else []
  | [] => []
  end.

Fixpoint fromCapital (l : list ascii) : list ascii :=
  match l with
  | c :: l' => if isUpper c then l else fromCapital l'
  | [] => []
  end.

Definition tickerLike (l : list ascii) : option (list ascii) :=
  match fromCapital l with
  | [] => None
  | s =>
      let letters := take 5 (capitals s) in
      match drop (length letters) s with
      | d :: u :: _ =>
          if bool_decide (d = dot) && isUpper u then Some (letters ++ [d; u])
          else Some letters
      | _ => Some letters
      end
  end.

(** [extractTickerFromCell] (lines 423-444). *)
Definition extractTickerFromCell (td : option cell) : list ascii :=
  match td with
  | None => []
  | Some td =>
      let fromNodes :=
        match List.filter (fun t => truthy (Some (chars t))) (textNodes td) with
        | t :: _ => chars t
        | [] => default [] (tickerLike (JsString.trim (chars (textContent td))))
        end in
      match anchor td with
      | Some a => if truthy (Some (chars a)) then firstWord (chars a) else fromNodes
      | None => fromNodes
      end
  end.

(** A row of [parsed]: [{ ticker, weight, mv }]. *)
Record parsedRow : Type := ParsedRow {
  p_ticker : list ascii;
  p_weight : num;
  p_mv : num
}.

Global Instance parsedRow_eq_dec : EqDecision parsedRow.
Proof. solve_decision. Defined.

(** [/symbol|ticker/i], [/weight|%|allocation/i] and
    [/market\s*value|value/i]. *)
Definition symbolLike (h : list ascii) : bool :=
  mentions "symbol" h || mentions "ticker" h.

Definition weightLike (h : list ascii) : bool :=
  mentions "weight" h || mentions "%" h || mentions "allocation" h.

Definition valueLike (h : list ascii) : bool :=
  mentionsPair "market" "value" h || mentions "value" h.

(** [(td?.innerText || "").trim()] *)
Definition cellText (td : option cell) : list ascii :=
  JsString.trim (from_option (fun td => chars (innerText td)) [] td).

(** The body of the loop over the rows (lines 285-313), on the pair of
    [parsed] and [totalMV]. *)
Definition scrapeRow (symIdx weightIdx mvIdx : Z) (acc : list parsedRow * num)
    (tds : list cell) : list parsedRow * num :=
  if (Z.of_nat (length tds) <? Z.max (Z.max symIdx weightIdx) mvIdx + 1)%Z then acc
  else
    let ticker := extractTickerFromCell (cellAt tds symIdx) in
    if negb (truthy (Some ticker)) || existsb (fun c => isLower c || isDigit c) ticker
    then acc
    else
      let w :=
        if (weightIdx =? -1)%Z then NaN
        else
          let rawW := cellText (cellAt tds weightIdx) in
          let w := safeNum (Some rawW) in
          if isFinite w && JsString.hasPercent rawW then (w / of_Z 100)%num else w in
      let mv :=
        if negb (isFinite w) && negb (mvIdx =? -1)%Z
        then safeNum (Some (cellText (cellAt tds mvIdx)))
        else NaN in
      let totalMV := if isFinite mv then (snd acc + mv)%num else snd acc in
      (fst acc ++ [ParsedRow ticker w mv], totalMV).

(** The weights that the market values give (lines 316-320). *)
Definition fillWeights (parsed : list parsedRow) (totalMV : num) : list parsedRow :=
  if existsb (fun x => isFinite (p_mv x)) parsed && ngt totalMV (of_Z 0) then
    (fun p =>
       if negb (isFinite (p_weight p)) && isFinite (p_mv p)
       then ParsedRow (p_ticker p) (p_mv p / totalMV)%num (p_mv p)
       else p) <$> parsed
  else parsed.

(** The rows that one table gives (lines 265-324): [None] is [continue]. *)
Definition scrapeTable (t : table) : option (list parsedRow) :=
  if negb (symbolLike (chars (tableText t))) then None
  else
    let hs := (fun th => JsString.trim (chars th)) <$> headers t in
    if negb (existsb symbolLike hs) then None
    else if (length (bodyRows t) <? 2)%nat then None
    else
      let symIdx := headerIndex symbolLike hs in
      let weightIdx := headerIndex weightLike hs in
      let mvIdx := headerIndex valueLike hs in
      let '(parsed, totalMV) :=
        fold_left (scrapeRow symIdx weightIdx mvIdx) (bodyRows t) ([], of_Z 0) in
      let cleaned :=
        List.filter
          (fun x => truthy (Some (p_ticker x)) && isFinite (p_weight x)
                    && ngt (p_weight x) (of_Z 0))
          (fillWeights parsed totalMV) in
      match cleaned with
      | [] => None
      | _ => Some cleaned
      end.

(** The table that is kept (line 327): the first of those with the most
    rows. *)
Definition better (best : option (list parsedRow)) (t : table) : option (list parsedRow) :=
  match scrapeTable t with
  | None => best
  | Some cleaned =>
      match best with
      | None => Some cleaned
      | Some b => if (length b <? length cleaned)%nat then Some cleaned else best
      end
  end.

(** A scraped holding: [{ ticker, weight }], the weight a percentage in
    words. *)
Record scrapedHolding : Type := ScrapedHolding {
  s_ticker : list ascii;
  s_weight : list ascii
}.

(** [scrapeHoldingsFromPage] (lines 257-334), on the tables of the
    document. *)
Definition scrapeHoldingsFromPage (tables : list table) : list scrapedHolding :=
  (fun x => ScrapedHolding (p_ticker x)
              (numToFixed 2 (p_weight x * of_Z 100)%num ++ chars "%"))
  <$> default [] (fold_left better tables None).

(** What the click on [mb_scrape] leaves (lines 243-255): the message that
    nothing was found, or the text of the holdings field and the count of
    the status line. *)
Inductive scraped : Type :=
| NothingFound
| Found (holdingsText : list ascii) (count : nat).

Definition holdingLine (h : scrapedHolding) : list ascii :=
  s_ticker h ++ chars ", " ++ s_weight h.

Definition mb_scrape (tables : list table) : scraped :=
  match scrapeHoldingsFromPage tables with
  | [] => NothingFound
  | found => Found (joinWith [lf] (holdingLine <$> found)) (length found)
  end.

(** ** A ticker beyond ASCII *)

Module Wide.

(** [normalizeToStooqSymbol] (lines 146-160) on code units. *)
Definition normalizeToStooqSymbol (rawTicker : list N) : list N :=
  let t := Utf16.trim rawTicker in
  match t with
  | [] => []
  | _ =>
      if Utf16.hasSuffix t then Utf16.toLowerCase t
      else
        let t := Utf16.removeSpaces t in
        if Utf16.includesDot t then Utf16.toLowerCase t
        else Utf16.toLowerCase t ++ Utf16.ofString ".us"
  end.

End Wide.

End V1.

(** * Version 0.2.0 *)

Module V2.

Definition DEFAULT_LOOKBACK_DAYS : Z := 252.
Definition DEFAULT_MARKET_STOOQ : string := "spy.us".
Definition DEFAULT_MARKET_YAHOO : string := "SPY".
Definition CACHE_PREFIX : string := "mb_beta_cache_v2_".
Definition CACHE_DURATION_MS : num := of_Z (24 * 60 * 60 * 1000).

(** ** The browser

    [storage] is [localStorage]; [ticks] counts the calls of [Date.now()],
    so that the environment may answer each call with a time of its own. *)
Record world : Type := World { storage : gmap string item; ticks : nat }.

(** The collaborators: the transport of the Stooq request by symbol, the
    outcome of the Yahoo adapter by symbol (its JSON is not modelled), the
    clock, and whether [setItem] refuses a write for lack of room. *)
Record environment : Type := Environment {
  http : string -> outcome string;
  yahoo : string -> outcome (list priceRow);
  time : nat -> Z;
  full : gmap string item -> string -> item -> bool
}.

(** Computations over the browser that return or throw. *)
Definition M (A : Type) : Type := world -> outcome A * world.

Definition ret {A} (a : A) : M A := fun w => (Ok a, w).
Definition throw {A} (e : string) : M A := fun w => (Throw e, w).
Definition lift {A} (o : outcome A) : M A := fun w => (o, w).

Definition bind {A B} (m : M A) (k : A -> M B) : M B :=
  fun w =>
    match m w with
    | (Ok a, w') => k a w'
    | (Throw e, w') => (Throw e, w')
    end.

(** [try { m } catch (e) { handler }] *)
Definition tryCatch {A} (m : M A) (handler : string -> M A) : M A :=
  fun w =>
    match m w with
    | (Ok a, w') => (Ok a, w')
    | (Throw e, w') => handler e w'
    end.

Notation "'let*' x ':=' m 'in' k" := (bind m (fun x => k))
  (at level 10, x pattern, m at level 100, k at level 200).

Section Browser.

Variable env : environment.

(** [Date.now()] *)
Definition Date_now : M Z :=
  fun w => (Ok (time env (ticks w)), World (storage w) (S (ticks w))).

(** [localStorage.getItem(key)]: [None] is [null]. *)
Definition getItem (key : string) : M (option item) :=
  fun w => (Ok (storage w !! key), w).

(** [localStorage.setItem(key, v)]: throws when the quota is exceeded. *)
Definition setItem (key : string) (v : item) : M unit :=
  fun w =>
    if full env (storage w) key v then (Throw "QuotaExceededError", w)
    else (Ok tt, World (<[key := v]> (storage w)) (ticks w)).

(** [localStorage.removeItem(key)] *)
Definition removeItem (key : string) : M unit :=
  fun w => (Ok tt, World (delete key (storage w)) (ticks w)).

(** The key of both cache functions (lines 554 and 568). *)
Definition cacheKey (source symbol market : string) (lookback : Z) : string :=
  CACHE_PREFIX +:+ source +:+ "_" +:+ symbol +:+ "_" +:+ market
    +:+ "_" +:+ pretty lookback.

(** [getCachedBeta] (lines 553-565).  An empty stored string is falsy;
    it is [Garbage] here, and [catch] gives the same [null]. *)
Definition getCachedBeta (source symbol market : string) (lookback : Z) : M value :=
  let key := cacheKey source symbol market lookback in
  tryCatch
    (let* raw := getItem key in
     match raw with
     | None => ret null
     | Some raw =>
         let* data := lift (JSON_parse raw) in
         let* now := Date_now in
         let* timestamp := lift (getProp data "timestamp") in
         if ngt (of_Z now - primToNumber timestamp)%num CACHE_DURATION_MS
         then let* _ := removeItem key in ret null
         else ret data
     end)
    (fun e => ret null).

(** [JSON.stringify({ beta, n, timestamp })] *)
Definition entry (beta : num) (n : nat) (timestamp : Z) : item :=
  Json (Obj (<["beta" := jsonNumber beta]>
               (<["n" := PNum (of_nat n)]>
                  (<["timestamp" := PNum (of_Z timestamp)]> ∅)))).

(** [setCachedBeta] (lines 567-572). *)
Definition setCachedBeta (source symbol market : string) (lookback : Z)
    (beta : num) (n : nat) : M unit :=
  let key := cacheKey source symbol market lookback in
  tryCatch
    (let* now := Date_now in
     setItem key (entry beta n now))
    (fun e => ret tt).

(** [header.findIndex(h => h.toLowerCase() === name)] *)
Definition findColumn (name : string) (header : list (list ascii)) : option nat :=
  fst <$> list_find (fun h => JsString.toLowerCase h = chars name) header.

(** [parts[idx]], where the index [-1] is [None]. *)
Definition part (parts : list (list ascii)) (idx : option nat) : option (list ascii) :=
  idx ≫= fun i => parts !! i.

(** The body of the loop over the data lines (lines 595-598). *)
Definition parseLine (dateIdx closeIdx : option nat) (line : list ascii)
  : option priceRow :=
  let parts := JsString.split comma line in
  if truthy (part parts dateIdx) && negb (isNaN (Number (part parts closeIdx)))
  then Some (PriceRow (str (default [] (part parts dateIdx)))
               (Number (part parts closeIdx)))
  else None.

(** [fetchPricesStooq] (lines 587-600).  The comparison function of
    [sort] answers [1] for equal dates; rows of one date keep their
    order here. *)
Definition fetchPricesStooq (symbol : string) : outcome (list priceRow) :=
  match http env symbol with
  | Throw e => Throw e
  | Ok txt =>
      let lines := JsString.splitLines (JsString.trim (chars txt)) in
      if (length lines <? 3)%nat then Throw "No data"
      else
        let header := JsString.split comma (hd [] lines) in
        let dateIdx := findColumn "date" header in
        let closeIdx := findColumn "close" header in
        let rows := omap (parseLine dateIdx closeIdx) (tl lines) in
        Ok (sort (fun a b => String.ltb (p_date a) (p_date b)) rows)
  end.

(** [fetchPricesYahoo] (lines 602-616): its outcome, rows or an
    exception, is the environment's. *)
Definition fetchPricesYahoo (symbol : string) : outcome (list priceRow) :=
  yahoo env symbol.

End Browser.

(** [toReturns] (lines 619-626). *)
Definition toReturns (rows : list priceRow) : list returnRow :=
  fold_left
    (fun rets i =>
       match rows !! (i - 1)%nat, rows !! i with
       | Some row0, Some row1 =>
           let p0 := close row0 in
           let p1 := close row1 in
           if ngt p0 (of_Z 0) && ngt p1 (of_Z 0)
           then rets ++ [ReturnRow (p_date row1) (p1 / p0 - of_Z 1)%num]
           else rets
       | _, _ => rets
       end)
    (seq 1 (length rows - 1)) [].

(** [alignReturns] (lines 628-636). *)
Definition alignReturns (asset_ mkt_ : list returnRow) : aligned :=
  let m := mktMap mkt_ in
  fold_left
    (fun acc a =>
       match m !! date a with
       | Some v => Aligned (asset acc ++ [r a]) (mkt acc ++ [v])
       | None => acc
       end)
    asset_ (Aligned [] []).

(** [calculateBeta] (lines 638-649). *)
Definition calculateBeta (asset_ mkt_ : list num) : num :=
  let n := length asset_ in
  if (n <? 20)%nat then NaN
  else
    let meanA := (sum asset_ / of_nat n)%num in
    let meanM := (sum mkt_ / of_nat n)%num in
    let cv :=
      fold_left
        (fun (acc : num * num) i =>
           ((fst acc + (at_index asset_ i - meanA) * (at_index mkt_ i - meanM))%num,
            (snd acc + (at_index mkt_ i - meanM) * (at_index mkt_ i - meanM))%num))
        (seq 0 n) (of_Z 0, of_Z 0) in
    if nstrict_eq (snd cv) (of_Z 0) then NaN else (fst cv / snd cv)%num.

(** [normalizeTicker] (lines 651-661). *)
Definition normalizeTicker (raw source : string) : string :=
  let t := JsString.toUpperCase (JsString.trim (chars raw)) in
  match t with
  | [] => ""
  | _ =>
      if decide (source = "stooq") then
        if JsString.hasSuffix t then str (JsString.toLowerCase t)
        else
          let t := JsString.removeSpaces t in
          if JsString.includesDot t then str (JsString.toLowerCase t)
          else str (JsString.toLowerCase t ++ chars ".us")
      else str (JsString.dotsToHyphens t)
  end.

(** [safeNum] (lines 663-666). *)
Definition safeNum (x : option (list ascii)) : num :=
  let n := Number (JsString.trim ∘ JsString.dropMoneyChars <$> x) in
  if isFinite n then n else NaN.

(** The body of [lines.forEach] (lines 877-882); a line without a comma
    leaves [wRaw] undefined. *)
Definition parseHolding (line : list ascii) : option holding :=
  let parts := JsString.trim <$> JsString.split comma line in
  let t := parts !! 0%nat in
  let wRaw := parts !! 1%nat in
  let w := safeNum wRaw in
  let w := if from_option JsString.hasPercent false wRaw
           then (w / of_Z 100)%num else w in
  if truthy t && ngt w (of_Z 0) then Some (Holding (str (default [] t)) w)
  else None.

(** The holdings of the text area (lines 875-882). *)
Definition parseHoldings (text : string) : list holding :=
  let lines :=
    List.filter (fun x => truthy (Some (JsString.trim x)))
      (JsString.split lf (chars text)) in
  omap parseHolding lines.

(** The weights normalized (lines 884-886). *)
Definition normalizeWeights (holdings : list holding) : outcome (list holding) :=
  match holdings with
  | [] => Throw "No holdings."
  | _ =>
      let wSum := fold_left (fun s h => (s + h_weight h)%num) holdings (of_Z 0) in
      Ok ((fun h => Holding (h_ticker h) (h_weight h / wSum)%num) <$> holdings)
  end.

(** The beta and the sample size of a computed holding (lines 910-912):
    [beta] and [asset.length]. *)
Definition estimate (al : aligned) : num * nat :=
  (calculateBeta (asset al) (mkt al), length (asset al)).

(** One entry of [results]: [{ ...h, beta, n, cached }] or
    [{ ...h, beta: NaN, n: 0, error: true }].  [beta] and [n] hold what
    the cache held on a hit; a field that an entry lacks is [false]. *)
Record result : Type := Result {
  ticker : string;
  weight : num;
  beta : prim;
  n : prim;
  cached : bool;
  error : bool
}.

Global Instance result_eq_dec : EqDecision result.
Proof. solve_decision. Defined.

(** [cached.beta], [cached.n]: the cached value is truthy, so the read
    does not throw. *)
Definition field (v : value) (name : string) : prim :=
  match getProp v name with
  | Ok p => p
  | Throw _ => PUndefined
  end.

(** ** The table

    One row of the table as [recalc] reads it: the weight of [data-w] and
    the number in the beta field. *)
Record row : Type := Row { w : num; b : num }.

Global Instance row_eq_dec : EqDecision row.
Proof. solve_decision. Defined.

(** The number that [parseFloat] reads in the beta field as [renderTable]
    fills it (line 952): [isNaN(r.beta) ? '' : r.beta.toFixed(2)].  Only a
    number has [toFixed]. *)
Definition betaField (beta : prim) : outcome num :=
  if isNaN (primToNumber beta) then Ok NaN
  else
    match beta with
    | PNum (Fin q) => Ok (Fin (toFixed2 q))
    | _ => Throw "TypeError"
    end.

Definition renderRow (res : result) : outcome row :=
  match betaField (beta res) with
  | Ok b => Ok (Row (weight res) b)
  | Throw e => Throw e
  end.

Fixpoint renderRows (results : list result) : outcome (list row) :=
  match results with
  | [] => Ok []
  | res :: rest =>
      match renderRow res, renderRows rest with
      | Ok x, Ok xs => Ok (x :: xs)
      | Throw e, _ => Throw e
      | _, Throw e => Throw e
      end
  end.

(** [results.sort((a, b) => b.weight - a.weight)] *)
Definition byWeight (x y : result) : bool := ngt (weight x) (weight y).

(** [recalc] (lines 958-967): the pair of [sum] and [wTotal]. *)
Definition recalc (rows : list row) : num * num :=
  fold_left
    (fun (acc : num * num) tr =>
       if negb (isNaN (b tr))
       then ((fst acc + w tr * b tr)%num, (snd acc + w tr)%num)
       else acc)
    rows (of_Z 0, of_Z 0).

(** The cell [mb_total]: [wTotal > 0 ? sum.toFixed(3) : "—"], as the
    number that is formatted; [None] is the dash. *)
Definition total (rows : list row) : option num :=
  let '(sum, wTotal) := recalc rows in
  if ngt wTotal (of_Z 0) then Some sum else None.

(** [renderTable] (lines 922-969), up to the first [recalc]. *)
Definition renderTable (results : list result) : outcome (list row * option num) :=
  match renderRows (sort byWeight results) with
  | Ok rows => Ok (rows, total rows)
  | Throw e => Throw e
  end.

(** What the click leaves on the panel. *)
Inductive shown : Type :=
| ErrorShown (message : string)
| Done (results : list result) (rows : list row) (mb_total : option num).

Global Instance shown_eq_dec : EqDecision shown.
Proof. solve_decision. Defined.

Section Handler.

Variable env : environment.

Definition fetchPrices (source symbol : string) : outcome (list priceRow) :=
  if decide (source = "stooq") then fetchPricesStooq env symbol
  else fetchPricesYahoo env symbol.

(** [alignReturns(assetRets, marketRets)] where [marketRets] may still
    be [null]: [mkt.map] then throws. *)
Definition alignWith (assetRets : list returnRow)
    (marketRets : option (list returnRow)) : outcome aligned :=
  match marketRets with
  | Some m => Ok (alignReturns assetRets m)
  | None => Throw "TypeError"
  end.

(** [holdings.some(h => !getCachedBeta(...))] (line 888): stops at the
    first holding without a cached beta. *)
Fixpoint needsMarket (source marketSym : string) (lookback : Z)
    (holdings : list holding) : M bool :=
  match holdings with
  | [] => ret false
  | h :: rest =>
      let* c := getCachedBeta env source (normalizeTicker (h_ticker h) source)
                  marketSym lookback in
      if negb (isTruthy c) then ret true
      else needsMarket source marketSym lookback rest
  end.

(** The statements under the inner [try] (lines 906-912); the pause of
    [sleep] shows only in the clock. *)
Definition compute (source marketSym : string) (lookback : Z)
    (marketRets : option (list returnRow)) (h : holding) (sym : string)
  : M result :=
  let* prices := lift (fetchPrices source sym) in
  let assetRets := toReturns (slice (- (lookback + 10)) prices) in
  let* al := lift (alignWith assetRets marketRets) in
  let beta := fst (estimate al) in
  let* _ := if negb (isNaN beta)
            then setCachedBeta env source sym marketSym lookback beta
                   (snd (estimate al))
            else ret tt in
  ret (Result (h_ticker h) (h_weight h) (PNum beta)
         (PNum (of_nat (snd (estimate al)))) false false).

(** The entry that [catch] records (line 914). *)
Definition failed (h : holding) : result :=
  Result (h_ticker h) (h_weight h) (PNum NaN) (PNum (of_Z 0)) false true.

(** The body of the loop over the holdings (lines 898-916). *)
Definition holdingResult (source marketSym : string) (lookback : Z)
    (marketRets : option (list returnRow)) (h : holding) : M result :=
  let sym := normalizeTicker (h_ticker h) source in
  let* c := getCachedBeta env source sym marketSym lookback in
  if isTruthy c then
    ret (Result (h_ticker h) (h_weight h) (field c "beta") (field c "n")
           true false)
  else
    tryCatch (compute source marketSym lookback marketRets h sym)
      (fun e => ret (failed h)).

Fixpoint holdingsLoop (source marketSym : string) (lookback : Z)
    (marketRets : option (list returnRow)) (holdings : list holding)
    (results : list result) : M (list result) :=
  match holdings with
  | [] => ret results
  | h :: rest =>
      let* res := holdingResult source marketSym lookback marketRets h in
      holdingsLoop source marketSym lookback marketRets rest (results ++ [res])
  end.

(** The statements under the outer [try] (lines 875-918). *)
Definition calculate (source marketSym : string) (lookback : Z)
    (holdingsInput : string) : M shown :=
  let* holdings := lift (normalizeWeights (parseHoldings holdingsInput)) in
  let* needs := needsMarket source marketSym lookback holdings in
  let* marketRets :=
    if needs then
      let* mPrices := lift (fetchPrices source marketSym) in
      ret (Some (toReturns (slice (- (lookback + 10)) mPrices)))
    else ret None in
  let* results := holdingsLoop source marketSym lookback marketRets holdings [] in
  let* table := lift (renderTable results) in
  ret (Done (sort byWeight results) (fst table) (snd table)).

(** The click handler of [mb_calc] (lines 865-920). *)
Definition mb_calc (sourceInput marketInput lookbackInput holdingsInput : string)
  : M shown :=
  let source := sourceInput in
  let marketSym := normalizeTicker marketInput source in
  let lookback :=
    match parseInt (chars lookbackInput) with
    | Some z => if decide (z = 0%Z) then DEFAULT_LOOKBACK_DAYS else z
    | None => DEFAULT_LOOKBACK_DAYS
    end in
  tryCatch (calculate source marketSym lookback holdingsInput)
    (fun e => ret (ErrorShown e)).

End Handler.

(** ** Scraping the page *)

(** A row of [rawRows]: [{ ticker, mv, w }]. *)
Record rawRow : Type := RawRow {
  rr_ticker : list ascii;
  rr_mv : num;
  rr_w : num
}.

(** [/symbol|ticker|asset/i], [/market\s*value|current\s*value|value/i]
    and [/weight|%|allocation/i]. *)
Definition symbolLike (h : list ascii) : bool :=
  mentions "symbol" h || mentions "ticker" h || mentions "asset" h.

Definition valueLike (h : list ascii) : bool :=
  mentionsPair "market" "value" h || mentionsPair "current" "value" h
  || mentions "value" h.

Definition weightLike (h : list ascii) : bool :=
  mentions "weight" h || mentions "%" h || mentions "allocation" h.

(** The ticker of a row (lines 797-801): the first word of the link of
    the symbol cell, empty without a link. *)
Definition rowTicker (td : cell) : list ascii :=
  match anchor td with
  | Some a => firstWord (chars a)
  | None => []
  end.

(** The body of the loop over the rows (lines 792-822): the row that is
    pushed, if any. *)
Definition scrapeRow (symIdx mvIdx wIdx : Z) (tds : list cell) : option rawRow :=
  if (Z.of_nat (length tds) <=? Z.max (Z.max symIdx mvIdx) wIdx)%Z then None
  else
    match cellAt tds symIdx with
    | None => None
    | Some td =>
        let ticker := rowTicker td in
        if negb (truthy (Some ticker)) || existsb (fun c => isLower c || isDigit c) ticker
        then None
        else
          let mv :=
            if (mvIdx =? -1)%Z then of_Z 0
            else safeNum ((fun td => chars (innerText td)) <$> cellAt tds mvIdx) in
          let w :=
            if (wIdx =? -1)%Z then of_Z 0
            else
              let rawW := (fun td => chars (innerText td)) <$> cellAt tds wIdx in
              let w := safeNum rawW in
              if from_option JsString.hasPercent false rawW then (w / of_Z 100)%num
              else w in
          if ngt mv (of_Z 0) || ngt w (of_Z 0) then Some (RawRow ticker mv w)
          else None
    end.

(** The rows that one table gives (lines 770-823). *)
Definition scrapeTable (t : table) : list rawRow :=
  if negb (mentions "symbol" (chars (tableText t))
           || mentions "ticker" (chars (tableText t))) then []
  else
    let hs := (fun th => JsString.trim (chars th)) <$> headers t in
    let symIdx := headerIndex symbolLike hs in
    let mvIdx := headerIndex valueLike hs in
    let wIdx := headerIndex weightLike hs in
    if (symIdx =? -1)%Z then []
    else if (mvIdx =? -1)%Z && (wIdx =? -1)%Z then []
    else omap (scrapeRow symIdx mvIdx wIdx) (bodyRows t).

(** A [Map] from tickers to numbers: the entries in the order of their
    first insertion. *)
Definition tickerMap : Type := list (list ascii * num).

(** [map.get(key)]: [undefined] reads as [NaN] where a number is
    expected. *)
Fixpoint mapGet (key : list ascii) (m : tickerMap) : num :=
  match m with
  | [] => NaN
  | (k, v) :: m' => if decide (k = key) then v else mapGet key m'
  end.

(** [map.set(key, v)]: a key that is there keeps its place. *)
Fixpoint mapSet (key : list ascii) (v : num) (m : tickerMap) : tickerMap :=
  match m with
  | [] => [(key, v)]
  | (k, v') :: m' =>
      if decide (k = key) then (k, v) :: m' else (k, v') :: mapSet key v m'
  end.

(** The body of the loop of the aggregation (lines 834-840), on the pair
    of [tickerMap] and [globalMV]. *)
Definition aggregateRow (acc : tickerMap * num) (row : rawRow) : tickerMap * num :=
  if ngt (rr_mv row) (of_Z 0) then
    let cur := orElse (mapGet (rr_ticker row) (fst acc)) (of_Z 0) in
    (mapSet (rr_ticker row) (cur + rr_mv row)%num (fst acc),
     (snd acc + rr_mv row)%num)
  else acc.

(** The weight of a scraped holding: the words of [toFixed(5)], or the
    number of the weight column. *)
Inductive scrapedWeight : Type :=
| Text (s : list ascii)
| Value (x : num).

(** The result of [scrapeAndAggregate]:
    [{ tableCount, rowCount, holdings, totalMV }]. *)
Record aggregate : Type := Aggregate {
  tableCount : nat;
  rowCount : nat;
  holdings : list (list ascii * scrapedWeight);
  totalMV : num
}.

(** [scrapeAndAggregate] (lines 765-862), on the tables of the document. *)
Definition scrapeAndAggregate (tables : list table) : aggregate :=
  let perTable := scrapeTable <$> tables in
  let rawRows := concat perTable in
  let tableCount :=
    length (List.filter (fun found => (0 <? length found)%nat) perTable) in
  let '(byTicker, globalMV) := fold_left aggregateRow rawRows ([], of_Z 0) in
  if ngt globalMV (of_Z 0) then
    Aggregate tableCount (length rawRows)
      ((fun kv => (fst kv, Text (numToFixed 5 (snd kv / globalMV)%num))) <$> byTicker)
      globalMV
  else
    Aggregate tableCount (length rawRows)
      ((fun row => (rr_ticker row, Value (orElse (rr_w row) (Fin (Q2Qc (1 # 100))))))
       <$> rawRows)
      (of_Z 0).

Section Scrape.

(** [String(x)] for a number, as the engine writes it. *)
Variable numberToString : num -> list ascii.

(** [`${h.ticker}, ${h.weight}`] *)
Definition holdingLine (h : list ascii * scrapedWeight) : list ascii :=
  fst h ++ chars ", "
  ++ match snd h with
     | Text s => s
     | Value x => numberToString x
     end.

(** What the click on [mb_scrape] leaves (lines 755-763): the message that
    nothing was found, or the text of the holdings field and the numbers
    of the status lines. *)
Inductive scraped : Type :=
| NothingFound
| Found (holdingsText : list ascii) (tables rows unique : nat) (totalValue : num).

Definition mb_scrape (tables : list table) : scraped :=
  let result := scrapeAndAggregate tables in
  match holdings result with
  | [] => NothingFound
  | hs =>
      Found (joinWith [lf] (holdingLine <$> hs)) (tableCount result) (rowCount result)
        (length hs) (totalMV result)
  end.

End Scrape.

(** ** A beta beyond the largest number *)

Module Overflow.

(** [JSON.stringify({ beta, n, timestamp })] for a beta that may be an
    infinity. *)
Definition entry (beta : extended) (n : nat) (timestamp : Z) : item :=
  Json (Obj (<["beta" := Binary64.jsonNumber beta]>
               (<["n" := PNum (of_nat n)]>
                  (<["timestamp" := PNum (of_Z timestamp)]> ∅)))).

Section Browser.

Variable env : environment.

(** [setCachedBeta] (lines 567-572). *)
Definition setCachedBeta (source symbol market : string) (lookback : Z)
    (beta : extended) (n : nat) : M unit :=
  let key := cacheKey source symbol market lookback in
  tryCatch
    (let* now := Date_now env in
     setItem env key (entry beta n now))
    (fun e => ret tt).

(** [calculateBeta] (lines 638-649), where the quotient of line 648 may
    overflow. *)
Definition calculateBeta (asset_ mkt_ : list num) : extended :=
  Binary64.overflow (calculateBeta asset_ mkt_).

(** The beta of a holding on its way to the cache (lines 910-911). *)
Definition cacheBeta (source sym marketSym : string) (lookback : Z) (al : aligned)
  : M unit :=
  let beta := calculateBeta (asset al) (mkt al) in
  if negb (Binary64.isNaN beta)
  then setCachedBeta source sym marketSym lookback beta (length (asset al))
  else ret tt.

End Browser.

End Overflow.

(** ** A ticker beyond ASCII *)

Module Wide.

(** [normalizeTicker] (lines 651-661) on code units. *)
Definition normalizeTicker (raw : list N) (source : string) : list N :=
  let t := Utf16.toUpperCase (Utf16.trim raw) in
  match t with
  | [] => []
  | _ =>
      if decide (source = "stooq") then
        if Utf16.hasSuffix t then Utf16.toLowerCase t
        else
          let t := Utf16.removeSpaces t in
          if Utf16.includesDot t then Utf16.toLowerCase t
          else Utf16.toLowerCase t ++ Utf16.ofString ".us"
      else Utf16.dotsToHyphens t
  end.

End Wide.

End V2.

(** * The notions of the specification

    What the claims speak of, in the words of the specification: the sample
    statistics of real vectors (with the divisor [n - 1]), the consecutive
    pairs of a price history, the dates two series share, the contribution
    of a holding to the portfolio beta, and the like.  The theorems below
    compare the scripts with them. *)

Definition total_of (l : list Qc) : Qc := foldr Qcplus 0 l.

Definition mean (l : list Qc) : Qc := total_of l / Qc_of_Z (Z.of_nat (length l)).

Definition sampleVariance (m : list Qc) : Qc :=
  total_of (map (fun x => (x - mean m) * (x - mean m)) m)
  / Qc_of_Z (Z.of_nat (length m) - 1).

Definition sampleCovariance (a m : list Qc) : Qc :=
  total_of (zip_with (fun x y => (x - mean a) * (y - mean m)) a m)
  / Qc_of_Z (Z.of_nat (length a) - 1).

(** The consecutive pairs [(p0, p1)] of a price history. *)
Fixpoint consecutive {A : Type} (l : list A) : list (A * A) :=
  match l with
  | x :: (y :: _) as tl => (x, y) :: consecutive tl
  | _ => []
  end.

(** The return row of a pair: [{date: p1.date, value: p1.close/p0.close - 1}]. *)
Definition returnOf (p : priceRow * priceRow) : returnRow :=
  ReturnRow (p_date (snd p)) (close (snd p) / close (fst p) - of_Z 1)%num.

(** Both closes of a pair are strictly positive. *)
Definition bothPositive (p : priceRow * priceRow) : bool :=
  ngt (close (fst p)) (of_Z 0) && ngt (close (snd p)) (of_Z 0).

(** The test of the first script's [toReturns]: both closes finite and the
    earlier one positive. *)
Definition keeps1 (p : priceRow * priceRow) : bool :=
  negb (negb (isFinite (close (fst p))) || negb (isFinite (close (snd p)))
        || nle (close (fst p)) (of_Z 0)).

(** The dates of a return series, as a set. *)
Definition dates (s : list returnRow) : gset string := list_to_set (map date s).

(** The asset rows whose date the market series has, in the asset's order. *)
Definition common (assetRets mktRets : list returnRow) : list returnRow :=
  List.filter (fun a => bool_decide (date a ∈ dates mktRets)) assetRets.

(** The real that a number stands for in a sum: an undefined number counts
    for zero. *)
Definition real (x : num) : Qc :=
  match x with
  | Fin q => q
  | NaN => 0
  end.

(** What a holding adds to the portfolio beta of the first script: its
    weight times its beta, or nothing when the beta is undefined. *)
Definition contribution1 (res : V1.result) : Qc :=
  real (V1.weight res) * real (V1.beta res).

(** The beta of a holding as the table of the second script shows it: two
    decimals, nothing when it is undefined. *)
Definition shownBeta (beta : prim) : num :=
  match beta with
  | PNum (Fin q) => Fin (toFixed2 q)
  | _ => NaN
  end.

Definition contribution2 (res : V2.result) : Qc :=
  real (V2.weight res) * real (shownBeta (V2.beta res)).

(** The weight of a holding when its beta is defined, zero otherwise. *)
Definition definedWeight (res : V2.result) : Qc :=
  if isFinite (shownBeta (V2.beta res)) then real (V2.weight res) else 0.

(** A table renders when every beta is a number. *)
Definition numericBeta (res : V2.result) : Prop :=
  match V2.beta res with PNum _ => True | _ => False end.

(** The raw weights of the holdings, as reals. *)
Definition weights (holdings : list holding) : list Qc :=
  map (fun h => real (h_weight h)) holdings.

(** A holding with its weight divided by [s]. *)
Definition scaled (s : Qc) (h : holding) : holding :=
  Holding (h_ticker h) (Fin (real (h_weight h) / s)).

Definition finiteWeight (h : holding) : Prop := isFinite (h_weight h) = true.

Definition positiveWeight (h : holding) : Prop :=
  match h_weight h with
  | Fin q => 0 < q
  | NaN => False
  end.

(** A text of ASCII characters: the range on which the strings of the model
    are the strings of JavaScript. *)
Definition isAscii (c : ascii) : bool := (code c <? 128)%N.

Definition asciiText (s : string) : Prop :=
  Forall (fun c => isAscii c = true) (chars s).

Global Instance asciiText_dec s : Decision (asciiText s).
Proof. unfold asciiText. apply _. Defined.

(** The replacement of one dot by a hyphen. *)
Definition hyphenate (c : ascii) : ascii :=
  if bool_decide (c = dot) then "-"%char else c.

(** A list that does not start with white space. *)
Definition startsClean (l : list ascii) : Prop :=
  match l with
  | [] => True
  | c :: _ => isSpace c = false
  end.

(** The branches of both normalizations after the trimmed ticker [t] is
    known not to be empty. *)
Definition stooqForm (t : list ascii) : list ascii :=
  if JsString.hasSuffix t then JsString.toLowerCase t
  else
    let t := JsString.removeSpaces t in
    if JsString.includesDot t then JsString.toLowerCase t
    else JsString.toLowerCase t ++ chars ".us".

(** The age [now - timestamp] of an entry exceeds the 24 hours. *)
Definition expired (now timestamp : Z) : Prop := (24 * 60 * 60 * 1000 < now - timestamp)%Z.

Global Instance expired_dec now timestamp : Decision (expired now timestamp).
Proof. unfold expired. apply _. Defined.

(** Between two states of the storage, every key is as it was, or removed,
    or holds an entry whose beta is a number. *)
Definition numericWrites (st st' : gmap string item) : Prop :=
  forall k,
    st' !! k = st !! k
    \/ st' !! k = None
    \/ exists (b : Qc) (n : nat) (t : Z), st' !! k = Some (V2.entry (Fin b) n t).

(** A computation that only removes keys or writes numeric entries. *)
Definition writesNumeric {A} (m : V2.M A) : Prop :=
  forall w, numericWrites (V2.storage w) (V2.storage (snd (m w))).

(** The beta of a parsed entry is a number. *)
Definition numericBetaOf (v : value) : Prop :=
  exists b : Qc, V2.field v "beta" = PNum (Fin b).

(** The lines of a response, and its header cells. *)
Definition responseLines (txt : string) : list (list ascii) :=
  JsString.splitLines (JsString.trim (chars txt)).

Definition headerCells (txt : string) : list (list ascii) :=
  JsString.split comma (hd [] (responseLines txt)).

(** * Sample inputs *)

(** The returns of the prices 100, 101, 99, 102 against those of 100,
    100.5, 99.5, 101: three aligned points. *)
Definition fixture_asset : list Qc :=
  [Q2Qc (1 # 100); Q2Qc (-2 # 101); Q2Qc (3 # 99)].
Definition fixture_market : list Qc :=
  [Q2Qc (1 # 200); Q2Qc (-2 # 201); Q2Qc (3 # 199)].

(** A price history whose second close is zero. *)
Definition zero_tick : list priceRow :=
  [PriceRow "2024-01-02" (of_Z 100); PriceRow "2024-01-03" (of_Z 0);
   PriceRow "2024-01-04" (of_Z 50)].

(** Two holdings of the first script, the second without a beta. *)
Definition sample_results1 : list V1.result :=
  [V1.Result "AAPL" "aapl.us" (Fin (Q2Qc (1 # 4))) (Fin (Q2Qc (6 # 5))) 250;
   V1.Result "XYZ" "xyz.us" (Fin (Q2Qc (3 # 4))) NaN 0].

(** One holding of the second script, of beta 1.234. *)
Definition sample_results2 : list V2.result :=
  [V2.Result "AAPL" (Fin 1) (PNum (Fin (Q2Qc (1234 # 1000))))
     (PNum (of_Z 250)) false false].

(** Twenty-two closes of a market that goes up by a tenth and comes back. *)
Fixpoint seesaw (days : nat) (up : bool) : list Qc :=
  match days with
  | O => []
  | S days' => (if up then Qc_of_Z 110 else Qc_of_Z 100) :: seesaw days' (negb up)
  end.

(** The closes of an asset whose every return is [beta] times the return of
    the market. *)
Fixpoint leveraged (beta : Qc) (a : Qc) (ms : list Qc) : list Qc :=
  match ms with
  | m0 :: ((m1 :: _) as tl) => a :: leveraged beta (a * (1 + beta * (m1 / m0 - 1))) tl
  | _ => [a]
  end.

(** Closes as price rows, dated by their rank. *)
Definition dated (closes : list Qc) : list priceRow :=
  imap (fun i c => PriceRow (pretty i) (Fin c)) closes.

Definition market_closes : list Qc := seesaw 22 false.

Definition asset_closes : list Qc :=
  leveraged (Q2Qc (1234 # 1000)) (Qc_of_Z 50) market_closes.

(** A browser whose Yahoo adapter answers with the market for [SPY] and
    with the asset for every other symbol. *)
Definition yahoo_env : V2.environment :=
  V2.Environment (fun _ => Throw "Network Error")
    (fun symbol => if decide (symbol = "SPY") then Ok (dated market_closes)
                   else Ok (dated asset_closes))
    (fun _ => 1000%Z) (fun _ _ _ => false).

(** Two holdings of raw weights 25 and 75. *)
Definition sample_holdings : list holding :=
  [Holding "AAPL" (of_Z 25); Holding "MSFT" (of_Z 75)].

(** A browser whose clock stands at one second, whose storage accepts
    every write, and whose network is down. *)
Definition quiet_env : V2.environment :=
  V2.Environment (fun _ => Throw "Network Error") (fun _ => Throw "Network Error")
    (fun _ => 1000%Z) (fun _ _ _ => false).

Definition empty_world : V2.world := V2.World ∅ 0.

(** Lines joined by line feeds. *)
Definition unlines (ls : list string) : string :=
  String.concat (String lf EmptyString) ls.

(** A Stooq answer of three usable rows. *)
Definition three_rows_csv : string :=
  unlines ["Date,Open,High,Low,Close,Volume";
           "2024-01-02,99,101,98,100,5000";
           "2024-01-03,100,102,99,101,5100";
           "2024-01-04,101,101,98,99,5200"].





(** A Stooq answer of two data lines, the second without a close. *)
Definition one_usable_row_csv : string :=
  unlines ["Date,Open,High,Low,Close,Volume";
           "2024-01-02,99,101,98,100,5000";
           "2024-01-03,N/D,N/D,N/D,N/D,N/D"].

(** A Stooq answer whose header has no close column. *)
Definition no_close_column_csv : string :=
  unlines ["Date,Open,High,Low,Volume";
           "2024-01-02,99,101,98,5000";
           "2024-01-03,100,102,99,5100"].

(** A browser whose Stooq transport answers every request with one text. *)
Definition answering (txt : string) : V2.environment :=
  V2.Environment (fun _ => Ok txt) (fun _ => Throw "Network Error")
    (fun _ => 0%Z) (fun _ _ _ => false).

(** Three returns of an asset and three of the market, two dates shared. *)
Definition sample_asset_returns : list returnRow :=
  [ReturnRow "2024-01-03" (Fin (Q2Qc (1 # 100)));
   ReturnRow "2024-01-04" (Fin (Q2Qc (-2 # 101)));
   ReturnRow "2024-01-05" (Fin (Q2Qc (3 # 99)))].

Definition sample_market_returns : list returnRow :=
  [ReturnRow "2024-01-04" (Fin (Q2Qc (-2 # 201)));
   ReturnRow "2024-01-05" (Fin (Q2Qc (3 # 199)));
   ReturnRow "2024-01-08" (Fin (Q2Qc (1 # 200)))].

(** The letter A and a capital sigma, as code units. *)
Definition sigma_ticker : list N := [65; Utf16.capitalSigma]%N.

(** * Further notions

    What the further properties speak of. *)

(** The return series of a portfolio: the sum of the series of its
    holdings, each multiplied by its weight. *)
Fixpoint blend (n : nat) (parts : list (Qc * list Qc)) : list Qc :=
  match parts with
  | [] => replicate n 0
  | (w, a) :: rest => zip_with Qcplus (map (Qcmult w) a) (blend n rest)
  end.

(** A holding of the first script whose beta is that of the series [snd p]
    against the market [m], and whose weight is [fst p]. *)
Definition holds (m : list Qc) (res : V1.result) (p : Qc * list Qc) : Prop :=
  V1.weight res = Fin (fst p)
  /\ length (snd p) = length m
  /\ V1.beta res = V1.betaFromReturns (map Fin (snd p)) (map Fin m).

(** A holding with its weight multiplied by [c]. *)
Definition rescaled (c : Qc) (h : holding) : holding :=
  Holding (h_ticker h) (Fin (c * real (h_weight h))).

(** The cache key of a holding. *)
Definition keyOf (source marketSym : string) (lookback : Z) (h : holding) : string :=
  V2.cacheKey source (V2.normalizeTicker (h_ticker h) source) marketSym lookback.

(** An entry of the cache that no reading of the clock finds expired. *)
Definition fresh (env : V2.environment) (st : gmap string item) (key : string) : Prop :=
  exists fields timestamp,
    st !! key = Some (Json (Obj fields))
    /\ fields !! "timestamp" = Some (PNum (of_Z timestamp))
    /\ forall k, ~ expired (V2.time env k) timestamp.

(** The entry of the results that the cache gives for a holding. *)
Definition served (st : gmap string item) (source marketSym : string) (lookback : Z)
    (h : holding) : V2.result :=
  let c := match st !! keyOf source marketSym lookback h with
           | Some (Json c) => c
           | _ => null
           end in
  V2.Result (h_ticker h) (h_weight h) (V2.field c "beta") (V2.field c "n") true false.

(** The characters that [escapeHtml] replaces. *)
Definition isMarkup (c : ascii) : bool :=
  bool_decide (c = "&"%char) || bool_decide (c = "<"%char) || bool_decide (c = ">"%char)
  || bool_decide (c = "034"%char) || bool_decide (c = "'"%char).

(** The escaped form of one character. *)
Definition entity (c : ascii) : list ascii :=
  if bool_decide (c = "&"%char) then chars "&amp;"
  else if bool_decide (c = "<"%char) then chars "&lt;"
  else if bool_decide (c = ">"%char) then chars "&gt;"
  else if bool_decide (c = "034"%char) then chars "&quot;"
  else if bool_decide (c = "'"%char) then chars "&#039;"
  else [c].

(** Reading the five entities back. *)
Fixpoint unescape (l : list ascii) : list ascii :=
  match l with
  | "&" :: "a" :: "m" :: "p" :: ";" :: rest => "&" :: unescape rest
  | "&" :: "l" :: "t" :: ";" :: rest => "<" :: unescape rest
  | "&" :: "g" :: "t" :: ";" :: rest => ">" :: unescape rest
  | "&" :: "q" :: "u" :: "o" :: "t" :: ";" :: rest => "034" :: unescape rest
  | "&" :: "#" :: "0" :: "3" :: "9" :: ";" :: rest => "'" :: unescape rest
  | c :: rest => c :: unescape rest
  | [] => []
  end%char.

(** No later entry is heavier than an earlier one. *)
Definition heaviestFirst (results : list V1.result) : Prop :=
  StronglySorted (fun a b => real (V1.weight b) ≤ real (V1.weight a)) results.

(** The number that [x.toFixed(d)] stands for. *)
Definition rounded (d : nat) (q : Qc) : Qc :=
  let v := Qc_of_Z (Z.of_N (scaledRound d q)) / Qc_of_Z (10 ^ Z.of_nat d) in
  if decide (q < 0) then - v else v.

(** The rows that the tables of a page give to the second script. *)
Definition rawRowsOf (tables : list table) : list V2.rawRow :=
  concat (V2.scrapeTable <$> tables).

(** The rows with a positive market value. *)
Definition valued (rows : list V2.rawRow) : list V2.rawRow :=
  List.filter (fun row => ngt (V2.rr_mv row) (of_Z 0)) rows.

(** The distinct elements of a list, in the order of their first
    appearance. *)
Definition firstSeen {A} `{EqDecision A} (l : list A) : list A :=
  rev (remove_dups (rev l)).

(** The market value of a ticker: the sum over its rows. *)
Definition valueOf (t : list ascii) (rows : list V2.rawRow) : Qc :=
  total_of
    (map (fun row => real (V2.rr_mv row))
       (List.filter (fun row => bool_decide (V2.rr_ticker row = t)) rows)).

(** The market value of all rows. *)
Definition valueOfAll (rows : list V2.rawRow) : Qc :=
  total_of (map (fun row => real (V2.rr_mv row)) rows).

(** The share of a ticker in the market value of all rows. *)
Definition shareOf (t : list ascii) (rows : list V2.rawRow) : Qc :=
  valueOf t rows / valueOfAll rows.

(** The characters of the words of [toFixed]. *)
Definition numeric (c : ascii) : bool :=
  isDigit c || bool_decide (c = dot) || bool_decide (c = "-"%char).

(** A character that is neither white space nor a comma. *)
Definition plain (c : ascii) : bool :=
  negb (isSpace c) && negb (bool_decide (c = comma)).

(** The rows of the table that the first script keeps. *)
Definition keptRows (tables : list table) : list V1.parsedRow :=
  default [] (fold_left V1.better tables None).

(** The weight that a percentage with two decimals stands for. *)
Definition asPercent (w : Qc) : Qc := rounded 2 (w * Qc_of_Z 100) / Qc_of_Z 100.

(** A weight that [toFixed] writes in decimals as a percentage: from
    [10^21] on JavaScript switches to the exponent notation. *)
Definition plainPercent (x : V1.parsedRow) : Prop :=
  real (V1.p_weight x) * Qc_of_Z 100 < Qc_of_Z (10 ^ 21).

Global Instance plainPercent_dec x : Decision (plainPercent x).
Proof. unfold plainPercent. apply _. Defined.

(** The rows that the loop of the first script collects from the body of a
    table (the array [parsed] of lines 285-313): one for every row that is
    long enough and has a ticker, whatever its market value. *)
Definition collected (t : table) : list V1.parsedRow :=
  let hs := (fun th => JsString.trim (chars th)) <$> headers t in
  fst (fold_left
         (V1.scrapeRow (headerIndex V1.symbolLike hs) (headerIndex V1.weightLike hs)
            (headerIndex V1.valueLike hs))
         (bodyRows t) ([], of_Z 0)).

(** The sum of the market values of the collected rows that are numbers,
    the negative ones included. *)
Definition collectedValue (t : table) : Qc :=
  total_of (map (fun x => real (V1.p_mv x)) (collected t)).

(** A collected row with its weight from its market value [m], when [m] is
    positive: [m] over [total]. *)
Definition weighed (total : Qc) (x : V1.parsedRow) : option V1.parsedRow :=
  match V1.p_mv x with
  | Fin m =>
      if decide (0 < m) then Some (V1.ParsedRow (V1.p_ticker x) (Fin (m / total)) (Fin m))
      else None
  | NaN => None
  end.

(** The ticker and the weight of an entry of the results. *)
Definition held1 (res : V1.result) : holding := Holding (V1.ticker res) (V1.weight res).
Definition held2 (res : V2.result) : holding := Holding (V2.ticker res) (V2.weight res).

(** The holdings whose ticker gives a Stooq symbol: the loop of the first
    script passes over the others. *)
Definition withSymbol (holdings : list holding) : list holding :=
  List.filter (fun h => negb (bool_decide (V1.normalizeToStooqSymbol (h_ticker h) = "")))
    holdings.

(** What a click of the first script rendered: its rows, its portfolio
    beta and its market. *)
Definition renderedRows (s : V1.shown) : list V1.result :=
  match s with V1.Rendered results _ _ => results | _ => [] end.

Definition renderedBeta (s : V1.shown) : num :=
  match s with V1.Rendered _ portfolioBeta _ => portfolioBeta | _ => NaN end.

Definition renderedMarket (s : V1.shown) : string :=
  match s with V1.Rendered _ _ marketSym => marketSym | _ => "" end.

(** The entries of a click of the second script that ended with its
    table. *)
Definition doneResults (s : outcome V2.shown) : list V2.result :=
  match s with Ok (V2.Done results _ _) => results | _ => [] end.

Definition doneRows (s : outcome V2.shown) : list V2.row :=
  match s with Ok (V2.Done _ rows _) => rows | _ => [] end.

Definition doneTotal (s : outcome V2.shown) : option num :=
  match s with Ok (V2.Done _ _ mb_total) => mb_total | _ => None end.

(** * Sample pages and stores *)

(** A cell whose text is a link, and a cell of plain text. *)
Definition linkCell (s : string) : cell := Cell (Some s) [] s s.
Definition textCell (s : string) : cell := Cell None [s] s s.

(** A holdings table with market values: two lots of one ticker and one
    lot of another. *)
Definition value_table : table :=
  Table "Symbol Value AAPL $100.00 MSFT $300.00 AAPL $100.00"
    ["Symbol"; "Value"]
    [[linkCell "AAPL"; textCell "$100.00"];
     [linkCell "MSFT"; textCell "$300.00"];
     [linkCell "AAPL"; textCell "$100.00"]].

(** A holdings table with market values, one of them negative: a position
    sold short. *)
Definition short_table : table :=
  Table "Symbol Value AAPL $300.00 TSLA -$100.00 MSFT $200.00"
    ["Symbol"; "Value"]
    [[linkCell "AAPL"; textCell "$300.00"];
     [linkCell "TSLA"; textCell "-$100.00"];
     [linkCell "MSFT"; textCell "$200.00"]].

(** A holdings table with weights only. *)
Definition weight_table : table :=
  Table "Symbol Weight AAPL 25% MSFT 75%"
    ["Symbol"; "Weight"]
    [[linkCell "AAPL"; textCell "25%"];
     [linkCell "MSFT"; textCell "75%"]].

(** The store after a beta of 1.2 was written for one holding, and that
    holding with its normalized weight. *)
Definition warm_world : V2.world :=
  snd (V2.setCachedBeta quiet_env "yahoo" "AAPL" "SPY" 252
         (Fin (Q2Qc (6 # 5))) 250%nat empty_world).

Definition one_holding : list holding := [Holding "AAPL" (Fin 1)].

(** Two return series of the sample market's length, with their weights. *)
Definition sample_parts : list (Qc * list Qc) :=
  [(Q2Qc (1 # 4), fixture_asset); (Q2Qc (3 # 4), fixture_market)].

Definition sample_blend_results : list V1.result :=
  [V1.Result "A" "a.us" (Fin (Q2Qc (1 # 4)))
     (V1.betaFromReturns (map Fin fixture_asset) (map Fin fixture_market)) 3;
   V1.Result "M" "m.us" (Fin (Q2Qc (3 # 4)))
     (V1.betaFromReturns (map Fin fixture_market) (map Fin fixture_market)) 3].

(** The returns of the sample market, and the store after the beta of the
    sample asset was computed against them. *)
Definition sample_market_rets : option (list returnRow) :=
  Some (V2.toReturns (slice (- (252 + 10)) (dated market_closes))).

Definition computed_world : V2.world :=
  snd (V2.compute yahoo_env "yahoo" "SPY" 252 sample_market_rets
         (Holding "AAPL" (Fin 1)) "AAPL" empty_world).

(** A click of the first script on one holding, with a transport that
    answers every request with the three sample rows. *)
Definition sample_click : V1.shown :=
  V1.mb_calc (fun _ => Ok three_rows_csv) "SPY" "252" "AAPL, 100%".

Definition click_results : list V1.result :=
  match sample_click with V1.Rendered results _ _ => results | _ => [] end.

Definition click_beta : num :=
  match sample_click with V1.Rendered _ portfolioBeta _ => portfolioBeta | _ => NaN end.

Definition click_market : string :=
  match sample_click with V1.Rendered _ _ marketSym => marketSym | _ => "" end.

(** The holdings text of two lines, of raw weights 25 and 75. *)
Definition quarter_text : string := unlines ["AAPL, 25"; "MSFT, 75"].

(** A click of either script on the two holdings, with a transport that
    answers every request with the three sample rows. *)
Definition quarter_click1 : V1.shown :=
  V1.mb_calc (fun _ => Ok three_rows_csv) "SPY" "252" quarter_text.

Definition quarter_click2 : outcome V2.shown * V2.world :=
  V2.mb_calc (answering three_rows_csv) "stooq" "SPY" "252" quarter_text empty_world.

(** A Stooq answer that gives one date twice. *)
Definition repeated_date_csv : string :=
  unlines ["Date,Open,High,Low,Close,Volume";
           "2024-01-02,99,101,98,100,5000";
           "2024-01-03,100,102,99,101,5100";
           "2024-01-03,100,102,99,102,5100"].

(** The returns of that answer, and those of the three sample rows. *)
Definition repeated_date_returns : list returnRow :=
  V1.toReturns (V1.parseStooqCsv repeated_date_csv).

Definition three_rows_returns : list returnRow :=
  V1.toReturns (V1.parseStooqCsv three_rows_csv).

(** The dates of thirty-three days in a row. *)
Definition twoDigits (i : nat) : string :=
  if (i <? 10)%nat then "0" +:+ pretty i else pretty i.

Definition isoDay (i : nat) : string :=
  if (i <? 31)%nat then "2024-01-" +:+ twoDigits (S i)
  else "2024-02-" +:+ twoDigits (i - 30).

(** A Stooq answer of thirty-three days: one close, and then another close
    on each of the thirty-two days that follow. *)
Definition jump_csv (first then_ : string) : string :=
  unlines ("Date,Close"
           :: imap (fun i c => isoDay i +:+ "," +:+ c) (first :: replicate 32 then_)).

(** A browser whose Stooq transport answers with a market that goes from
    1073741824 to 1073741825, and for every other symbol with a close that
    goes from 1 to 1e301; its clock stands at one second. *)
Definition jump_env : V2.environment :=
  V2.Environment
    (fun symbol => if decide (symbol = "spy.us") then Ok (jump_csv "1073741824" "1073741825")
                   else Ok (jump_csv "1" "1e301"))
    (fun _ => Throw "Network Error") (fun _ => 1000%Z) (fun _ _ _ => false).

(** The returns of a symbol as the click of the second script reads them
    with a lookback of 252 days. *)
Definition jump_returns (symbol : string) : list returnRow :=
  match V2.fetchPricesStooq jump_env symbol with
  | Ok prices => V2.toReturns (slice (- (252 + 10)) prices)
  | Throw _ => []
  end.

Definition jump_aligned : aligned :=
  V2.alignReturns (jump_returns "aapl.us") (jump_returns "spy.us").

(** The store after the beta of that holding went to the cache. *)
Definition jump_world : V2.world :=
  snd (V2.Overflow.cacheBeta jump_env "stooq" "aapl.us" "spy.us" 252
         jump_aligned empty_world).

(** * Tactics *)

(** Closed goals are decided by evaluation. *)
Ltac by_compute :=
  cbv zeta;
  lazymatch goal with
  | |- ?P => apply (bool_decide_eq_true_1 P); vm_compute; reflexivity
  end.

Ltac by_cases_on_char c := destruct c as [[] [] [] [] [] [] [] []]; reflexivity.

(** The same for a character that a hypothesis [H] confines to a range. *)
Ltac by_cases_on_ascii c H :=
  destruct c as [[] [] [] [] [] [] [] []]; first [reflexivity | discriminate H].

(** * Lemmas on numbers *)

Lemma Qc_of_Z_0 : Qc_of_Z 0 = 0.
Proof. apply Qc_is_canon. reflexivity. Qed.

Lemma Qc_of_Z_inj (x y : Z) : Qc_of_Z x = Qc_of_Z y -> x = y.
Proof.
  intros H. apply (f_equal this) in H. simpl in H.
  unfold inject_Z in H. congruence.
Qed.

Lemma Qc_of_Z_nonzero (z : Z) : z <> 0%Z -> Qc_of_Z z <> 0.
Proof. intros Hz H. apply Hz, Qc_of_Z_inj. rewrite H. symmetry. apply Qc_of_Z_0. Qed.

Lemma ndiv_Fin (a b : Qc) : b <> 0 -> (Fin a / Fin b)%num = Fin (a / b).
Proof. intros Hb. unfold ndiv. destruct (decide (b = 0)); [contradiction | reflexivity]. Qed.

Lemma ndiv_of_Z (a : Qc) (z : Z) :
  z <> 0%Z -> (Fin a / of_Z z)%num = Fin (a / Qc_of_Z z).
Proof. intros Hz. apply ndiv_Fin. by apply Qc_of_Z_nonzero. Qed.

(** A left fold that adds a finite term per element is the sum of the
    terms. *)
Lemma fold_left_nadd {A} (f : num -> A -> num) (t : A -> Qc) (l : list A) (acc : Qc) :
  (forall s x, f (Fin s) x = Fin (s + t x)) ->
  fold_left f l (Fin acc) = Fin (acc + total_of (map t l)).
Proof.
  intros Hf. revert acc. induction l as [|x l IH]; intros acc; simpl.
  - f_equal. ring.
  - rewrite Hf, IH. f_equal. ring.
Qed.

Lemma fold_left_map {A B C} (f : A -> B -> A) (g : C -> B) (l : list C) (a : A) :
  fold_left f (map g l) a = fold_left (fun s x => f s (g x)) l a.
Proof. revert a. induction l as [|x l IH]; intros a; simpl; [done | apply IH]. Qed.

Lemma sum_Fin (l : list Qc) : sum (map Fin l) = Fin (total_of l).
Proof.
  unfold sum, of_Z. rewrite Qc_of_Z_0, fold_left_map.
  rewrite (fold_left_nadd _ (fun x => x) l 0), map_id by done. f_equal. ring.
Qed.

Lemma of_nat_nonzero (a : Qc) (k : nat) :
  k <> 0%nat -> (Fin a / of_nat k)%num = Fin (a / Qc_of_Z (Z.of_nat k)).
Proof. intros Hk. unfold of_nat. apply ndiv_of_Z. lia. Qed.

(** The loop [for (i = 0; i < a.length; i++)] over two arrays of one
    length reads them side by side. *)
Lemma fold_left_index {T} (g : T -> num -> num -> T) (a b : list num) (s : T) :
  length a = length b ->
  fold_left (fun s i => g s (at_index a i) (at_index b i)) (seq 0 (length a)) s
  = fold_left (fun s xy => g s (fst xy) (snd xy)) (combine a b) s.
Proof.
  revert b s. induction a as [|x a IH]; intros [|y b] s Hlen; simpl in *; try done.
  rewrite <- seq_shift, fold_left_map. apply IH. congruence.
Qed.

Lemma fold_left_combine_Fin {T} (g : T -> num -> num -> T) (a b : list Qc) (s : T) :
  fold_left (fun s xy => g s (fst xy) (snd xy)) (combine (map Fin a) (map Fin b)) s
  = fold_left (fun s xy => g s (Fin (fst xy)) (Fin (snd xy))) (combine a b) s.
Proof.
  revert b s. induction a as [|x a IH]; intros [|y b] s; simpl; done.
Qed.

Lemma total_of_zip_with (f : Qc -> Qc -> Qc) (a b : list Qc) :
  total_of (zip_with f a b) = total_of (map (fun xy => f (fst xy) (snd xy)) (combine a b)).
Proof.
  revert b. induction a as [|x a IH]; intros [|y b]; simpl; try done.
  by rewrite IH.
Qed.

Lemma variance_Fin (m : list Qc) :
  V1.variance (map Fin m)
  = if (length m <? 2)%nat then NaN else Fin (sampleVariance m).
Proof.
  unfold V1.variance. rewrite length_map.
  destruct (length m <? 2)%nat eqn:Hn; [done|].
  apply Nat.ltb_ge in Hn.
  rewrite sum_Fin, of_nat_nonzero by lia.
  fold (mean m). rewrite fold_left_map.
  unfold of_Z at 1. rewrite Qc_of_Z_0.
  rewrite (fold_left_nadd _ (fun x => (x - mean m) * (x - mean m)) m 0) by done.
  rewrite of_nat_nonzero by lia.
  unfold sampleVariance. f_equal. f_equal; [ring|].
  f_equal. lia.
Qed.

Lemma covariance_loop (a m : list Qc) (ma mm : Qc) (n : nat) :
  length a = n -> length m = n ->
  fold_left
    (fun c i => (c + (at_index (map Fin a) i - Fin ma) * (at_index (map Fin m) i - Fin mm))%num)
    (seq 0 n) (of_Z 0)
  = Fin (total_of (zip_with (fun x y => (x - ma) * (y - mm)) a m)).
Proof.
  intros Ha Hm. unfold of_Z. rewrite Qc_of_Z_0.
  pose (G := fun (c x y : num) => (c + (x - Fin ma) * (y - Fin mm))%num).
  rewrite <- Ha, <- (length_map Fin a).
  etrans.
  { apply (fold_left_index G (map Fin a) (map Fin m)). rewrite !length_map. congruence. }
  etrans; [apply (fold_left_combine_Fin G a m)|].
  etrans.
  { apply (fold_left_nadd _ (fun xy => (fst xy - ma) * (snd xy - mm)) (combine a m) 0).
    done. }
  rewrite total_of_zip_with. f_equal. ring.
Qed.

Lemma covariance_Fin (a m : list Qc) :
  length a = length m ->
  V1.covariance (map Fin a) (map Fin m)
  = if (length m <? 2)%nat then NaN else Fin (sampleCovariance a m).
Proof.
  intros Hlen. unfold V1.covariance.
  rewrite !sum_Fin.
  destruct (length m <? 2)%nat eqn:Hn.
  { rewrite !length_map, Hlen, Hn. by rewrite orb_true_r. }
  rewrite !length_map, Hlen, Hn, Nat.eqb_refl. cbn [negb orb].
  apply Nat.ltb_ge in Hn.
  rewrite !of_nat_nonzero by lia.
  rewrite (covariance_loop a m _ _ (length m)) by done.
  rewrite of_nat_nonzero by lia.
  unfold sampleCovariance, mean. rewrite Hlen.
  f_equal. f_equal. f_equal. lia.
Qed.

Lemma betaFromReturns_Fin (a m : list Qc) :
  length a = length m ->
  V1.betaFromReturns (map Fin a) (map Fin m)
  = if decide ((length m < 2)%nat \/ sampleVariance m = 0) then NaN
    else Fin (sampleCovariance a m / sampleVariance m).
Proof.
  intros Hlen. unfold V1.betaFromReturns.
  rewrite variance_Fin, covariance_Fin by done.
  destruct (length m <? 2)%nat eqn:Hn.
  { apply Nat.ltb_lt in Hn. simpl. by rewrite decide_True by auto. }
  apply Nat.ltb_ge in Hn. cbn [isFinite negb orb nstrict_eq of_Z].
  rewrite Qc_of_Z_0.
  destruct (decide (sampleVariance m = 0)) as [Hv|Hv].
  - rewrite bool_decide_eq_true_2 by done. by rewrite decide_True by auto.
  - rewrite bool_decide_eq_false_2 by done. rewrite decide_False by (intros [?|?]; [lia|done]).
    by apply ndiv_Fin.
Qed.

Lemma fold_left_pair {A} (f : num * num -> A -> num * num) (t u : A -> Qc)
    (l : list A) (c v : Qc) :
  (forall c v x, f (Fin c, Fin v) x = (Fin (c + t x), Fin (v + u x))) ->
  fold_left f l (Fin c, Fin v)
  = (Fin (c + total_of (map t l)), Fin (v + total_of (map u l))).
Proof.
  intros Hf. revert c v. induction l as [|x l IH]; intros c v; simpl.
  - f_equal; f_equal; ring.
  - rewrite Hf, IH. f_equal; f_equal; ring.
Qed.

Lemma total_of_snd_combine (u : Qc -> Qc) (a m : list Qc) :
  length a = length m ->
  total_of (map (fun xy => u (snd xy)) (combine a m)) = total_of (map u m).
Proof.
  revert m. induction a as [|x a IH]; intros [|y m] Hlen; simpl in *; try done.
  rewrite IH; [done | congruence].
Qed.

Lemma calculateBeta_loop (a m : list Qc) (ma mm : Qc) (n : nat) :
  length a = n -> length m = n ->
  fold_left
    (fun (acc : num * num) i =>
       ((fst acc + (at_index (map Fin a) i - Fin ma) * (at_index (map Fin m) i - Fin mm))%num,
        (snd acc + (at_index (map Fin m) i - Fin mm) * (at_index (map Fin m) i - Fin mm))%num))
    (seq 0 n) (of_Z 0, of_Z 0)
  = (Fin (total_of (zip_with (fun x y => (x - ma) * (y - mm)) a m)),
     Fin (total_of (map (fun y => (y - mm) * (y - mm)) m))).
Proof.
  intros Ha Hm. unfold of_Z. rewrite Qc_of_Z_0.
  pose (G := fun (acc : num * num) (x y : num) =>
               ((fst acc + (x - Fin ma) * (y - Fin mm))%num,
                (snd acc + (y - Fin mm) * (y - Fin mm))%num)).
  rewrite <- Ha, <- (length_map Fin a).
  etrans.
  { apply (fold_left_index G (map Fin a) (map Fin m)). rewrite !length_map. congruence. }
  etrans; [apply (fold_left_combine_Fin G a m)|].
  etrans.
  { apply (fold_left_pair _ (fun xy => (fst xy - ma) * (snd xy - mm))
             (fun xy => (snd xy - mm) * (snd xy - mm)) (combine a m) 0 0).
    done. }
  rewrite total_of_zip_with.
  rewrite (total_of_snd_combine (fun y => (y - mm) * (y - mm))) by congruence.
  f_equal; f_equal; ring.
Qed.

Lemma sampleVariance_zero (m : list Qc) :
  (2 <= length m)%nat ->
  sampleVariance m = 0
  <-> total_of (map (fun y => (y - mean m) * (y - mean m)) m) = 0.
Proof.
  intros Hn. unfold sampleVariance.
  assert (Hd : Qc_of_Z (Z.of_nat (length m) - 1) <> 0) by (apply Qc_of_Z_nonzero; lia).
  split; intros H.
  - apply (f_equal (fun x => x * Qc_of_Z (Z.of_nat (length m) - 1))) in H.
    rewrite Qcmult_0_l in H. rewrite <- H. field. done.
  - rewrite H. field. done.
Qed.

Lemma calculateBeta_Fin (a m : list Qc) :
  length a = length m ->
  V2.calculateBeta (map Fin a) (map Fin m)
  = if decide ((length m < 20)%nat \/ sampleVariance m = 0) then NaN
    else Fin (sampleCovariance a m / sampleVariance m).
Proof.
  intros Hlen. unfold V2.calculateBeta. rewrite length_map, Hlen.
  destruct (length m <? 20)%nat eqn:Hn.
  { apply Nat.ltb_lt in Hn. by rewrite decide_True by auto. }
  apply Nat.ltb_ge in Hn.
  rewrite !sum_Fin, !of_nat_nonzero by lia.
  rewrite (calculateBeta_loop a m _ _ (length m)) by done.
  cbn [fst snd nstrict_eq of_Z]. rewrite Qc_of_Z_0.
  replace (total_of a / Qc_of_Z (Z.of_nat (length m))) with (mean a)
    by (unfold mean; by rewrite Hlen).
  fold (mean m).
  assert (Hd : Qc_of_Z (Z.of_nat (length m) - 1) <> 0) by (apply Qc_of_Z_nonzero; lia).
  destruct (decide (sampleVariance m = 0)) as [Hv|Hv].
  - rewrite decide_True by auto.
    apply sampleVariance_zero in Hv; [|lia].
    by rewrite bool_decide_eq_true_2.
  - rewrite decide_False by (intros [?|?]; [lia|done]).
    assert (Hs : total_of (map (fun y => (y - mean m) * (y - mean m)) m) <> 0).
    { intros H. apply Hv. apply sampleVariance_zero; [lia | done]. }
    rewrite bool_decide_eq_false_2 by done.
    rewrite ndiv_Fin by done. f_equal.
    unfold sampleCovariance, sampleVariance. rewrite Hlen. field. done.
Qed.

(** * C1: the beta of two aligned vectors *)

(** C1, as amended.  For real vectors [a] (asset) and [m] (market) of one
    length [n], the first script records the undefined beta when [n < 2] or
    the sample variance of [m] is zero, and otherwise the sample covariance
    of [a] and [m] over the sample variance of [m], both with the divisor
    [n - 1]; the second script does the same with the threshold [n < 20] in
    place of [n < 2].  Both record the sample size [n]. *)
Theorem beta_of_aligned_vectors (a m : list Qc) :
  length a = length m ->
  let al := Aligned (map Fin a) (map Fin m) in
  V1.estimate al
  = (if decide ((length m < 2)%nat \/ sampleVariance m = 0) then NaN
     else Fin (sampleCovariance a m / sampleVariance m),
     length m)
  /\ V2.estimate al
     = (if decide ((length m < 20)%nat \/ sampleVariance m = 0) then NaN
        else Fin (sampleCovariance a m / sampleVariance m),
        length m).
Proof.
  intros Hlen al. unfold V1.estimate, V2.estimate, al. cbn [asset mkt].
  rewrite betaFromReturns_Fin, calculateBeta_Fin by done.
  rewrite !length_map, Hlen, Nat.min_id. done.
Qed.

(** The first script on two sample vectors of three points. *)
Lemma beta_of_aligned_vectors_witness :
  length fixture_asset = length fixture_market
  /\ V1.estimate (Aligned (map Fin fixture_asset) (map Fin fixture_market))
     = (if decide ((length fixture_market < 2)%nat \/ sampleVariance fixture_market = 0)
        then NaN
        else Fin (sampleCovariance fixture_asset fixture_market
                  / sampleVariance fixture_market),
        length fixture_market).
Proof.
  split; [reflexivity|].
  apply (proj1 (beta_of_aligned_vectors fixture_asset fixture_market eq_refl)).
Defined.

(** C1 as stated fails on the second script: two points with a market
    variance of one half call for the beta 1, and [calculateBeta] answers
    [NaN], having fewer than twenty points. *)
Lemma calculateBeta_needs_twenty_points :
  let a := [0; 1] in
  let m := [0; 1] in
  length a = length m
  /\ ~ (length m < 2)%nat
  /\ sampleVariance m <> 0
  /\ sampleCovariance a m / sampleVariance m = 1
  /\ V2.estimate (Aligned (map Fin a) (map Fin m)) = (NaN, 2%nat)
  /\ V2.calculateBeta (map Fin a) (map Fin m) <> Fin (sampleCovariance a m / sampleVariance m).
Proof. by_compute. Qed.

(** * C4: prices to returns *)

Lemma fold_left_ext_in {A B} (f g : A -> B -> A) (l : list B) (a : A) :
  (forall x, In x l -> forall s, f s x = g s x) ->
  fold_left f l a = fold_left g l a.
Proof.
  revert a. induction l as [|x l IH]; intros a H; simpl; [done|].
  rewrite H by (by left). apply IH. intros y Hy. apply H. by right.
Qed.

(** The loop over [i = 1 .. length - 1] that reads the rows [i - 1] and
    [i] visits the consecutive pairs in order. *)
Lemma fold_left_consecutive {A T} (g : T -> A -> A -> T) (l : list A) (s : T) :
  fold_left
    (fun s i =>
       match l !! (i - 1)%nat, l !! i with
       | Some x, Some y => g s x y
       | _, _ => s
       end)
    (seq 1 (length l - 1)) s
  = fold_left (fun s p => g s (fst p) (snd p)) (consecutive l) s.
Proof.
  revert s. induction l as [|x [|y l] IH]; intros s; try done.
  change (consecutive (x :: y :: l)) with ((x, y) :: consecutive (y :: l)).
  change (length (x :: y :: l) - 1)%nat with (S (length l)).
  cbn [seq fold_left]. rewrite <- IH.
  change (length (y :: l) - 1)%nat with (length l - 0)%nat. rewrite Nat.sub_0_r.
  rewrite <- (seq_shift (length l) 1), fold_left_map.
  apply fold_left_ext_in. intros i Hi s'. apply in_seq in Hi.
  destruct i as [|i]; [lia|]. cbn. by rewrite Nat.sub_0_r.
Qed.

Lemma fold_left_push {A B} (keep : A -> bool) (emit : A -> B) (l : list A) (acc : list B) :
  fold_left (fun rets p => if keep p then rets ++ [emit p] else rets) l acc
  = acc ++ map emit (List.filter keep l).
Proof.
  revert acc. induction l as [|x l IH]; intros acc; simpl.
  - by rewrite app_nil_r.
  - rewrite IH. destruct (keep x); simpl; [|done]. by rewrite <- app_assoc.
Qed.

(** What the second script's [toReturns] computes: the return rows of the
    consecutive pairs with two positive closes. *)
Lemma toReturns2_spec (rows : list priceRow) :
  V2.toReturns rows = map returnOf (List.filter bothPositive (consecutive rows)).
Proof.
  unfold V2.toReturns.
  etrans.
  { apply (fold_left_consecutive
             (fun rets row0 row1 =>
                if ngt (close row0) (of_Z 0) && ngt (close row1) (of_Z 0)
                then rets ++ [ReturnRow (p_date row1) (close row1 / close row0 - of_Z 1)%num]
                else rets)). }
  apply (fold_left_push bothPositive returnOf (consecutive rows) []).
Qed.

Lemma toReturns1_spec (rows : list priceRow) :
  V1.toReturns rows = map returnOf (List.filter keeps1 (consecutive rows)).
Proof.
  unfold V1.toReturns.
  etrans.
  { apply (fold_left_consecutive
             (fun rets row0 row1 =>
                if negb (isFinite (close row0)) || negb (isFinite (close row1))
                   || nle (close row0) (of_Z 0)
                then rets
                else rets ++ [ReturnRow (p_date row1) (close row1 / close row0 - of_Z 1)%num])). }
  etrans; [|apply (fold_left_push keeps1 returnOf (consecutive rows) [])].
  apply fold_left_ext_in. intros [row0 row1] _ rets. unfold keeps1. cbn [fst snd].
  by destruct (negb (isFinite (close row0)) || negb (isFinite (close row1))
               || nle (close row0) (of_Z 0)).
Qed.

(** C4 on the first script.  The pair (100, 0) has a close that is not
    positive, and [toReturns] of version 0.1.0 emits a row for it, of value
    [-1]; the second script skips the pair. *)
Theorem toReturns1_emits_nonpositive_close :
  bothPositive (PriceRow "2024-01-02" (of_Z 100), PriceRow "2024-01-03" (of_Z 0)) = false
  /\ V1.toReturns zero_tick = [ReturnRow "2024-01-03" (of_Z (-1))]
  /\ V2.toReturns zero_tick = [].
Proof. by_compute. Qed.

(** X1.  The second script's [toReturns]: for every price history, one row
    [{date: p1.date, value: p1.close/p0.close - 1}] per consecutive pair with
    two strictly positive closes, in order, every other pair skipped; the
    value of a kept pair of closes [q0], [q1] is the real [q1 / q0 - 1]. *)
Theorem toReturns2_emits_positive_pairs (rows : list priceRow) :
  V2.toReturns rows = map returnOf (List.filter bothPositive (consecutive rows))
  /\ (forall d0 d1 q0 q1,
        bothPositive (PriceRow d0 (Fin q0), PriceRow d1 (Fin q1)) = true ->
        0 < q0 /\ 0 < q1
        /\ returnOf (PriceRow d0 (Fin q0), PriceRow d1 (Fin q1))
           = ReturnRow d1 (Fin (q1 / q0 - 1))).
Proof.
  split; [apply toReturns2_spec|].
  intros d0 d1 q0 q1 H. unfold bothPositive in H. cbn in H.
  apply andb_true_iff in H as [H0 H1].
  apply bool_decide_eq_true_1 in H0, H1.
  rewrite Qc_of_Z_0 in H0, H1.
  split; [done|]. split; [done|].
  unfold returnOf. cbn [fst snd close p_date]. f_equal.
  rewrite ndiv_Fin by (intros ->; by apply Qclt_not_eq in H0).
  cbn. repeat f_equal; apply Qc_is_canon; reflexivity.
Qed.

(** * C6: aligning two return series *)

Lemma dates_cons (a : returnRow) (l : list returnRow) :
  dates (a :: l) = {[date a]} ∪ dates l.
Proof. reflexivity. Qed.

Lemma mktMap_fold_dom (l : list returnRow) (m0 : gmap string num) :
  dom (fold_left (fun m x => <[date x := r x]> m) l m0) = dom m0 ∪ dates l.
Proof.
  revert m0. induction l as [|x l IH]; intros m0; simpl.
  - change (dates []) with (∅ : gset string). set_solver.
  - rewrite IH, dom_insert_L, dates_cons. set_solver.
Qed.

Lemma mktMap_dom (mktRets : list returnRow) : dom (mktMap mktRets) = dates mktRets.
Proof. unfold mktMap. rewrite mktMap_fold_dom. set_solver. Qed.

(** A value of the map is the return of a market row of that date. *)
Lemma mktMap_fold_lookup (l : list returnRow) (m0 : gmap string num) d v :
  fold_left (fun m x => <[date x := r x]> m) l m0 !! d = Some v ->
  m0 !! d = Some v \/ In (ReturnRow d v) l.
Proof.
  revert m0. induction l as [|x l IH]; intros m0 H; simpl in *; [by left|].
  apply IH in H as [H|H]; [|by right; right].
  destruct (decide (date x = d)) as [<-|Hne].
  - rewrite lookup_insert_eq in H. injection H as <-. right. left. by destruct x.
  - rewrite lookup_insert_ne in H by done. by left.
Qed.

Lemma mktMap_lookup (mktRets : list returnRow) d v :
  mktMap mktRets !! d = Some v -> In (ReturnRow d v) mktRets.
Proof.
  intros H. apply mktMap_fold_lookup in H as [H|H]; [|done].
  by rewrite lookup_empty in H.
Qed.

Lemma alignReturns_fold (m : gmap string num) (l : list returnRow) (acc : aligned) :
  fold_left
    (fun acc a =>
       match m !! date a with
       | None => acc
       | Some v => Aligned (asset acc ++ [r a]) (mkt acc ++ [v])
       end) l acc
  = Aligned
      (asset acc ++ map r (List.filter (fun a => bool_decide (date a ∈ dom m)) l))
      (mkt acc ++ map (fun a => default NaN (m !! date a))
                    (List.filter (fun a => bool_decide (date a ∈ dom m)) l)).
Proof.
  revert acc. induction l as [|a l IH]; intros acc; simpl.
  - rewrite !app_nil_r. by destruct acc.
  - rewrite IH. destruct (m !! date a) as [v|] eqn:Hm.
    + rewrite bool_decide_eq_true_2 by (apply elem_of_dom; eauto).
      simpl. rewrite Hm. simpl. by rewrite <- !app_assoc.
    + rewrite bool_decide_eq_false_2; [done|].
      intros H%elem_of_dom. rewrite Hm in H. by destruct H.
Qed.

Lemma alignReturns_spec (assetRets mktRets : list returnRow) :
  V1.alignReturns assetRets mktRets
  = Aligned (map r (common assetRets mktRets))
      (map (fun a => default NaN (mktMap mktRets !! date a)) (common assetRets mktRets)).
Proof.
  unfold V1.alignReturns. cbv zeta. rewrite alignReturns_fold, mktMap_dom. done.
Qed.

Lemma elem_of_dates (a : returnRow) (l : list returnRow) :
  In a l -> date a ∈ dates l.
Proof.
  intros Ha. unfold dates. apply elem_of_list_to_set, list_elem_of_In.
  by apply in_map.
Qed.

(** With one row per date, the rows of a series whose date lies in a set
    are as many as the dates of the series in that set. *)
Lemma length_filter_dates (l : list returnRow) (D : gset string) :
  NoDup (map date l) ->
  length (List.filter (fun a => bool_decide (date a ∈ D)) l) = size (dates l ∩ D).
Proof.
  induction l as [|a l IH]; intros Hnd.
  - change (dates []) with (∅ : gset string).
    by rewrite intersection_empty_l_L, size_empty.
  - change (map date (a :: l)) with (date a :: map date l) in Hnd.
    apply NoDup_cons in Hnd as [Hnotin Hnd].
    assert (Ha : date a ∉ dates l).
    { unfold dates. by rewrite elem_of_list_to_set. }
    rewrite dates_cons. cbn [List.filter].
    destruct (bool_decide (date a ∈ D)) eqn:HD.
    + apply bool_decide_eq_true_1 in HD. cbn [length]. rewrite IH by done.
      assert (Hset : ({[date a]} ∪ dates l) ∩ D = {[date a]} ∪ (dates l ∩ D))
        by set_solver.
      rewrite Hset.
      rewrite (size_union ({[date a]} : gset string) (dates l ∩ D)) by set_solver.
      by rewrite size_singleton.
    + apply bool_decide_eq_false_1 in HD. rewrite IH by done.
      f_equal. set_solver.
Qed.

Lemma filter_none {A} (f : A -> bool) (l : list A) :
  (forall x, In x l -> f x = false) -> List.filter f l = [].
Proof.
  induction l as [|x l IH]; intros H; [done|]. cbn [List.filter].
  rewrite H by (by left). apply IH. intros y Hy. apply H. by right.
Qed.

(** The dates of the common rows are the common dates. *)
Lemma dates_common (assetRets mktRets : list returnRow) :
  list_to_set (map date (common assetRets mktRets)) = dates assetRets ∩ dates mktRets.
Proof.
  unfold common. induction assetRets as [|a l IH].
  - change (dates []) with (∅ : gset string). cbn. set_solver.
  - rewrite dates_cons. cbn [List.filter].
    destruct (bool_decide (date a ∈ dates mktRets)) eqn:Ha.
    + apply bool_decide_eq_true_1 in Ha. cbn [map list_to_set]. rewrite IH. set_solver.
    + apply bool_decide_eq_false_1 in Ha. rewrite IH. set_solver.
Qed.

(** A list has as many elements as its set when it repeats none, and more
    when it repeats one. *)
Lemma size_list_to_set_le (l : list string) :
  (size (list_to_set l : gset string) <= length l)%nat.
Proof.
  induction l as [|x l IH]; cbn [list_to_set length].
  - by rewrite size_empty.
  - destruct (decide (x ∈ (list_to_set l : gset string))) as [Hx|Hx].
    + assert (Heq : {[x]} ∪ (list_to_set l : gset string) = list_to_set l) by set_solver.
      rewrite Heq. lia.
    + rewrite size_union by set_solver. rewrite size_singleton. lia.
Qed.

Lemma size_list_to_set_NoDup (l : list string) :
  size (list_to_set l : gset string) = length l <-> NoDup l.
Proof.
  split; [|apply size_list_to_set].
  induction l as [|x l IH]; cbn [list_to_set length]; [constructor|].
  intros Hsize. pose proof (size_list_to_set_le l) as Hle.
  destruct (decide (x ∈ (list_to_set l : gset string))) as [Hx|Hx].
  - assert (Heq : {[x]} ∪ (list_to_set l : gset string) = list_to_set l) by set_solver.
    rewrite Heq in Hsize. lia.
  - rewrite size_union in Hsize by set_solver. rewrite size_singleton in Hsize.
    apply NoDup_cons. split; [by rewrite elem_of_list_to_set in Hx|].
    apply IH. lia.
Qed.

Lemma NoDup_common (assetRets mktRets : list returnRow) :
  NoDup (map date assetRets) -> NoDup (map date (common assetRets mktRets)).
Proof.
  unfold common. induction assetRets as [|a l IH]; [done|].
  cbn [map List.filter]. intros [Ha Hl]%NoDup_cons.
  destruct (bool_decide _); [|by apply IH]. cbn [map]. apply NoDup_cons.
  split; [|by apply IH]. intros Hin. apply Ha.
  apply list_elem_of_In in Hin. apply in_map_iff in Hin as (y & Hy & Hin).
  apply filter_In in Hin as [Hin _]. apply list_elem_of_In, in_map_iff. by exists y.
Qed.

(** C6.  The aligner returns two vectors of one length; the asset vector
    holds the returns of the asset rows whose date the market series has, in
    the asset's order, and the market vector holds, row for row, the market
    return of the same date.  The length is the number of those asset rows:
    it is at least the number of dates common to both series, and it is that
    number exactly when no two of those rows have one date; an asset series
    with one row per date is such.  Without a common date both vectors are
    empty.  Both scripts align alike. *)
Theorem alignReturns_intersects_dates (assetRets mktRets : list returnRow) :
  let al := V1.alignReturns assetRets mktRets in
  V2.alignReturns assetRets mktRets = al
  /\ length (asset al) = length (mkt al)
  /\ asset al = map r (common assetRets mktRets)
  /\ Forall2 (fun a y => In (ReturnRow (date a) y) mktRets)
       (common assetRets mktRets) (mkt al)
  /\ length (asset al) = length (common assetRets mktRets)
  /\ (size (dates assetRets ∩ dates mktRets) <= length (asset al))%nat
  /\ (length (asset al) = size (dates assetRets ∩ dates mktRets)
      <-> NoDup (map date (common assetRets mktRets)))
  /\ (NoDup (map date assetRets) ->
      length (asset al) = size (dates assetRets ∩ dates mktRets))
  /\ (dates assetRets ∩ dates mktRets = ∅ -> asset al = [] /\ mkt al = []).
Proof.
  cbv zeta. split; [reflexivity|].
  rewrite alignReturns_spec. cbn [asset mkt].
  split; [by rewrite !length_map|].
  split; [done|].
  split.
  { apply Forall2_fmap_r, Forall_Forall2_diag, Forall_forall.
    intros a Ha. unfold common in Ha. apply list_elem_of_In, filter_In in Ha as [_ Ha].
    apply bool_decide_eq_true_1 in Ha. rewrite <- mktMap_dom in Ha.
    apply elem_of_dom in Ha as [v Hv]. unfold compose. rewrite Hv. by apply mktMap_lookup. }
  split; [by rewrite length_map|].
  assert (Hiff : length (map r (common assetRets mktRets))
                 = size (dates assetRets ∩ dates mktRets)
                 <-> NoDup (map date (common assetRets mktRets))).
  { rewrite <- dates_common, <- size_list_to_set_NoDup, !length_map. split; by intros ->. }
  split.
  { rewrite <- dates_common, length_map, <- (length_map date). apply size_list_to_set_le. }
  split; [exact Hiff|].
  split.
  { intros Hnd. by apply Hiff, NoDup_common. }
  intros Hdisj.
  assert (Hc : common assetRets mktRets = []).
  { apply filter_none. intros a Ha. apply bool_decide_eq_false_2. intros Hin.
    apply elem_of_dates in Ha. set_solver. }
  by rewrite Hc.
Qed.

(** Two sample series that share two of their dates. *)
Lemma alignReturns_intersects_dates_witness :
  NoDup (map date sample_asset_returns)
  /\ V1.alignReturns sample_asset_returns sample_market_returns
     = Aligned [Fin (Q2Qc (-2 # 101)); Fin (Q2Qc (3 # 99))]
         [Fin (Q2Qc (-2 # 201)); Fin (Q2Qc (3 # 199))]
  /\ length (asset (V1.alignReturns sample_asset_returns sample_market_returns))
     = size (dates sample_asset_returns ∩ dates sample_market_returns).
Proof.
  assert (Hnd : NoDup (map date sample_asset_returns)) by by_compute.
  split; [exact Hnd|]. split; [by_compute|].
  destruct (alignReturns_intersects_dates sample_asset_returns sample_market_returns)
    as (_ & _ & _ & _ & _ & _ & _ & Hsize & _).
  exact (Hsize Hnd).
Defined.

(** A series that has one date twice: the answer of Stooq is sorted by
    date, and no row of it is dropped for its date.  Its two rows of the
    third of January both find the market's row of that day, and the
    vectors have two entries for the one common date. *)
Lemma alignReturns_counts_a_repeated_date :
  map date repeated_date_returns = ["2024-01-03"; "2024-01-03"]
  /\ map date three_rows_returns = ["2024-01-03"; "2024-01-04"]
  /\ V1.alignReturns repeated_date_returns three_rows_returns
     = Aligned [Fin (Q2Qc (1 # 100)); Fin (Q2Qc (1 # 101))]
         [Fin (Q2Qc (1 # 100)); Fin (Q2Qc (1 # 100))]
  /\ V2.alignReturns repeated_date_returns three_rows_returns
     = V1.alignReturns repeated_date_returns three_rows_returns
  /\ length (asset (V1.alignReturns repeated_date_returns three_rows_returns)) = 2%nat
  /\ size (dates repeated_date_returns ∩ dates three_rows_returns) = 1%nat
  /\ length (asset (V1.alignReturns repeated_date_returns three_rows_returns))
     <> size (dates repeated_date_returns ∩ dates three_rows_returns).
Proof. repeat split; by_compute. Qed.

(** * C2: the portfolio beta *)

Lemma fold_left_nadd_in {A} (f : num -> A -> num) (t : A -> Qc) (l : list A) (acc : Qc) :
  (forall x, In x l -> forall s, f (Fin s) x = Fin (s + t x)) ->
  fold_left f l (Fin acc) = Fin (acc + total_of (map t l)).
Proof.
  revert acc. induction l as [|x l IH]; intros acc Hf; simpl.
  - f_equal. ring.
  - rewrite Hf by (by left). rewrite IH by (intros y Hy; apply Hf; by right).
    f_equal. ring.
Qed.

Lemma portfolioBeta_sum (results : list V1.result) :
  Forall (fun res => isFinite (V1.weight res) = true) results ->
  V1.portfolioBeta results = Fin (total_of (map contribution1 results)).
Proof.
  intros Hw. unfold V1.portfolioBeta, of_Z. rewrite Qc_of_Z_0.
  rewrite (fold_left_nadd_in _ contribution1 results 0).
  { f_equal. ring. }
  intros res Hin s. rewrite Forall_forall in Hw.
  specialize (Hw res (proj2 (list_elem_of_In _ _) Hin)).
  unfold contribution1. destruct (V1.weight res) as [w|]; [|done].
  destruct (V1.beta res) as [b|];
    unfold nadd, nmul, lift2, real, isFinite, of_Z; by rewrite ?Qc_of_Z_0.
Qed.

Lemma total_of_app (l1 l2 : list Qc) :
  total_of (l1 ++ l2) = total_of l1 + total_of l2.
Proof. induction l1 as [|x l1 IH]; simpl; [ring | rewrite IH; ring]. Qed.

Lemma total_of_Permutation (l1 l2 : list Qc) :
  l1 ≡ₚ l2 -> total_of l1 = total_of l2.
Proof.
  induction 1; simpl; try congruence; ring.
Qed.

Lemma insertSorted_Permutation {A} (before : A -> A -> bool) (x : A) (l : list A) :
  insertSorted before x l ≡ₚ x :: l.
Proof.
  induction l as [|y l IH]; simpl; [done|].
  destruct (before y x); [|done]. rewrite IH. apply Permutation_swap.
Qed.

Lemma sort_Permutation {A} (before : A -> A -> bool) (l : list A) :
  sort before l ≡ₚ l.
Proof.
  induction l as [|x l IH]; simpl; [done|].
  rewrite insertSorted_Permutation. by rewrite IH.
Qed.

Lemma betaField_numeric (beta : prim) :
  match beta with PNum _ => True | _ => False end ->
  V2.betaField beta = Ok (shownBeta beta).
Proof. destruct beta as [| | |[q|]|]; try done. Qed.

Lemma renderRows_numeric (results : list V2.result) :
  Forall numericBeta results ->
  V2.renderRows results
  = Ok (map (fun res => V2.Row (V2.weight res) (shownBeta (V2.beta res))) results).
Proof.
  induction 1 as [|res results Hres _ IH]; [done|].
  cbn [V2.renderRows map]. rewrite IH. unfold V2.renderRow.
  by rewrite betaField_numeric.
Qed.

Lemma fold_left_pair_in {A} (f : num * num -> A -> num * num) (t u : A -> Qc)
    (l : list A) (c v : Qc) :
  (forall x, In x l -> forall c v, f (Fin c, Fin v) x = (Fin (c + t x), Fin (v + u x))) ->
  fold_left f l (Fin c, Fin v)
  = (Fin (c + total_of (map t l)), Fin (v + total_of (map u l))).
Proof.
  revert c v. induction l as [|x l IH]; intros c v Hf; simpl.
  - f_equal; f_equal; ring.
  - rewrite Hf by (by left). rewrite IH by (intros y Hy; apply Hf; by right).
    f_equal; f_equal; ring.
Qed.

Lemma recalc_sum (results : list V2.result) :
  Forall (fun res => isFinite (V2.weight res) = true) results ->
  V2.recalc (map (fun res => V2.Row (V2.weight res) (shownBeta (V2.beta res))) results)
  = (Fin (total_of (map contribution2 results)),
     Fin (total_of (map definedWeight results))).
Proof.
  intros Hw. unfold V2.recalc, of_Z. rewrite Qc_of_Z_0.
  rewrite fold_left_map.
  rewrite (fold_left_pair_in _ contribution2 definedWeight results 0 0).
  - f_equal; f_equal; ring.
  - intros res Hin c v. rewrite Forall_forall in Hw.
    specialize (Hw res (proj2 (list_elem_of_In _ _) Hin)).
    unfold contribution2, definedWeight. cbn [V2.w V2.b fst snd].
    destruct (V2.weight res) as [wq|]; [|done].
    destruct (shownBeta (V2.beta res)) as [bq|];
      unfold isNaN, isFinite, negb, nadd, nmul, lift2, real; f_equal; f_equal; ring.
Qed.

(** C2, as amended.  In the first script the portfolio beta is the sum over
    the holdings of the weight times the beta, an undefined beta counting
    for zero.  In the second script the total of the table is the same sum
    taken over the betas as the table shows them, each rounded to two
    decimals, and the cell shows a dash when no holding with a positive
    weight has a defined beta.  Neither divides by the weight of the
    holdings whose beta is defined. *)
Theorem portfolio_beta_is_weighted_sum :
  (forall results : list V1.result,
      Forall (fun res => isFinite (V1.weight res) = true) results ->
      V1.portfolioBeta results = Fin (total_of (map contribution1 results)))
  /\ (forall results : list V2.result,
        Forall (fun res => isFinite (V2.weight res) = true) results ->
        Forall numericBeta results ->
        exists rows,
          V2.renderTable results = Ok (rows, V2.total rows)
          /\ V2.recalc rows
             = (Fin (total_of (map contribution2 results)),
                Fin (total_of (map definedWeight results)))
          /\ V2.total rows
             = if decide (0 < total_of (map definedWeight results))
               then Some (Fin (total_of (map contribution2 results)))
               else None).
Proof.
  split; [apply portfolioBeta_sum|].
  intros results Hw Hb.
  pose proof (sort_Permutation V2.byWeight results) as Hperm.
  set (sorted := sort V2.byWeight results) in *.
  assert (Hw' : Forall (fun res => isFinite (V2.weight res) = true) sorted)
    by (by rewrite Hperm).
  assert (Hb' : Forall numericBeta sorted) by (by rewrite Hperm).
  exists (map (fun res => V2.Row (V2.weight res) (shownBeta (V2.beta res))) sorted).
  assert (Hrecalc :
    V2.recalc (map (fun res => V2.Row (V2.weight res) (shownBeta (V2.beta res))) sorted)
    = (Fin (total_of (map contribution2 results)),
       Fin (total_of (map definedWeight results)))).
  { rewrite recalc_sum by done.
    f_equal; f_equal; apply total_of_Permutation; by rewrite Hperm. }
  split; [|split; [done|]].
  - unfold V2.renderTable. fold sorted. by rewrite renderRows_numeric.
  - unfold V2.total. rewrite Hrecalc. unfold ngt, of_Z. rewrite Qc_of_Z_0.
    destruct (decide (0 < total_of (map definedWeight results))).
    + by rewrite bool_decide_eq_true_2.
    + by rewrite bool_decide_eq_false_2.
Qed.

(** Both scripts on sample results, one of them without a beta. *)
Lemma portfolio_beta_is_weighted_sum_witness :
  V1.portfolioBeta sample_results1 = Fin (total_of (map contribution1 sample_results1))
  /\ exists rows,
       V2.renderTable sample_results2 = Ok (rows, V2.total rows)
       /\ V2.recalc rows
          = (Fin (total_of (map contribution2 sample_results2)),
             Fin (total_of (map definedWeight sample_results2)))
       /\ V2.total rows
          = if decide (0 < total_of (map definedWeight sample_results2))
            then Some (Fin (total_of (map contribution2 sample_results2)))
            else None.
Proof.
  split.
  - apply (proj1 portfolio_beta_is_weighted_sum). by repeat constructor.
  - apply (proj2 portfolio_beta_is_weighted_sum); by repeat constructor.
Defined.

(** C2 as stated fails on the second script.  A click with the single
    holding [AAPL, 100%], whose beta against the market is 1.234 over 21
    points, calls for the portfolio beta 1.234; the table holds the beta
    1.23 and its total is 1.23.  A single holding without a beta calls for
    the portfolio beta 0; the total is the dash. *)
Lemma table_total_of_rounded_betas :
  fst (V2.mb_calc yahoo_env "yahoo" "SPY" "252" "AAPL, 100%" empty_world)
  = Ok (V2.Done
          [V2.Result "AAPL" (Fin 1) (PNum (Fin (Q2Qc (1234 # 1000))))
             (PNum (of_Z 21)) false false]
          [V2.Row (Fin 1) (Fin (Q2Qc (123 # 100)))]
          (Some (Fin (Q2Qc (123 # 100)))))
  /\ 1 * Q2Qc (1234 # 1000) <> Q2Qc (123 # 100)
  /\ V2.renderTable [V2.Result "XYZ" (Fin 1) (PNum NaN) (PNum (of_Z 0)) false true]
     = Ok ([V2.Row (Fin 1) NaN], None).
Proof. by_compute. Qed.

(** * C7: normalizing the weights *)

Lemma positiveWeight_finite (h : holding) : positiveWeight h -> finiteWeight h.
Proof. unfold positiveWeight, finiteWeight. by destruct (h_weight h). Qed.

Lemma weightSum_Fin (holdings : list holding) :
  Forall finiteWeight holdings ->
  fold_left (fun s h => (s + h_weight h)%num) holdings (of_Z 0)
  = Fin (total_of (weights holdings)).
Proof.
  intros Hw. unfold of_Z, weights. rewrite Qc_of_Z_0.
  rewrite (fold_left_nadd_in _ (fun h => real (h_weight h)) holdings 0).
  { f_equal. ring. }
  intros h Hin s. rewrite Forall_forall in Hw.
  specialize (Hw h (proj2 (list_elem_of_In _ _) Hin)). unfold finiteWeight in Hw.
  by destruct (h_weight h).
Qed.

Lemma map_scaled (holdings : list holding) (s : Qc) :
  s <> 0 ->
  Forall finiteWeight holdings ->
  (fun h => Holding (h_ticker h) (h_weight h / Fin s)%num) <$> holdings
  = map (scaled s) holdings.
Proof.
  intros Hs Hw. induction Hw as [|h holdings Hh _ IH]; [done|].
  cbn [fmap list_fmap map]. f_equal; [|apply IH].
  unfold scaled. f_equal. unfold finiteWeight in Hh.
  destruct (h_weight h); [|done]. by apply ndiv_Fin.
Qed.

Lemma total_of_scaled (holdings : list holding) (s : Qc) :
  s <> 0 ->
  total_of (weights (map (scaled s) holdings)) = total_of (weights holdings) / s.
Proof.
  intros Hs. unfold weights. induction holdings as [|h holdings IH]; simpl.
  - field. done.
  - rewrite IH. field. done.
Qed.

Lemma total_of_positive (holdings : list holding) :
  Forall positiveWeight holdings -> holdings <> [] -> 0 < total_of (weights holdings).
Proof.
  intros Hp. induction Hp as [|h holdings Hh Hp IH]; [done|]. intros _.
  unfold weights. cbn [map total_of foldr].
  unfold positiveWeight in Hh. destruct (h_weight h) as [q|]; [|done]. cbn [real].
  destruct holdings as [|h' holdings].
  - simpl. by rewrite Qcplus_0_r.
  - apply Qcplus_pos_pos; [done|]. by apply IH.
Qed.

(** The holdings that either script reads from the text area have positive
    weights. *)
Lemma parseHolding1_positive (line : list ascii) (h : holding) :
  V1.parseHolding line = Some h -> positiveWeight h.
Proof.
  unfold V1.parseHolding. cbv zeta.
  destruct (length _ <? 2)%nat; [done|].
  destruct (negb (isFinite _)); [done|].
  match goal with |- context [ngt ?w _] => destruct (ngt w (of_Z 0)) eqn:Hw end; [|done].
  intros [= <-]. unfold positiveWeight. cbn [h_weight].
  match goal with H : ngt ?w _ = true |- _ => destruct w; [|done] end.
  unfold ngt, of_Z in Hw. rewrite Qc_of_Z_0 in Hw. by apply bool_decide_eq_true_1 in Hw.
Qed.

Lemma parseHolding2_positive (line : list ascii) (h : holding) :
  V2.parseHolding line = Some h -> positiveWeight h.
Proof.
  unfold V2.parseHolding. cbv zeta.
  destruct (truthy _); [|done]. cbn [andb].
  match goal with |- context [ngt ?w _] => destruct (ngt w (of_Z 0)) eqn:Hw end; [|done].
  intros [= <-]. unfold positiveWeight. cbn [h_weight].
  match goal with H : ngt ?w _ = true |- _ => destruct w; [|done] end.
  unfold ngt, of_Z in Hw. rewrite Qc_of_Z_0 in Hw. by apply bool_decide_eq_true_1 in Hw.
Qed.

Lemma omap_Forall {A B} (f : A -> option B) (P : B -> Prop) (l : list A) :
  (forall x y, f x = Some y -> P y) -> Forall P (omap f l).
Proof.
  intros H. induction l as [|x l IH]; simpl; [constructor|].
  destruct (f x) eqn:Hx; [constructor; eauto | done].
Qed.

(** X4.  Every holding that either script reads in the holdings text has a
    finite, positive weight. *)
Lemma parseHoldings_positive (text : string) :
  Forall positiveWeight (V1.parseHoldings text)
  /\ Forall positiveWeight (V2.parseHoldings text).
Proof.
  split; apply omap_Forall.
  - apply parseHolding1_positive.
  - apply parseHolding2_positive.
Qed.

Lemma normalizeWeights1_spec (holdings : list holding) :
  Forall finiteWeight holdings ->
  V1.normalizeWeights holdings
  = if decide (0 < total_of (weights holdings))
    then Ok (map (scaled (total_of (weights holdings))) holdings)
    else Throw "Weights sum to 0.".
Proof.
  intros Hw. unfold V1.normalizeWeights. cbv zeta. rewrite weightSum_Fin by done.
  unfold ngt, of_Z. rewrite Qc_of_Z_0.
  destruct (decide (0 < total_of (weights holdings))) as [Hs|Hs].
  - rewrite bool_decide_eq_true_2 by done. cbn [negb].
    rewrite map_scaled; [done | | done]. intros H0. rewrite H0 in Hs.
    by apply Qclt_not_eq in Hs.
  - by rewrite bool_decide_eq_false_2.
Qed.

Lemma normalizeWeights2_spec (holdings : list holding) :
  Forall positiveWeight holdings ->
  V2.normalizeWeights holdings
  = if decide (0 < total_of (weights holdings))
    then Ok (map (scaled (total_of (weights holdings))) holdings)
    else Throw "No holdings.".
Proof.
  intros Hp. destruct holdings as [|h holdings].
  { rewrite decide_False; [done|]. intros H. by apply Qclt_not_eq in H. }
  assert (Hs : 0 < total_of (weights (h :: holdings))) by (by apply total_of_positive).
  rewrite decide_True by done.
  unfold V2.normalizeWeights.
  assert (Hw : Forall finiteWeight (h :: holdings)).
  { eapply Forall_impl; [exact Hp | apply positiveWeight_finite]. }
  rewrite weightSum_Fin by done.
  rewrite map_scaled; [done | | done]. intros H0. rewrite H0 in Hs.
  by apply Qclt_not_eq in Hs.
Qed.

(** * C10: normalizing a ticker twice *)

(** ** Characters *)

Lemma lowerChar_idem c : lowerChar (lowerChar c) = lowerChar c.
Proof. by_cases_on_char c. Qed.

Lemma upperChar_idem c : upperChar (upperChar c) = upperChar c.
Proof. by_cases_on_char c. Qed.

Lemma upperChar_lowerChar c : upperChar (lowerChar c) = upperChar c.
Proof. by_cases_on_char c. Qed.

Lemma isSpace_lowerChar c : isSpace (lowerChar c) = isSpace c.
Proof. by_cases_on_char c. Qed.

Lemma isSpace_upperChar c : isSpace (upperChar c) = isSpace c.
Proof. by_cases_on_char c. Qed.

Lemma isLetter_lowerChar c : isLetter (lowerChar c) = isLetter c.
Proof. by_cases_on_char c. Qed.

Lemma isLetter_upperChar c : isLetter (upperChar c) = isLetter c.
Proof. by_cases_on_char c. Qed.

Lemma isDot_lowerChar c : bool_decide (lowerChar c = dot) = bool_decide (c = dot).
Proof. by_cases_on_char c. Qed.

Lemma isDot_upperChar c : bool_decide (upperChar c = dot) = bool_decide (c = dot).
Proof. by_cases_on_char c. Qed.

Lemma hyphenate_idem c : hyphenate (hyphenate c) = hyphenate c.
Proof. by_cases_on_char c. Qed.

Lemma isSpace_hyphenate c : isSpace (hyphenate c) = isSpace c.
Proof. by_cases_on_char c. Qed.

Lemma upperChar_hyphenate c : upperChar (hyphenate c) = hyphenate (upperChar c).
Proof. by_cases_on_char c. Qed.

(** ** Trimming *)

Lemma dropSpaces_clean l : startsClean (dropSpaces l).
Proof.
  induction l as [|c l IH]; simpl; [done|].
  destruct (isSpace c) eqn:Hc; [done|]. exact Hc.
Qed.

Lemma dropSpaces_id l : startsClean l -> dropSpaces l = l.
Proof. destruct l as [|c l]; simpl; [done|]. by intros ->. Qed.

(** [dropSpaces] removes a prefix. *)
Lemma dropSpaces_suffix l : exists pre, l = pre ++ dropSpaces l.
Proof.
  induction l as [|c l [pre IH]]; simpl; [by exists []|].
  destruct (isSpace c).
  - exists (c :: pre). simpl. by f_equal.
  - by exists [].
Qed.

Lemma startsClean_app_l l1 l2 : l1 <> [] -> startsClean (l1 ++ l2) -> startsClean l1.
Proof. by destruct l1. Qed.

Lemma trim_clean l :
  startsClean (JsString.trim l) /\ startsClean (rev (JsString.trim l)).
Proof.
  unfold JsString.trim. rewrite rev_involutive. split; [|apply dropSpaces_clean].
  set (a := dropSpaces l).
  destruct (dropSpaces_suffix (rev a)) as [pre Hpre].
  set (b := dropSpaces (rev a)) in *.
  destruct (decide (rev b = [])) as [->|Hb]; [done|].
  apply (startsClean_app_l _ (rev pre)); [done|].
  rewrite <- rev_app_distr, <- Hpre, rev_involutive. apply dropSpaces_clean.
Qed.

Lemma trim_id l : startsClean l -> startsClean (rev l) -> JsString.trim l = l.
Proof.
  intros H1 H2. unfold JsString.trim.
  rewrite (dropSpaces_id l), (dropSpaces_id (rev l)) by done. apply rev_involutive.
Qed.

Lemma trim_idem l : JsString.trim (JsString.trim l) = JsString.trim l.
Proof. destruct (trim_clean l). by apply trim_id. Qed.

Lemma Forall_startsClean l :
  Forall (fun c => isSpace c = false) l -> startsClean l.
Proof. by destruct 1. Qed.

Lemma trim_no_spaces l :
  Forall (fun c => isSpace c = false) l -> JsString.trim l = l.
Proof.
  intros H. apply trim_id; apply Forall_startsClean; [done|].
  by apply List.Forall_rev.
Qed.

Lemma removeSpaces_clean l :
  Forall (fun c => isSpace c = false) (JsString.removeSpaces l).
Proof.
  induction l as [|c l IH]; simpl; [constructor|].
  destruct (isSpace c) eqn:Hc; simpl; [done | by constructor].
Qed.

Lemma removeSpaces_id l :
  Forall (fun c => isSpace c = false) l -> JsString.removeSpaces l = l.
Proof.
  induction 1 as [|c l Hc _ IH]; simpl; [done|].
  rewrite Hc. simpl. by f_equal.
Qed.

(** ** Maps on characters that keep white space as it is *)

Section CharMap.
Variable f : ascii -> ascii.
Hypothesis f_space : forall c, isSpace (f c) = isSpace c.

Lemma dropSpaces_map l : dropSpaces (map f l) = map f (dropSpaces l).
Proof.
  induction l as [|c l IH]; simpl; [done|].
  rewrite f_space. by destruct (isSpace c).
Qed.

Lemma trim_map l : JsString.trim (map f l) = map f (JsString.trim l).
Proof.
  unfold JsString.trim.
  by rewrite dropSpaces_map, <- map_rev, dropSpaces_map, map_rev.
Qed.

Lemma removeSpaces_map l :
  JsString.removeSpaces (map f l) = map f (JsString.removeSpaces l).
Proof.
  induction l as [|c l IH]; simpl; [done|].
  rewrite f_space. destruct (isSpace c); simpl; [done | by f_equal].
Qed.

Lemma no_spaces_map l :
  Forall (fun c => isSpace c = false) l ->
  Forall (fun c => isSpace c = false) (map f l).
Proof.
  induction 1 as [|c l Hc _ IH]; simpl; constructor; [by rewrite f_space | done].
Qed.

End CharMap.

(** ** Maps on characters that keep letters and dots as they are *)

Section CaseMap.
Variable f : ascii -> ascii.
Hypothesis f_letter : forall c, isLetter (f c) = isLetter c.
Hypothesis f_dot : forall c, bool_decide (f c = dot) = bool_decide (c = dot).

Lemma lettersThenDot_map n rl :
  JsString.lettersThenDot n (map f rl) = JsString.lettersThenDot n rl.
Proof.
  revert n. induction rl as [|c rl IH]; intros n; simpl; [done|].
  rewrite f_letter, f_dot. by destruct (isLetter c).
Qed.

Lemma hasSuffix_map l : JsString.hasSuffix (map f l) = JsString.hasSuffix l.
Proof. unfold JsString.hasSuffix. by rewrite <- map_rev, lettersThenDot_map. Qed.

Lemma includesDot_map l : JsString.includesDot (map f l) = JsString.includesDot l.
Proof.
  unfold JsString.includesDot. induction l as [|c l IH]; simpl; [done|].
  by rewrite f_dot, IH.
Qed.

End CaseMap.

Lemma hasSuffix_us l : JsString.hasSuffix (l ++ chars ".us") = true.
Proof. unfold JsString.hasSuffix. by rewrite rev_app_distr. Qed.

Lemma hasSuffix_US l : JsString.hasSuffix (l ++ chars ".US") = true.
Proof. unfold JsString.hasSuffix. by rewrite rev_app_distr. Qed.

Lemma lower_idem l : JsString.toLowerCase (JsString.toLowerCase l) = JsString.toLowerCase l.
Proof.
  unfold JsString.toLowerCase. rewrite map_map. apply map_ext, lowerChar_idem.
Qed.

Lemma upper_idem l : JsString.toUpperCase (JsString.toUpperCase l) = JsString.toUpperCase l.
Proof.
  unfold JsString.toUpperCase. rewrite map_map. apply map_ext, upperChar_idem.
Qed.

Lemma upper_lower l : JsString.toUpperCase (JsString.toLowerCase l) = JsString.toUpperCase l.
Proof.
  unfold JsString.toUpperCase, JsString.toLowerCase. rewrite map_map.
  apply map_ext, upperChar_lowerChar.
Qed.

Lemma chars_str l : chars (str l) = l.
Proof. apply list_ascii_of_string_of_list_ascii. Qed.

Lemma includesDot_nonempty l : JsString.includesDot l = true -> l <> [].
Proof. by destruct l. Qed.

(** ** The Stooq form *)

Lemma lower_app_us l :
  JsString.toLowerCase (l ++ chars ".us") = JsString.toLowerCase l ++ chars ".us".
Proof. unfold JsString.toLowerCase. by rewrite map_app. Qed.

Lemma lower_app_US l :
  JsString.toLowerCase (l ++ chars ".US") = JsString.toLowerCase l ++ chars ".us".
Proof. unfold JsString.toLowerCase. by rewrite map_app. Qed.

Lemma upper_app_us l :
  JsString.toUpperCase (l ++ chars ".us") = JsString.toUpperCase l ++ chars ".US".
Proof. unfold JsString.toUpperCase. by rewrite map_app. Qed.

Lemma no_spaces_app_us l :
  Forall (fun c => isSpace c = false) l ->
  Forall (fun c => isSpace c = false) (l ++ chars ".us").
Proof. intros H. apply Forall_app. split; [done|]. by repeat constructor. Qed.

Lemma lower_no_spaces_of_removeSpaces t :
  Forall (fun c => isSpace c = false) (JsString.toLowerCase (JsString.removeSpaces t)).
Proof. apply no_spaces_map; [apply isSpace_lowerChar | apply removeSpaces_clean]. Qed.

Lemma hasSuffix_lower l :
  JsString.hasSuffix (JsString.toLowerCase l) = JsString.hasSuffix l.
Proof. apply hasSuffix_map; [apply isLetter_lowerChar | apply isDot_lowerChar]. Qed.

Lemma includesDot_lower l :
  JsString.includesDot (JsString.toLowerCase l) = JsString.includesDot l.
Proof. apply includesDot_map, isDot_lowerChar. Qed.

Lemma trim_lower l :
  JsString.trim (JsString.toLowerCase l) = JsString.toLowerCase (JsString.trim l).
Proof. apply trim_map, isSpace_lowerChar. Qed.

Lemma trim_upper l :
  JsString.trim (JsString.toUpperCase l) = JsString.toUpperCase (JsString.trim l).
Proof. apply trim_map, isSpace_upperChar. Qed.

Lemma removeSpaces_upper l :
  JsString.removeSpaces (JsString.toUpperCase l)
  = JsString.toUpperCase (JsString.removeSpaces l).
Proof. apply removeSpaces_map, isSpace_upperChar. Qed.

(** The three forms that [stooqForm] answers with. *)
Lemma stooqForm_cases (t : list ascii) :
  let t' := JsString.removeSpaces t in
  (JsString.hasSuffix t = true /\ stooqForm t = JsString.toLowerCase t)
  \/ (JsString.hasSuffix t = false /\ JsString.includesDot t' = true
      /\ stooqForm t = JsString.toLowerCase t')
  \/ (JsString.hasSuffix t = false /\ JsString.includesDot t' = false
      /\ stooqForm t = JsString.toLowerCase t' ++ chars ".us").
Proof.
  cbv zeta. unfold stooqForm.
  destruct (JsString.hasSuffix t); [by left|]. right.
  destruct (JsString.includesDot (JsString.removeSpaces t)); [by left | by right].
Qed.

Lemma stooqForm_suffix (t : list ascii) :
  JsString.hasSuffix t = true -> stooqForm t = JsString.toLowerCase t.
Proof. intros H. unfold stooqForm. by rewrite H. Qed.

Lemma stooqForm_dotted (t : list ascii) :
  JsString.removeSpaces t = t -> JsString.includesDot t = true ->
  stooqForm t = JsString.toLowerCase t.
Proof.
  intros Hr Hd. unfold stooqForm. cbv zeta. rewrite Hr, Hd.
  by destruct (JsString.hasSuffix t).
Qed.

(** A Stooq form is left alone by the first script's normalization. *)
Lemma stooqForm_fixed1 (t : list ascii) :
  t <> [] -> JsString.trim t = t ->
  let y := stooqForm t in
  JsString.trim y = y /\ y <> [] /\ stooqForm y = y.
Proof.
  intros Hne Ht. cbv zeta.
  pose proof (lower_no_spaces_of_removeSpaces t) as Hclean.
  destruct (stooqForm_cases t) as [[Hs ->]|[(Hs & Hd & ->)|(Hs & Hd & ->)]].
  - split; [|split].
    + by rewrite trim_lower, Ht.
    + by destruct t.
    + rewrite stooqForm_suffix by (by rewrite hasSuffix_lower). apply lower_idem.
  - split; [by apply trim_no_spaces|]. split.
    { apply includesDot_nonempty in Hd. by destruct (JsString.removeSpaces t). }
    rewrite stooqForm_dotted; [apply lower_idem | by apply removeSpaces_id |].
    by rewrite includesDot_lower.
  - split; [by apply trim_no_spaces, no_spaces_app_us|]. split.
    { intros H. by apply app_eq_nil in H as [_ H]. }
    rewrite stooqForm_suffix by apply hasSuffix_us.
    by rewrite lower_app_us, lower_idem.
Qed.

(** A Stooq form of an upper-case ticker is left alone by the second
    script's normalization, which puts it back in upper case first. *)
Lemma stooqForm_fixed2 (t : list ascii) :
  t <> [] -> JsString.trim t = t -> JsString.toUpperCase t = t ->
  let y := stooqForm t in
  let t2 := JsString.toUpperCase (JsString.trim y) in
  t2 <> [] /\ stooqForm t2 = y.
Proof.
  intros Hne Ht Hu. cbv zeta.
  pose proof (lower_no_spaces_of_removeSpaces t) as Hclean.
  assert (Hu' : JsString.toUpperCase (JsString.removeSpaces t) = JsString.removeSpaces t)
    by (by rewrite <- removeSpaces_upper, Hu).
  destruct (stooqForm_cases t) as [[Hs ->]|[(Hs & Hd & ->)|(Hs & Hd & ->)]].
  - rewrite trim_lower, Ht, upper_lower, Hu.
    split; [done|]. by apply stooqForm_suffix.
  - rewrite trim_no_spaces by done. rewrite upper_lower, Hu'.
    split; [by apply includesDot_nonempty|].
    apply stooqForm_dotted; [|done]. apply removeSpaces_id, removeSpaces_clean.
  - rewrite trim_no_spaces by (by apply no_spaces_app_us).
    rewrite upper_app_us, upper_lower, Hu'.
    split; [intros H; by apply app_eq_nil in H as [_ H]|].
    rewrite stooqForm_suffix by apply hasSuffix_US. apply lower_app_US.
Qed.

Lemma normalizeToStooqSymbol_chars (rawTicker : string) :
  chars (V1.normalizeToStooqSymbol rawTicker)
  = match JsString.trim (chars rawTicker) with
    | [] => []
    | _ => stooqForm (JsString.trim (chars rawTicker))
    end.
Proof.
  unfold V1.normalizeToStooqSymbol, stooqForm. cbv zeta.
  destruct (JsString.trim (chars rawTicker)) as [|c t]; [done|].
  destruct (JsString.hasSuffix (c :: t)); [apply chars_str|].
  destruct (JsString.includesDot _); apply chars_str.
Qed.

Lemma str_chars (s : string) : str (chars s) = s.
Proof. apply string_of_list_ascii_of_string. Qed.

Lemma chars_inj (s1 s2 : string) : chars s1 = chars s2 -> s1 = s2.
Proof. intros H. by rewrite <- (str_chars s1), <- (str_chars s2), H. Qed.

Lemma normalizeToStooqSymbol_idem (rawTicker : string) :
  V1.normalizeToStooqSymbol (V1.normalizeToStooqSymbol rawTicker)
  = V1.normalizeToStooqSymbol rawTicker.
Proof.
  apply chars_inj.
  rewrite (normalizeToStooqSymbol_chars (V1.normalizeToStooqSymbol rawTicker)).
  rewrite (normalizeToStooqSymbol_chars rawTicker).
  destruct (JsString.trim (chars rawTicker)) as [|c t] eqn:Ht; [done|].
  destruct (stooqForm_fixed1 (c :: t)) as (Hy1 & Hy2 & Hy3); [done | |].
  { rewrite <- Ht. apply trim_idem. }
  rewrite Hy1. destruct (stooqForm (c :: t)); [done | exact Hy3].
Qed.

Lemma normalizeTicker_chars (raw source : string) :
  chars (V2.normalizeTicker raw source)
  = match JsString.toUpperCase (JsString.trim (chars raw)) with
    | [] => []
    | t => if decide (source = "stooq") then stooqForm t
           else JsString.dotsToHyphens t
    end.
Proof.
  unfold V2.normalizeTicker, stooqForm. cbv zeta.
  destruct (JsString.toUpperCase (JsString.trim (chars raw))) as [|c t]; [done|].
  destruct (decide (source = "stooq")); [|apply chars_str].
  destruct (JsString.hasSuffix (c :: t)); [apply chars_str|].
  destruct (JsString.includesDot _); apply chars_str.
Qed.

Lemma upper_trim_fixed (l : list ascii) :
  let t := JsString.toUpperCase (JsString.trim l) in
  JsString.trim t = t /\ JsString.toUpperCase t = t.
Proof.
  cbv zeta. split; [|apply upper_idem].
  by rewrite trim_upper, trim_idem.
Qed.

Lemma dotsToHyphens_fixed (t : list ascii) :
  JsString.trim t = t -> JsString.toUpperCase t = t ->
  let y := JsString.dotsToHyphens t in
  JsString.dotsToHyphens (JsString.toUpperCase (JsString.trim y)) = y.
Proof.
  intros Ht Hu. cbv zeta.
  change JsString.dotsToHyphens with (map hyphenate).
  rewrite trim_map, Ht by apply isSpace_hyphenate.
  unfold JsString.toUpperCase. rewrite !map_map.
  rewrite <- Hu at 2. unfold JsString.toUpperCase. rewrite map_map.
  apply map_ext. intros c. by rewrite upperChar_hyphenate, hyphenate_idem.
Qed.

Lemma normalizeTicker_idem (raw source : string) :
  V2.normalizeTicker (V2.normalizeTicker raw source) source
  = V2.normalizeTicker raw source.
Proof.
  apply chars_inj.
  rewrite (normalizeTicker_chars (V2.normalizeTicker raw source)).
  rewrite (normalizeTicker_chars raw).
  destruct (upper_trim_fixed (chars raw)) as [Ht Hu].
  destruct (JsString.toUpperCase (JsString.trim (chars raw))) as [|c t] eqn:Heq; [done|].
  destruct (decide (source = "stooq")) as [Hsrc|Hsrc].
  - destruct (stooqForm_fixed2 (c :: t)) as [Hne H2]; [done..|].
    destruct (JsString.toUpperCase (JsString.trim (stooqForm (c :: t)))); [done | exact H2].
  - pose proof (dotsToHyphens_fixed (c :: t) Ht Hu) as H. cbv zeta in H.
    destruct (JsString.toUpperCase (JsString.trim (JsString.dotsToHyphens (c :: t))));
      exact H.
Qed.

(** ** Texts of ASCII characters *)

Lemma isAscii_lowerChar c : isAscii (lowerChar c) = isAscii c.
Proof. by_cases_on_char c. Qed.

Lemma isAscii_upperChar c : isAscii (upperChar c) = isAscii c.
Proof. by_cases_on_char c. Qed.

Lemma isAscii_hyphenate c : isAscii (hyphenate c) = isAscii c.
Proof. by_cases_on_char c. Qed.

Lemma ascii_map (f : ascii -> ascii) (l : list ascii) :
  (forall c, isAscii (f c) = isAscii c) ->
  Forall (fun c => isAscii c = true) l -> Forall (fun c => isAscii c = true) (map f l).
Proof.
  intros Hf. induction 1 as [|c l Hc _ IH]; cbn [map]; constructor; [|done].
  by rewrite Hf.
Qed.

Lemma ascii_dropSpaces (l : list ascii) :
  Forall (fun c => isAscii c = true) l -> Forall (fun c => isAscii c = true) (dropSpaces l).
Proof.
  induction 1 as [|c l Hc Hl IH]; cbn [dropSpaces]; [constructor|].
  destruct (isSpace c); [done | by constructor].
Qed.

Lemma ascii_trim (l : list ascii) :
  Forall (fun c => isAscii c = true) l ->
  Forall (fun c => isAscii c = true) (JsString.trim l).
Proof.
  intros H. unfold JsString.trim.
  apply List.Forall_rev, ascii_dropSpaces, List.Forall_rev, ascii_dropSpaces, H.
Qed.

Lemma ascii_removeSpaces (l : list ascii) :
  Forall (fun c => isAscii c = true) l ->
  Forall (fun c => isAscii c = true) (JsString.removeSpaces l).
Proof.
  induction 1 as [|c l Hc Hl IH]; cbn; [constructor|].
  destruct (isSpace c); cbn; [done | by constructor].
Qed.

Lemma ascii_stooqForm (t : list ascii) :
  Forall (fun c => isAscii c = true) t -> Forall (fun c => isAscii c = true) (stooqForm t).
Proof.
  intros H.
  destruct (stooqForm_cases t) as [(_ & ->)|[(_ & _ & ->)|(_ & _ & ->)]].
  - by apply ascii_map; [apply isAscii_lowerChar|].
  - by apply ascii_map; [apply isAscii_lowerChar | apply ascii_removeSpaces].
  - apply Forall_app. split; [|by repeat constructor].
    by apply ascii_map; [apply isAscii_lowerChar | apply ascii_removeSpaces].
Qed.

(** Both normalizations keep to ASCII. *)
Lemma normalizeToStooqSymbol_ascii (raw : string) :
  asciiText raw -> asciiText (V1.normalizeToStooqSymbol raw).
Proof.
  unfold asciiText. intros H. rewrite normalizeToStooqSymbol_chars.
  pose proof (ascii_trim _ H) as Ht.
  destruct (JsString.trim (chars raw)) as [|c t]; [constructor|].
  by apply ascii_stooqForm.
Qed.

Lemma normalizeTicker_ascii (raw source : string) :
  asciiText raw -> asciiText (V2.normalizeTicker raw source).
Proof.
  unfold asciiText. intros H. rewrite normalizeTicker_chars.
  assert (Ht : Forall (fun c => isAscii c = true)
                 (JsString.toUpperCase (JsString.trim (chars raw)))).
  { apply ascii_map; [apply isAscii_upperChar | by apply ascii_trim]. }
  destruct (JsString.toUpperCase (JsString.trim (chars raw))) as [|c t]; [constructor|].
  destruct (decide (source = "stooq")).
  - by apply ascii_stooqForm.
  - by apply (ascii_map hyphenate); [apply isAscii_hyphenate|].
Qed.

(** C10.  On a ticker of ASCII characters, normalizing twice gives what
    normalizing once gives, and the normalized ticker is again of ASCII
    characters: [normalizeToStooqSymbol] of the first script, and
    [normalizeTicker] of the second script for every source.  Beyond ASCII
    the case mappings of JavaScript are not those of the 8-bit strings, and
    the second script loses the property. *)
Theorem normalization_idempotent (raw source : string) :
  asciiText raw ->
  (V1.normalizeToStooqSymbol (V1.normalizeToStooqSymbol raw)
   = V1.normalizeToStooqSymbol raw
   /\ asciiText (V1.normalizeToStooqSymbol raw))
  /\ (V2.normalizeTicker (V2.normalizeTicker raw source) source
      = V2.normalizeTicker raw source
      /\ asciiText (V2.normalizeTicker raw source)).
Proof.
  intros H. split; split.
  - apply normalizeToStooqSymbol_idem.
  - by apply normalizeToStooqSymbol_ascii.
  - apply normalizeTicker_idem.
  - by apply normalizeTicker_ascii.
Qed.

(** A ticker with white space around it, in small letters, for Stooq. *)
Lemma normalization_idempotent_witness :
  asciiText " brk.b "
  /\ V1.normalizeToStooqSymbol " brk.b " = "brk.b"
  /\ V2.normalizeTicker " brk.b " "stooq" = "brk.b"
  /\ (V1.normalizeToStooqSymbol (V1.normalizeToStooqSymbol " brk.b ")
      = V1.normalizeToStooqSymbol " brk.b "
      /\ asciiText (V1.normalizeToStooqSymbol " brk.b "))
  /\ (V2.normalizeTicker (V2.normalizeTicker " brk.b " "stooq") "stooq"
      = V2.normalizeTicker " brk.b " "stooq"
      /\ asciiText (V2.normalizeTicker " brk.b " "stooq")).
Proof.
  assert (Hascii : asciiText " brk.b ") by by_compute.
  split; [exact Hascii|]. split; [reflexivity|]. split; [reflexivity|].
  exact (normalization_idempotent " brk.b " "stooq" Hascii).
Defined.

(** Beyond ASCII the second script's normalization for Stooq is not
    idempotent.  The ticker of the letter A and a capital sigma becomes, in
    capitals and then in small letters, the letter a and the final sigma
    (code 962), with [.us] after it.  Normalized again, it is put back in
    capitals first; its sigma is now followed by a full stop and a letter,
    and is no longer final: small letters give the medial sigma (code 963).
    The first script, which never puts a ticker in capitals, leaves its
    normalized ticker as it is. *)
Lemma normalizeTicker_twice_on_sigma :
  V2.Wide.normalizeTicker sigma_ticker "stooq" = [97; 962; 46; 117; 115]%N
  /\ V2.Wide.normalizeTicker (V2.Wide.normalizeTicker sigma_ticker "stooq") "stooq"
     = [97; 963; 46; 117; 115]%N
  /\ V2.Wide.normalizeTicker (V2.Wide.normalizeTicker sigma_ticker "stooq") "stooq"
     <> V2.Wide.normalizeTicker sigma_ticker "stooq"
  /\ V1.Wide.normalizeToStooqSymbol sigma_ticker = [97; 962; 46; 117; 115]%N
  /\ V1.Wide.normalizeToStooqSymbol (V1.Wide.normalizeToStooqSymbol sigma_ticker)
     = V1.Wide.normalizeToStooqSymbol sigma_ticker.
Proof. repeat split; by_compute. Qed.

(** ** Tickers of ASCII characters as code units *)

Lemma isSpace_ofAscii c : isAscii c = true -> Utf16.isSpace (Utf16.ofAscii c) = isSpace c.
Proof. intros H. by_cases_on_ascii c H. Qed.

Lemma isLetter_ofAscii c : Utf16.isLetter (Utf16.ofAscii c) = isLetter c.
Proof. by_cases_on_char c. Qed.

Lemma isDot_ofAscii c : (Utf16.ofAscii c =? 46)%N = bool_decide (c = dot).
Proof. by_cases_on_char c. Qed.

Lemma isDot_ofAscii' c : (46 =? Utf16.ofAscii c)%N = bool_decide (c = dot).
Proof. by_cases_on_char c. Qed.

Lemma upperUnit_ofAscii c : Utf16.upperUnit (Utf16.ofAscii c) = Utf16.ofAscii (upperChar c).
Proof. by_cases_on_char c. Qed.

Lemma lowerUnit_ofAscii c :
  (if (Utf16.ofAscii c =? Utf16.capitalSigma)%N then Utf16.smallSigma
   else Utf16.lowerUnit (Utf16.ofAscii c))
  = Utf16.ofAscii (lowerChar c)
  /\ (Utf16.ofAscii c =? Utf16.capitalSigma)%N = false.
Proof. destruct c as [[] [] [] [] [] [] [] []]; split; reflexivity. Qed.

Lemma hyphen_ofAscii c :
  (if (Utf16.ofAscii c =? 46)%N then 45%N else Utf16.ofAscii c) = Utf16.ofAscii (hyphenate c).
Proof. by_cases_on_char c. Qed.

Lemma dropSpaces_ofAscii (l : list ascii) :
  Forall (fun c => isAscii c = true) l ->
  Utf16.dropSpaces (map Utf16.ofAscii l) = map Utf16.ofAscii (dropSpaces l).
Proof.
  induction 1 as [|c l' Hc _ IH]; cbn [map Utf16.dropSpaces dropSpaces]; [done|].
  rewrite isSpace_ofAscii by done. by destruct (isSpace c).
Qed.

Lemma removeSpaces_ofAscii (l : list ascii) :
  Forall (fun c => isAscii c = true) l ->
  Utf16.removeSpaces (map Utf16.ofAscii l) = map Utf16.ofAscii (JsString.removeSpaces l).
Proof.
  unfold Utf16.removeSpaces, JsString.removeSpaces.
  induction 1 as [|c l' Hc _ IH]; cbn [map List.filter]; [done|].
  rewrite isSpace_ofAscii by done. destruct (isSpace c); cbn [negb map]; by rewrite IH.
Qed.

Lemma trim_ofAscii (l : list ascii) :
  Forall (fun c => isAscii c = true) l ->
  Utf16.trim (map Utf16.ofAscii l) = map Utf16.ofAscii (JsString.trim l).
Proof.
  intros H. unfold Utf16.trim, JsString.trim.
  rewrite dropSpaces_ofAscii by done. rewrite <- map_rev.
  rewrite dropSpaces_ofAscii by (by apply List.Forall_rev, ascii_dropSpaces).
  by rewrite map_rev.
Qed.

Lemma toUpperCase_ofAscii (l : list ascii) :
  Utf16.toUpperCase (map Utf16.ofAscii l) = map Utf16.ofAscii (JsString.toUpperCase l).
Proof.
  unfold Utf16.toUpperCase, JsString.toUpperCase. rewrite !map_map.
  apply map_ext, upperUnit_ofAscii.
Qed.

Lemma lowerFrom_ofAscii (before : list N) (l : list ascii) :
  Utf16.lowerFrom before (map Utf16.ofAscii l) = map Utf16.ofAscii (JsString.toLowerCase l).
Proof.
  revert before. induction l as [|c l IH]; intros before; [done|].
  cbn [map Utf16.lowerFrom JsString.toLowerCase]. rewrite IH.
  destruct (lowerUnit_ofAscii c) as [H1 H2]. rewrite H2 in H1 |- *. by rewrite H1.
Qed.

Lemma toLowerCase_ofAscii (l : list ascii) :
  Utf16.toLowerCase (map Utf16.ofAscii l) = map Utf16.ofAscii (JsString.toLowerCase l).
Proof. apply lowerFrom_ofAscii. Qed.

Lemma lettersThenDot_ofAscii (n : nat) (rl : list ascii) :
  Utf16.lettersThenDot n (map Utf16.ofAscii rl) = JsString.lettersThenDot n rl.
Proof.
  revert n. induction rl as [|c rl IH]; intros n; [done|].
  cbn [map Utf16.lettersThenDot JsString.lettersThenDot].
  by rewrite isLetter_ofAscii, isDot_ofAscii, IH.
Qed.

Lemma hasSuffix_ofAscii (l : list ascii) :
  Utf16.hasSuffix (map Utf16.ofAscii l) = JsString.hasSuffix l.
Proof.
  unfold Utf16.hasSuffix, JsString.hasSuffix. by rewrite <- map_rev, lettersThenDot_ofAscii.
Qed.

Lemma includesDot_ofAscii (l : list ascii) :
  Utf16.includesDot (map Utf16.ofAscii l) = JsString.includesDot l.
Proof.
  unfold Utf16.includesDot, JsString.includesDot.
  induction l as [|c l IH]; [done|]. cbn [map existsb]. by rewrite isDot_ofAscii', IH.
Qed.

Lemma dotsToHyphens_ofAscii (l : list ascii) :
  Utf16.dotsToHyphens (map Utf16.ofAscii l) = map Utf16.ofAscii (JsString.dotsToHyphens l).
Proof.
  unfold Utf16.dotsToHyphens, JsString.dotsToHyphens. rewrite !map_map.
  apply map_ext. intros c. apply hyphen_ofAscii.
Qed.

(** The Stooq branches on code units and on characters. *)
Lemma stooqForm_ofAscii (t : list ascii) :
  Forall (fun c => isAscii c = true) t ->
  (if Utf16.hasSuffix (map Utf16.ofAscii t) then Utf16.toLowerCase (map Utf16.ofAscii t)
   else
     if Utf16.includesDot (Utf16.removeSpaces (map Utf16.ofAscii t))
     then Utf16.toLowerCase (Utf16.removeSpaces (map Utf16.ofAscii t))
     else Utf16.toLowerCase (Utf16.removeSpaces (map Utf16.ofAscii t))
          ++ map Utf16.ofAscii (chars ".us"))
  = map Utf16.ofAscii (stooqForm t).
Proof.
  intros H. unfold stooqForm. cbv zeta.
  rewrite hasSuffix_ofAscii, removeSpaces_ofAscii, includesDot_ofAscii by done.
  rewrite !toLowerCase_ofAscii.
  destruct (JsString.hasSuffix t); [done|].
  destruct (JsString.includesDot _); [done|]. by rewrite map_app.
Qed.

(** On a ticker of ASCII characters the normalizations on code units are
    the normalizations on 8-bit characters. *)
Lemma normalizations_on_ascii (raw source : string) :
  asciiText raw ->
  V1.Wide.normalizeToStooqSymbol (Utf16.ofString raw)
  = Utf16.ofString (V1.normalizeToStooqSymbol raw)
  /\ V2.Wide.normalizeTicker (Utf16.ofString raw) source
     = Utf16.ofString (V2.normalizeTicker raw source).
Proof.
  intros H. unfold asciiText in H. pose proof (ascii_trim _ H) as Ht.
  split.
  - unfold V1.Wide.normalizeToStooqSymbol. cbv zeta.
    unfold Utf16.ofString. rewrite normalizeToStooqSymbol_chars.
    rewrite trim_ofAscii by done.
    destruct (JsString.trim (chars raw)) as [|c t]; [done|].
    change (map Utf16.ofAscii (c :: t)) with (Utf16.ofAscii c :: map Utf16.ofAscii t) at 1.
    cbv iota. by apply stooqForm_ofAscii.
  - unfold V2.Wide.normalizeTicker. cbv zeta.
    unfold Utf16.ofString. rewrite normalizeTicker_chars.
    rewrite trim_ofAscii, toUpperCase_ofAscii by done.
    assert (Hu : Forall (fun c => isAscii c = true)
                   (JsString.toUpperCase (JsString.trim (chars raw)))).
    { apply ascii_map; [apply isAscii_upperChar | done]. }
    destruct (JsString.toUpperCase (JsString.trim (chars raw))) as [|c t]; [done|].
    change (map Utf16.ofAscii (c :: t)) with (Utf16.ofAscii c :: map Utf16.ofAscii t) at 1.
    cbv iota. destruct (decide (source = "stooq")).
    + by apply stooqForm_ofAscii.
    + apply dotsToHyphens_ofAscii.
Qed.

(** * C5: the cache *)

(** [getCachedBeta], case by case. *)
Lemma getCachedBeta_cases env source symbol market lookback (w : V2.world) :
  let key := V2.cacheKey source symbol market lookback in
  let w1 := V2.World (V2.storage w) (S (V2.ticks w)) in
  V2.getCachedBeta env source symbol market lookback w
  = match V2.storage w !! key with
    | None | Some Garbage => (Ok null, w)
    | Some (Json data) =>
        match getProp data "timestamp" with
        | Throw _ => (Ok null, w1)
        | Ok timestamp =>
            if ngt (of_Z (V2.time env (V2.ticks w)) - primToNumber timestamp)%num
                 V2.CACHE_DURATION_MS
            then (Ok null, V2.World (delete key (V2.storage w)) (S (V2.ticks w)))
            else (Ok data, w1)
        end
    end.
Proof.
  cbv zeta.
  unfold V2.getCachedBeta, V2.tryCatch, V2.bind, V2.getItem, V2.lift, V2.ret,
    V2.Date_now, V2.removeItem.
  destruct (V2.storage w !! V2.cacheKey source symbol market lookback) as [[|data]|];
    cbn [JSON_parse V2.storage V2.ticks]; try done.
  destruct (getProp data "timestamp") as [timestamp|e]; [|done].
  by destruct (ngt _ _).
Qed.

(** [setCachedBeta], case by case. *)
Lemma setCachedBeta_cases env source symbol market lookback beta n (w : V2.world) :
  let key := V2.cacheKey source symbol market lookback in
  let item := V2.entry beta n (V2.time env (V2.ticks w)) in
  V2.setCachedBeta env source symbol market lookback beta n w
  = (Ok tt,
     if V2.full env (V2.storage w) key item
     then V2.World (V2.storage w) (S (V2.ticks w))
     else V2.World (<[key := item]> (V2.storage w)) (S (V2.ticks w))).
Proof.
  cbv zeta.
  unfold V2.setCachedBeta, V2.tryCatch, V2.bind, V2.setItem, V2.ret, V2.Date_now.
  cbn [V2.storage V2.ticks]. by destruct (V2.full env _ _ _).
Qed.

Lemma entry_timestamp (b : Qc) (n : nat) (t : Z) :
  match V2.entry (Fin b) n t with
  | Json data =>
      getProp data "timestamp" = Ok (PNum (of_Z t))
      /\ V2.field data "beta" = PNum (Fin b)
      /\ V2.field data "n" = PNum (of_nat n)
  | Garbage => False
  end.
Proof. unfold V2.entry, V2.field, getProp. by simplify_map_eq. Qed.

Lemma Qc_of_Z_lt (x y : Z) : Qc_of_Z x < Qc_of_Z y <-> (x < y)%Z.
Proof. unfold Qclt, Qc_of_Z. cbn. unfold Qlt. cbn. lia. Qed.

Lemma Qc_of_Z_minus (x y : Z) : Qc_of_Z x - Qc_of_Z y = Qc_of_Z (x - y).
Proof.
  apply Qc_is_canon. unfold Qc_of_Z, Qcminus, Qcopp, Qcplus. cbn.
  rewrite !Qred_correct. unfold Qeq. cbn. lia.
Qed.

Lemma ngt_age (now timestamp : Z) :
  ngt (of_Z now - of_Z timestamp)%num V2.CACHE_DURATION_MS
  = bool_decide (expired now timestamp).
Proof.
  unfold ngt, nsub, lift2, of_Z, V2.CACHE_DURATION_MS, expired.
  rewrite Qc_of_Z_minus. apply bool_decide_ext, Qc_of_Z_lt.
Qed.

(** C5.  A [setCachedBeta] that the storage accepts, followed by a
    [getCachedBeta] of the same key before the 24 hours have passed, gives
    back the stored beta and sample size.  A stored entry older than 24
    hours gives [null] and is removed.  A stored text that does not parse
    gives [null].  [getCachedBeta] never throws. *)
Theorem cache_round_trip env source symbol market lookback (w : V2.world) :
  let key := V2.cacheKey source symbol market lookback in
  let now := V2.time env (V2.ticks w) in
  (forall (b : Qc) (n : nat),
      let w1 := snd (V2.setCachedBeta env source symbol market lookback (Fin b) n w) in
      V2.full env (V2.storage w) key (V2.entry (Fin b) n now) = false ->
      ~ expired (V2.time env (V2.ticks w1)) now ->
      exists data,
        V2.getCachedBeta env source symbol market lookback w1
        = (Ok data, V2.World (V2.storage w1) (S (V2.ticks w1)))
        /\ isTruthy data = true
        /\ V2.field data "beta" = PNum (Fin b)
        /\ V2.field data "n" = PNum (of_nat n))
  /\ (forall data timestamp,
        V2.storage w !! key = Some (Json data) ->
        getProp data "timestamp" = Ok (PNum (of_Z timestamp)) ->
        expired now timestamp ->
        V2.getCachedBeta env source symbol market lookback w
        = (Ok null, V2.World (delete key (V2.storage w)) (S (V2.ticks w))))
  /\ (V2.storage w !! key = Some Garbage ->
      V2.getCachedBeta env source symbol market lookback w = (Ok null, w))
  /\ (exists v w', V2.getCachedBeta env source symbol market lookback w = (Ok v, w')).
Proof.
  cbv zeta. repeat split.
  - intros b n Hfull Hfresh.
    rewrite setCachedBeta_cases in Hfresh |- *. cbv zeta in *.
    rewrite Hfull in Hfresh |- *. cbn [snd V2.ticks V2.storage] in *.
    rewrite getCachedBeta_cases. cbv zeta. cbn [V2.ticks V2.storage].
    rewrite lookup_insert_eq.
    pose proof (entry_timestamp b n (V2.time env (V2.ticks w))) as He.
    destruct (V2.entry (Fin b) n (V2.time env (V2.ticks w))) as [|data] eqn:Hentry;
      [done|].
    destruct He as (Hts & Hbeta & Hn). rewrite Hts. cbn [primToNumber].
    rewrite ngt_age, bool_decide_eq_false_2 by done.
    exists data. split; [done|]. split; [|done].
    unfold V2.entry in Hentry. by injection Hentry as <-.
  - intros data timestamp Hk Hts Hexp.
    rewrite getCachedBeta_cases. cbv zeta. rewrite Hk, Hts. cbn [primToNumber].
    by rewrite ngt_age, bool_decide_eq_true_2.
  - intros Hk. rewrite getCachedBeta_cases. cbv zeta. by rewrite Hk.
  - rewrite getCachedBeta_cases. cbv zeta.
    destruct (V2.storage w !! _) as [[|data]|]; eauto.
    destruct (getProp data "timestamp"); eauto.
    destruct (ngt _ _); eauto.
Qed.

(** A beta of 1.2 written to an empty store and read back at once. *)
Lemma cache_round_trip_witness :
  exists data,
    V2.getCachedBeta quiet_env "yahoo" "AAPL" "SPY" 252
      (snd (V2.setCachedBeta quiet_env "yahoo" "AAPL" "SPY" 252
              (Fin (Q2Qc (6 # 5))) 250%nat empty_world))
    = (Ok data,
       V2.World
         (V2.storage (snd (V2.setCachedBeta quiet_env "yahoo" "AAPL" "SPY" 252
                             (Fin (Q2Qc (6 # 5))) 250%nat empty_world)))
         (S (V2.ticks (snd (V2.setCachedBeta quiet_env "yahoo" "AAPL" "SPY" 252
                               (Fin (Q2Qc (6 # 5))) 250%nat empty_world)))))
    /\ isTruthy data = true
    /\ V2.field data "beta" = PNum (Fin (Q2Qc (6 # 5)))
    /\ V2.field data "n" = PNum (of_nat 250%nat).
Proof.
  apply (proj1 (cache_round_trip quiet_env "yahoo" "AAPL" "SPY" 252 empty_world)
           (Q2Qc (6 # 5)) 250%nat).
  - reflexivity.
  - unfold expired. cbn. lia.
Defined.

(** * C9: what the batch writes to the cache, within the range of the numbers *)

Lemma numericWrites_refl st : numericWrites st st.
Proof. intros k. by left. Qed.

Lemma numericWrites_trans st1 st2 st3 :
  numericWrites st1 st2 -> numericWrites st2 st3 -> numericWrites st1 st3.
Proof.
  intros H12 H23 k. destruct (H23 k) as [H|[H|H]]; [|by right; left|by right; right].
  rewrite H. apply H12.
Qed.

Lemma numericWrites_delete st key : numericWrites st (delete key st).
Proof.
  intros k. destruct (decide (key = k)) as [->|Hne].
  - right. left. apply lookup_delete_eq.
  - left. by apply lookup_delete_ne.
Qed.

Lemma numericWrites_insert st key (b : Qc) (n : nat) (t : Z) :
  numericWrites st (<[key := V2.entry (Fin b) n t]> st).
Proof.
  intros k. destruct (decide (key = k)) as [->|Hne].
  - right. right. exists b, n, t. apply lookup_insert_eq.
  - left. by apply lookup_insert_ne.
Qed.

Lemma writesNumeric_ret {A} (a : A) : writesNumeric (V2.ret a).
Proof. intros w. apply numericWrites_refl. Qed.

Lemma writesNumeric_lift {A} (o : outcome A) : writesNumeric (V2.lift o).
Proof. intros w. apply numericWrites_refl. Qed.

Lemma writesNumeric_bind {A B} (m : V2.M A) (k : A -> V2.M B) :
  writesNumeric m -> (forall a, writesNumeric (k a)) -> writesNumeric (V2.bind m k).
Proof.
  intros Hm Hk w. unfold V2.bind. specialize (Hm w).
  destruct (m w) as [[a|e] w1]; cbn [snd] in *; [|done].
  eapply numericWrites_trans; [exact Hm | apply Hk].
Qed.

Lemma writesNumeric_tryCatch {A} (m : V2.M A) (handler : string -> V2.M A) :
  writesNumeric m -> (forall e, writesNumeric (handler e)) ->
  writesNumeric (V2.tryCatch m handler).
Proof.
  intros Hm Hh w. unfold V2.tryCatch. specialize (Hm w).
  destruct (m w) as [[a|e] w1]; cbn [snd] in *; [done|].
  eapply numericWrites_trans; [exact Hm | apply Hh].
Qed.

Lemma writesNumeric_getCachedBeta env source symbol market lookback :
  writesNumeric (V2.getCachedBeta env source symbol market lookback).
Proof.
  intros w. rewrite getCachedBeta_cases. cbv zeta.
  destruct (V2.storage w !! _) as [[|data]|]; try apply numericWrites_refl.
  destruct (getProp data "timestamp"); [|apply numericWrites_refl].
  destruct (ngt _ _); [apply numericWrites_delete | apply numericWrites_refl].
Qed.

Lemma writesNumeric_setCachedBeta env source symbol market lookback (b : Qc) n :
  writesNumeric (V2.setCachedBeta env source symbol market lookback (Fin b) n).
Proof.
  intros w. rewrite setCachedBeta_cases. cbv zeta.
  destruct (V2.full env _ _ _); [apply numericWrites_refl | apply numericWrites_insert].
Qed.

Lemma writesNumeric_compute env source marketSym lookback marketRets h sym :
  writesNumeric (V2.compute env source marketSym lookback marketRets h sym).
Proof.
  unfold V2.compute.
  apply writesNumeric_bind; [apply writesNumeric_lift|]. intros prices.
  apply writesNumeric_bind; [apply writesNumeric_lift|]. intros al.
  apply writesNumeric_bind; [|intros; apply writesNumeric_ret].
  destruct (fst (V2.estimate al)) as [b|]; cbn [isNaN isFinite negb].
  - apply writesNumeric_setCachedBeta.
  - apply writesNumeric_ret.
Qed.

Lemma writesNumeric_holdingResult env source marketSym lookback marketRets h :
  writesNumeric (V2.holdingResult env source marketSym lookback marketRets h).
Proof.
  unfold V2.holdingResult. cbv zeta.
  apply writesNumeric_bind; [apply writesNumeric_getCachedBeta|]. intros c.
  destruct (isTruthy c); [apply writesNumeric_ret|].
  apply writesNumeric_tryCatch; [apply writesNumeric_compute|].
  intros; apply writesNumeric_ret.
Qed.

Lemma writesNumeric_holdingsLoop env source marketSym lookback marketRets holdings results :
  writesNumeric
    (V2.holdingsLoop env source marketSym lookback marketRets holdings results).
Proof.
  revert results. induction holdings as [|h rest IH]; intros results; simpl.
  - apply writesNumeric_ret.
  - apply writesNumeric_bind; [apply writesNumeric_holdingResult|]. intros res. apply IH.
Qed.

Lemma writesNumeric_needsMarket env source marketSym lookback holdings :
  writesNumeric (V2.needsMarket env source marketSym lookback holdings).
Proof.
  induction holdings as [|h rest IH]; simpl.
  - apply writesNumeric_ret.
  - apply writesNumeric_bind; [apply writesNumeric_getCachedBeta|]. intros c.
    destruct (negb (isTruthy c)); [apply writesNumeric_ret | apply IH].
Qed.

Lemma writesNumeric_mb_calc env sourceInput marketInput lookbackInput holdingsInput :
  writesNumeric (V2.mb_calc env sourceInput marketInput lookbackInput holdingsInput).
Proof.
  unfold V2.mb_calc. cbv zeta.
  apply writesNumeric_tryCatch; [|intros; apply writesNumeric_ret].
  unfold V2.calculate.
  apply writesNumeric_bind; [apply writesNumeric_lift|]. intros holdings.
  apply writesNumeric_bind; [apply writesNumeric_needsMarket|]. intros needs.
  apply writesNumeric_bind.
  { destruct needs; [|apply writesNumeric_ret].
    apply writesNumeric_bind; [apply writesNumeric_lift|]. intros; apply writesNumeric_ret. }
  intros marketRets.
  apply writesNumeric_bind; [apply writesNumeric_holdingsLoop|]. intros results.
  apply writesNumeric_bind; [apply writesNumeric_lift|]. intros; apply writesNumeric_ret.
Qed.

(** A computed beta that is undefined, and a failed computation, leave the
    storage as it was. *)
Lemma compute_undefined_not_cached env source marketSym lookback marketRets h sym w :
  match V2.compute env source marketSym lookback marketRets h sym w with
  | (Ok res, w') => V2.beta res = PNum NaN -> V2.storage w' = V2.storage w
  | (Throw e, w') => w' = w
  end.
Proof.
  unfold V2.compute, V2.bind, V2.lift, V2.ret.
  destruct (V2.fetchPrices env source sym) as [prices|e]; [|done].
  destruct (V2.alignWith _ marketRets) as [al|e]; [|done].
  destruct (fst (V2.estimate al)) as [b|] eqn:Hb; cbn [isNaN isFinite negb].
  - rewrite setCachedBeta_cases. cbv zeta. cbn [V2.beta]. done.
  - done.
Qed.

(** In the arithmetic of [num], where no quotient overflows: whatever the
    network, the clock and the quota do, a click changes the storage only
    by removing keys and by writing entries whose beta is a number; so a
    stored text that parses, and that the click wrote or that had a numeric
    beta before, has a numeric beta after.  A holding whose computed beta
    is undefined, or whose computation failed, is not written: the storage
    is as the cache lookup left it. *)
Lemma cache_holds_defined_betas env sourceInput marketInput lookbackInput
    holdingsInput (w : V2.world) :
  let w' := snd (V2.mb_calc env sourceInput marketInput lookbackInput holdingsInput w) in
  numericWrites (V2.storage w) (V2.storage w')
  /\ (forall k v,
        V2.storage w' !! k = Some (Json v) ->
        (forall v0, V2.storage w !! k = Some (Json v0) -> numericBetaOf v0) ->
        numericBetaOf v)
  /\ (forall source marketSym lookback marketRets h sym w0,
        match V2.compute env source marketSym lookback marketRets h sym w0 with
        | (Ok res, w1) => V2.beta res = PNum NaN -> V2.storage w1 = V2.storage w0
        | (Throw e, w1) => w1 = w0
        end).
Proof.
  cbv zeta.
  pose proof (writesNumeric_mb_calc env sourceInput marketInput lookbackInput
                holdingsInput w) as Hw.
  split; [exact Hw|]. split; [|intros; apply compute_undefined_not_cached].
  intros k v Hk Hold. destruct (Hw k) as [H|[H|(b & n & t & H)]].
  - rewrite Hk in H. symmetry in H. by apply Hold.
  - by rewrite Hk in H.
  - rewrite Hk in H. pose proof (entry_timestamp b n t) as He.
    destruct (V2.entry (Fin b) n t) as [|data]; [done|].
    injection H as ->. exists b. apply He.
Qed.

(** A click on one holding, from an empty store, writes its beta. *)
Lemma cache_holds_defined_betas_witness :
  exists v,
    V2.storage (snd (V2.mb_calc yahoo_env "yahoo" "SPY" "252" "AAPL, 100%" empty_world))
      !! V2.cacheKey "yahoo" "AAPL" "SPY" 252
    = Some (Json v)
    /\ numericBetaOf v.
Proof.
  assert (Hk :
    V2.storage (snd (V2.mb_calc yahoo_env "yahoo" "SPY" "252" "AAPL, 100%" empty_world))
      !! V2.cacheKey "yahoo" "AAPL" "SPY" 252
    = Some (V2.entry (Fin (Q2Qc (1234 # 1000))) 21 1000)) by by_compute.
  eexists. split; [exact Hk|].
  destruct (cache_holds_defined_betas yahoo_env "yahoo" "SPY" "252" "AAPL, 100%" empty_world)
    as (_ & Hnum & _).
  apply (Hnum _ _ Hk). intros v0 H0. vm_compute in H0. discriminate.
Defined.

(** * C9: a beta beyond the largest number *)

(** Within the range of the numbers, the cache write of [V2.compute] is
    the one with infinities. *)
Lemma cacheBeta_in_range env source sym marketSym lookback (al : aligned) :
  V2.Overflow.calculateBeta (asset al) (mkt al) = Finite (fst (V2.estimate al)) ->
  V2.Overflow.cacheBeta env source sym marketSym lookback al
  = if negb (isNaN (fst (V2.estimate al)))
    then V2.setCachedBeta env source sym marketSym lookback (fst (V2.estimate al))
           (snd (V2.estimate al))
    else V2.ret tt.
Proof.
  intros H. unfold V2.Overflow.cacheBeta. cbv zeta. rewrite H. reflexivity.
Qed.

(** The sample holding: thirty-two aligned points, the first of them the
    jump of the asset by 1e301 - 1 and of the market by 2^-30, and a beta
    whose exact value, (1e301 - 1) * 2^30, is beyond the largest number. *)
Lemma jump_length : length (asset jump_aligned) = 32%nat.
Proof. by_compute. Qed.

Lemma jump_points :
  jump_aligned
  = Aligned (Fin (Qc_of_Z (10 ^ 301 - 1)) :: replicate 31 (of_Z 0))
      (Fin (Q2Qc (1 # 2 ^ 30)) :: replicate 31 (of_Z 0)).
Proof. by_compute. Qed.

Lemma jump_exact_beta :
  V2.calculateBeta (asset jump_aligned) (mkt jump_aligned)
  = Fin (Qc_of_Z ((10 ^ 301 - 1) * 2 ^ 30)).
Proof. by_compute. Qed.

Lemma jump_beta :
  V2.Overflow.calculateBeta (asset jump_aligned) (mkt jump_aligned) = Infinity false.
Proof. by_compute. Qed.

Lemma jump_world_holds :
  jump_world
  = V2.World {[V2.cacheKey "stooq" "aapl.us" "spy.us" 252
               := V2.Overflow.entry (Infinity false) 32 1000]} 1.
Proof.
  unfold jump_world, V2.Overflow.cacheBeta. cbv zeta.
  rewrite jump_beta, jump_length. vm_compute. reflexivity.
Qed.

(** C9.  The guard of the cache write is [!isNaN(beta)], and an infinity is
    not [NaN].  For the sample holding, whose close goes from 1 to 1e301
    on the day the market goes from 1073741824 to 1073741825 and stays
    there, as the market does, for thirty-one days more, the exact quotient
    of the covariance and the variance is (1e301 - 1) * 2^30, beyond the
    largest number: [calculateBeta] returns [Infinity].  The guard lets it
    pass, and [JSON.stringify] writes it as [null].  The entry parses, is
    not expired, and is returned by [getCachedBeta] with a beta that is no
    number; the next click takes it from the cache and ends with the
    [TypeError] of [null.toFixed]. *)
Theorem infinite_beta_is_cached_as_null :
  let key := V2.cacheKey "stooq" "aapl.us" "spy.us" 252 in
  let cached :=
    Obj (<["beta" := PNull]> (<["n" := PNum (of_Z 32)]>
          (<["timestamp" := PNum (of_Z 1000)]> ∅))) in
  jump_aligned
  = Aligned (Fin (Qc_of_Z (10 ^ 301 - 1)) :: replicate 31 (of_Z 0))
      (Fin (Q2Qc (1 # 2 ^ 30)) :: replicate 31 (of_Z 0))
  /\ length (asset jump_aligned) = 32%nat
  /\ V2.calculateBeta (asset jump_aligned) (mkt jump_aligned)
     = Fin (Qc_of_Z ((10 ^ 301 - 1) * 2 ^ 30))
  /\ Binary64.overflowFrom ≤ Qc_of_Z ((10 ^ 301 - 1) * 2 ^ 30)
  /\ V2.Overflow.calculateBeta (asset jump_aligned) (mkt jump_aligned)
     = Infinity false
  /\ Binary64.isNaN (Infinity false) = false
  /\ Binary64.isFinite (Infinity false) = false
  /\ V2.storage jump_world !! key = Some (Json cached)
  /\ fst (V2.getCachedBeta jump_env "stooq" "aapl.us" "spy.us" 252 jump_world)
     = Ok cached
  /\ isTruthy cached = true
  /\ V2.field cached "beta" = PNull
  /\ ~ numericBetaOf cached
  /\ fst (V2.mb_calc jump_env "stooq" "SPY" "252" "AAPL, 100%" jump_world)
     = Ok (V2.ErrorShown "TypeError").
Proof.
  cbv zeta. rewrite jump_world_holds.
  split; [apply jump_points|].
  split; [apply jump_length|].
  split; [apply jump_exact_beta|].
  split; [by_compute|].
  split; [apply jump_beta|].
  split; [reflexivity|]. split; [reflexivity|].
  split; [by_compute|]. split; [by_compute|]. split; [reflexivity|].
  split; [by_compute|]. split; [|by_compute].
  intros [b Hb]. vm_compute in Hb. discriminate Hb.
Qed.

(** * C3: a holding that fails *)

Lemma getCachedBeta_returns env source symbol market lookback (w : V2.world) :
  exists v w', V2.getCachedBeta env source symbol market lookback w = (Ok v, w').
Proof.
  rewrite getCachedBeta_cases. cbv zeta.
  destruct (V2.storage w !! _) as [[|data]|]; eauto.
  destruct (getProp data "timestamp"); eauto.
  destruct (ngt _ _); eauto.
Qed.

(** The result of one turn of the second script's loop: the cached entry on
    a hit; otherwise what [compute] returns, or the failed entry when it
    throws.  The turn itself returns. *)
Lemma holdingResult_cases env source marketSym lookback marketRets h (w : V2.world) :
  let sym := V2.normalizeTicker (h_ticker h) source in
  exists c w1,
    V2.getCachedBeta env source sym marketSym lookback w = (Ok c, w1)
    /\ V2.holdingResult env source marketSym lookback marketRets h w
       = if isTruthy c
         then (Ok (V2.Result (h_ticker h) (h_weight h) (V2.field c "beta")
                     (V2.field c "n") true false), w1)
         else
           match V2.compute env source marketSym lookback marketRets h sym w1 with
           | (Ok res, w2) => (Ok res, w2)
           | (Throw e, w2) => (Ok (V2.failed h), w2)
           end.
Proof.
  cbv zeta.
  destruct (getCachedBeta_returns env source
              (V2.normalizeTicker (h_ticker h) source) marketSym lookback w)
    as (c & w1 & Hc).
  exists c, w1. split; [done|].
  unfold V2.holdingResult, V2.bind. cbv zeta. rewrite Hc.
  destruct (isTruthy c); [done|].
  unfold V2.tryCatch, V2.ret.
  by destruct (V2.compute _ _ _ _ _ _ _ w1) as [[res|e] w2].
Qed.

Lemma compute_keeps_holding env source marketSym lookback marketRets h sym w res w' :
  V2.compute env source marketSym lookback marketRets h sym w = (Ok res, w') ->
  V2.ticker res = h_ticker h /\ V2.weight res = h_weight h /\ V2.error res = false.
Proof.
  unfold V2.compute, V2.bind, V2.lift, V2.ret.
  destruct (V2.fetchPrices env source sym) as [prices|e]; [|done].
  destruct (V2.alignWith _ marketRets) as [al|e]; [|done].
  destruct (negb (isNaN (fst (V2.estimate al)))).
  - rewrite setCachedBeta_cases. cbv zeta. by intros [= <- <-].
  - by intros [= <- <-].
Qed.

Lemma holdingResult_returns env source marketSym lookback marketRets h (w : V2.world) :
  exists res w',
    V2.holdingResult env source marketSym lookback marketRets h w = (Ok res, w')
    /\ V2.ticker res = h_ticker h /\ V2.weight res = h_weight h.
Proof.
  destruct (holdingResult_cases env source marketSym lookback marketRets h w)
    as (c & w1 & _ & ->).
  destruct (isTruthy c); [by eexists _, _|].
  destruct (V2.compute _ _ _ _ _ _ _ w1) as [[res|e] w2] eqn:Hcompute.
  - apply compute_keeps_holding in Hcompute as (? & ? & _). by eexists _, _.
  - by eexists _, _.
Qed.

Lemma holdingsLoop_returns env source marketSym lookback marketRets holdings results
    (w : V2.world) :
  exists entries w',
    V2.holdingsLoop env source marketSym lookback marketRets holdings results w
    = (Ok (results ++ entries), w')
    /\ map V2.ticker entries = map h_ticker holdings
    /\ map V2.weight entries = map h_weight holdings.
Proof.
  revert results w. induction holdings as [|h rest IH]; intros results w.
  - exists [], w. by rewrite app_nil_r.
  - destruct (holdingResult_returns env source marketSym lookback marketRets h w)
      as (res & w1 & Hres & Ht & Hw).
    destruct (IH (results ++ [res]) w1) as (entries & w' & Hloop & Hts & Hws).
    exists (res :: entries), w'. cbn [V2.holdingsLoop]. unfold V2.bind.
    rewrite Hres, Hloop, <- app_assoc. cbn [map]. by rewrite Ht, Hw, Hts, Hws.
Qed.





(** * C7: the weights in the click *)

(** The loop of the first script makes one entry for every holding with a
    symbol, with the ticker and the weight of the holding. *)
Lemma holdingsLoop1_holdings http lookback marketRets holdings acc results :
  V1.holdingsLoop http lookback marketRets holdings acc = Ok results ->
  map held1 results = map held1 acc ++ withSymbol holdings.
Proof.
  revert acc. induction holdings as [|h hs IH]; intros acc; cbn [V1.holdingsLoop].
  - intros [= <-]. by rewrite app_nil_r.
  - unfold withSymbol. cbn [List.filter]. fold (withSymbol hs).
    unfold V1.holdingResult at 1. cbv zeta.
    destruct (decide (V1.normalizeToStooqSymbol (h_ticker h) = "")) as [He|Hne].
    + rewrite bool_decide_eq_true_2 by done. apply IH.
    + rewrite bool_decide_eq_false_2 by done. cbn [negb].
      destruct (V1.fetchPrices http _) as [prices|e]; [|done].
      intros H. rewrite (IH _ H), map_app, <- app_assoc. cbn [map app].
      unfold held1 at 3. cbn [V1.ticker V1.weight]. by destruct h.
Qed.

(** The loop of the second script makes one entry for every holding. *)
Lemma holdingsLoop2_holdings env source marketSym lookback marketRets holdings results
    (w : V2.world) :
  exists entries w',
    V2.holdingsLoop env source marketSym lookback marketRets holdings results w
    = (Ok (results ++ entries), w')
    /\ map held2 entries = holdings.
Proof.
  destruct (holdingsLoop_returns env source marketSym lookback marketRets holdings results w)
    as (entries & w' & Hloop & Ht & Hw).
  exists entries, w'. split; [done|].
  clear Hloop. revert holdings Ht Hw.
  induction entries as [|res entries IH]; intros [|h hs] Ht Hw; try done.
  cbn [map] in *. injection Ht as Ht1 Ht. injection Hw as Hw1 Hw.
  rewrite (IH hs Ht Hw). unfold held2. rewrite Ht1, Hw1. by destruct h.
Qed.

Lemma withSymbol_scaled (s : Qc) (l : list holding) :
  withSymbol (map (scaled s) l) = map (scaled s) (withSymbol l).
Proof.
  unfold withSymbol. induction l as [|x l IH]; [done|]. cbn [map List.filter].
  change (h_ticker (scaled s x)) with (h_ticker x).
  destruct (negb _); cbn [map]; by rewrite IH.
Qed.

Lemma click1_weights http marketInput lookbackInput text results portfolioBeta marketSym :
  V1.mb_calc http marketInput lookbackInput text
  = V1.Rendered results portfolioBeta marketSym ->
  let s := total_of (weights (V1.parseHoldings text)) in
  0 < s
  /\ exists unsorted,
       results = sort V1.byWeight unsorted
       /\ map held1 unsorted = map (scaled s) (withSymbol (V1.parseHoldings text)).
Proof.
  cbv zeta. unfold V1.mb_calc, V1.calculate. cbv zeta.
  assert (Hp : Forall positiveWeight (V1.parseHoldings text))
    by apply omap_Forall, parseHolding1_positive.
  destruct (V1.parseHoldings text) as [|h hs] eqn:Hparsed; [intros H; discriminate H|].
  assert (Hs : 0 < total_of (weights (h :: hs))) by (by apply total_of_positive).
  rewrite normalizeWeights1_spec
    by (eapply Forall_impl; [exact Hp | apply positiveWeight_finite]).
  rewrite decide_True by done.
  destruct (V1.fetchPrices http _) as [marketPrices|e]; [|done].
  destruct (V1.holdingsLoop http _ _ _ []) as [unsorted|e] eqn:Hloop; [|done].
  intros [= <- _ _]. split; [done|]. exists unsorted. split; [done|].
  apply holdingsLoop1_holdings in Hloop. rewrite Hloop. apply withSymbol_scaled.
Qed.

Lemma click2_weights env sourceInput marketInput lookbackInput text (w w' : V2.world)
    results rows mb_total :
  V2.mb_calc env sourceInput marketInput lookbackInput text w
  = (Ok (V2.Done results rows mb_total), w') ->
  let s := total_of (weights (V2.parseHoldings text)) in
  0 < s
  /\ exists unsorted,
       results = sort V2.byWeight unsorted
       /\ map held2 unsorted = map (scaled s) (V2.parseHoldings text).
Proof.
  cbv zeta. unfold V2.mb_calc. cbv zeta.
  generalize (match parseInt (chars lookbackInput) with
              | Some z => if decide (z = 0%Z) then V2.DEFAULT_LOOKBACK_DAYS else z
              | None => V2.DEFAULT_LOOKBACK_DAYS
              end).
  generalize (V2.normalizeTicker marketInput sourceInput). intros marketSym lookback.
  unfold V2.calculate, V2.tryCatch, V2.bind, V2.lift, V2.ret.
  assert (Hp : Forall positiveWeight (V2.parseHoldings text))
    by apply omap_Forall, parseHolding2_positive.
  rewrite normalizeWeights2_spec by done.
  destruct (decide (0 < total_of (weights (V2.parseHoldings text)))) as [Hs|Hs]; [|done].
  set (hs := map _ (V2.parseHoldings text)).
  destruct (V2.needsMarket env sourceInput marketSym lookback hs w) as [[needs|e] w1]; [|done].
  set (fetched := if needs then _ else _).
  destruct (fetched w1) as [[marketRets|e] w2]; [|done].
  destruct (holdingsLoop2_holdings env sourceInput marketSym lookback marketRets hs [] w2)
    as (entries & w3 & Hloop & Hheld).
  rewrite Hloop. cbn [app].
  destruct (V2.renderTable entries) as [table|e]; [|done].
  intros [= <- _ _ _]. split; [done|]. by exists entries.
Qed.

(** C7.  Let [s] be the sum of the raw weights.  The normalization of the
    first script, on any finite weights, throws when [s <= 0] and otherwise
    replaces each weight [w] by [w / s]; that of the second script, whose
    holdings have positive weights (its parser keeps no other), throws when
    [s <= 0], which is when there is no holding, and otherwise replaces each
    weight by [w / s].  The normalized weights sum to one, exactly.

    In a click the holdings are those of the text area.  Without a holding
    the first script ends the click with its message that none was parsed
    and the second with the error of its normalization, whatever the
    network answers, and the clock and the cache are untouched.  When the
    click renders its table, [s] is positive and the entries of the results
    carry the normalized weights [w / s] of the holdings, in the order of
    the holdings before the table is sorted: one entry for every holding
    in the second script, and for every holding with a symbol in the
    first. *)
Theorem weights_normalized_or_rejected (holdings : list holding) :
  let s := total_of (weights holdings) in
  (Forall finiteWeight holdings ->
   (s ≤ 0 -> V1.normalizeWeights holdings = Throw "Weights sum to 0.")
   /\ (0 < s -> V1.normalizeWeights holdings = Ok (map (scaled s) holdings)))
  /\ (Forall positiveWeight holdings ->
      (s ≤ 0 -> V2.normalizeWeights holdings = Throw "No holdings.")
      /\ (0 < s -> V2.normalizeWeights holdings = Ok (map (scaled s) holdings)))
  /\ (0 < s -> total_of (weights (map (scaled s) holdings)) = 1)
  /\ (forall http marketInput lookbackInput text,
        V1.parseHoldings text = [] ->
        V1.mb_calc http marketInput lookbackInput text = V1.NoHoldingsParsed)
  /\ (forall http marketInput lookbackInput text results portfolioBeta marketSym,
        V1.parseHoldings text = holdings ->
        V1.mb_calc http marketInput lookbackInput text
        = V1.Rendered results portfolioBeta marketSym ->
        0 < s
        /\ exists unsorted,
             results = sort V1.byWeight unsorted
             /\ map held1 unsorted = map (scaled s) (withSymbol holdings))
  /\ (forall env sourceInput marketInput lookbackInput text w,
        V2.parseHoldings text = [] ->
        V2.mb_calc env sourceInput marketInput lookbackInput text w
        = (Ok (V2.ErrorShown "No holdings."), w))
  /\ (forall env sourceInput marketInput lookbackInput text e w,
        V2.normalizeWeights (V2.parseHoldings text) = Throw e ->
        V2.mb_calc env sourceInput marketInput lookbackInput text w
        = (Ok (V2.ErrorShown e), w))
  /\ (forall env sourceInput marketInput lookbackInput text w w' results rows mb_total,
        V2.parseHoldings text = holdings ->
        V2.mb_calc env sourceInput marketInput lookbackInput text w
        = (Ok (V2.Done results rows mb_total), w') ->
        0 < s
        /\ exists unsorted,
             results = sort V2.byWeight unsorted
             /\ map held2 unsorted = map (scaled s) holdings).
Proof.
  cbv zeta.
  split; [|split; [|split; [|split; [|split; [|split; [|split]]]]]].
  - intros Hf. split.
    + intros Hle. rewrite normalizeWeights1_spec by done.
      rewrite decide_False; [done|]. by apply Qcle_not_lt.
    + intros Hlt. rewrite normalizeWeights1_spec by done. by rewrite decide_True.
  - intros Hp. split.
    + intros Hle. rewrite normalizeWeights2_spec by done.
      rewrite decide_False; [done|]. by apply Qcle_not_lt.
    + intros Hlt. rewrite normalizeWeights2_spec by done. by rewrite decide_True.
  - intros Hlt. rewrite total_of_scaled.
    + field. intros H0. rewrite H0 in Hlt. by apply Qclt_not_eq in Hlt.
    + intros H0. rewrite H0 in Hlt. by apply Qclt_not_eq in Hlt.
  - intros http marketInput lookbackInput text Hnil.
    unfold V1.mb_calc, V1.calculate. cbv zeta. by rewrite Hnil.
  - intros http marketInput lookbackInput text results portfolioBeta marketSym <- Hclick.
    exact (click1_weights _ _ _ _ _ _ _ Hclick).
  - intros env sourceInput marketInput lookbackInput text w Hnil.
    unfold V2.mb_calc, V2.calculate, V2.tryCatch, V2.bind, V2.lift, V2.ret.
    by rewrite Hnil.
  - intros env sourceInput marketInput lookbackInput text e w He.
    unfold V2.mb_calc, V2.calculate, V2.tryCatch, V2.bind, V2.lift, V2.ret.
    by rewrite He.
  - intros env sourceInput marketInput lookbackInput text w w' results rows mb_total
      <- Hclick.
    exact (click2_weights _ _ _ _ _ _ _ _ _ _ Hclick).
Qed.

(** The weights 25 and 75 become one quarter and three quarters, in the
    normalization and in the tables of both clicks, where the heavier
    holding comes first. *)
Lemma weights_normalized_or_rejected_witness :
  V1.normalizeWeights sample_holdings
  = Ok [Holding "AAPL" (Fin (Q2Qc (1 # 4))); Holding "MSFT" (Fin (Q2Qc (3 # 4)))]
  /\ V2.normalizeWeights sample_holdings
     = Ok [Holding "AAPL" (Fin (Q2Qc (1 # 4))); Holding "MSFT" (Fin (Q2Qc (3 # 4)))]
  /\ V2.normalizeWeights [] = Throw "No holdings."
  /\ total_of (weights (map (scaled (total_of (weights sample_holdings))) sample_holdings)) = 1
  /\ map held1 (renderedRows quarter_click1)
     = [Holding "MSFT" (Fin (Q2Qc (3 # 4))); Holding "AAPL" (Fin (Q2Qc (1 # 4)))]
  /\ (exists unsorted,
        renderedRows quarter_click1 = sort V1.byWeight unsorted
        /\ map held1 unsorted
           = map (scaled (total_of (weights sample_holdings))) (withSymbol sample_holdings))
  /\ map held2 (doneResults (fst quarter_click2))
     = [Holding "MSFT" (Fin (Q2Qc (3 # 4))); Holding "AAPL" (Fin (Q2Qc (1 # 4)))]
  /\ (exists unsorted,
        doneResults (fst quarter_click2) = sort V2.byWeight unsorted
        /\ map held2 unsorted
           = map (scaled (total_of (weights sample_holdings))) sample_holdings).
Proof.
  pose proof (weights_normalized_or_rejected sample_holdings)
    as (H1 & H2 & H3 & _ & Hclick1 & _ & _ & Hclick2).
  pose proof (weights_normalized_or_rejected []) as (_ & H0 & _).
  assert (Hpos : 0 < total_of (weights sample_holdings)) by by_compute.
  assert (Hp : Forall positiveWeight sample_holdings) by (repeat constructor; by_compute).
  assert (Hf : Forall finiteWeight sample_holdings) by (repeat constructor).
  split; [|split; [|split; [|split; [|split; [|split; [|split]]]]]].
  - rewrite (proj2 (H1 Hf) Hpos). by_compute.
  - rewrite (proj2 (H2 Hp) Hpos). by_compute.
  - apply (proj1 (H0 (Forall_nil_2 _))). by_compute.
  - exact (H3 Hpos).
  - by_compute.
  - refine (proj2 (Hclick1 (fun _ => Ok three_rows_csv) "SPY" "252" quarter_text
                     (renderedRows quarter_click1) (renderedBeta quarter_click1)
                     (renderedMarket quarter_click1) _ _)).
    + by_compute.
    + vm_compute. reflexivity.
  - by_compute.
  - refine (proj2 (Hclick2 (answering three_rows_csv) "stooq" "SPY" "252" quarter_text
                     empty_world (snd quarter_click2)
                     (doneResults (fst quarter_click2)) (doneRows (fst quarter_click2))
                     (doneTotal (fst quarter_click2)) _ _)).
    + by_compute.
    + vm_compute. reflexivity.
Defined.

(** * C8: fetching a price history *)

Lemma length_sort {A} (before : A -> A -> bool) (l : list A) :
  length (sort before l) = length l.
Proof. apply Permutation_length, sort_Permutation. Qed.

Lemma length_omap {A B} (f : A -> option B) (l : list A) :
  (length (omap f l) <= length l)%nat.
Proof.
  induction l as [|x l IH]; [done|].
  change (omap f (x :: l))
    with (match f x with Some y => y :: omap f l | None => omap f l end).
  destruct (f x); cbn [length]; lia.
Qed.

Lemma parseStooqCsv_rows (txt : string) :
  V1.parseStooqCsv txt <> [] ->
  (3 <= length (responseLines txt))%nat
  /\ is_Some (V1.findColumn "date" (headerCells txt))
  /\ is_Some (V1.findColumn "close" (headerCells txt))
  /\ (length (V1.parseStooqCsv txt) <= length (responseLines txt) - 1)%nat.
Proof.
  unfold V1.parseStooqCsv. cbv zeta. fold (responseLines txt).
  destruct (length (responseLines txt) <? 3)%nat eqn:Hn; [done|].
  apply Nat.ltb_ge in Hn. fold (headerCells txt).
  destruct (V1.findColumn "date" (headerCells txt)) as [dateIdx|]; [|done].
  destruct (V1.findColumn "close" (headerCells txt)) as [closeIdx|]; [|done].
  intros _. split; [done|]. split; [by eexists|]. split; [by eexists|].
  rewrite length_sort.
  etrans; [apply length_omap|].
  destruct (responseLines txt); simpl; lia.
Qed.

Lemma fetchPrices1_cases http symbol :
  match http symbol with
  | Throw e => V1.fetchPrices http symbol = Throw e
  | Ok txt =>
      match V1.parseStooqCsv txt with
      | [] => exists e, V1.fetchPrices http symbol = Throw e
      | rows => V1.fetchPrices http symbol = Ok rows
      end
  end.
Proof.
  unfold V1.fetchPrices. destruct (http symbol) as [txt|e]; [|done].
  destruct (V1.parseStooqCsv txt); [by eexists | done].
Qed.

(** C8, as amended.  The fetch of either script fails when the transport
    fails and when the response has fewer than three lines, which an empty
    response has; the fetch of the first script fails as well when the
    header lacks the date or the close column and when no data line is
    usable.  A success of the first script holds at least one row; the rows
    of a success are at most the data lines of the response. *)
Theorem fetch_fails_on_short_responses :
  (forall http symbol e,
      http symbol = Throw e -> V1.fetchPrices http symbol = Throw e)
  /\ (forall http symbol txt,
        http symbol = Ok txt ->
        (length (responseLines txt) < 3)%nat
        \/ V1.findColumn "date" (headerCells txt) = None
        \/ V1.findColumn "close" (headerCells txt) = None ->
        exists e, V1.fetchPrices http symbol = Throw e)
  /\ (forall http symbol rows,
        V1.fetchPrices http symbol = Ok rows ->
        exists txt,
          http symbol = Ok txt
          /\ rows <> []
          /\ (3 <= length (responseLines txt))%nat
          /\ (length rows <= length (responseLines txt) - 1)%nat)
  /\ (forall env symbol e,
        V2.http env symbol = Throw e -> V2.fetchPricesStooq env symbol = Throw e)
  /\ (forall env symbol txt,
        V2.http env symbol = Ok txt ->
        (length (responseLines txt) < 3)%nat ->
        V2.fetchPricesStooq env symbol = Throw "No data")
  /\ (forall env symbol rows,
        V2.fetchPricesStooq env symbol = Ok rows ->
        exists txt,
          V2.http env symbol = Ok txt
          /\ (3 <= length (responseLines txt))%nat
          /\ (length rows <= length (responseLines txt) - 1)%nat).
Proof.
  repeat split.
  - intros http symbol e H. unfold V1.fetchPrices. by rewrite H.
  - intros http symbol txt H Hbad.
    pose proof (fetchPrices1_cases http symbol) as Hc. rewrite H in Hc.
    destruct (V1.parseStooqCsv txt) as [|row rows] eqn:Hrows; [done|].
    assert (Hne : V1.parseStooqCsv txt <> []) by (by rewrite Hrows).
    apply parseStooqCsv_rows in Hne as (Hn & [d Hd] & [c Hcl] & _).
    destruct Hbad as [Hbad|[Hbad|Hbad]]; [lia | congruence | congruence].
  - intros http symbol rows H.
    pose proof (fetchPrices1_cases http symbol) as Hc.
    destruct (http symbol) as [txt|e]; [|congruence].
    exists txt. split; [done|].
    destruct (V1.parseStooqCsv txt) as [|row rows'] eqn:Hrows.
    { destruct Hc as [e Hc]. congruence. }
    assert (Hne : V1.parseStooqCsv txt <> []) by (by rewrite Hrows).
    apply parseStooqCsv_rows in Hne as (Hn & _ & _ & Hlen).
    rewrite Hc in H. injection H as <-. rewrite Hrows in Hlen. done.
  - intros env symbol e H. unfold V2.fetchPricesStooq. by rewrite H.
  - intros env symbol txt H Hn. unfold V2.fetchPricesStooq. rewrite H.
    fold (responseLines txt). by apply Nat.ltb_lt in Hn as ->.
  - intros env symbol rows. unfold V2.fetchPricesStooq.
    destruct (V2.http env symbol) as [txt|e]; [|done].
    fold (responseLines txt).
    destruct (length (responseLines txt) <? 3)%nat eqn:Hn; [done|].
    apply Nat.ltb_ge in Hn. intros [= <-]. exists txt.
    split; [done|]. split; [done|].
    rewrite length_sort. etrans; [apply length_omap|].
    destruct (responseLines txt); simpl; lia.
Qed.

(** A response without a close column, and an empty response. *)
Lemma fetch_fails_on_short_responses_witness :
  (exists e, V1.fetchPrices (fun _ => Ok no_close_column_csv) "aapl.us" = Throw e)
  /\ V2.fetchPricesStooq (answering "") "aapl.us" = Throw "No data".
Proof.
  destruct fetch_fails_on_short_responses as (_ & H1 & _ & _ & H2 & _).
  split.
  - apply (H1 (fun _ => Ok no_close_column_csv) "aapl.us" no_close_column_csv eq_refl).
    right. right. reflexivity.
  - apply (H2 (answering "") "aapl.us" "" eq_refl). cbn. lia.
Defined.

(** C8 as stated fails on both scripts.  A response of a header and two
    data lines, one of them unusable, is returned as a price history of one
    row. *)
Lemma fetch_returns_one_row :
  V1.fetchPrices (fun _ => Ok one_usable_row_csv) "aapl.us"
  = Ok [PriceRow "2024-01-02" (of_Z 100)]
  /\ V2.fetchPricesStooq (answering one_usable_row_csv) "aapl.us"
     = Ok [PriceRow "2024-01-02" (of_Z 100)]
  /\ (length [PriceRow "2024-01-02" (of_Z 100)] < 2)%nat.
Proof. by_compute. Qed.

(** * Further properties *)

Lemma zip_with_diag {A B} (f : A -> A -> B) (l : list A) :
  zip_with f l l = map (fun x => f x x) l.
Proof. induction l as [|x l IH]; simpl; [done | by rewrite IH]. Qed.

Lemma sampleCovariance_self (a : list Qc) : sampleCovariance a a = sampleVariance a.
Proof. unfold sampleCovariance, sampleVariance. by rewrite zip_with_diag. Qed.

(** X2.  The beta of a return series against itself is 1, when the series has a
    sample variance that is not zero and enough points: two for the first
    script, twenty for the second. *)
Theorem beta_against_itself (a : list Qc) :
  sampleVariance a <> 0 ->
  ((2 <= length a)%nat -> V1.betaFromReturns (map Fin a) (map Fin a) = Fin 1)
  /\ ((20 <= length a)%nat -> V2.calculateBeta (map Fin a) (map Fin a) = Fin 1).
Proof.
  intros Hv. split; intros Hn.
  - rewrite betaFromReturns_Fin by done.
    rewrite decide_False by (intros [?|?]; [lia | done]).
    rewrite sampleCovariance_self. f_equal. by field.
  - rewrite calculateBeta_Fin by done.
    rewrite decide_False by (intros [?|?]; [lia | done]).
    rewrite sampleCovariance_self. f_equal. by field.
Qed.

(** The sample asset vector against itself. *)
Lemma beta_against_itself_witness :
  V1.betaFromReturns (map Fin fixture_asset) (map Fin fixture_asset) = Fin 1.
Proof.
  apply (proj1 (beta_against_itself fixture_asset ltac:(by_compute))).
  cbn. lia.
Defined.

(** X3.  A portfolio of one holding of weight 1 has the beta of that holding, in
    the first script. *)
Theorem single_holding_portfolio (ticker stooq : string) (b : Qc) (n : nat) :
  V1.portfolioBeta [V1.Result ticker stooq (Fin 1) (Fin b) n] = Fin b.
Proof.
  unfold V1.portfolioBeta, of_Z. cbn. rewrite Qc_of_Z_0. f_equal. ring.
Qed.

(** * The beta as a statistic *)

Lemma Qc_of_nat_S (n : nat) : Qc_of_Z (Z.of_nat (S n)) = Qc_of_Z (Z.of_nat n) + 1.
Proof. rewrite Nat2Z.inj_succ, <- Z.add_1_r, Z2Qc_inj_add, Z2Qc_inj_1. done. Qed.

Lemma Qc_of_nat_nonzero (n : nat) : n <> 0%nat -> Qc_of_Z (Z.of_nat n) <> 0.
Proof. intros Hn. apply Qc_of_Z_nonzero. lia. Qed.

Lemma total_of_cons (x : Qc) (l : list Qc) : total_of (x :: l) = x + total_of l.
Proof. reflexivity. Qed.

Lemma total_of_map_affine (c k : Qc) (a : list Qc) :
  total_of (map (fun x => c * x + k) a)
  = c * total_of a + k * Qc_of_Z (Z.of_nat (length a)).
Proof.
  induction a as [|x a IH].
  - cbn [map length total_of foldr]. change (Z.of_nat 0) with 0%Z. rewrite Z2Qc_inj_0. ring.
  - cbn [map length]. rewrite !total_of_cons, IH, Qc_of_nat_S. ring.
Qed.

Lemma mean_affine (c k : Qc) (a : list Qc) :
  a <> [] -> mean (map (fun x => c * x + k) a) = c * mean a + k.
Proof.
  intros Ha. unfold mean. rewrite total_of_map_affine, length_map.
  field. apply Qc_of_nat_nonzero. by destruct a.
Qed.

Lemma total_of_zip_with_scale (c ma ma' mm : Qc) (f : Qc -> Qc) (a m : list Qc) :
  (forall x, f x - ma' = c * (x - ma)) ->
  total_of (zip_with (fun x y => (x - ma') * (y - mm)) (map f a) m)
  = c * total_of (zip_with (fun x y => (x - ma) * (y - mm)) a m).
Proof.
  intros Hf. revert m. induction a as [|x a IH]; intros [|y m]; cbn [map zip_with];
    try (cbn; ring).
  rewrite !total_of_cons, IH, Hf. ring.
Qed.

Lemma sampleCovariance_affine (c k : Qc) (a m : list Qc) :
  sampleCovariance (map (fun x => c * x + k) a) m = c * sampleCovariance a m.
Proof.
  destruct a as [|x0 a'] eqn:Ha.
  { unfold sampleCovariance. cbn. unfold Qcdiv. ring. }
  rewrite <- Ha. assert (Hne : a <> []) by (by subst).
  unfold sampleCovariance. rewrite length_map, mean_affine by done.
  rewrite (total_of_zip_with_scale c (mean a)) by (intros; ring).
  unfold Qcdiv. ring.
Qed.

(** X5.  The beta of an asset follows the asset: when every return of the asset
    is multiplied by [c] and shifted by [k], the beta is multiplied by
    [c]. *)
Theorem beta_affine_in_asset (c k : Qc) (a m : list Qc) :
  length a = length m ->
  let a' := map (fun x => c * x + k) a in
  V1.betaFromReturns (map Fin a') (map Fin m)
  = (Fin c * V1.betaFromReturns (map Fin a) (map Fin m))%num
  /\ V2.calculateBeta (map Fin a') (map Fin m)
     = (Fin c * V2.calculateBeta (map Fin a) (map Fin m))%num.
Proof.
  intros Hlen a'.
  assert (Hlen' : length a' = length m) by (unfold a'; by rewrite length_map).
  rewrite !betaFromReturns_Fin, !calculateBeta_Fin by done.
  unfold a'. rewrite sampleCovariance_affine.
  split; case_decide; try done; cbn; f_equal; unfold Qcdiv; ring.
Qed.

(** The sample asset doubled and shifted by one. *)
Lemma beta_affine_in_asset_witness :
  V1.betaFromReturns (map Fin (map (fun x => Qc_of_Z 2 * x + 1) fixture_asset))
    (map Fin fixture_market)
  = (Fin (Qc_of_Z 2) * V1.betaFromReturns (map Fin fixture_asset) (map Fin fixture_market))%num.
Proof.
  apply (proj1 (beta_affine_in_asset (Qc_of_Z 2) 1 fixture_asset fixture_market eq_refl)).
Defined.

Lemma total_of_zip_with_scale_r (c ma mm mm' : Qc) (g : Qc -> Qc) (a m : list Qc) :
  (forall y, g y - mm' = c * (y - mm)) ->
  total_of (zip_with (fun x y => (x - ma) * (y - mm')) a (map g m))
  = c * total_of (zip_with (fun x y => (x - ma) * (y - mm)) a m).
Proof.
  intros Hg. revert m. induction a as [|x a IH]; intros [|y m]; cbn [map zip_with];
    try (cbn; ring).
  rewrite !total_of_cons, IH, Hg. ring.
Qed.

Lemma total_of_map_scale (c : Qc) (f g : Qc -> Qc) (m : list Qc) :
  (forall y, f y = c * g y) ->
  total_of (map f m) = c * total_of (map g m).
Proof.
  intros Hf. induction m as [|y m IH]; cbn [map].
  - cbn. ring.
  - rewrite !total_of_cons, IH, Hf. ring.
Qed.

Lemma sampleCovariance_affine_r (c k : Qc) (a m : list Qc) :
  m <> [] ->
  sampleCovariance a (map (fun y => c * y + k) m) = c * sampleCovariance a m.
Proof.
  intros Hm. unfold sampleCovariance. rewrite mean_affine by done.
  rewrite (total_of_zip_with_scale_r c (mean a) (mean m)) by (intros; ring).
  unfold Qcdiv. ring.
Qed.

Lemma sampleVariance_affine (c k : Qc) (m : list Qc) :
  m <> [] ->
  sampleVariance (map (fun y => c * y + k) m) = c * c * sampleVariance m.
Proof.
  intros Hm. unfold sampleVariance. rewrite length_map, mean_affine by done.
  rewrite map_map.
  rewrite (total_of_map_scale (c * c) _ (fun y => (y - mean m) * (y - mean m)))
    by (intros; ring).
  unfold Qcdiv. ring.
Qed.

Lemma Qcmult_nonzero (x y : Qc) : x <> 0 -> y <> 0 -> x * y <> 0.
Proof. intros Hx Hy H. by destruct (Qcmult_integral _ _ H). Qed.

(** X6.  The beta of an asset against a market whose every return is multiplied
    by [c], not zero, and shifted by [k], is the beta divided by [c]. *)
Theorem beta_affine_in_market (c k : Qc) (a m : list Qc) :
  c <> 0 ->
  length a = length m ->
  let m' := map (fun y => c * y + k) m in
  V1.betaFromReturns (map Fin a) (map Fin m')
  = (V1.betaFromReturns (map Fin a) (map Fin m) / Fin c)%num
  /\ V2.calculateBeta (map Fin a) (map Fin m')
     = (V2.calculateBeta (map Fin a) (map Fin m) / Fin c)%num.
Proof.
  intros Hc Hlen m'.
  assert (Hlen' : length a = length m') by (unfold m'; by rewrite length_map).
  rewrite !betaFromReturns_Fin, !calculateBeta_Fin by done.
  unfold m'. rewrite !length_map.
  destruct m as [|y0 m0] eqn:Hm.
  { cbn. split; rewrite !decide_True by (left; lia); done. }
  rewrite <- Hm. assert (Hne : m <> []) by (by subst).
  rewrite sampleCovariance_affine_r, sampleVariance_affine by done.
  assert (Hiff : c * c * sampleVariance m = 0 <-> sampleVariance m = 0).
  { split; [|intros ->; ring]. intros H.
    destruct (Qcmult_integral _ _ H) as [H1|H1]; [|done].
    by destruct (Qcmult_integral _ _ H1). }
  split.
  - destruct (decide ((length m < 2)%nat \/ sampleVariance m = 0)) as [Hd|Hd].
    + rewrite decide_True by tauto. done.
    + rewrite decide_False by tauto. rewrite ndiv_Fin by done. f_equal.
      field. split; [tauto | done].
  - destruct (decide ((length m < 20)%nat \/ sampleVariance m = 0)) as [Hd|Hd].
    + rewrite decide_True by tauto. done.
    + rewrite decide_False by tauto. rewrite ndiv_Fin by done. f_equal.
      field. split; [tauto | done].
Qed.

(** The sample market doubled and shifted by one. *)
Lemma beta_affine_in_market_witness :
  V1.betaFromReturns (map Fin fixture_asset)
    (map Fin (map (fun y => Qc_of_Z 2 * y + 1) fixture_market))
  = (V1.betaFromReturns (map Fin fixture_asset) (map Fin fixture_market)
     / Fin (Qc_of_Z 2))%num.
Proof.
  apply (proj1 (beta_affine_in_market (Qc_of_Z 2) 1 fixture_asset fixture_market
                  ltac:(by_compute) eq_refl)).
Defined.

(** ** A market that does not move *)

Lemma Qc_square_nonneg (x : Qc) : 0 ≤ x * x.
Proof.
  destruct (Qclt_le_dec x 0) as [Hx|Hx].
  - replace (x * x) with ((- x) * (- x)) by ring.
    assert (0 ≤ - x).
    { apply Qclt_le_weak in Hx. apply (Qcplus_le_mono_r _ _ x).
      replace (- x + x) with 0 by ring. by rewrite Qcplus_0_l. }
    by apply Qcmult_nonneg_nonneg.
  - by apply Qcmult_nonneg_nonneg.
Qed.

Lemma total_of_squares_nonneg (f : Qc -> Qc) (m : list Qc) :
  0 ≤ total_of (map (fun y => f y * f y) m).
Proof.
  induction m as [|y m IH]; cbn [map]; [done|].
  rewrite total_of_cons. apply Qcplus_nonneg_nonneg; [apply Qc_square_nonneg | done].
Qed.

Lemma total_of_squares_zero (f : Qc -> Qc) (m : list Qc) :
  total_of (map (fun y => f y * f y) m) = 0 -> Forall (fun y => f y = 0) m.
Proof.
  induction m as [|y m IH]; cbn [map]; [constructor|].
  rewrite total_of_cons. intros H.
  pose proof (Qc_square_nonneg (f y)) as H1.
  pose proof (total_of_squares_nonneg f m) as H2.
  assert (Hy : f y * f y = 0).
  { apply Qcle_antisym; [|done].
    rewrite <- H. rewrite <- (Qcplus_0_r (f y * f y)) at 1.
    by apply Qcplus_le_mono_l. }
  constructor.
  - by destruct (Qcmult_integral _ _ Hy).
  - apply IH. rewrite Hy, Qcplus_0_l in H. done.
Qed.

Lemma total_of_replicate (n : nat) (v : Qc) :
  total_of (replicate n v) = Qc_of_Z (Z.of_nat n) * v.
Proof.
  induction n as [|n IH].
  - cbn. change (Z.of_nat 0) with 0%Z. rewrite Z2Qc_inj_0. ring.
  - cbn [replicate]. rewrite total_of_cons, IH, Qc_of_nat_S. ring.
Qed.

(** A series has the sample variance zero exactly when all its values are
    one value. *)
Lemma sampleVariance_zero_iff (m : list Qc) :
  (2 <= length m)%nat ->
  sampleVariance m = 0 <-> exists v, m = replicate (length m) v.
Proof.
  intros Hn. rewrite sampleVariance_zero by done. split.
  - intros H. exists (mean m).
    apply (total_of_squares_zero (fun y => y - mean m)) in H.
    clear Hn. generalize dependent (mean m). intros mu H.
    induction H as [|y l Hy _ IH]; [done|].
    cbn [length replicate]. f_equal; [|done].
    rewrite <- (Qcplus_0_r mu), <- Hy. ring.
  - intros [v Hv].
    assert (Hmean : mean m = v).
    { unfold mean. rewrite Hv at 1. rewrite total_of_replicate.
      field. apply Qc_of_nat_nonzero. lia. }
    rewrite Hmean, Hv. clear. induction (length m) as [|n IH]; [done|].
    cbn [replicate map]. rewrite total_of_cons, IH. ring.
Qed.

(** X7.  The beta is undefined exactly when the points are too few, fewer than
    2 in the first script and fewer than 20 in the second, or the market
    returns are all one value. *)
Theorem beta_undefined_iff_market_flat (a m : list Qc) :
  length a = length m ->
  (V1.betaFromReturns (map Fin a) (map Fin m) = NaN
   <-> (length m < 2)%nat \/ exists v, m = replicate (length m) v)
  /\ (V2.calculateBeta (map Fin a) (map Fin m) = NaN
      <-> (length m < 20)%nat \/ exists v, m = replicate (length m) v).
Proof.
  intros Hlen. rewrite betaFromReturns_Fin, calculateBeta_Fin by done.
  assert (Hsmall : (length m < 2)%nat -> exists v, m = replicate (length m) v).
  { destruct m as [|y [|z m]]; cbn; intros; [by exists 0 | by exists y | lia]. }
  split.
  - destruct (decide ((length m < 2)%nat \/ sampleVariance m = 0)) as [Hd|Hd].
    + split; [intros _|done]. destruct Hd as [?|Hv]; [by left|].
      destruct (decide (length m < 2)%nat); [by left|right].
      apply sampleVariance_zero_iff; [lia | done].
    + split; [done|]. intros [?|Hv]; [tauto|]. exfalso. apply Hd.
      destruct (decide (length m < 2)%nat); [by left|right].
      apply sampleVariance_zero_iff; [lia | done].
  - destruct (decide ((length m < 20)%nat \/ sampleVariance m = 0)) as [Hd|Hd].
    + split; [intros _|done]. destruct Hd as [?|Hv]; [by left|].
      destruct (decide (length m < 2)%nat); [right; by apply Hsmall|right].
      apply sampleVariance_zero_iff; [lia | done].
    + split; [done|]. intros [?|Hv]; [tauto|]. exfalso. apply Hd.
      destruct (decide (length m < 2)%nat); [left; lia|right].
      apply sampleVariance_zero_iff; [lia | done].
Qed.

(** The sample asset against a market that does not move. *)
Lemma beta_undefined_iff_market_flat_witness :
  V1.betaFromReturns (map Fin fixture_asset) (map Fin [1; 1; 1]) = NaN.
Proof.
  apply (proj2 (proj1 (beta_undefined_iff_market_flat fixture_asset [1; 1; 1] eq_refl))).
  right. by exists 1.
Defined.

(** ** The beta of a portfolio *)

Lemma total_of_nil : total_of [] = 0.
Proof. reflexivity. Qed.

Lemma total_of_zip_with_plus (a b : list Qc) :
  length a = length b ->
  total_of (zip_with Qcplus a b) = total_of a + total_of b.
Proof.
  revert b. induction a as [|x a IH]; intros [|y b] Hlen; cbn [zip_with];
    try done.
  rewrite !total_of_cons, IH by (cbn in Hlen; congruence). ring.
Qed.

Lemma length_zip_with_same {A B C} (f : A -> B -> C) (a : list A) (b : list B) :
  length a = length b -> length (zip_with f a b) = length a.
Proof. intros H. rewrite length_zip_with. lia. Qed.

Lemma mean_plus (a b : list Qc) :
  length a = length b -> a <> [] ->
  mean (zip_with Qcplus a b) = mean a + mean b.
Proof.
  intros Hlen Ha. unfold mean.
  rewrite total_of_zip_with_plus, length_zip_with_same, <- Hlen by done.
  field. apply Qc_of_nat_nonzero. by destruct a.
Qed.

Lemma cross_plus (ma mb mm : Qc) (a b m : list Qc) :
  length a = length b -> length a = length m ->
  total_of (zip_with (fun x y => (x - (ma + mb)) * (y - mm)) (zip_with Qcplus a b) m)
  = total_of (zip_with (fun x y => (x - ma) * (y - mm)) a m)
    + total_of (zip_with (fun x y => (x - mb) * (y - mm)) b m).
Proof.
  revert b m. induction a as [|x a IH]; intros [|y b] [|z m] H1 H2; cbn [zip_with];
    try done.
  rewrite !total_of_cons, IH by (cbn in *; congruence). ring.
Qed.

Lemma sampleCovariance_plus (a b m : list Qc) :
  length a = length b -> length a = length m ->
  sampleCovariance (zip_with Qcplus a b) m = sampleCovariance a m + sampleCovariance b m.
Proof.
  intros H1 H2. destruct a as [|x0 a0] eqn:Ha.
  { destruct b; [|done]. unfold sampleCovariance. cbn. unfold Qcdiv. ring. }
  rewrite <- Ha in *. assert (Hne : a <> []) by (by subst).
  unfold sampleCovariance.
  rewrite mean_plus, cross_plus, length_zip_with_same, <- H1 by done.
  unfold Qcdiv. ring.
Qed.

Lemma sampleCovariance_scale (w : Qc) (a m : list Qc) :
  sampleCovariance (map (Qcmult w) a) m = w * sampleCovariance a m.
Proof.
  rewrite <- (sampleCovariance_affine w 0 a m). f_equal.
  apply map_ext. intros x. ring.
Qed.

Lemma sampleCovariance_zeros (n : nat) (m : list Qc) :
  sampleCovariance (replicate n 0) m = 0.
Proof.
  unfold sampleCovariance.
  assert (Hmean : mean (replicate n 0) = 0).
  { unfold mean. rewrite total_of_replicate. unfold Qcdiv. ring. }
  rewrite Hmean.
  assert (H : total_of (zip_with (fun x y => (x - 0) * (y - mean m)) (replicate n 0) m) = 0).
  { generalize (mean m). intros mm. clear Hmean. revert m.
    induction n as [|n IH]; intros [|y m]; cbn [replicate zip_with];
      try reflexivity.
    rewrite total_of_cons, IH. ring. }
  rewrite H. unfold Qcdiv. ring.
Qed.

Lemma length_blend (m : list Qc) (results : list V1.result) (parts : list (Qc * list Qc)) :
  Forall2 (holds m) results parts -> length (blend (length m) parts) = length m.
Proof.
  induction 1 as [|res [w a] results parts (_ & Hlen & _) _ IH]; cbn [blend].
  - apply length_replicate.
  - cbn in Hlen. rewrite length_zip_with, length_map, IH. lia.
Qed.

Lemma sampleCovariance_blend (m : list Qc) (results : list V1.result)
    (parts : list (Qc * list Qc)) :
  Forall2 (holds m) results parts ->
  sampleCovariance (blend (length m) parts) m
  = total_of (map (fun p => fst p * sampleCovariance (snd p) m) parts).
Proof.
  intros H. induction H as [|res [w a] results parts (Hw & Hlen & Hb) Hrest IH];
    cbn [blend map].
  - apply sampleCovariance_zeros.
  - cbn in Hlen. rewrite total_of_cons. cbn [fst snd].
    rewrite sampleCovariance_plus, sampleCovariance_scale, IH.
    + done.
    + rewrite length_map, (length_blend m results parts) by done. done.
    + by rewrite length_map.
Qed.

(** X8.  The portfolio beta of the first script is the beta of the portfolio:
    when the holdings' betas are taken against one market series of
    non-zero variance, the weighted sum of the betas is the beta of the
    weighted sum of the holdings' return series. *)
Theorem portfolio_beta_is_beta_of_blend (m : list Qc) (results : list V1.result)
    (parts : list (Qc * list Qc)) :
  (2 <= length m)%nat ->
  sampleVariance m <> 0 ->
  Forall2 (holds m) results parts ->
  V1.portfolioBeta results
  = V1.betaFromReturns (map Fin (blend (length m) parts)) (map Fin m).
Proof.
  intros Hn Hv H.
  rewrite betaFromReturns_Fin by (by apply (length_blend m results parts)).
  rewrite decide_False by (intros [?|?]; [lia | done]).
  rewrite (sampleCovariance_blend m results parts) by done.
  rewrite portfolioBeta_sum.
  2:{ clear -H. induction H as [|res p ? ? (Hw & _) _ IH]; constructor; [|done].
      by rewrite Hw. }
  f_equal.
  induction H as [|res [w a] results parts (Hw & Hlen & Hb) _ IH]; cbn [map].
  - cbn. unfold Qcdiv. ring.
  - rewrite !total_of_cons, IH. cbn [fst snd] in *.
    unfold contribution1. rewrite Hw, Hb, betaFromReturns_Fin by done.
    rewrite decide_False by (intros [?|?]; [lia | done]).
    cbn [real]. unfold Qcdiv. ring.
Qed.

(** A quarter of the sample asset and three quarters of the sample
    market. *)
Lemma portfolio_beta_is_beta_of_blend_witness :
  V1.portfolioBeta sample_blend_results
  = V1.betaFromReturns (map Fin (blend (length fixture_market) sample_parts))
      (map Fin fixture_market).
Proof.
  apply (portfolio_beta_is_beta_of_blend fixture_market sample_blend_results sample_parts).
  - cbn. lia.
  - by_compute.
  - repeat constructor.
Defined.

(** * Weights up to a factor *)

Lemma weights_rescaled (c : Qc) (holdings : list holding) :
  total_of (weights (map (rescaled c) holdings)) = c * total_of (weights holdings).
Proof.
  unfold weights. induction holdings as [|h hs IH]; cbn [map].
  - rewrite !total_of_nil. ring.
  - rewrite !total_of_cons, IH. cbn [rescaled h_weight real]. ring.
Qed.

Lemma positiveWeight_rescaled (c : Qc) (holdings : list holding) :
  0 < c -> Forall positiveWeight holdings ->
  Forall positiveWeight (map (rescaled c) holdings).
Proof.
  intros Hc H. induction H as [|h hs Hh _ IH]; cbn [map]; constructor; [|done].
  unfold positiveWeight in *. cbn. destruct (h_weight h) as [q|]; [|done].
  cbn. by apply Qcmult_pos_pos.
Qed.

Lemma scaled_rescaled (c s : Qc) (holdings : list holding) :
  c <> 0 -> s <> 0 ->
  Forall finiteWeight holdings ->
  map (scaled (c * s)) (map (rescaled c) holdings) = map (scaled s) holdings.
Proof.
  intros Hc Hs H. rewrite map_map. apply map_ext_Forall.
  eapply Forall_impl; [exact H|]. intros h Hh. unfold scaled, rescaled. cbn.
  f_equal. f_equal. unfold finiteWeight in Hh. destruct (h_weight h); [|done].
  cbn. by field.
Qed.

Lemma scaled_one (holdings : list holding) :
  Forall finiteWeight holdings -> map (scaled 1) holdings = holdings.
Proof.
  intros H. rewrite <- (map_id holdings) at 2. apply map_ext_Forall.
  eapply Forall_impl; [exact H|]. intros [t w] Hh. unfold scaled, finiteWeight in *.
  cbn in *. destruct w as [q|]; [|done]. cbn. f_equal. f_equal.
  apply (right_id 1 Qcdiv).
Qed.

Lemma finiteWeight_scaled (s : Qc) (holdings : list holding) :
  Forall finiteWeight (map (scaled s) holdings).
Proof. induction holdings; cbn [map]; constructor; done. Qed.

Lemma Forall_positive_finite (holdings : list holding) :
  Forall positiveWeight holdings -> Forall finiteWeight holdings.
Proof. intros H. eapply Forall_impl; [exact H | apply positiveWeight_finite]. Qed.

(** X9.  The normalized weights depend on the proportions of the raw weights
    only: multiplying every raw weight by one positive factor changes
    nothing, and normalizing normalized weights changes nothing. *)
Theorem normalization_ignores_scale (c : Qc) (holdings : list holding) :
  0 < c ->
  Forall positiveWeight holdings ->
  V1.normalizeWeights (map (rescaled c) holdings) = V1.normalizeWeights holdings
  /\ V2.normalizeWeights (map (rescaled c) holdings) = V2.normalizeWeights holdings
  /\ (forall normalized,
        V1.normalizeWeights holdings = Ok normalized ->
        V1.normalizeWeights normalized = Ok normalized)
  /\ (forall normalized,
        V2.normalizeWeights holdings = Ok normalized ->
        V2.normalizeWeights normalized = Ok normalized).
Proof.
  intros Hc Hpos.
  pose proof (positiveWeight_rescaled c holdings Hc Hpos) as Hpos'.
  pose proof (Forall_positive_finite _ Hpos) as Hfin.
  pose proof (Forall_positive_finite _ Hpos') as Hfin'.
  assert (Hc0 : c <> 0) by (intros ->; by apply (Qclt_not_eq 0 0)).
  assert (Hsame : forall e : string,
    (if decide (0 < total_of (weights (map (rescaled c) holdings)))
     then Ok (map (scaled (total_of (weights (map (rescaled c) holdings))))
                (map (rescaled c) holdings))
     else Throw e)
    = (if decide (0 < total_of (weights holdings))
       then Ok (map (scaled (total_of (weights holdings))) holdings)
       else @Throw (list holding) e)).
  { intros e. rewrite weights_rescaled.
    destruct (decide (0 < total_of (weights holdings))) as [Hs|Hs].
    - rewrite decide_True by (by apply Qcmult_pos_pos).
      rewrite scaled_rescaled; [done | done | | done].
      intros H0. rewrite H0 in Hs. by apply (Qclt_not_eq 0 0).
    - rewrite decide_False; [done|]. intros H. apply Hs.
      apply (Qcmult_lt_mono_pos_l _ _ c); [done|]. by rewrite Qcmult_0_r. }
  assert (Hidem : forall normalized,
    (if decide (0 < total_of (weights holdings))
     then Ok (map (scaled (total_of (weights holdings))) holdings)
     else @Throw (list holding) "") = Ok normalized ->
    0 < total_of (weights normalized)
    /\ map (scaled (total_of (weights normalized))) normalized = normalized
    /\ Forall finiteWeight normalized
    /\ Forall positiveWeight normalized).
  { intros normalized. clear Hsame.
    destruct (decide (0 < total_of (weights holdings))) as [Hs|Hs]; [|intros; discriminate].
    intros [= <-].
    assert (Hs0 : total_of (weights holdings) <> 0).
    { intros H0. rewrite H0 in Hs. by apply (Qclt_not_eq 0 0). }
    rewrite total_of_scaled by done.
    replace (total_of (weights holdings) / total_of (weights holdings)) with 1
      by (by field).
    split; [done|]. split; [apply scaled_one, finiteWeight_scaled|].
    split; [apply finiteWeight_scaled|].
    generalize dependent (total_of (weights holdings)). intros s Hs _.
    clear -Hpos Hs. induction Hpos as [|h hs Hh _ IH]; cbn [map]; [constructor|].
    constructor; [|done].
    unfold positiveWeight in *. cbn. destruct (h_weight h) as [q|]; [|done]. cbn.
    apply Qcmult_pos_pos; [done | by apply Qcinv_pos]. }
  split; [|split; [|split]].
  - rewrite !normalizeWeights1_spec by done. apply Hsame.
  - rewrite !normalizeWeights2_spec by done. apply Hsame.
  - intros normalized. rewrite normalizeWeights1_spec by done. intros H.
    assert (H' : (if decide (0 < total_of (weights holdings))
                  then Ok (map (scaled (total_of (weights holdings))) holdings)
                  else @Throw (list holding) "") = Ok normalized).
    { revert H. clear. by destruct (decide (0 < total_of (weights holdings))). }
    destruct (Hidem _ H') as (H1 & H2 & H3 & H4).
    rewrite normalizeWeights1_spec by done. rewrite decide_True by done. by rewrite H2.
  - intros normalized. rewrite normalizeWeights2_spec by done. intros H.
    assert (H' : (if decide (0 < total_of (weights holdings))
                  then Ok (map (scaled (total_of (weights holdings))) holdings)
                  else @Throw (list holding) "") = Ok normalized).
    { revert H. clear. by destruct (decide (0 < total_of (weights holdings))). }
    destruct (Hidem _ H') as (H1 & H2 & H3 & H4).
    rewrite normalizeWeights2_spec by done. rewrite decide_True by done. by rewrite H2.
Qed.

(** The sample holdings with their weights multiplied by three. *)
Lemma normalization_ignores_scale_witness :
  V1.normalizeWeights (map (rescaled (Qc_of_Z 3)) sample_holdings)
  = V1.normalizeWeights sample_holdings.
Proof.
  apply (proj1 (normalization_ignores_scale (Qc_of_Z 3) sample_holdings
                  ltac:(by_compute)
                  ltac:(repeat constructor; by_compute))).
Defined.

(** * Sorting *)

Section SortSorted.
Context {A : Type} (before : A -> A -> bool) (R : relation A) (P : A -> Prop).
Hypothesis before_R : forall a b, P a -> P b -> before a b = true -> R a b.
Hypothesis not_before_R : forall a b, P a -> P b -> before a b = false -> R b a.
Hypothesis R_trans : forall a b c, P a -> P b -> P c -> R a b -> R b c -> R a c.

Lemma insertSorted_Forall (Q : A -> Prop) (x : A) (l : list A) :
  Q x -> Forall Q l -> Forall Q (insertSorted before x l).
Proof.
  intros Hx Hl. induction Hl as [|y l Hy Hl IH]; cbn [insertSorted].
  - by constructor.
  - destruct (before y x); repeat constructor; done.
Qed.

Lemma insertSorted_StronglySorted (x : A) (l : list A) :
  P x -> Forall P l -> StronglySorted R l ->
  StronglySorted R (insertSorted before x l).
Proof.
  intros Hx HP Hs. induction Hs as [|y l Hs IH Hy]; cbn [insertSorted].
  - repeat constructor.
  - apply Forall_cons in HP as [HPy HP].
    destruct (before y x) eqn:Hb.
    + constructor; [by apply IH|].
      apply insertSorted_Forall; [by apply before_R | done].
    + assert (Hxy : R x y) by (by apply not_before_R).
      constructor; [by constructor|].
      constructor; [done|].
      rewrite Forall_forall in Hy, HP. apply Forall_forall. intros z Hz.
      apply (R_trans x y z); auto.
Qed.

Lemma sort_Forall (Q : A -> Prop) (l : list A) :
  Forall Q l -> Forall Q (sort before l).
Proof.
  induction 1 as [|x l Hx Hl IH]; cbn; [constructor|].
  by apply insertSorted_Forall.
Qed.

Lemma sort_StronglySorted (l : list A) :
  Forall P l -> StronglySorted R (sort before l).
Proof.
  induction 1 as [|x l Hx Hl IH]; cbn; [constructor|].
  apply insertSorted_StronglySorted; [done | by apply sort_Forall | done].
Qed.
End SortSorted.

(** ** The rows of a Stooq answer *)

Lemma ltb_le (s1 s2 : string) : String.ltb s1 s2 = true -> String.le s1 s2.
Proof.
  unfold String.ltb, String.le, String.leb.
  destruct (String.compare s1 s2); done.
Qed.

Lemma not_ltb_le (s1 s2 : string) : String.ltb s1 s2 = false -> String.le s2 s1.
Proof.
  unfold String.ltb, String.le, String.leb. rewrite (String.compare_antisym s2 s1).
  destruct (String.compare s1 s2); done.
Qed.

Lemma str_nonempty (l : list ascii) : l <> [] -> str l <> "".
Proof. by destruct l. Qed.

Lemma parseLine1_valid (dateIdx closeIdx : nat) (line : list ascii) (row : priceRow) :
  V1.parseLine dateIdx closeIdx line = Some row ->
  p_date row <> "" /\ isFinite (close row) = true.
Proof.
  unfold V1.parseLine.
  destruct (JsString.split comma line !! dateIdx) as [[|c d]|]; cbn; try done.
  destruct (isFinite (Number (JsString.split comma line !! closeIdx))) eqn:Hf;
    cbn; [|done].
  intros [= <-]. cbn. done.
Qed.

Lemma parseLine2_valid (dateIdx closeIdx : option nat) (line : list ascii)
    (row : priceRow) :
  V2.parseLine dateIdx closeIdx line = Some row ->
  p_date row <> "" /\ close row <> NaN.
Proof.
  unfold V2.parseLine. cbv zeta.
  destruct (V2.part (JsString.split comma line) dateIdx) as [[|c d]|]; cbn; try done.
  destruct (Number (V2.part (JsString.split comma line) closeIdx)) as [q|] eqn:Hq;
    cbn; [|done].
  intros [= <-]. cbn. done.
Qed.

(** X10.  The price history that either script reads from a Stooq answer is in
    the order of its dates, and each of its rows has a date and a close
    that is a number. *)
Theorem stooq_rows_sorted_and_valid :
  (forall csvText,
      StronglySorted (fun a b => String.le (p_date a) (p_date b))
        (V1.parseStooqCsv csvText)
      /\ Forall (fun row => p_date row <> "" /\ isFinite (close row) = true)
           (V1.parseStooqCsv csvText))
  /\ (forall env symbol rows,
        V2.fetchPricesStooq env symbol = Ok rows ->
        StronglySorted (fun a b => String.le (p_date a) (p_date b)) rows
        /\ Forall (fun row => p_date row <> "" /\ close row <> NaN) rows).
Proof.
  split.
  - intros csvText. unfold V1.parseStooqCsv.
    destruct (length _ <? 3)%nat; [split; constructor|].
    destruct (V1.findColumn "date" _) as [dateIdx|]; [|split; constructor].
    destruct (V1.findColumn "close" _) as [closeIdx|]; [|split; constructor].
    split.
    + apply (sort_StronglySorted _ _ (fun _ => True)).
      * intros a b _ _. apply ltb_le.
      * intros a b _ _. apply not_ltb_le.
      * intros a b c _ _ _. apply (transitivity (R := String.le)).
      * apply Forall_true. done.
    + apply sort_Forall, omap_Forall. intros line row. apply parseLine1_valid.
  - intros env symbol rows. unfold V2.fetchPricesStooq.
    destruct (V2.http env symbol) as [txt|e]; [|done]. cbv zeta.
    destruct (length _ <? 3)%nat; [done|]. intros [= <-]. split.
    + apply (sort_StronglySorted _ _ (fun _ => True)).
      * intros a b _ _. apply ltb_le.
      * intros a b _ _. apply not_ltb_le.
      * intros a b c _ _ _. apply (transitivity (R := String.le)).
      * apply Forall_true. done.
    + apply sort_Forall, omap_Forall. intros line row. apply parseLine2_valid.
Qed.

(** * Returns *)

Lemma length_consecutive {A} (l : list A) : length (consecutive l) = (length l - 1)%nat.
Proof.
  induction l as [|x [|y l] IH]; cbn [consecutive length] in *; [done | done | lia].
Qed.

Lemma consecutive_positive (rows : list priceRow) :
  Forall (fun row => ngt (close row) (of_Z 0) = true) rows ->
  Forall (fun p => bothPositive p = true) (consecutive rows).
Proof.
  induction rows as [|x [|y l] IH]; intros H; cbn [consecutive]; [constructor..|].
  apply Forall_cons in H as [Hx H]. constructor; [|by apply IH].
  apply Forall_cons in H as [Hy _]. unfold bothPositive. cbn. by rewrite Hx, Hy.
Qed.

Lemma filter_all {A} (f : A -> bool) (l : list A) :
  Forall (fun x => f x = true) l -> List.filter f l = l.
Proof. induction 1 as [|x l Hx _ IH]; cbn; [done|]. by rewrite Hx, IH. Qed.

Lemma filter_sublist {A B} (f g : A -> bool) (h : A -> B) (l : list A) :
  (forall x, f x = true -> g x = true) ->
  map h (List.filter f l) `sublist_of` map h (List.filter g l).
Proof.
  intros Hfg. induction l as [|x l IH]; cbn; [constructor|].
  destruct (f x) eqn:Hf.
  - rewrite (Hfg x Hf). cbn. by constructor.
  - destruct (g x); cbn; [by constructor | done].
Qed.

Lemma bothPositive_keeps1 (p : priceRow * priceRow) :
  bothPositive p = true -> keeps1 p = true.
Proof.
  unfold bothPositive, keeps1. destruct p as [[d0 c0] [d1 c1]]. cbn [fst snd close].
  intros H. apply andb_true_iff in H as [H0 H1].
  destruct c0 as [q0|], c1 as [q1|]; try done. cbn in *.
  apply bool_decide_eq_true in H0.
  rewrite bool_decide_eq_false_2; [done|].
  intros Hle. by apply (Qcle_not_lt _ _ Hle).
Qed.

Lemma keeps1_finite (p : priceRow * priceRow) :
  keeps1 p = true -> isFinite (r (returnOf p)) = true.
Proof.
  unfold keeps1, returnOf. destruct p as [[d0 [q0|]] [d1 [q1|]]]; cbn; try done.
  intros H. apply negb_true_iff, bool_decide_eq_false in H.
  rewrite decide_False; [done|]. intros ->. apply H. rewrite Z2Qc_inj_0. done.
Qed.

Lemma bothPositive_above (p : priceRow * priceRow) :
  bothPositive p = true -> exists q, r (returnOf p) = Fin q /\ - (1) < q.
Proof.
  unfold bothPositive, returnOf. destruct p as [[d0 c0] [d1 c1]]. cbn [fst snd close].
  intros H. apply andb_true_iff in H as [H0 H1].
  destruct c0 as [q0|], c1 as [q1|]; try done. cbn in *.
  apply bool_decide_eq_true in H0, H1. rewrite Z2Qc_inj_0 in H0, H1.
  assert (Hq0 : q0 <> 0) by (intros ->; by apply (Qclt_not_eq 0 0)).
  rewrite decide_False by done. eexists. split; [reflexivity|].
  rewrite Z2Qc_inj_1.
  assert (Hpos : 0 < q1 / q0) by (apply Qcmult_pos_pos; [done | by apply Qcinv_pos]).
  apply (Qcplus_lt_mono_r _ _ 1).
  replace (- (1) + 1) with 0 by ring. replace (q1 / q0 - 1 + 1) with (q1 / q0) by ring.
  done.
Qed.

(** X11.  What the two scripts make of one price history: the second script
    emits a part of the returns of the first, and all of them when every
    close is positive; the first script never emits an undefined return,
    and the second never a return of minus one or less. *)
Theorem toReturns_of_both_versions (rows : list priceRow) :
  V2.toReturns rows `sublist_of` V1.toReturns rows
  /\ (length (V1.toReturns rows) <= length rows - 1)%nat
  /\ Forall (fun ret => isFinite (r ret) = true) (V1.toReturns rows)
  /\ Forall (fun ret => exists q, r ret = Fin q /\ - (1) < q) (V2.toReturns rows)
  /\ (Forall (fun row => ngt (close row) (of_Z 0) = true) rows ->
      V2.toReturns rows = V1.toReturns rows
      /\ length (V1.toReturns rows) = (length rows - 1)%nat).
Proof.
  rewrite toReturns1_spec, toReturns2_spec.
  split; [apply filter_sublist, bothPositive_keeps1|].
  split.
  { rewrite length_map, <- length_consecutive.
    apply List.filter_length_le. }
  split.
  { apply List.Forall_forall. intros ret Hin. apply in_map_iff in Hin
      as (p & <- & Hp). apply filter_In in Hp as [_ Hp]. by apply keeps1_finite. }
  split.
  { apply List.Forall_forall. intros ret Hin. apply in_map_iff in Hin
      as (p & <- & Hp). apply filter_In in Hp as [_ Hp]. by apply bothPositive_above. }
  intros Hpos. apply consecutive_positive in Hpos.
  rewrite (filter_all bothPositive) by done.
  rewrite (filter_all keeps1).
  - by rewrite length_map, length_consecutive.
  - eapply Forall_impl; [exact Hpos | apply bothPositive_keeps1].
Qed.

(** * The shape of a normalized symbol *)

Lemma lowerChar_upperChar c : lowerChar (upperChar c) = lowerChar c.
Proof. by_cases_on_char c. Qed.

Lemma lowerChar_not_upper c : isUpper (lowerChar c) = false.
Proof. by_cases_on_char c. Qed.

Lemma hyphenate_upper_not_lower c : isLower (hyphenate (upperChar c)) = false.
Proof. by_cases_on_char c. Qed.

Lemma hyphenate_not_dot c : bool_decide (hyphenate c = dot) = false.
Proof. by_cases_on_char c. Qed.

Lemma lower_upper l : JsString.toLowerCase (JsString.toUpperCase l) = JsString.toLowerCase l.
Proof.
  unfold JsString.toLowerCase, JsString.toUpperCase. rewrite map_map.
  apply map_ext, lowerChar_upperChar.
Qed.

Lemma hasSuffix_upper l : JsString.hasSuffix (JsString.toUpperCase l) = JsString.hasSuffix l.
Proof. apply hasSuffix_map; [apply isLetter_upperChar | apply isDot_upperChar]. Qed.

Lemma includesDot_upper l :
  JsString.includesDot (JsString.toUpperCase l) = JsString.includesDot l.
Proof. apply includesDot_map, isDot_upperChar. Qed.

Lemma stooqForm_upper (t : list ascii) : stooqForm (JsString.toUpperCase t) = stooqForm t.
Proof.
  unfold stooqForm.
  rewrite hasSuffix_upper, removeSpaces_upper, includesDot_upper, !lower_upper. done.
Qed.

Lemma lettersThenDot_dot (n : nat) (rl : list ascii) :
  JsString.lettersThenDot n rl = true -> In dot rl.
Proof.
  revert n. induction rl as [|c rl IH]; intros n; cbn; [done|].
  destruct (isLetter c).
  - intros H. right. by apply (IH (S n)).
  - intros H. apply andb_true_iff in H as [H _]. apply bool_decide_eq_true in H. by left.
Qed.

Lemma includesDot_In (l : list ascii) : JsString.includesDot l = true <-> In dot l.
Proof.
  unfold JsString.includesDot. rewrite existsb_exists. split.
  - intros (c & Hc & Hd). apply bool_decide_eq_true in Hd. by subst.
  - intros H. exists dot. split; [done | by apply bool_decide_eq_true].
Qed.

Lemma hasSuffix_includesDot (l : list ascii) :
  JsString.hasSuffix l = true -> JsString.includesDot l = true.
Proof.
  intros H. apply includesDot_In, in_rev. by apply (lettersThenDot_dot 0).
Qed.

Lemma stooqForm_includesDot (t : list ascii) : JsString.includesDot (stooqForm t) = true.
Proof.
  destruct (stooqForm_cases t) as [(H & ->)|[(_ & H & ->)|(_ & _ & ->)]].
  - rewrite includesDot_lower. by apply hasSuffix_includesDot.
  - by rewrite includesDot_lower.
  - apply includesDot_In, in_or_app. right. cbn. tauto.
Qed.

Lemma lower_not_upper (l : list ascii) :
  Forall (fun c => isUpper c = false) (JsString.toLowerCase l).
Proof.
  unfold JsString.toLowerCase. apply List.Forall_forall. intros c Hc.
  apply in_map_iff in Hc as (c' & <- & _). apply lowerChar_not_upper.
Qed.

Lemma stooqForm_not_upper (t : list ascii) :
  Forall (fun c => isUpper c = false) (stooqForm t).
Proof.
  destruct (stooqForm_cases t) as [(_ & ->)|[(_ & _ & ->)|(_ & _ & ->)]];
    try apply lower_not_upper.
  apply Forall_app. split; [apply lower_not_upper|]. by repeat constructor.
Qed.

Lemma str_empty (l : list ascii) : str l = "" <-> l = [].
Proof. split; [by destruct l | by intros ->]. Qed.

Lemma chars_empty (s : string) : chars s = [] <-> s = "".
Proof. split; [by destruct s | by intros ->]. Qed.

(** X12.  For a ticker of ASCII characters: its Stooq symbol is the same in
    both scripts; it is empty for a blank ticker only, and otherwise has a
    dot and no capital letter.  Its Yahoo symbol has no dot and no small
    letter. *)
Theorem normalized_symbol_shape (raw source : string) :
  asciiText raw ->
  V2.normalizeTicker raw "stooq" = V1.normalizeToStooqSymbol raw
  /\ (V1.normalizeToStooqSymbol raw = "" <-> JsString.trim (chars raw) = [])
  /\ (V1.normalizeToStooqSymbol raw <> "" ->
      JsString.includesDot (chars (V1.normalizeToStooqSymbol raw)) = true)
  /\ Forall (fun c => isUpper c = false) (chars (V1.normalizeToStooqSymbol raw))
  /\ (source <> "stooq" ->
      JsString.includesDot (chars (V2.normalizeTicker raw source)) = false
      /\ Forall (fun c => isLower c = false) (chars (V2.normalizeTicker raw source))).
Proof.
  intros _. split; [|split; [|split; [|split]]].
  - apply chars_inj. rewrite normalizeTicker_chars, normalizeToStooqSymbol_chars.
    destruct (JsString.trim (chars raw)) as [|c t] eqn:Ht; [done|].
    cbn [JsString.toUpperCase map]. rewrite decide_True by done.
    change (upperChar c :: map upperChar t) with (JsString.toUpperCase (c :: t)).
    apply stooqForm_upper.
  - rewrite <- chars_empty, normalizeToStooqSymbol_chars.
    destruct (JsString.trim (chars raw)) as [|c t] eqn:Ht; [done|].
    split; [|done]. intros H. pose proof (stooqForm_includesDot (c :: t)) as Hd.
    rewrite H in Hd. done.
  - intros Hne. rewrite normalizeToStooqSymbol_chars.
    rewrite <- chars_empty, normalizeToStooqSymbol_chars in Hne.
    destruct (JsString.trim (chars raw)) as [|c t] eqn:Ht; [done|].
    apply stooqForm_includesDot.
  - rewrite normalizeToStooqSymbol_chars.
    destruct (JsString.trim (chars raw)) as [|c t] eqn:Ht; [constructor|].
    apply stooqForm_not_upper.
  - intros Hs. rewrite normalizeTicker_chars.
    destruct (JsString.toUpperCase (JsString.trim (chars raw))) as [|c t] eqn:Ht;
      [split; [done | constructor]|].
    rewrite decide_False by done. rewrite <- Ht. clear Ht.
    generalize (JsString.trim (chars raw)). intros l. split.
    + unfold JsString.includesDot, JsString.dotsToHyphens.
      apply not_true_iff_false. rewrite existsb_exists. intros (x & Hx & Hd).
      apply in_map_iff in Hx as (y & <- & _).
      fold (hyphenate y) in Hd. by rewrite hyphenate_not_dot in Hd.
    + unfold JsString.dotsToHyphens, JsString.toUpperCase. rewrite map_map.
      apply List.Forall_forall. intros x Hx. apply in_map_iff in Hx as (y & <- & _).
      apply hyphenate_upper_not_lower.
Qed.

(** A share class written with a dot: [brk.b] for Stooq, [BRK-B] for
    Yahoo. *)
Lemma normalized_symbol_shape_witness :
  asciiText " Brk.b"
  /\ V1.normalizeToStooqSymbol " Brk.b" = "brk.b"
  /\ V2.normalizeTicker " Brk.b" "yahoo" = "BRK-B"
  /\ V2.normalizeTicker " Brk.b" "stooq" = V1.normalizeToStooqSymbol " Brk.b"
  /\ (V1.normalizeToStooqSymbol " Brk.b" = "" <-> JsString.trim (chars " Brk.b") = [])
  /\ (V1.normalizeToStooqSymbol " Brk.b" <> "" ->
      JsString.includesDot (chars (V1.normalizeToStooqSymbol " Brk.b")) = true)
  /\ Forall (fun c => isUpper c = false) (chars (V1.normalizeToStooqSymbol " Brk.b"))
  /\ ("yahoo" <> "stooq" ->
      JsString.includesDot (chars (V2.normalizeTicker " Brk.b" "yahoo")) = false
      /\ Forall (fun c => isLower c = false) (chars (V2.normalizeTicker " Brk.b" "yahoo"))).
Proof.
  assert (Hascii : asciiText " Brk.b") by by_compute.
  split; [exact Hascii|]. split; [reflexivity|]. split; [reflexivity|].
  exact (normalized_symbol_shape " Brk.b" "yahoo" Hascii).
Defined.

(** * The cache in use *)

(** X13.  The two cache functions change the storage at their own key only, and
    a lookup adds nothing to it. *)
Theorem cache_functions_keep_to_their_key env source symbol market lookback beta n
    (w : V2.world) :
  let key := V2.cacheKey source symbol market lookback in
  (forall k, k <> key ->
     V2.storage (snd (V2.getCachedBeta env source symbol market lookback w)) !! k
     = V2.storage w !! k
     /\ V2.storage (snd (V2.setCachedBeta env source symbol market lookback beta n w)) !! k
        = V2.storage w !! k)
  /\ V2.storage (snd (V2.getCachedBeta env source symbol market lookback w))
     ⊆ V2.storage w.
Proof.
  cbv zeta. rewrite getCachedBeta_cases, setCachedBeta_cases. cbv zeta.
  split.
  - intros k Hk. split.
    + destruct (V2.storage w !! _) as [[|data]|]; try done.
      destruct (getProp data "timestamp"); try done.
      destruct (ngt _ _); cbn [snd V2.storage]; [|done].
      by rewrite lookup_delete_ne.
    + cbn [snd]. destruct (V2.full env _ _ _); cbn [V2.storage]; [done|].
      by rewrite lookup_insert_ne.
  - destruct (V2.storage w !! _) as [[|data]|]; try reflexivity.
    destruct (getProp data "timestamp"); try reflexivity.
    destruct (ngt _ _); cbn [snd V2.storage]; [|reflexivity].
    apply delete_subseteq.
Qed.

Lemma getCachedBeta_fresh env source symbol market lookback (w : V2.world) :
  fresh env (V2.storage w) (V2.cacheKey source symbol market lookback) ->
  exists fields,
    V2.storage w !! V2.cacheKey source symbol market lookback = Some (Json (Obj fields))
    /\ V2.getCachedBeta env source symbol market lookback w
       = (Ok (Obj fields), V2.World (V2.storage w) (S (V2.ticks w))).
Proof.
  intros (fields & timestamp & Hst & Hts & Hfresh). exists fields. split; [done|].
  rewrite getCachedBeta_cases. cbv zeta. rewrite Hst. cbn [getProp].
  rewrite Hts. cbn [default from_option id primToNumber]. rewrite ngt_age.
  by rewrite bool_decide_eq_false_2 by apply Hfresh.
Qed.

Lemma needsMarket_fresh env source marketSym lookback (hs : list holding) (w : V2.world) :
  Forall (fun h => fresh env (V2.storage w) (keyOf source marketSym lookback h)) hs ->
  V2.needsMarket env source marketSym lookback hs w
  = (Ok false, V2.World (V2.storage w) (V2.ticks w + length hs)).
Proof.
  revert w. induction hs as [|h hs IH]; intros w Hf.
  - cbn. unfold V2.ret. destruct w. cbn. by rewrite Nat.add_0_r.
  - apply Forall_cons in Hf as [Hh Hf]. cbn [V2.needsMarket]. unfold V2.bind.
    destruct (getCachedBeta_fresh env source _ marketSym lookback w Hh) as (fields & _ & ->).
    cbn [isTruthy negb]. rewrite IH by done. cbn [V2.storage V2.ticks length].
    rewrite Nat.add_succ_comm. reflexivity.
Qed.

Lemma holdingsLoop_fresh env source marketSym lookback marketRets (hs : list holding)
    (results : list V2.result) (w : V2.world) :
  Forall (fun h => fresh env (V2.storage w) (keyOf source marketSym lookback h)) hs ->
  V2.holdingsLoop env source marketSym lookback marketRets hs results w
  = (Ok (results ++ (served (V2.storage w) source marketSym lookback <$> hs)),
     V2.World (V2.storage w) (V2.ticks w + length hs)).
Proof.
  revert results w. induction hs as [|h hs IH]; intros results w Hf.
  - cbn. unfold V2.ret. destruct w. cbn. by rewrite Nat.add_0_r, app_nil_r.
  - apply Forall_cons in Hf as [Hh Hf]. cbn [V2.holdingsLoop]. unfold V2.bind.
    unfold V2.holdingResult, V2.bind.
    destruct (getCachedBeta_fresh env source _ marketSym lookback w Hh)
      as (fields & Hst & ->).
    cbn [isTruthy]. unfold V2.ret. rewrite IH by done.
    cbn [V2.storage V2.ticks length fmap list_fmap]. rewrite <- app_assoc. cbn [app].
    assert (Hserved : served (V2.storage w) source marketSym lookback h
                      = V2.Result (h_ticker h) (h_weight h) (V2.field (Obj fields) "beta")
                          (V2.field (Obj fields) "n") true false).
    { unfold served, keyOf. by rewrite Hst. }
    rewrite Hserved, Nat.add_succ_comm. reflexivity.
Qed.

(** X14.  A click whose holdings all have a fresh entry in the cache makes no
    request: its results are the cached entries, flagged as such, the
    storage is as it was, and the outcome is the same whatever the network
    and the quota would have done. *)
Theorem cached_click_needs_no_network env source marketSym lookback holdingsInput
    (hs : list holding) (w : V2.world) :
  V2.normalizeWeights (V2.parseHoldings holdingsInput) = Ok hs ->
  Forall (fun h => fresh env (V2.storage w) (keyOf source marketSym lookback h)) hs ->
  let results := served (V2.storage w) source marketSym lookback <$> hs in
  V2.calculate env source marketSym lookback holdingsInput w
  = (match V2.renderTable results with
     | Ok table => Ok (V2.Done (sort V2.byWeight results) (fst table) (snd table))
     | Throw e => Throw e
     end,
     V2.World (V2.storage w) (V2.ticks w + length hs + length hs))
  /\ Forall (fun res => V2.cached res = true /\ V2.error res = false) results
  /\ (forall env',
        V2.time env' = V2.time env ->
        V2.calculate env' source marketSym lookback holdingsInput w
        = V2.calculate env source marketSym lookback holdingsInput w).
Proof.
  intros Hn Hf results.
  assert (Hcalc : forall env0,
    V2.time env0 = V2.time env ->
    V2.calculate env0 source marketSym lookback holdingsInput w
    = (match V2.renderTable results with
       | Ok table => Ok (V2.Done (sort V2.byWeight results) (fst table) (snd table))
       | Throw e => Throw e
       end,
       V2.World (V2.storage w) (V2.ticks w + length hs + length hs))).
  { intros env0 Htime.
    assert (Hf0 : Forall (fun h => fresh env0 (V2.storage w)
                                     (keyOf source marketSym lookback h)) hs).
    { eapply Forall_impl; [exact Hf|]. intros h (fields & ts & ? & ? & Hx).
      exists fields, ts. rewrite Htime. done. }
    unfold V2.calculate, V2.bind. rewrite Hn. unfold V2.lift at 1.
    rewrite needsMarket_fresh by done. unfold V2.ret at 1.
    rewrite holdingsLoop_fresh by done. cbn [app V2.storage V2.ticks].
    fold results. unfold V2.lift, V2.ret.
    by destruct (V2.renderTable results) as [table|e]. }
  split; [by apply Hcalc|]. split.
  - unfold results. apply Forall_fmap, Forall_true. done.
  - intros env' Htime. by rewrite !Hcalc.
Qed.

(** A click on a holding whose beta is in the store, with the network
    down: the store is as it was. *)
Lemma cached_click_needs_no_network_witness :
  snd (V2.calculate quiet_env "yahoo" "SPY" 252 "AAPL, 100%" warm_world)
  = V2.World (V2.storage warm_world) (V2.ticks warm_world + 1 + 1).
Proof.
  rewrite (proj1 (cached_click_needs_no_network quiet_env "yahoo" "SPY" 252 "AAPL, 100%"
                    one_holding warm_world
                    ltac:(by_compute)
                    ltac:(repeat constructor;
                          let f := eval vm_compute in
                                     (match V2.storage warm_world
                                              !! keyOf "yahoo" "SPY" 252 (Holding "AAPL" (Fin 1))
                                      with
                                      | Some (Json (Obj f)) => f
                                      | _ => ∅
                                      end) in
                          exists f, 1000%Z;
                          split; [by_compute | split; [by_compute | intros k; by_compute]]))).
  reflexivity.
Defined.

(** X15.  A beta that a turn of the loop has computed and written is what the
    next turn for that holding finds: when the write was accepted and the
    entry is not older than a day, the holding is served from the cache,
    with the same beta and sample size, and flagged as cached. *)
Theorem computed_beta_is_served_next env source marketSym lookback marketRets marketRets'
    (h : holding) (w w' : V2.world) (res : V2.result) (b : Qc) :
  let sym := V2.normalizeTicker (h_ticker h) source in
  let key := V2.cacheKey source sym marketSym lookback in
  V2.compute env source marketSym lookback marketRets h sym w = (Ok res, w') ->
  V2.beta res = PNum (Fin b) ->
  (forall it, V2.full env (V2.storage w) key it = false) ->
  ~ expired (V2.time env (V2.ticks w')) (V2.time env (V2.ticks w)) ->
  V2.holdingResult env source marketSym lookback marketRets' h w'
  = (Ok (V2.Result (h_ticker h) (h_weight h) (V2.beta res) (V2.n res) true false),
     V2.World (V2.storage w') (S (V2.ticks w'))).
Proof.
  cbv zeta. intros Hcompute Hb Hfull Hfresh.
  unfold V2.compute, V2.bind, V2.lift, V2.ret in Hcompute.
  destruct (V2.fetchPrices env source _) as [prices|e]; [|done].
  destruct (V2.alignWith _ marketRets) as [al|e]; [|done].
  destruct (fst (V2.estimate al)) as [b'|] eqn:Hest; cbn [isNaN isFinite negb] in Hcompute.
  2:{ injection Hcompute as <- <-. cbn in Hb. done. }
  rewrite setCachedBeta_cases in Hcompute. cbv zeta in Hcompute.
  rewrite Hfull in Hcompute. injection Hcompute as <- <-.
  cbn [V2.beta V2.n V2.storage V2.ticks] in *.
  unfold V2.holdingResult, V2.bind. rewrite getCachedBeta_cases. cbv zeta.
  cbn [V2.storage V2.ticks]. rewrite lookup_insert_eq.
  pose proof (entry_timestamp b' (snd (V2.estimate al)) (V2.time env (V2.ticks w)))
    as He.
  destruct (V2.entry (Fin b') _ _) as [|data] eqn:Hentry; [done|].
  destruct He as (Hts & Hbeta & Hn). cbv beta iota. rewrite Hts. cbn [primToNumber].
  rewrite ngt_age, bool_decide_eq_false_2 by done.
  assert (Htruthy : isTruthy data = true).
  { unfold V2.entry in Hentry. by injection Hentry as <-. }
  rewrite Htruthy. unfold V2.ret. by rewrite Hbeta, Hn.
Qed.

(** The beta of the sample asset, computed and written to an empty store,
    is served on the next pass. *)
Lemma computed_beta_is_served_next_witness :
  V2.holdingResult yahoo_env "yahoo" "SPY" 252 None (Holding "AAPL" (Fin 1)) computed_world
  = (Ok (V2.Result "AAPL" (Fin 1) (PNum (Fin (Q2Qc (1234 # 1000)))) (PNum (of_nat 21))
           true false),
     V2.World (V2.storage computed_world) (S (V2.ticks computed_world))).
Proof.
  assert (Hres :
    fst (V2.compute yahoo_env "yahoo" "SPY" 252 sample_market_rets
           (Holding "AAPL" (Fin 1)) "AAPL" empty_world)
    = Ok (V2.Result "AAPL" (Fin 1) (PNum (Fin (Q2Qc (1234 # 1000)))) (PNum (of_nat 21))
            false false)) by by_compute.
  apply (computed_beta_is_served_next yahoo_env "yahoo" "SPY" 252 sample_market_rets None
           (Holding "AAPL" (Fin 1)) empty_world computed_world
           (V2.Result "AAPL" (Fin 1) (PNum (Fin (Q2Qc (1234 # 1000)))) (PNum (of_nat 21))
              false false)
           (Q2Qc (1234 # 1000))).
  - rewrite <- Hres. apply surjective_pairing.
  - reflexivity.
  - intros it. reflexivity.
  - unfold expired. cbn. lia.
Defined.

(** * The results table of the first script *)

(** ** Escaping *)

Lemma replaceAll_flat_map (c : ascii) (rep : string) (f : ascii -> list ascii)
    (l : list ascii) :
  replaceAll c rep (flat_map f l) = flat_map (fun x => replaceAll c rep (f x)) l.
Proof.
  unfold replaceAll. induction l as [|x l IH]; cbn [flat_map]; [done|].
  by rewrite flat_map_app, IH.
Qed.

Lemma flat_map_singleton (l : list ascii) : flat_map (fun x => [x]) l = l.
Proof. induction l as [|x l IH]; cbn; [done | by rewrite IH]. Qed.

Lemma entity_spec (c : ascii) :
  replaceAll "'"%char "&#039;"
    (replaceAll "034"%char "&quot;"
       (replaceAll ">"%char "&gt;"
          (replaceAll "<"%char "&lt;"
             (replaceAll "&"%char "&amp;" [c]))))
  = entity c.
Proof. by_cases_on_char c. Qed.

Lemma escapeHtml_flat (s : list ascii) : V1.escapeHtml s = flat_map entity s.
Proof.
  unfold V1.escapeHtml. rewrite <- (flat_map_singleton s) at 1.
  rewrite !replaceAll_flat_map. apply flat_map_ext. intros c. apply entity_spec.
Qed.

Lemma entity_safe_bool (c : ascii) :
  forallb (fun x => negb (bool_decide (x = "<"%char) || bool_decide (x = ">"%char)
                          || bool_decide (x = "034"%char) || bool_decide (x = "'"%char)))
    (entity c) = true.
Proof. by_cases_on_char c. Qed.

Lemma entity_safe (c : ascii) :
  Forall (fun x => bool_decide (x = "<"%char) || bool_decide (x = ">"%char)
                   || bool_decide (x = "034"%char) || bool_decide (x = "'"%char) = false)
    (entity c).
Proof.
  apply List.Forall_forall. intros x Hx.
  pose proof (entity_safe_bool c) as H. rewrite forallb_forall in H.
  by apply negb_true_iff, H.
Qed.

Lemma entity_plain_bool (c : ascii) :
  isMarkup c || bool_decide (entity c = [c]) = true.
Proof. by_cases_on_char c. Qed.

Lemma entity_plain (c : ascii) : isMarkup c = false -> entity c = [c].
Proof.
  intros H. pose proof (entity_plain_bool c) as Hc. rewrite H in Hc.
  by apply bool_decide_eq_true in Hc.
Qed.

Lemma unescape_entity (c : ascii) (rest : list ascii) :
  unescape (entity c ++ rest) = c :: unescape rest.
Proof. by_cases_on_char c. Qed.

Lemma unescape_escapeHtml (s : list ascii) : unescape (V1.escapeHtml s) = s.
Proof.
  rewrite escapeHtml_flat. induction s as [|c s IH]; cbn [flat_map]; [done|].
  by rewrite unescape_entity, IH.
Qed.

(** X16.  The escaped ticker holds none of the characters [<], [>], double quote
    and apostrophe; a ticker without markup characters is escaped to
    itself; and the ticker can be read back from its escaped form, so
    distinct tickers never look the same. *)
Theorem escapeHtml_is_safe_and_faithful (s : list ascii) :
  Forall (fun x => bool_decide (x = "<"%char) || bool_decide (x = ">"%char)
                   || bool_decide (x = "034"%char) || bool_decide (x = "'"%char) = false)
    (V1.escapeHtml s)
  /\ (Forall (fun c => isMarkup c = false) s -> V1.escapeHtml s = s)
  /\ unescape (V1.escapeHtml s) = s
  /\ (forall s', V1.escapeHtml s = V1.escapeHtml s' -> s = s').
Proof.
  split; [|split; [|split]].
  - rewrite escapeHtml_flat. induction s as [|c s IH]; cbn [flat_map]; [constructor|].
    apply Forall_app. split; [apply entity_safe | done].
  - rewrite escapeHtml_flat. induction 1 as [|c s' Hc _ IH]; cbn [flat_map]; [done|].
    by rewrite entity_plain, IH.
  - apply unescape_escapeHtml.
  - intros s' H. rewrite <- (unescape_escapeHtml s), H. apply unescape_escapeHtml.
Qed.

(** ** The rows *)

Lemma filter_length_Permutation {A} (f : A -> bool) (l1 l2 : list A) :
  l1 ≡ₚ l2 -> length (List.filter f l1) = length (List.filter f l2).
Proof.
  induction 1 as [|x l1 l2 _ IH|x y l|l1 l2 l3 _ IH1 _ IH2]; cbn.
  - done.
  - destruct (f x); cbn; by rewrite IH.
  - destruct (f x), (f y); done.
  - by rewrite IH1.
Qed.

Lemma filter_map_comm {A B} (f : B -> bool) (g : A -> B) (l : list A) :
  List.filter f (map g l) = map g (List.filter (fun x => f (g x)) l).
Proof.
  induction l as [|x l IH]; cbn; [done|]. destruct (f (g x)); cbn; by rewrite IH.
Qed.

Lemma byWeight_heaviestFirst (results : list V1.result) :
  Forall (fun res => isFinite (V1.weight res) = true) results ->
  heaviestFirst (sort V1.byWeight results).
Proof.
  apply (sort_StronglySorted V1.byWeight _ (fun res => isFinite (V1.weight res) = true)).
  - intros a b Ha Hb. unfold V1.byWeight.
    destruct (V1.weight a), (V1.weight b); try done. cbn.
    intros H. apply bool_decide_eq_true in H. by apply Qclt_le_weak.
  - intros a b Ha Hb. unfold V1.byWeight.
    destruct (V1.weight a), (V1.weight b); try done. cbn.
    intros H. apply bool_decide_eq_false in H. by apply Qcnot_lt_le.
  - intros a b c _ _ _ H1 H2. by etrans.
Qed.

Lemma fixed3_None (x : num) : V1.fixed3 x = None <-> x = NaN.
Proof. by destruct x. Qed.

(** X17.  The table of the first script lists every result once, the heaviest
    first; the warning line gives the number of the faded rows, and is
    absent when no row is faded; a row shows a product of weight and beta
    exactly when it shows a beta; the foot repeats the portfolio beta of
    the status line. *)
Theorem results_table_lists_every_holding (results : list V1.result)
    (portfolioBeta : num) (marketSym : string) :
  Forall (fun res => isFinite (V1.weight res) = true) results ->
  let view := V1.renderResults results portfolioBeta marketSym in
  (exists sorted,
      V1.rows view = V1.renderRow <$> sorted
      /\ sorted ≡ₚ results
      /\ heaviestFirst sorted)
  /\ V1.warning view
     = match length (List.filter V1.faded (V1.rows view)) with
       | O => None
       | k => Some k
       end
  /\ Forall (fun row => V1.cellBeta row = None <-> V1.cellProduct row = None)
       (V1.rows view)
  /\ V1.footBeta view = V1.statusBeta view
  /\ (length (List.filter V1.unreliable results)
      + length (List.filter V1.reliable results))%nat = length results.
Proof.
  intros Hfin view. split; [|split; [|split; [|split]]].
  - exists (sort V1.byWeight results). split; [done|].
    split; [apply sort_Permutation | by apply byWeight_heaviestFirst].
  - unfold view, V1.renderResults. cbn [V1.warning V1.rows].
    change (V1.renderRow <$> sort V1.byWeight results)
      with (map V1.renderRow (sort V1.byWeight results)).
    assert (Hcount :
      length (List.filter V1.faded (map V1.renderRow (sort V1.byWeight results)))
      = length (List.filter V1.unreliable results)).
    { rewrite filter_map_comm, length_map.
      apply (filter_length_Permutation (fun x => V1.faded (V1.renderRow x))),
        sort_Permutation. }
    rewrite Hcount. by destruct (List.filter V1.unreliable results).
  - unfold view, V1.renderResults. cbn [V1.rows].
    apply Forall_fmap, Forall_forall. intros res Hres. cbn.
    assert (Hw : isFinite (V1.weight res) = true).
    { rewrite Forall_forall in Hfin. apply Hfin.
      by rewrite <- (sort_Permutation V1.byWeight results). }
    rewrite !fixed3_None.
    destruct (V1.beta res) as [b|], (V1.weight res) as [q|]; cbn; try done.
  - done.
  - clear. induction results as [|res results IH]; cbn; [done|].
    unfold V1.unreliable at 1, V1.reliable at 1.
    destruct (isFinite (V1.beta res)); cbn [negb orb andb].
    + rewrite Nat.leb_antisym. destruct (V1.n res <? 60)%nat; cbn; lia.
    + cbn. lia.
Qed.

(** The two sample holdings of the first script in the table. *)
Lemma results_table_lists_every_holding_witness :
  exists sorted,
    V1.rows (V1.renderResults sample_results1 (Fin (Q2Qc (3 # 10))) "spy.us")
    = V1.renderRow <$> sorted
    /\ sorted ≡ₚ sample_results1
    /\ heaviestFirst sorted.
Proof.
  apply (proj1 (results_table_lists_every_holding sample_results1 (Fin (Q2Qc (3 # 10)))
                  "spy.us" ltac:(repeat constructor))).
Defined.

(** ** What a click of the first script shows *)

Lemma holdingResult1_weight http lookback marketRets h res :
  V1.holdingResult http lookback marketRets h = Ok (Some res) ->
  V1.weight res = h_weight h /\ V1.ticker res = h_ticker h
  /\ V1.stooq res = V1.normalizeToStooqSymbol (h_ticker h) /\ V1.stooq res <> "".
Proof.
  unfold V1.holdingResult.
  destruct (decide (V1.normalizeToStooqSymbol (h_ticker h) = "")); [done|].
  destruct (V1.fetchPrices http _); [|done]. by intros [= <-].
Qed.

Lemma holdingsLoop1_weights http lookback marketRets holdings acc results :
  V1.holdingsLoop http lookback marketRets holdings acc = Ok results ->
  exists new,
    results = acc ++ new
    /\ map V1.weight new `sublist_of` map h_weight holdings.
Proof.
  revert acc. induction holdings as [|h hs IH]; intros acc; cbn [V1.holdingsLoop].
  - intros [= <-]. exists []. by rewrite app_nil_r.
  - destruct (V1.holdingResult http lookback marketRets h) as [[res|]|e] eqn:Hh; [| |done].
    + intros H. apply IH in H as (new & -> & Hsub).
      exists (res :: new). rewrite <- app_assoc. split; [done|].
      apply holdingResult1_weight in Hh as (Hw & _). cbn [map]. rewrite Hw.
      by constructor.
    + intros H. apply IH in H as (new & -> & Hsub).
      exists new. split; [done|]. cbn [map]. by constructor.
Qed.

Lemma total_of_sublist (l1 l2 : list Qc) :
  l1 `sublist_of` l2 -> Forall (fun x => 0 ≤ x) l2 -> total_of l1 ≤ total_of l2.
Proof.
  induction 1 as [|x l1 l2 _ IH|x l1 l2 _ IH]; intros Hpos.
  - done.
  - apply Forall_cons in Hpos as [_ Hpos]. rewrite !total_of_cons.
    apply Qcplus_le_mono_l. by apply IH.
  - apply Forall_cons in Hpos as [Hx Hpos]. rewrite total_of_cons.
    etrans; [by apply IH|]. rewrite <- (Qcplus_0_l (total_of l2)) at 1.
    by apply Qcplus_le_mono_r.
Qed.

Lemma positiveWeight_scaled (s : Qc) (holdings : list holding) :
  0 < s -> Forall positiveWeight holdings -> Forall positiveWeight (map (scaled s) holdings).
Proof.
  intros Hs H. induction H as [|h hs Hh _ IH]; cbn [map]; constructor; [|done].
  unfold positiveWeight in *. cbn. destruct (h_weight h) as [q|]; [|done]. cbn.
  apply Qcmult_pos_pos; [done | by apply Qcinv_pos].
Qed.

Lemma sublist_map {A B} (f : A -> B) (l1 l2 : list A) :
  l1 `sublist_of` l2 -> map f l1 `sublist_of` map f l2.
Proof. induction 1; cbn [map]; by constructor. Qed.

Lemma sublist_Forall {A} (P : A -> Prop) (l1 l2 : list A) :
  l1 `sublist_of` l2 -> Forall P l2 -> Forall P l1.
Proof.
  induction 1 as [|x l1 l2 _ IH|x l1 l2 _ IH]; intros H; [done| |].
  - apply Forall_cons in H as [? ?]. constructor; auto.
  - apply Forall_cons in H as [? ?]. auto.
Qed.

(** X18.  Whenever a click of the first script renders a table, the portfolio
    beta it shows is a number, never [NaN]: the sum of weight times beta
    over the results with a defined beta.  The results carry positive
    weights that sum to 1 at most, and the market symbol is not empty. *)
Theorem click_shows_a_finite_portfolio_beta http marketInput lookbackInput holdingsInput
    (shownResults : list V1.result) (portfolioBeta : num) (marketSym : string) :
  V1.mb_calc http marketInput lookbackInput holdingsInput
  = V1.Rendered shownResults portfolioBeta marketSym ->
  exists results,
    shownResults = sort V1.byWeight results
    /\ portfolioBeta = Fin (total_of (map contribution1 results))
    /\ V1.statusBeta (V1.renderResults results portfolioBeta marketSym)
       = toFixed 3 (total_of (map contribution1 results))
    /\ Forall (fun res => exists q, V1.weight res = Fin q /\ 0 < q) results
    /\ total_of (map (fun res => real (V1.weight res)) results) ≤ 1
    /\ marketSym <> "".
Proof.
  unfold V1.mb_calc, V1.calculate.
  destruct (V1.parseHoldings holdingsInput) as [|h0 hs0] eqn:Hparse; [done|].
  rewrite <- Hparse.
  assert (Hpos : Forall positiveWeight (V1.parseHoldings holdingsInput))
    by (apply omap_Forall, parseHolding1_positive).
  rewrite normalizeWeights1_spec by (by apply Forall_positive_finite).
  assert (Hs : 0 < total_of (weights (V1.parseHoldings holdingsInput))).
  { apply total_of_positive; [done|]. by rewrite Hparse. }
  rewrite decide_True by done.
  destruct (V1.fetchPrices http _) as [marketPrices|e]; [|done].
  destruct (V1.holdingsLoop http _ _ _ []) as [results|e] eqn:Hloop; [|done].
  intros [= <- <- <-]. exists results.
  apply holdingsLoop1_weights in Hloop as (new & -> & Hsub). cbn [app] in *.
  set (s := total_of (weights (V1.parseHoldings holdingsInput))) in *.
  assert (Hpos' : Forall positiveWeight (map (scaled s) (V1.parseHoldings holdingsInput)))
    by (by apply positiveWeight_scaled).
  assert (Hw : Forall (fun x => exists q, x = Fin q /\ 0 < q) (map V1.weight new)).
  { eapply sublist_Forall; [exact Hsub|]. apply List.Forall_map.
    eapply Forall_impl; [exact Hpos'|]. intros h Hh. unfold positiveWeight in Hh.
    cbn. destruct (h_weight h) as [q|]; [by exists q | done]. }
  apply (proj1 (List.Forall_map V1.weight (fun x => exists q, x = Fin q /\ 0 < q) new))
    in Hw.
  assert (Hfin : Forall (fun res => isFinite (V1.weight res) = true) new).
  { eapply Forall_impl; [exact Hw|].
    intros res (q & Hq & _). cbn in Hq. by rewrite Hq. }
  split; [done|]. split; [by apply portfolioBeta_sum|].
  split.
  { unfold V1.renderResults. cbn [V1.statusBeta]. by rewrite portfolioBeta_sum. }
  split; [done|].
  split.
  - assert (Htot : total_of (weights (map (scaled s) (V1.parseHoldings holdingsInput))) = 1).
    { assert (Hs0 : s <> 0) by (intros H0; rewrite H0 in Hs; by apply (Qclt_not_eq 0 0)).
      rewrite total_of_scaled by done. by apply Qcmult_inv_r. }
    rewrite <- Htot. unfold weights.
    rewrite <- (map_map V1.weight real), <- (map_map h_weight real).
    apply total_of_sublist.
    + by apply sublist_map.
    + rewrite map_map. apply List.Forall_map. eapply Forall_impl; [exact Hpos'|].
      intros h Hh. unfold positiveWeight in Hh. cbn.
      destruct (h_weight h) as [q|]; [by apply Qclt_le_weak | done].
  - by destruct (decide (V1.normalizeToStooqSymbol marketInput = "")).
Qed.

(** The sample click of the first script. *)
Lemma click_shows_a_finite_portfolio_beta_witness :
  exists results,
    click_results = sort V1.byWeight results
    /\ click_beta = Fin (total_of (map contribution1 results))
    /\ V1.statusBeta (V1.renderResults results click_beta click_market)
       = toFixed 3 (total_of (map contribution1 results))
    /\ Forall (fun res => exists q, V1.weight res = Fin q /\ 0 < q) results
    /\ total_of (map (fun res => real (V1.weight res)) results) ≤ 1
    /\ click_market <> "".
Proof.
  apply (click_shows_a_finite_portfolio_beta (fun _ => Ok three_rows_csv) "SPY" "252"
           "AAPL, 100%" click_results click_beta click_market).
  by_compute.
Defined.

(** * Numbers in words *)

Lemma chars_app (s1 s2 : string) : chars (s1 +:+ s2) = chars s1 ++ chars s2.
Proof.
  unfold chars. induction s1 as [|c s1 IH]; [done|].
  change (String c s1 +:+ s2) with (String c (s1 +:+ s2)).
  cbn [list_ascii_of_string app]. by rewrite IH.
Qed.

Lemma str_app (l1 l2 : list ascii) : str (l1 ++ l2) = str l1 +:+ str l2.
Proof. apply chars_inj. by rewrite chars_app, !chars_str. Qed.

(** The digits of [n], none for zero. *)
Lemma pretty_N_go_app (n : N) (s : string) :
  pretty_N_go n s = pretty_N_go n "" +:+ s.
Proof.
  revert s. induction (N.lt_wf_0 n) as [n _ IH]; intros s.
  destruct (decide (n = 0)%N) as [->|Hn]; [by rewrite !pretty_N_go_0|].
  assert (Hlt : (n `div` 10 < n)%N) by (apply N.div_lt; lia).
  rewrite !(pretty_N_go_step n) by lia.
  rewrite (IH _ Hlt (String _ s)), (IH _ Hlt (String _ "")).
  apply chars_inj. rewrite !chars_app. cbn. by rewrite <- app_assoc.
Qed.

Lemma pretty_N_go_snoc (n : N) :
  (0 < n)%N ->
  chars (pretty_N_go n "")
  = chars (pretty_N_go (n `div` 10) "") ++ [pretty_N_char (n `mod` 10)].
Proof.
  intros Hn. rewrite pretty_N_go_step, pretty_N_go_app, chars_app by done. done.
Qed.

Lemma digit_pretty_N_char (d : N) :
  (d < 10)%N -> digit (pretty_N_char d) = Some (Z.of_N d).
Proof.
  intros Hd.
  assert (d = 0 \/ d = 1 \/ d = 2 \/ d = 3 \/ d = 4 \/ d = 5 \/ d = 6 \/ d = 7 \/ d = 8
          \/ d = 9)%N as H by lia.
  repeat (destruct H as [->|H]; [reflexivity|]). by subst.
Qed.

Lemma isDigit_pretty_N_char (d : N) : isDigit (pretty_N_char d) = true.
Proof. unfold pretty_N_char. by repeat case_match. Qed.


(** The value and the width of the digits of [n]. *)
Lemma readDigits_pretty_N_go (n : N) :
  exists w : nat,
    length (chars (pretty_N_go n "")) = w
    /\ (Z.of_N n < 10 ^ Z.of_nat w)%Z
    /\ (n <> 0%N -> (10 ^ Z.of_nat w <= 10 * Z.of_N n)%Z)
    /\ Forall (fun c => isDigit c = true) (chars (pretty_N_go n ""))
    /\ forall acc k rest,
         readDigits acc k (chars (pretty_N_go n "") ++ rest)
         = readDigits (acc * 10 ^ Z.of_nat w + Z.of_N n) (k + w) rest.
Proof.
  induction (N.lt_wf_0 n) as [n _ IH].
  destruct (decide (n = 0)%N) as [->|Hn].
  { exists 0%nat. rewrite pretty_N_go_0. cbn. repeat split; try done; try lia.
    intros acc k rest.
    change (10 ^ Z.of_nat 0)%Z with 1%Z.
    replace (acc * 1 + 0)%Z with acc by lia. by rewrite Nat.add_0_r. }
  destruct (IH (n `div` 10)%N) as (w & Hlen & Hlt & Hge & Hdig & Hread);
    [apply N.div_lt; lia|].
  exists (S w). rewrite pretty_N_go_snoc by lia.
  pose proof (N.div_mod n 10 ltac:(lia)) as Hdm.
  pose proof (N.mod_lt n 10 ltac:(lia)) as Hmod.
  assert (HdmZ : Z.of_N n = (10 * Z.of_N (n `div` 10) + Z.of_N (n `mod` 10))%Z).
  { rewrite Hdm at 1. rewrite N2Z.inj_add, N2Z.inj_mul. done. }
  assert (HmodZ : (0 <= Z.of_N (n `mod` 10) < 10)%Z).
  { split; [apply N2Z.is_nonneg|]. change 10%Z with (Z.of_N 10). by apply N2Z.inj_lt. }
  assert (HdivZ : (0 <= Z.of_N (n `div` 10))%Z) by apply N2Z.is_nonneg.
  assert (HnZ : (0 < Z.of_N n)%Z).
  { change 0%Z with (Z.of_N 0). apply N2Z.inj_lt. lia. }
  assert (Hdiv0 : (n `div` 10 = 0)%N <-> Z.of_N (n `div` 10) = 0%Z).
  { split; [by intros -> | intros H; by apply N2Z.inj]. }
  assert (Hpow : (10 ^ Z.of_nat (S w) = 10 * 10 ^ Z.of_nat w)%Z).
  { rewrite Nat2Z.inj_succ, Z.pow_succ_r by lia. done. }
  split; [rewrite length_app, Hlen; cbn; lia|].
  split; [rewrite Hpow; lia|].
  split.
  { intros _. rewrite Hpow. destruct (decide (n `div` 10 = 0)%N) as [H0|H0].
    - assert (w = 0%nat) as ->.
      { rewrite H0, pretty_N_go_0 in Hlen. by cbn in Hlen. }
      change (10 ^ Z.of_nat 0)%Z with 1%Z. lia.
    - specialize (Hge H0). lia. }
  split.
  { apply Forall_app. split; [done|]. repeat constructor. apply isDigit_pretty_N_char. }
  intros acc k rest. rewrite <- app_assoc. cbn [app]. rewrite Hread.
  cbn [readDigits]. rewrite digit_pretty_N_char by done.
  replace (k + S w)%nat with (S (k + w)) by lia.
  replace (acc * 10 ^ Z.of_nat (S w) + Z.of_N n)%Z
    with (10 * (acc * 10 ^ Z.of_nat w + Z.of_N (n `div` 10)) + Z.of_N (n `mod` 10))%Z;
    [done|].
  rewrite Hpow. lia.
Qed.

Lemma readDigits_stop (acc : Z) (k : nat) (rest : list ascii) :
  match rest with
  | [] => True
  | c :: _ => isDigit c = false
  end ->
  readDigits acc k rest = (acc, k, rest).
Proof.
  destruct rest as [|c rest]; [done|]. intros Hc. cbn.
  assert (Hd : digit c = None).
  { revert Hc. clear. destruct c as [[] [] [] [] [] [] [] []]; by vm_compute. }
  by rewrite Hd.
Qed.

Lemma readDigits_pretty (n : N) :
  exists w : nat,
    length (chars (pretty n)) = w
    /\ (1 <= w)%nat
    /\ (Z.of_N n < 10 ^ Z.of_nat w)%Z
    /\ (n <> 0%N -> (10 ^ Z.of_nat w <= 10 * Z.of_N n)%Z)
    /\ Forall (fun c => isDigit c = true) (chars (pretty n))
    /\ forall acc k rest,
         readDigits acc k (chars (pretty n) ++ rest)
         = readDigits (acc * 10 ^ Z.of_nat w + Z.of_N n) (k + w) rest.
Proof.
  unfold pretty, pretty_N. destruct (decide (n = 0)%N) as [->|Hn].
  - exists 1%nat. cbn. repeat split; try done; try lia.
    + by repeat constructor.
    + intros acc k rest. unfold digit. cbn.
      change (Z.of_nat 0) with 0%Z. change (10 ^ Z.of_nat 1)%Z with 10%Z.
      replace (10 * acc + 0)%Z with (acc * 10 + 0)%Z by lia.
      by rewrite Nat.add_1_r.
  - destruct (readDigits_pretty_N_go n) as (w & Hlen & Hlt & Hge & Hdig & Hread).
    exists w. repeat split; try done.
    destruct w; [|lia]. cbn in Hlt.
    assert (0 < Z.of_N n)%Z by (change 0%Z with (Z.of_N 0); apply N2Z.inj_lt; lia). lia.
Qed.

Lemma readDigits_zeros (j : nat) (k : nat) (l : list ascii) :
  readDigits 0 k (replicate j "0"%char ++ l) = readDigits 0 (k + j) l.
Proof.
  revert k. induction j as [|j IH]; intros k; cbn [replicate app].
  - by rewrite Nat.add_0_r.
  - cbn [readDigits]. unfold digit at 1. cbn. rewrite IH. f_equal. lia.
Qed.

(** The [d] decimals of a number below [10^d]. *)
Lemma readDigits_zeroPad (d : nat) (m : N) :
  (1 <= d)%nat -> (Z.of_N m < 10 ^ Z.of_nat d)%Z ->
  length (zeroPad d (chars (pretty m))) = d
  /\ Forall (fun c => isDigit c = true) (zeroPad d (chars (pretty m)))
  /\ forall k rest,
       readDigits 0 k (zeroPad d (chars (pretty m)) ++ rest)
       = readDigits (Z.of_N m) (k + d) rest.
Proof.
  intros Hd Hm.
  destruct (readDigits_pretty m) as (w & Hlen & Hw1 & Hlt & Hge & Hdig & Hread).
  assert (Hwd : (w <= d)%nat).
  { destruct (decide (m = 0%N)) as [->|Hm0].
    - change (length (chars (pretty 0%N))) with 1%nat in Hlen. lia.
    - specialize (Hge Hm0).
      assert (H10 : (10 ^ Z.of_nat w < 10 ^ Z.of_nat (S d))%Z).
      { rewrite (Nat2Z.inj_succ d), Z.pow_succ_r by lia. lia. }
      apply Z.pow_lt_mono_r_iff in H10; lia. }
  unfold zeroPad. rewrite Hlen. split; [|split].
  - rewrite length_app, length_replicate, Hlen. lia.
  - apply Forall_app. split; [|done]. apply Forall_replicate. done.
  - intros k rest. rewrite <- app_assoc, readDigits_zeros, Hread.
    replace (k + (d - w) + w)%nat with (k + d)%nat by lia.
    by replace (0 * 10 ^ Z.of_nat w + Z.of_N m)%Z with (Z.of_N m) by lia.
Qed.

Lemma isDigit_not_space (c : ascii) : isDigit c = true -> isSpace c = false.
Proof. destruct c as [[] [] [] [] [] [] [] []]; by vm_compute. Qed.

Lemma isDigit_not_sign (c : ascii) (l : list ascii) :
  isDigit c = true -> readSign (c :: l) = (false, c :: l).
Proof. destruct c as [[] [] [] [] [] [] [] []]; by vm_compute. Qed.

Lemma Q2Qc_opp (v : Q) : Q2Qc (- v) = - Q2Qc v.
Proof.
  apply Qc_is_canon. cbn. rewrite !Qred_correct. reflexivity.
Qed.

Lemma Q2Qc_decimal (ip fp P n : Z) :
  (0 < P)%Z -> n = (ip * P + fp)%Z ->
  Q2Qc ((inject_Z ip + inject_Z fp / inject_Z P) * Qpower (inject_Z 10) 0)
  = Qc_of_Z n / Qc_of_Z P.
Proof.
  intros HP ->. apply Qc_is_canon. cbn. rewrite !Qred_correct.
  rewrite inject_Z_plus, inject_Z_mult. field.
  intros H. apply (Qeq_sym) in H. revert H. change 0%Q with (inject_Z 0).
  rewrite inject_Z_injective. lia.
Qed.

Lemma toFixed_body (d : nat) (n : N) :
  let whole := chars (pretty (n / 10 ^ N.of_nat d)%N) in
  let frac := zeroPad d (chars (pretty (n mod 10 ^ N.of_nat d)%N)) in
  let body := match d with O => whole | S _ => whole ++ dot :: frac end in
  Forall (fun c => isSpace c = false) body
  /\ (exists c rest, body = c :: rest /\ isDigit c = true)
  /\ exists w : nat,
       readDigits 0 0 body
       = (Z.of_N (n / 10 ^ N.of_nat d), w,
          match d with O => [] | S _ => dot :: frac end)
       /\ (1 <= w)%nat
       /\ match d with
          | O => True
          | S _ => readDigits 0 0 frac = (Z.of_N (n mod 10 ^ N.of_nat d), d, [])
          end.
Proof.
  cbv zeta.
  destruct (readDigits_pretty (n / 10 ^ N.of_nat d)%N)
    as (w & Hlen & Hw1 & _ & _ & Hdig & Hread).
  assert (Hhead : exists c rest, chars (pretty (n / 10 ^ N.of_nat d)%N) = c :: rest
                                 /\ isDigit c = true).
  { destruct (chars (pretty (n / 10 ^ N.of_nat d)%N)) as [|c rest]; [cbn in Hlen; lia|].
    apply Forall_cons in Hdig as [Hc _]. by exists c, rest. }
  assert (Hns : Forall (fun c => isSpace c = false) (chars (pretty (n / 10 ^ N.of_nat d)%N))).
  { eapply Forall_impl; [exact Hdig|]. apply isDigit_not_space. }
  destruct d as [|d'].
  - split; [done|]. split; [done|]. exists w. split; [|done].
    rewrite <- (app_nil_r (chars _)), Hread, readDigits_stop by done.
    by rewrite Z.mul_0_l, Z.add_0_l, Nat.add_0_l.
  - set (d := S d') in *.
    assert (Hmod : (Z.of_N (n mod 10 ^ N.of_nat d) < 10 ^ Z.of_nat d)%Z).
    { pose proof (N.mod_lt n (10 ^ N.of_nat d) ltac:(apply N.pow_nonzero; lia)) as H.
      apply N2Z.inj_lt in H. rewrite N2Z.inj_pow, nat_N_Z in H. exact H. }
    destruct (readDigits_zeroPad d (n mod 10 ^ N.of_nat d)%N ltac:(unfold d; lia) Hmod)
      as (Hflen & Hfdig & Hfread).
    split.
    { apply Forall_app. split; [done|]. constructor; [done|].
      eapply Forall_impl; [exact Hfdig|]. apply isDigit_not_space. }
    split.
    { destruct Hhead as (c & rest & Hh & Hc).
      exists c, (rest ++ dot :: zeroPad d (chars (pretty (n mod 10 ^ N.of_nat d)%N))).
      by rewrite Hh. }
    exists w. split; [|split; [done|]].
    + rewrite Hread, readDigits_stop by done.
      by rewrite Z.mul_0_l, Z.add_0_l, Nat.add_0_l.
    + rewrite <- (app_nil_r (zeroPad _ _)), Hfread, readDigits_stop by done. done.
Qed.

(** What [Number] reads in the words of [toFixed] is the rounded
    number. *)
Lemma toNumber_toFixed (d : nat) (q : Qc) : toNumber (toFixed d q) = Fin (rounded d q).
Proof.
  unfold toFixed, rounded. cbv zeta.
  set (n := scaledRound d q).
  destruct (toFixed_body d n) as (Hns & (c0 & rest0 & Hbody & Hc0) & w & Hread & Hw & Hfrac).
  cbv zeta in *.
  set (body := match d with
               | O => chars (pretty (n / 10 ^ N.of_nat d)%N)
               | S _ => chars (pretty (n / 10 ^ N.of_nat d)%N)
                        ++ dot :: zeroPad d (chars (pretty (n mod 10 ^ N.of_nat d)%N))
               end) in *.
  assert (HP : (0 < 10 ^ Z.of_nat d)%Z) by (apply Z.pow_pos_nonneg; lia).
  assert (Hn : Z.of_N n
               = (Z.of_N (n / 10 ^ N.of_nat d) * 10 ^ Z.of_nat d
                  + Z.of_N (n mod 10 ^ N.of_nat d))%Z).
  { rewrite (N.div_mod n (10 ^ N.of_nat d)) at 1 by (apply N.pow_nonzero; lia).
    rewrite N2Z.inj_add, N2Z.inj_mul, N2Z.inj_pow, nat_N_Z. lia. }
  assert (Hvalue :
    forall neg : bool,
      (let '(neg', l0) := (neg, body) in
       let '(ip, ni, l1) := readDigits 0 0 l0 in
       let '(fp, nf, l2) := readFraction l1 in
       match (ni + nf)%nat, readExponent l2 with
       | S _, Some e =>
           let m := (inject_Z ip + inject_Z fp / inject_Z (10 ^ Z.of_nat nf))%Q in
           let v := (m * Qpower (inject_Z 10) e)%Q in
           Fin (Q2Qc (if neg' then Qopp v else v))
       | _, _ => NaN
       end)
      = Fin (if neg then - (Qc_of_Z (Z.of_N n) / Qc_of_Z (10 ^ Z.of_nat d))
             else Qc_of_Z (Z.of_N n) / Qc_of_Z (10 ^ Z.of_nat d))).
  { intros neg. rewrite Hread. destruct d as [|d'].
    - cbn [readFraction readExponent]. rewrite Nat.add_0_r.
      destruct w as [|w']; [lia|]. cbv zeta. f_equal.
      assert (Hq : Q2Qc ((inject_Z (Z.of_N (n / 10 ^ N.of_nat 0))
                          + inject_Z 0 / inject_Z (10 ^ Z.of_nat 0))
                         * Qpower (inject_Z 10) 0)
                   = Qc_of_Z (Z.of_N n) / Qc_of_Z (10 ^ Z.of_nat 0)).
      { apply Q2Qc_decimal; [done|]. rewrite Hn at 1.
        rewrite N.mod_1_r. cbn. lia. }
      destruct neg; [rewrite Q2Qc_opp|]; by rewrite Hq.
    - cbn [readFraction]. rewrite bool_decide_eq_true_2 by done. rewrite Hfrac.
      cbn [readExponent].
      destruct (w + S d')%nat as [|k] eqn:Hk; [lia|]. cbv zeta. f_equal.
      assert (Hq : Q2Qc ((inject_Z (Z.of_N (n / 10 ^ N.of_nat (S d')))
                          + inject_Z (Z.of_N (n mod 10 ^ N.of_nat (S d')))
                            / inject_Z (10 ^ Z.of_nat (S d')))
                         * Qpower (inject_Z 10) 0)
                   = Qc_of_Z (Z.of_N n) / Qc_of_Z (10 ^ Z.of_nat (S d'))).
      { by apply Q2Qc_decimal. }
      destruct neg; [rewrite Q2Qc_opp|]; by rewrite Hq. }
  destruct (decide (q < 0)) as [Hq|Hq].
  - unfold toNumber. rewrite trim_no_spaces by (constructor; [done | exact Hns]).
    cbn [readSign]. rewrite bool_decide_eq_true_2 by done. apply (Hvalue true).
  - unfold toNumber. rewrite trim_no_spaces by exact Hns.
    rewrite Hbody. rewrite isDigit_not_sign by done. rewrite <- Hbody.
    apply (Hvalue false).
Qed.

(** * Rounding *)

Lemma scaledRound_bounds (d : nat) (q : Qc) :
  (inject_Z (Z.of_N (scaledRound d q))
   <= Qabs q * inject_Z (10 ^ Z.of_nat d) + (1 # 2))%Q
  /\ (Qabs q * inject_Z (10 ^ Z.of_nat d) + (1 # 2)
      < inject_Z (Z.of_N (scaledRound d q)) + 1)%Q.
Proof.
  unfold scaledRound.
  set (x := (Qabs q * inject_Z (10 ^ Z.of_nat d) + (1 # 2))%Q).
  assert (Hpow : (0 < 10 ^ Z.of_nat d)%Z) by (apply Z.pow_pos_nonneg; lia).
  assert (Hx : (0 <= x)%Q).
  { unfold x. pose proof (Qabs_nonneg q) as Ha.
    assert (Hp : (0 <= inject_Z (10 ^ Z.of_nat d))%Q).
    { change 0%Q with (inject_Z 0). rewrite <- Zle_Qle. lia. }
    pose proof (Qmult_le_0_compat _ _ Ha Hp). lra. }
  assert (Hf : (0 <= Qfloor x)%Z).
  { change 0%Z with (Qfloor 0). by apply Qfloor_resp_le. }
  rewrite Z2N.id by done. split; [apply Qfloor_le|].
  pose proof (Qlt_floor x) as Hlt. rewrite inject_Z_plus in Hlt. exact Hlt.
Qed.

(** The number that [toFixed] writes is within half a unit of the last
    decimal. *)
Lemma rounded_near (d : nat) (q : Qc) :
  rounded d q - q ≤ / (Qc_of_Z 2 * Qc_of_Z (10 ^ Z.of_nat d))
  /\ q - rounded d q ≤ / (Qc_of_Z 2 * Qc_of_Z (10 ^ Z.of_nat d)).
Proof.
  destruct (scaledRound_bounds d q) as [Hlo Hhi].
  assert (Hpow : (0 < 10 ^ Z.of_nat d)%Z) by (apply Z.pow_pos_nonneg; lia).
  assert (HP : (0 < inject_Z (10 ^ Z.of_nat d))%Q).
  { change 0%Q with (inject_Z 0). rewrite <- Zlt_Qlt. lia. }
  unfold rounded. cbv zeta.
  set (F := inject_Z (Z.of_N (scaledRound d q))) in *.
  set (P := inject_Z (10 ^ Z.of_nat d)) in *.
  assert (Hu : (0 < / P)%Q) by (by apply Qinv_lt_0_compat).
  assert (HPu : (P * / P == 1)%Q) by (apply Qmult_inv_r; lra).
  destruct (decide (q < 0)) as [Hneg|Hpos].
  - assert (Ha : (Qabs q == - q)%Q) by (apply Qabs_neg, Qlt_le_weak, Hneg).
    rewrite Ha in Hlo, Hhi.
    unfold Qcle, Qcminus, Qcplus, Qcopp, Qcdiv, Qcmult, Qcinv, Qc_of_Z, Q2Qc.
    cbn [this]. rewrite !Qred_correct. fold F P.
    assert (Hinv : (/ (inject_Z 2 * P) == (1 # 2) * / P)%Q).
    { rewrite Qinv_mult_distr. reflexivity. }
    rewrite Hinv.
    pose proof (Qmult_le_compat_r _ _ (/ P) Hlo (Qlt_le_weak _ _ Hu)) as H1.
    pose proof (Qmult_le_compat_r _ _ (/ P) (Qlt_le_weak _ _ Hhi) (Qlt_le_weak _ _ Hu)) as H2.
    assert (Heq : (q * P * / P == q)%Q) by (rewrite <- Qmult_assoc, HPu; ring).
    split; lra.
  - assert (Ha : (Qabs q == q)%Q).
    { apply Qabs_pos. apply Qnot_lt_le. exact Hpos. }
    rewrite Ha in Hlo, Hhi.
    unfold Qcle, Qcminus, Qcplus, Qcopp, Qcdiv, Qcmult, Qcinv, Qc_of_Z, Q2Qc.
    cbn [this]. rewrite !Qred_correct. fold F P.
    assert (Hinv : (/ (inject_Z 2 * P) == (1 # 2) * / P)%Q).
    { rewrite Qinv_mult_distr. reflexivity. }
    rewrite Hinv.
    pose proof (Qmult_le_compat_r _ _ (/ P) Hlo (Qlt_le_weak _ _ Hu)) as H1.
    pose proof (Qmult_le_compat_r _ _ (/ P) (Qlt_le_weak _ _ Hhi) (Qlt_le_weak _ _ Hu)) as H2.
    assert (Heq : (q * P * / P == q)%Q) by (rewrite <- Qmult_assoc, HPu; ring).
    split; lra.
Qed.

Lemma rounded5_near (q : Qc) :
  rounded 5 q - q ≤ / Qc_of_Z 200000 /\ q - rounded 5 q ≤ / Qc_of_Z 200000.
Proof.
  replace (Qc_of_Z 200000) with (Qc_of_Z 2 * Qc_of_Z (10 ^ Z.of_nat 5))
    by (apply Qc_is_canon; reflexivity).
  apply rounded_near.
Qed.

(** A weight and the percentage with two decimals that stands for it. *)
Lemma asPercent_near (w : Qc) :
  asPercent w - w ≤ / Qc_of_Z 20000 /\ w - asPercent w ≤ / Qc_of_Z 20000.
Proof.
  destruct (rounded_near 2 (w * Qc_of_Z 100)) as [H1 H2].
  replace (Qc_of_Z 2 * Qc_of_Z (10 ^ Z.of_nat 2)) with (Qc_of_Z 200) in H1, H2
    by (apply Qc_is_canon; reflexivity).
  assert (H100 : 0 < / Qc_of_Z 100) by by_compute.
  apply (Qcmult_le_mono_pos_r _ _ _ H100) in H1, H2.
  replace (/ Qc_of_Z 200 * / Qc_of_Z 100) with (/ Qc_of_Z 20000) in H1, H2
    by (apply Qc_is_canon; reflexivity).
  unfold asPercent.
  assert (Hc : Qc_of_Z 100 * / Qc_of_Z 100 = 1) by (apply Qcmult_inv_r; by_compute).
  set (r := rounded 2 (w * Qc_of_Z 100)) in *.
  set (c := Qc_of_Z 100) in *. set (u := / c) in *.
  split.
  - replace (r / c - w) with ((r - w * c) * u); [done|].
    transitivity (r * u - w * (c * u)); [ring | rewrite Hc; unfold Qcdiv; fold u; ring].
  - replace (w - r / c) with ((w * c - r) * u); [done|].
    transitivity (w * (c * u) - r * u); [ring | rewrite Hc; unfold Qcdiv; fold u; ring].
Qed.

(** * Scraping and aggregating, second script *)

(** ** The map of the aggregation *)

Lemma firstSeen_snoc {A} `{EqDecision A} (l : list A) (x : A) :
  firstSeen (l ++ [x]) = if decide (x ∈ l) then firstSeen l else firstSeen l ++ [x].
Proof.
  unfold firstSeen. rewrite rev_app_distr. cbn [rev app remove_dups].
  destruct (decide_rel elem_of x (rev l)) as [Hin|Hin].
  - rewrite decide_True; [done|]. by apply list_elem_of_In, in_rev, list_elem_of_In.
  - rewrite decide_False; [done|]. intros H. apply Hin.
    by apply list_elem_of_In, in_rev, list_elem_of_In in H.
Qed.

Lemma elem_of_firstSeen {A} `{EqDecision A} (l : list A) (x : A) :
  x ∈ firstSeen l <-> x ∈ l.
Proof.
  unfold firstSeen. rewrite list_elem_of_In, <- in_rev, <- list_elem_of_In.
  rewrite elem_of_remove_dups. by rewrite list_elem_of_In, <- in_rev, <- list_elem_of_In.
Qed.

Lemma NoDup_firstSeen {A} `{EqDecision A} (l : list A) : NoDup (firstSeen l).
Proof.
  unfold firstSeen. apply NoDup_ListNoDup, NoDup_rev, NoDup_ListNoDup, NoDup_remove_dups.
Qed.

Lemma mapGet_assoc (f : list ascii -> num) (keys : list (list ascii)) (k : list ascii) :
  V2.mapGet k (map (fun t => (t, f t)) keys) = if decide (k ∈ keys) then f k else NaN.
Proof.
  induction keys as [|t keys IH]; cbn [map V2.mapGet].
  - by rewrite decide_False by apply not_elem_of_nil.
  - destruct (decide (t = k)) as [->|Hne].
    + by rewrite decide_True by apply list_elem_of_here.
    + rewrite IH. destruct (decide (k ∈ keys)) as [Hin|Hin].
      * by rewrite decide_True by (by apply list_elem_of_further).
      * rewrite decide_False; [done|]. rewrite elem_of_cons. intros [?|?]; by subst.
Qed.

Lemma assoc_ext (f g : list ascii -> num) (keys : list (list ascii)) :
  (forall t, t ∈ keys -> f t = g t) ->
  map (fun t => (t, f t)) keys = map (fun t => (t, g t)) keys.
Proof.
  intros H. apply map_ext_in. intros t Ht. by rewrite H by (by apply list_elem_of_In).
Qed.

Lemma mapSet_assoc (f : list ascii -> num) (keys : list (list ascii)) (k : list ascii)
    (v : num) :
  NoDup keys ->
  V2.mapSet k v (map (fun t => (t, f t)) keys)
  = map (fun t => (t, if decide (t = k) then v else f t))
      (if decide (k ∈ keys) then keys else keys ++ [k]).
Proof.
  induction 1 as [|t keys Ht Hnd IH]; cbn [map V2.mapSet].
  - rewrite decide_False by apply not_elem_of_nil. cbn. by rewrite decide_True.
  - destruct (decide (t = k)) as [->|Hne].
    + rewrite decide_True by apply list_elem_of_here. cbn [map].
      rewrite decide_True by done. f_equal.
      apply assoc_ext. intros t Hin. rewrite decide_False; [done|]. by intros ->.
    + rewrite IH. destruct (decide (k ∈ keys)) as [Hin|Hin].
      * rewrite decide_True by (by apply list_elem_of_further). cbn [map].
        by rewrite decide_False.
      * rewrite decide_False by (rewrite elem_of_cons; intros [?|?]; by subst).
        cbn [map app]. by rewrite decide_False.
Qed.

(** ** The sums *)

Lemma valueOf_snoc (t : list ascii) (rows : list V2.rawRow) (row : V2.rawRow) :
  valueOf t (rows ++ [row])
  = valueOf t rows
    + (if decide (V2.rr_ticker row = t) then real (V2.rr_mv row) else 0).
Proof.
  unfold valueOf. rewrite List.filter_app, map_app, total_of_app. f_equal. cbn.
  destruct (decide (V2.rr_ticker row = t)) as [Ht|Ht].
  - rewrite bool_decide_eq_true_2 by done. cbn. ring.
  - rewrite bool_decide_eq_false_2 by done. done.
Qed.

Lemma valueOf_absent (t : list ascii) (rows : list V2.rawRow) :
  t ∉ map V2.rr_ticker rows -> valueOf t rows = 0.
Proof.
  intros Ht. unfold valueOf. induction rows as [|row rows IH]; [done|].
  cbn [List.filter]. rewrite bool_decide_eq_false_2.
  - apply IH. intros H. apply Ht. cbn. by apply list_elem_of_further.
  - intros <-. apply Ht. cbn. apply list_elem_of_here.
Qed.

Lemma valueOfAll_snoc (rows : list V2.rawRow) (row : V2.rawRow) :
  valueOfAll (rows ++ [row]) = valueOfAll rows + real (V2.rr_mv row).
Proof. unfold valueOfAll. rewrite map_app, total_of_app. cbn. ring. Qed.

Lemma fold_left_filter {A B} (step : B -> A -> B) (keep : A -> bool) (l : list A) (acc : B) :
  (forall acc x, keep x = false -> step acc x = acc) ->
  fold_left step l acc = fold_left step (List.filter keep l) acc.
Proof.
  intros Hskip. revert acc. induction l as [|x l IH]; intros acc; cbn; [done|].
  destruct (keep x) eqn:Hk; cbn; [apply IH|]. rewrite Hskip by done. apply IH.
Qed.

Lemma valued_positive (rows : list V2.rawRow) :
  Forall (fun row => exists q, V2.rr_mv row = Fin q /\ 0 < q) (valued rows).
Proof.
  apply List.Forall_forall. intros row Hrow. apply filter_In in Hrow as [_ Hrow].
  destruct (V2.rr_mv row) as [q|]; [|done]. exists q. split; [done|].
  cbn in Hrow. apply bool_decide_eq_true in Hrow. by rewrite Z2Qc_inj_0 in Hrow.
Qed.

(** The state of the aggregation after the rows [rows], all of them with a
    positive market value: the distinct tickers in the order of their
    first appearance, each with the sum of its market values, and the sum
    of all market values. *)
Lemma aggregate_fold (rows : list V2.rawRow) :
  Forall (fun row => exists q, V2.rr_mv row = Fin q /\ 0 < q) rows ->
  fold_left V2.aggregateRow rows ([], of_Z 0)
  = (map (fun t => (t, Fin (valueOf t rows))) (firstSeen (map V2.rr_ticker rows)),
     Fin (valueOfAll rows)).
Proof.
  induction rows as [|row rows IH] using rev_ind; intros Hpos.
  - cbn. unfold of_Z. by rewrite Z2Qc_inj_0.
  - apply Forall_app in Hpos as [Hrows Hrow]. apply Forall_cons in Hrow as [(q & Hq & Hq0) _].
    rewrite fold_left_app. cbn [fold_left]. rewrite IH by done.
    unfold V2.aggregateRow. cbn [fst snd]. rewrite Hq. cbn [ngt of_Z].
    rewrite bool_decide_eq_true_2 by (by rewrite Z2Qc_inj_0).
    rewrite mapGet_assoc, mapSet_assoc by apply NoDup_firstSeen.
    rewrite map_app. cbn [map]. rewrite firstSeen_snoc.
    assert (Hcur :
      orElse (if decide (V2.rr_ticker row ∈ firstSeen (map V2.rr_ticker rows))
              then Fin (valueOf (V2.rr_ticker row) rows) else NaN) (of_Z 0)
      = Fin (valueOf (V2.rr_ticker row) rows)).
    { unfold of_Z.
      destruct (decide (V2.rr_ticker row ∈ firstSeen (map V2.rr_ticker rows)))
        as [Hin|Hin].
      - cbn. destruct (decide (valueOf (V2.rr_ticker row) rows = 0)) as [->|]; [|done].
        by rewrite Z2Qc_inj_0.
      - cbn. rewrite valueOf_absent, Z2Qc_inj_0; [done|].
        by rewrite elem_of_firstSeen in Hin. }
    rewrite Hcur. cbn [nadd lift2]. rewrite valueOfAll_snoc, Hq. cbn [real].
    f_equal.
    destruct (decide (V2.rr_ticker row ∈ firstSeen (map V2.rr_ticker rows))) as [Hin|Hin].
    + rewrite decide_True by (by apply elem_of_firstSeen).
      apply assoc_ext. intros t _. rewrite valueOf_snoc, Hq. cbn [real].
      destruct (decide (t = V2.rr_ticker row)) as [->|Hne].
      * by rewrite decide_True.
      * rewrite decide_False by done. f_equal. ring.
    + rewrite decide_False by (by rewrite <- elem_of_firstSeen).
      apply assoc_ext. intros t _. rewrite valueOf_snoc, Hq. cbn [real].
      destruct (decide (t = V2.rr_ticker row)) as [->|Hne].
      * by rewrite decide_True.
      * rewrite decide_False by done. f_equal. ring.
Qed.

Lemma valueOf_cons (t : list ascii) (row : V2.rawRow) (rows : list V2.rawRow) :
  valueOf t (row :: rows)
  = (if decide (V2.rr_ticker row = t) then real (V2.rr_mv row) else 0) + valueOf t rows.
Proof.
  unfold valueOf. cbn [List.filter].
  destruct (decide (V2.rr_ticker row = t)) as [Ht|Ht].
  - rewrite bool_decide_eq_true_2 by done. cbn [map]. apply total_of_cons.
  - rewrite bool_decide_eq_false_2 by done. ring.
Qed.

Lemma valueOfAll_cons (row : V2.rawRow) (rows : list V2.rawRow) :
  valueOfAll (row :: rows) = real (V2.rr_mv row) + valueOfAll rows.
Proof. unfold valueOfAll. cbn [map]. apply total_of_cons. Qed.

Lemma valueOf_nonneg (t : list ascii) (rows : list V2.rawRow) :
  Forall (fun row => exists q, V2.rr_mv row = Fin q /\ 0 < q) rows ->
  0 ≤ valueOf t rows.
Proof.
  induction 1 as [|row rows (q & Hq & Hq0) _ IH]; [done|].
  rewrite valueOf_cons, Hq. cbn [real].
  apply Qcplus_nonneg_nonneg; [|done].
  destruct (decide (V2.rr_ticker row = t)); [by apply Qclt_le_weak | done].
Qed.

Lemma valueOf_positive (t : list ascii) (rows : list V2.rawRow) :
  Forall (fun row => exists q, V2.rr_mv row = Fin q /\ 0 < q) rows ->
  t ∈ map V2.rr_ticker rows ->
  0 < valueOf t rows.
Proof.
  induction 1 as [|row rows (q & Hq & Hq0) Hrows IH]; cbn [map].
  - intros H. by apply elem_of_nil in H.
  - intros Ht. rewrite valueOf_cons, Hq. cbn [real].
    destruct (decide (V2.rr_ticker row = t)) as [Heq|Hne].
    + apply Qcplus_pos_nonneg; [done | by apply valueOf_nonneg].
    + apply elem_of_cons in Ht as [Ht|Ht]; [by subst|].
      apply Qcplus_nonneg_pos; [done | by apply IH].
Qed.

Lemma valueOfAll_positive (rows : list V2.rawRow) :
  Forall (fun row => exists q, V2.rr_mv row = Fin q /\ 0 < q) rows ->
  rows <> [] ->
  0 < valueOfAll rows.
Proof.
  induction 1 as [|row rows (q & Hq & Hq0) Hrows IH]; [done|]. intros _.
  rewrite valueOfAll_cons, Hq. cbn [real].
  destruct rows as [|row' rows]; [unfold valueOfAll; cbn; by rewrite Qcplus_0_r|].
  apply Qcplus_pos_pos; [done | by apply IH].
Qed.

Lemma total_of_map_plus {A} (f g : A -> Qc) (l : list A) :
  total_of (map (fun x => f x + g x) l) = total_of (map f l) + total_of (map g l).
Proof.
  induction l as [|x l IH]; cbn [map]; [by rewrite total_of_nil|].
  rewrite !total_of_cons, IH. ring.
Qed.

Lemma total_of_map_div {A} (f : A -> Qc) (c : Qc) (l : list A) :
  total_of (map (fun x => f x / c) l) = total_of (map f l) / c.
Proof.
  induction l as [|x l IH]; cbn [map].
  - rewrite total_of_nil. unfold Qcdiv. ring.
  - rewrite !total_of_cons, IH. unfold Qcdiv. ring.
Qed.

Lemma total_of_indicator (k : list ascii) (v : Qc) (keys : list (list ascii)) :
  NoDup keys ->
  total_of (map (fun t => if decide (k = t) then v else 0) keys)
  = if decide (k ∈ keys) then v else 0.
Proof.
  induction 1 as [|t keys Ht Hnd IH]; cbn [map].
  - by rewrite decide_False by apply not_elem_of_nil.
  - rewrite total_of_cons, IH. destruct (decide (k = t)) as [->|Hne].
    + rewrite (decide_False (P := t ∈ keys)) by done.
      rewrite decide_True by apply list_elem_of_here. ring.
    + destruct (decide (k ∈ keys)) as [Hin|Hin].
      * rewrite decide_True by (by apply list_elem_of_further). ring.
      * rewrite decide_False by (rewrite elem_of_cons; intros [?|?]; by subst). ring.
Qed.

(** The values of the tickers add up to the value of all rows. *)
Lemma total_of_valueOf (keys : list (list ascii)) (rows : list V2.rawRow) :
  NoDup keys ->
  (forall t, t ∈ map V2.rr_ticker rows -> t ∈ keys) ->
  total_of (map (fun t => valueOf t rows) keys) = valueOfAll rows.
Proof.
  intros Hnd. induction rows as [|row rows IH]; intros Hin.
  - clear. induction keys as [|t keys IH]; [done|].
    cbn [map]. rewrite total_of_cons, IH. unfold valueOf, valueOfAll. cbn. ring.
  - rewrite (map_ext _ _ (fun t => valueOf_cons t row rows)).
    rewrite (total_of_map_plus
               (fun t => if decide (V2.rr_ticker row = t) then real (V2.rr_mv row) else 0)
               (fun t => valueOf t rows)).
    rewrite total_of_indicator by done.
    rewrite decide_True by (apply Hin; cbn; apply list_elem_of_here).
    rewrite IH, valueOfAll_cons; [done|].
    intros t Ht. apply Hin. cbn. by apply list_elem_of_further.
Qed.

Lemma fmap_map {A B} (f : A -> B) (l : list A) : f <$> l = map f l.
Proof. reflexivity. Qed.

(** What [scrapeRow] lets through. *)
Lemma scrapeRow2_shape (symIdx mvIdx wIdx : Z) (tds : list cell) (row : V2.rawRow) :
  V2.scrapeRow symIdx mvIdx wIdx tds = Some row ->
  V2.rr_ticker row <> []
  /\ Forall (fun c => isLower c = false /\ isDigit c = false) (V2.rr_ticker row)
  /\ (ngt (V2.rr_mv row) (of_Z 0) = true \/ ngt (V2.rr_w row) (of_Z 0) = true).
Proof.
  unfold V2.scrapeRow. cbv zeta.
  destruct (Z.of_nat (length tds) <=? _)%Z; [done|].
  destruct (cellAt tds symIdx) as [td|]; [|done].
  destruct (negb (truthy (Some (V2.rowTicker td))) || _) eqn:Hticker; [done|].
  apply orb_false_iff in Hticker as [Hne Hchars].
  match goal with |- (if ?b then _ else _) = _ -> _ => destruct b eqn:Hpos end; [|done].
  intros [= <-]. cbn [V2.rr_ticker V2.rr_mv V2.rr_w].
  split; [|split].
  - intros Hnil. rewrite Hnil in Hne. done.
  - apply List.Forall_forall. intros c Hc.
    assert (Hboth : isLower c || isDigit c = false).
    { destruct (isLower c || isDigit c) eqn:Hb; [|done].
      rewrite <- Hchars. symmetry. apply existsb_exists. by exists c. }
    by apply orb_false_iff in Hboth.
  - by apply orb_true_iff in Hpos.
Qed.

Lemma rawRowsOf_shape (tables : list table) :
  Forall (fun row =>
            V2.rr_ticker row <> []
            /\ Forall (fun c => isLower c = false /\ isDigit c = false) (V2.rr_ticker row)
            /\ (ngt (V2.rr_mv row) (of_Z 0) = true \/ ngt (V2.rr_w row) (of_Z 0) = true))
    (rawRowsOf tables).
Proof.
  unfold rawRowsOf. apply Forall_concat, List.Forall_forall. intros rows Hrows.
  apply in_map_iff in Hrows as (t & <- & _). unfold V2.scrapeTable. cbv zeta.
  repeat match goal with |- Forall _ (if ?b then _ else _) => destruct b end;
    try by constructor.
  apply omap_Forall. intros tds row. apply scrapeRow2_shape.
Qed.

Lemma scrapeAndAggregate_fold (tables : list table) :
  fold_left V2.aggregateRow (rawRowsOf tables) ([], of_Z 0)
  = (map (fun t => (t, Fin (valueOf t (valued (rawRowsOf tables)))))
       (firstSeen (map V2.rr_ticker (valued (rawRowsOf tables)))),
     Fin (valueOfAll (valued (rawRowsOf tables)))).
Proof.
  rewrite (fold_left_filter _ (fun row => ngt (V2.rr_mv row) (of_Z 0))).
  - apply aggregate_fold, valued_positive.
  - intros acc row Hrow. unfold V2.aggregateRow. by rewrite Hrow.
Qed.

(** X19.  When a row of the page has a positive market value, the second
    script lists each ticker of such rows once, in the order of first
    appearance, with the share of its summed market value in the total
    written with five decimals; the shares are positive and add up to
    one, and the total is the sum of the positive market values. *)
Theorem scrape_aggregates_by_ticker (tables : list table) :
  valued (rawRowsOf tables) <> [] ->
  V2.holdings (V2.scrapeAndAggregate tables)
  = map (fun t =>
           (t, V2.Text (toFixed 5 (shareOf t (valued (rawRowsOf tables))))))
      (firstSeen (map V2.rr_ticker (valued (rawRowsOf tables))))
  /\ V2.totalMV (V2.scrapeAndAggregate tables)
     = Fin (valueOfAll (valued (rawRowsOf tables)))
  /\ V2.rowCount (V2.scrapeAndAggregate tables) = length (rawRowsOf tables)
  /\ NoDup (map fst (V2.holdings (V2.scrapeAndAggregate tables)))
  /\ Forall (fun t => 0 < shareOf t (valued (rawRowsOf tables)))
       (firstSeen (map V2.rr_ticker (valued (rawRowsOf tables))))
  /\ total_of (map (fun t => shareOf t (valued (rawRowsOf tables)))
                 (firstSeen (map V2.rr_ticker (valued (rawRowsOf tables))))) = 1.
Proof.
  intros Hvs.
  pose proof (valued_positive (rawRowsOf tables)) as Hpos.
  pose proof (valueOfAll_positive _ Hpos Hvs) as Htotal.
  pose proof (scrapeAndAggregate_fold tables) as Hfold.
  assert (Hholdings :
    V2.scrapeAndAggregate tables
    = V2.Aggregate
        (length (List.filter (fun found => (0 <? length found)%nat)
                   (V2.scrapeTable <$> tables)))
        (length (rawRowsOf tables))
        (map (fun t =>
                (t, V2.Text (toFixed 5 (shareOf t (valued (rawRowsOf tables))))))
           (firstSeen (map V2.rr_ticker (valued (rawRowsOf tables)))))
        (Fin (valueOfAll (valued (rawRowsOf tables))))).
  { unfold V2.scrapeAndAggregate. cbv zeta. fold (rawRowsOf tables). rewrite Hfold.
    cbn [ngt of_Z]. rewrite bool_decide_eq_true_2 by (by rewrite Z2Qc_inj_0).
    f_equal. rewrite fmap_map, map_map. apply map_ext. intros t.
    cbn [fst snd]. rewrite ndiv_Fin; [done|]. intros H0. rewrite H0 in Htotal.
    by apply Qclt_not_eq in Htotal. }
  rewrite Hholdings. cbn [V2.holdings V2.totalMV V2.rowCount].
  split; [done|]. split; [done|]. split; [done|]. split; [|split].
  - rewrite map_map. cbn [fst]. rewrite map_id. apply NoDup_firstSeen.
  - apply List.Forall_forall. intros t Ht.
    apply list_elem_of_In in Ht. rewrite elem_of_firstSeen in Ht.
    unfold shareOf, Qcdiv. apply Qcmult_pos_pos; [by apply valueOf_positive|].
    by apply Qcinv_pos.
  - unfold shareOf.
    rewrite (total_of_map_div (fun t => valueOf t (valued (rawRowsOf tables)))).
    rewrite total_of_valueOf.
    + unfold Qcdiv. apply Qcmult_inv_r. intros H0. rewrite H0 in Htotal.
      by apply Qclt_not_eq in Htotal.
    + apply NoDup_firstSeen.
    + intros t Ht. by apply elem_of_firstSeen.
Qed.

(** The sample table of market values: the shares add up to one. *)
Lemma scrape_aggregates_by_ticker_witness :
  total_of (map (fun t => shareOf t (valued (rawRowsOf [value_table])))
              (firstSeen (map V2.rr_ticker (valued (rawRowsOf [value_table]))))) = 1.
Proof.
  apply (scrape_aggregates_by_ticker [value_table]).
  intros H. vm_compute in H. discriminate H.
Defined.

(** X20.  When no row of the page has a positive market value, the second
    script lists every scraped row with the number of its weight column,
    which is then positive: the default of 0.01 is never taken. *)
Theorem scrape_falls_back_to_weights (tables : list table) :
  valued (rawRowsOf tables) = [] ->
  V2.holdings (V2.scrapeAndAggregate tables)
  = map (fun row => (V2.rr_ticker row, V2.Value (V2.rr_w row))) (rawRowsOf tables)
  /\ Forall (fun row => exists w, V2.rr_w row = Fin w /\ 0 < w) (rawRowsOf tables)
  /\ V2.totalMV (V2.scrapeAndAggregate tables) = of_Z 0.
Proof.
  intros Hvs.
  assert (Hw : Forall (fun row => exists w, V2.rr_w row = Fin w /\ 0 < w) (rawRowsOf tables)).
  { pose proof (rawRowsOf_shape tables) as Hshape.
    apply List.Forall_forall. intros row Hrow.
    pose proof (proj1 (List.Forall_forall _ _) Hshape row Hrow) as (_ & _ & [Hmv|Hpos]).
    - assert (Hin : In row (valued (rawRowsOf tables))) by (by apply filter_In).
      rewrite Hvs in Hin. done.
    - destruct (V2.rr_w row) as [w|]; [|done]. exists w. split; [done|].
      cbn in Hpos. apply bool_decide_eq_true in Hpos. by rewrite Z2Qc_inj_0 in Hpos. }
  pose proof (scrapeAndAggregate_fold tables) as Hfold. rewrite Hvs in Hfold.
  unfold V2.scrapeAndAggregate. cbv zeta. fold (rawRowsOf tables). rewrite Hfold.
  cbn [map firstSeen]. unfold valueOfAll. cbn [map total_of foldr ngt of_Z].
  rewrite bool_decide_eq_false_2
    by (rewrite Z2Qc_inj_0; intros H; by apply Qclt_not_eq in H).
  cbn [V2.holdings V2.totalMV]. split; [|done].
  rewrite fmap_map. apply map_ext_in. intros row Hrow.
  pose proof (proj1 (List.Forall_forall _ _) Hw row Hrow) as (w & Hwr & Hw0).
  rewrite Hwr. cbn [orElse]. rewrite decide_False; [done|].
  intros H0. rewrite H0 in Hw0. by apply Qclt_not_eq in Hw0.
Qed.

(** The sample table of weights: the rows as they are. *)
Lemma scrape_falls_back_to_weights_witness :
  V2.holdings (V2.scrapeAndAggregate [weight_table])
  = map (fun row => (V2.rr_ticker row, V2.Value (V2.rr_w row))) (rawRowsOf [weight_table]).
Proof.
  apply (scrape_falls_back_to_weights [weight_table]). vm_compute. reflexivity.
Defined.

(** * From the holdings field back to the holdings *)

Lemma split_plain (sep : ascii) (l : list ascii) :
  sep ∉ l -> JsString.split sep l = [l].
Proof.
  induction l as [|c l IH]; intros Hsep; cbn [JsString.split]; [done|].
  rewrite bool_decide_eq_false_2 by (intros ->; apply Hsep, list_elem_of_here).
  rewrite IH; [done|]. intros H. by apply Hsep, list_elem_of_further.
Qed.

Lemma split_app (sep : ascii) (l rest : list ascii) :
  sep ∉ l -> JsString.split sep (l ++ sep :: rest) = l :: JsString.split sep rest.
Proof.
  induction l as [|c l IH]; intros Hsep; cbn [JsString.split app].
  - by rewrite bool_decide_eq_true_2.
  - rewrite bool_decide_eq_false_2 by (intros ->; apply Hsep, list_elem_of_here).
    rewrite IH; [done|]. intros H. by apply Hsep, list_elem_of_further.
Qed.

Lemma split_joinWith (sep : ascii) (ls : list (list ascii)) :
  ls <> [] -> Forall (fun l => sep ∉ l) ls ->
  JsString.split sep (joinWith [sep] ls) = ls.
Proof.
  intros Hne Hsep. induction Hsep as [|l ls Hl Hls IH]; [done|].
  destruct ls as [|l' ls]; cbn [joinWith].
  - by apply split_plain.
  - cbn [app]. rewrite split_app by done. f_equal. by apply IH.
Qed.

Lemma splitLines_plain (l : list ascii) :
  Forall (fun c => isSpace c = false) l -> JsString.splitLines l = [l].
Proof.
  induction 1 as [|c l Hc Hl IH]; [done|]. cbn [JsString.splitLines].
  rewrite bool_decide_eq_false_2 by (intros ->; done).
  assert (Hcr : bool_decide (c = cr) = false)
    by (apply bool_decide_eq_false_2; intros ->; done).
  rewrite Hcr, IH. cbn. by destruct l.
Qed.

Lemma splitLines_app (l rest : list ascii) :
  Forall (fun c => isSpace c = false) l ->
  JsString.splitLines (l ++ lf :: rest) = l :: JsString.splitLines rest.
Proof.
  induction 1 as [|c l Hc Hl IH]; cbn [app].
  - cbn [JsString.splitLines]. by rewrite bool_decide_eq_true_2.
  - cbn [JsString.splitLines].
    rewrite bool_decide_eq_false_2 by (intros ->; done).
    assert (Hcr : bool_decide (c = cr) = false)
      by (apply bool_decide_eq_false_2; intros ->; done).
    rewrite Hcr, IH. cbn. by destruct l.
Qed.

Lemma numeric_pretty (n : N) : Forall (fun c => numeric c = true) (chars (pretty n)).
Proof.
  destruct (readDigits_pretty n) as (w & _ & _ & _ & _ & Hdig & _).
  eapply Forall_impl; [exact Hdig|]. intros c Hc. unfold numeric. by rewrite Hc.
Qed.

Lemma numeric_toFixed (d : nat) (q : Qc) : Forall (fun c => numeric c = true) (toFixed d q).
Proof.
  unfold toFixed. cbv zeta.
  assert (Hbody : Forall (fun c => numeric c = true)
                    match d with
                    | O => chars (pretty (scaledRound d q / 10 ^ N.of_nat d)%N)
                    | S _ =>
                        chars (pretty (scaledRound d q / 10 ^ N.of_nat d)%N)
                        ++ dot :: zeroPad d
                                    (chars (pretty (scaledRound d q mod 10 ^ N.of_nat d)%N))
                    end).
  { destruct d as [|d']; [apply numeric_pretty|].
    apply Forall_app. split; [apply numeric_pretty|]. constructor; [done|].
    unfold zeroPad. apply Forall_app. split; [|apply numeric_pretty].
    by apply Forall_replicate. }
  destruct (decide (q < 0)); [by constructor | done].
Qed.

Lemma toFixed_nonempty (d : nat) (q : Qc) : toFixed d q <> [].
Proof.
  unfold toFixed. cbv zeta. destruct (decide (q < 0)); [done|].
  destruct (toFixed_body d (scaledRound d q)) as (_ & (c & rest & Hbody & _) & _).
  cbv zeta in Hbody. by rewrite Hbody.
Qed.

Lemma numeric_facts (c : ascii) :
  numeric c = true ->
  isSpace c = false /\ c <> comma /\ c <> "$"%char /\ c <> "%"%char.
Proof.
  intros Hc.
  assert (Hb : negb (isSpace c) && negb (bool_decide (c = comma))
               && negb (bool_decide (c = "$"%char)) && negb (bool_decide (c = "%"%char))
               = true).
  { revert Hc. destruct c as [[] [] [] [] [] [] [] []]; by vm_compute. }
  repeat (apply andb_true_iff in Hb as [Hb ?]).
  repeat split.
  - by apply negb_true_iff.
  - intros ->. done.
  - intros ->. done.
  - intros ->. done.
Qed.

Lemma plain_facts (c : ascii) : plain c = true -> isSpace c = false /\ c <> comma.
Proof.
  unfold plain. intros [Hs Hc]%andb_true_iff. split; [by apply negb_true_iff|].
  intros ->. done.
Qed.

Lemma dropMoneyChars_numeric (l : list ascii) :
  Forall (fun c => numeric c = true) l -> JsString.dropMoneyChars l = l.
Proof.
  induction 1 as [|c l Hc _ IH]; [done|].
  destruct (numeric_facts c Hc) as (_ & H1 & H2 & H3).
  unfold JsString.dropMoneyChars in *. cbn [List.filter].
  rewrite !bool_decide_eq_false_2 by done. cbn. by rewrite IH.
Qed.

Lemma hasPercent_numeric (l : list ascii) :
  Forall (fun c => numeric c = true) l -> JsString.hasPercent l = false.
Proof.
  induction 1 as [|c l Hc _ IH]; [done|].
  destruct (numeric_facts c Hc) as (_ & H1 & H2 & H3).
  unfold JsString.hasPercent in *. cbn [existsb].
  by rewrite bool_decide_eq_false_2, IH.
Qed.

Lemma numeric_no_spaces (l : list ascii) :
  Forall (fun c => numeric c = true) l -> Forall (fun c => isSpace c = false) l.
Proof.
  intros H. eapply Forall_impl; [exact H|].
  intros c Hc. by destruct (numeric_facts c Hc).
Qed.

Lemma plain_no_spaces (l : list ascii) :
  forallb plain l = true -> Forall (fun c => isSpace c = false) l.
Proof.
  intros Hl. apply List.Forall_forall. intros c Hc.
  by destruct (plain_facts c (proj1 (forallb_forall _ _) Hl c Hc)).
Qed.

Lemma plain_no_comma (l : list ascii) : forallb plain l = true -> comma ∉ l.
Proof.
  intros Hl Hc. apply list_elem_of_In in Hc.
  by destruct (plain_facts _ (proj1 (forallb_forall _ _) Hl _ Hc)).
Qed.

Lemma numeric_no_comma (l : list ascii) :
  Forall (fun c => numeric c = true) l -> comma ∉ l.
Proof.
  intros Hl Hc. apply list_elem_of_In in Hc.
  by destruct (numeric_facts _ (proj1 (List.Forall_forall _ _) Hl _ Hc)) as (_ & ? & _).
Qed.

Lemma trim_space_numeric (l : list ascii) :
  Forall (fun c => numeric c = true) l -> JsString.trim (" "%char :: l) = l.
Proof.
  intros Hl. change (JsString.trim (" "%char :: l)) with (JsString.trim l).
  by apply trim_no_spaces, numeric_no_spaces.
Qed.

(** The pieces of a line of the holdings field, [ticker, weight]. *)
Lemma split_line (t body : list ascii) :
  forallb plain t = true ->
  Forall (fun c => numeric c = true) body ->
  JsString.trim <$> JsString.split comma (t ++ chars ", " ++ body) = [t; body].
Proof.
  intros Ht Hbody. cbn [chars list_ascii_of_string app].
  rewrite split_app by (by apply plain_no_comma).
  rewrite split_plain.
  - cbn [fmap list_fmap]. rewrite trim_space_numeric by done.
    by rewrite trim_no_spaces by (by apply plain_no_spaces).
  - rewrite elem_of_cons. intros [H|H]; [done|]. by apply numeric_no_comma in H.
Qed.

Lemma safeNum2_toFixed (d : nat) (q : Qc) :
  V2.safeNum (Some (toFixed d q)) = Fin (rounded d q).
Proof.
  unfold V2.safeNum. cbn [fmap option_fmap option_map compose Number].
  rewrite dropMoneyChars_numeric by apply numeric_toFixed.
  rewrite trim_no_spaces by apply numeric_no_spaces, numeric_toFixed.
  by rewrite toNumber_toFixed.
Qed.

(** What the second script reads in a line that it wrote. *)
Lemma parseHolding2_line (t : list ascii) (q : Qc) :
  t <> [] -> forallb plain t = true ->
  V2.parseHolding (t ++ chars ", " ++ toFixed 5 q)
  = if decide (0 < rounded 5 q) then Some (Holding (str t) (Fin (rounded 5 q))) else None.
Proof.
  intros Hne Ht. unfold V2.parseHolding. cbv zeta.
  rewrite split_line by (done || apply numeric_toFixed).
  cbn [lookup list_lookup from_option default].
  rewrite safeNum2_toFixed, hasPercent_numeric by apply numeric_toFixed.
  destruct t as [|c t]; [done|]. cbn [truthy andb ngt of_Z].
  rewrite Z2Qc_inj_0. destruct (decide (0 < rounded 5 q)) as [Hq|Hq].
  - by rewrite bool_decide_eq_true_2.
  - by rewrite bool_decide_eq_false_2.
Qed.

Lemma line_no_spaces_but_one (t body : list ascii) :
  t <> [] -> forallb plain t = true -> Forall (fun c => numeric c = true) body ->
  body <> [] ->
  (lf ∉ (t ++ chars ", " ++ body))
  /\ JsString.trim (t ++ chars ", " ++ body) <> [].
Proof.
  intros Hne Ht Hbody Hbne. split.
  - rewrite !elem_of_app. intros [H|[H|H]].
    + apply list_elem_of_In in H.
      by destruct (plain_facts _ (proj1 (forallb_forall _ _) Ht _ H)).
    + cbn in H. rewrite !elem_of_cons in H. destruct H as [H|[H|H]]; try done.
      by apply elem_of_nil in H.
    + apply list_elem_of_In in H.
      by destruct (numeric_facts _ (proj1 (List.Forall_forall _ _) Hbody _ H)).
  - rewrite trim_id.
    + by destruct t.
    + destruct t as [|c t]; [done|]. cbn. cbn in Ht.
      apply andb_true_iff in Ht as [Hc _]. by destruct (plain_facts c Hc).
    + rewrite !rev_app_distr.
      destruct (rev body) as [|c r] eqn:Hr.
      * apply (f_equal (@rev ascii)) in Hr. rewrite rev_involutive in Hr. done.
      * cbn. assert (Hc : In c body) by (apply in_rev; rewrite Hr; by left).
        by destruct (numeric_facts _ (proj1 (List.Forall_forall _ _) Hbody _ Hc)).
Qed.

Lemma filter_keeps_all {A} (keep : A -> bool) (l : list A) :
  Forall (fun x => keep x = true) l -> List.filter keep l = l.
Proof. induction 1 as [|x l Hx _ IH]; cbn; [done|]. by rewrite Hx, IH. Qed.

Lemma omap_map_ext {A B C} (f : B -> option C) (g : A -> B) (h : A -> option C)
    (l : list A) :
  Forall (fun x => f (g x) = h x) l -> omap f (map g l) = omap h l.
Proof. induction 1 as [|x l Hx _ IH]; cbn; [done|]. by rewrite Hx, IH. Qed.

(** What the second script reads in a holdings field that it wrote. *)
Lemma parseHoldings2_lines (q : list ascii -> Qc) (keys : list (list ascii)) :
  keys <> [] ->
  Forall (fun t => t <> [] /\ forallb plain t = true) keys ->
  V2.parseHoldings
    (str (joinWith [lf] (map (fun t => t ++ chars ", " ++ toFixed 5 (q t)) keys)))
  = omap (fun t =>
            if decide (0 < rounded 5 (q t))
            then Some (Holding (str t) (Fin (rounded 5 (q t)))) else None)
      keys.
Proof.
  intros Hne Hkeys. unfold V2.parseHoldings. cbv zeta. rewrite chars_str.
  assert (Hlines :
    Forall (fun t =>
              (lf ∉ (t ++ chars ", " ++ toFixed 5 (q t)))
              /\ JsString.trim (t ++ chars ", " ++ toFixed 5 (q t)) <> []) keys).
  { eapply Forall_impl; [exact Hkeys|]. intros t [Ht Hp].
    apply line_no_spaces_but_one; try done;
      [apply numeric_toFixed | apply toFixed_nonempty]. }
  rewrite split_joinWith.
  - rewrite filter_keeps_all.
    + apply omap_map_ext. eapply Forall_impl; [exact Hkeys|]. intros t [Ht Hp].
      by apply parseHolding2_line.
    + apply List.Forall_map. eapply Forall_impl; [exact Hlines|]. intros t [_ Ht].
      cbn beta. by destruct (JsString.trim _).
  - by destruct keys.
  - apply List.Forall_map. eapply Forall_impl; [exact Hlines|]. by intros t [Ht _].
Qed.

Lemma firstSeen_nonempty {A} `{EqDecision A} (l : list A) : l <> [] -> firstSeen l <> [].
Proof.
  destruct l as [|x l]; [done|]. intros _ Hnil.
  assert (Hx : x ∈ firstSeen (x :: l)) by (apply elem_of_firstSeen, list_elem_of_here).
  rewrite Hnil in Hx. by apply elem_of_nil in Hx.
Qed.

(** X21.  The holdings field that the scrape button of the second script
    fills reads back, when the tickers hold no white space and no comma,
    as the tickers with their shares rounded to five decimals, in the same
    order; a ticker whose share rounds to zero is left out, and a weight
    that is read back is within 0.000005 of the share. *)
Theorem scraped_holdings_read_back (numberToString : num -> list ascii)
    (tables : list table) :
  valued (rawRowsOf tables) <> [] ->
  Forall (fun row => forallb plain (V2.rr_ticker row) = true) (valued (rawRowsOf tables)) ->
  exists text found rows unique total,
    V2.mb_scrape numberToString tables = V2.Found text found rows unique total
    /\ V2.parseHoldings (str text)
       = omap (fun t =>
                 if decide (0 < rounded 5 (shareOf t (valued (rawRowsOf tables))))
                 then Some (Holding (str t)
                              (Fin (rounded 5 (shareOf t (valued (rawRowsOf tables))))))
                 else None)
           (firstSeen (map V2.rr_ticker (valued (rawRowsOf tables))))
    /\ Forall (fun t =>
                 rounded 5 (shareOf t (valued (rawRowsOf tables)))
                 - shareOf t (valued (rawRowsOf tables)) ≤ / Qc_of_Z 200000
                 /\ shareOf t (valued (rawRowsOf tables))
                    - rounded 5 (shareOf t (valued (rawRowsOf tables))) ≤ / Qc_of_Z 200000)
         (firstSeen (map V2.rr_ticker (valued (rawRowsOf tables)))).
Proof.
  intros Hvs Hplain.
  pose proof (valued_positive (rawRowsOf tables)) as Hpos.
  pose proof (valueOfAll_positive _ Hpos Hvs) as Htotal.
  pose proof (scrapeAndAggregate_fold tables) as Hfold.
  assert (Hkeys : firstSeen (map V2.rr_ticker (valued (rawRowsOf tables))) <> []).
  { apply firstSeen_nonempty. by destruct (valued (rawRowsOf tables)). }
  assert (Hgood : Forall (fun t => t <> [] /\ forallb plain t = true)
                    (firstSeen (map V2.rr_ticker (valued (rawRowsOf tables))))).
  { apply List.Forall_forall. intros t Ht.
    apply list_elem_of_In in Ht. rewrite elem_of_firstSeen in Ht.
    apply list_elem_of_In, in_map_iff in Ht as (row & <- & Hrow). split.
    - pose proof (rawRowsOf_shape tables) as Hshape.
      apply filter_In in Hrow as [Hrow _].
      by destruct (proj1 (List.Forall_forall _ _) Hshape row Hrow).
    - exact (proj1 (List.Forall_forall _ _) Hplain row Hrow). }
  unfold V2.mb_scrape. cbv zeta.
  unfold V2.scrapeAndAggregate. cbv zeta. fold (rawRowsOf tables). rewrite Hfold.
  cbn [ngt of_Z]. rewrite bool_decide_eq_true_2 by (by rewrite Z2Qc_inj_0).
  cbn [V2.holdings V2.tableCount V2.rowCount V2.totalMV].
  rewrite !fmap_map, map_map.
  destruct (firstSeen (map V2.rr_ticker (valued (rawRowsOf tables))))
    as [|t keys] eqn:Hfs; [done|].
  rewrite <- Hfs in *. clear Hfs.
  set (lines := map _ (firstSeen _)).
  assert (Hlines :
    map (V2.holdingLine numberToString) lines
    = map (fun t => t ++ chars ", " ++ toFixed 5 (shareOf t (valued (rawRowsOf tables))))
        (firstSeen (map V2.rr_ticker (valued (rawRowsOf tables))))).
  { unfold lines. rewrite map_map. apply map_ext. intros k.
    unfold V2.holdingLine. cbn [fst snd]. rewrite ndiv_Fin; [done|].
    intros H0. rewrite H0 in Htotal. by apply Qclt_not_eq in Htotal. }
  destruct lines as [|l0 ls] eqn:Hl.
  { exfalso. apply (f_equal (@length _)) in Hl. unfold lines in Hl.
    rewrite length_map in Hl.
    destruct (firstSeen (map V2.rr_ticker (valued (rawRowsOf tables)))); done. }
  eexists _, _, _, _, _. split; [reflexivity|]. split.
  - rewrite fmap_map, Hlines. by apply parseHoldings2_lines.
  - apply List.Forall_forall. intros k _. apply rounded5_near.
Qed.

(** The sample table of market values, scraped and read back. *)
Lemma scraped_holdings_read_back_witness :
  exists text found rows unique total,
    V2.mb_scrape (fun _ => []) [value_table] = V2.Found text found rows unique total
    /\ V2.parseHoldings (str text)
       = omap (fun t =>
                 if decide (0 < rounded 5 (shareOf t (valued (rawRowsOf [value_table]))))
                 then Some (Holding (str t)
                              (Fin (rounded 5 (shareOf t (valued (rawRowsOf [value_table]))))))
                 else None)
           (firstSeen (map V2.rr_ticker (valued (rawRowsOf [value_table]))))
    /\ Forall (fun t =>
                 rounded 5 (shareOf t (valued (rawRowsOf [value_table])))
                 - shareOf t (valued (rawRowsOf [value_table])) ≤ / Qc_of_Z 200000
                 /\ shareOf t (valued (rawRowsOf [value_table]))
                    - rounded 5 (shareOf t (valued (rawRowsOf [value_table])))
                    ≤ / Qc_of_Z 200000)
         (firstSeen (map V2.rr_ticker (valued (rawRowsOf [value_table])))).
Proof.
  apply (scraped_holdings_read_back (fun _ => []) [value_table]).
  - intros H. vm_compute in H. discriminate H.
  - by_compute.
Defined.

(** * The status line of the scrape, second script *)

Lemma length_remove_dups {A} `{EqDecision A} (l : list A) :
  (length (remove_dups l) <= length l)%nat.
Proof.
  induction l as [|x l IH]; cbn [remove_dups]; [done|].
  destruct (decide_rel elem_of x l); cbn [length]; lia.
Qed.

Lemma length_firstSeen {A} `{EqDecision A} (l : list A) :
  (length (firstSeen l) <= length l)%nat.
Proof.
  unfold firstSeen. rewrite length_rev, <- (length_rev l). apply length_remove_dups.
Qed.

(** X22.  The scrape button of the second script reports that nothing was found
    exactly when no table gives a row.  Otherwise the status line counts
    the rows that the tables gave and the holdings that are listed, which
    are one at least and no more than the rows, and names as the total
    value the sum of the positive market values. *)
Theorem scrape_status_counts (numberToString : num -> list ascii) (tables : list table) :
  (V2.mb_scrape numberToString tables = V2.NothingFound <-> rawRowsOf tables = [])
  /\ forall text found rows unique total,
       V2.mb_scrape numberToString tables = V2.Found text found rows unique total ->
       rows = length (rawRowsOf tables)
       /\ (0 < unique <= rows)%nat
       /\ (found <= length tables)%nat
       /\ total = Fin (valueOfAll (valued (rawRowsOf tables))).
Proof.
  assert (Hfacts :
    V2.rowCount (V2.scrapeAndAggregate tables) = length (rawRowsOf tables)
    /\ (length (V2.holdings (V2.scrapeAndAggregate tables))
        <= length (rawRowsOf tables))%nat
    /\ (V2.holdings (V2.scrapeAndAggregate tables) = [] <-> rawRowsOf tables = [])
    /\ (V2.tableCount (V2.scrapeAndAggregate tables) <= length tables)%nat
    /\ V2.totalMV (V2.scrapeAndAggregate tables)
       = Fin (valueOfAll (valued (rawRowsOf tables)))).
  { pose proof (scrapeAndAggregate_fold tables) as Hfold.
    assert (Hfound :
      (length (List.filter (fun found : list V2.rawRow => (0 <? length found)%nat)
                 (V2.scrapeTable <$> tables)) <= length tables)%nat).
    { etransitivity; [apply List.filter_length_le|]. by rewrite length_fmap. }
    unfold V2.scrapeAndAggregate. cbv zeta. fold (rawRowsOf tables). rewrite Hfold.
    destruct (decide (valued (rawRowsOf tables) = [])) as [Hvs|Hvs].
    - rewrite Hvs. cbn [map firstSeen]. unfold valueOfAll. cbn [map total_of foldr ngt of_Z].
      rewrite bool_decide_eq_false_2
        by (rewrite Z2Qc_inj_0; intros H; by apply Qclt_not_eq in H).
      cbn [V2.holdings V2.tableCount V2.rowCount V2.totalMV].
      rewrite length_fmap. split; [done|]. split; [done|]. split; [|split; [done|]].
      + by destruct (rawRowsOf tables).
      + unfold of_Z. by rewrite Z2Qc_inj_0.
    - pose proof (valued_positive (rawRowsOf tables)) as Hpos.
      pose proof (valueOfAll_positive _ Hpos Hvs) as Htotal.
      cbn [ngt of_Z]. rewrite bool_decide_eq_true_2 by (by rewrite Z2Qc_inj_0).
      cbn [V2.holdings V2.tableCount V2.rowCount V2.totalMV].
      rewrite length_fmap, length_map.
      split; [done|]. split; [|split; [|done]].
      + etransitivity; [apply length_firstSeen|]. rewrite length_map.
        apply List.filter_length_le.
      + pose proof (firstSeen_nonempty (map V2.rr_ticker (valued (rawRowsOf tables))))
          as Hkeys.
        split.
        * intros Hnil. exfalso. apply Hkeys.
          -- by destruct (valued (rawRowsOf tables)).
          -- by destruct (firstSeen (map V2.rr_ticker (valued (rawRowsOf tables)))).
        * intros Hnil. rewrite Hnil in Hvs. by destruct Hvs. }
  destruct Hfacts as (Hrows & Hlen & Hnone & Htables & Htotal).
  unfold V2.mb_scrape. cbv zeta.
  destruct (V2.holdings (V2.scrapeAndAggregate tables)) as [|h hs].
  - split; [split; [intros _; by apply Hnone | done]|]. intros text found rows unique total H.
    done.
  - split.
    + split; [done|]. intros Hnil. by apply Hnone in Hnil.
    + intros text found rows unique total H.
      assert (found = V2.tableCount (V2.scrapeAndAggregate tables)) as -> by congruence.
      assert (rows = V2.rowCount (V2.scrapeAndAggregate tables)) as -> by congruence.
      assert (unique = length (h :: hs)) as -> by congruence.
      assert (total = V2.totalMV (V2.scrapeAndAggregate tables)) as -> by congruence.
      rewrite Hrows. cbn [length] in *. split; [done|]. split; [lia|]. done.
Qed.

(** * Scraping, first script *)

(** What [scrapeRow] puts into [parsed]. *)
Lemma scrapeRow1_tickers (symIdx weightIdx mvIdx : Z) (acc : list V1.parsedRow * num)
    (tds : list cell) (P : V1.parsedRow -> Prop) :
  (forall x, V1.p_ticker x <> []
             -> existsb (fun c => isLower c || isDigit c) (V1.p_ticker x) = false
             -> P x) ->
  Forall P (fst acc) ->
  Forall P (fst (V1.scrapeRow symIdx weightIdx mvIdx acc tds)).
Proof.
  intros HP Hacc. unfold V1.scrapeRow. cbv zeta.
  destruct (Z.of_nat (length tds) <? _)%Z; [done|].
  destruct (negb (truthy (Some (V1.extractTickerFromCell (cellAt tds symIdx)))) || _)
    eqn:Hticker; [done|].
  apply orb_false_iff in Hticker as [Hne Hchars].
  cbn [fst]. apply Forall_app. split; [done|]. constructor; [|constructor].
  apply HP; cbn [V1.p_ticker]; [|done].
  intros Hnil. by rewrite Hnil in Hne.
Qed.

Lemma scrapeRows1_tickers (symIdx weightIdx mvIdx : Z) (rows : list (list cell))
    (acc : list V1.parsedRow * num) (P : V1.parsedRow -> Prop) :
  (forall x, V1.p_ticker x <> []
             -> existsb (fun c => isLower c || isDigit c) (V1.p_ticker x) = false
             -> P x) ->
  Forall P (fst acc) ->
  Forall P (fst (fold_left (V1.scrapeRow symIdx weightIdx mvIdx) rows acc)).
Proof.
  intros HP. revert acc. induction rows as [|tds rows IH]; intros acc Hacc; [done|].
  cbn [fold_left]. by apply IH, scrapeRow1_tickers.
Qed.

Lemma fillWeights_tickers (parsed : list V1.parsedRow) (totalMV : num) :
  Forall (fun x => V1.p_ticker x <> []
                   /\ existsb (fun c => isLower c || isDigit c) (V1.p_ticker x) = false)
    parsed ->
  Forall (fun x => V1.p_ticker x <> []
                   /\ existsb (fun c => isLower c || isDigit c) (V1.p_ticker x) = false)
    (V1.fillWeights parsed totalMV).
Proof.
  intros H. unfold V1.fillWeights. destruct (_ && _); [|done].
  rewrite fmap_map. apply List.Forall_map. eapply Forall_impl; [exact H|].
  intros x Hx. cbn beta. by destruct (_ && _).
Qed.

(** The rows that a table gives: there is one at least; a ticker is not
    empty and has no small letter and no digit; a weight is positive. *)
Lemma scrapeTable1_shape (t : table) (cleaned : list V1.parsedRow) :
  V1.scrapeTable t = Some cleaned ->
  cleaned <> []
  /\ Forall (fun x =>
               V1.p_ticker x <> []
               /\ Forall (fun c => isLower c = false /\ isDigit c = false) (V1.p_ticker x)
               /\ exists w, V1.p_weight x = Fin w /\ 0 < w)
       cleaned.
Proof.
  unfold V1.scrapeTable. cbv zeta.
  destruct (negb (V1.symbolLike _)); [done|].
  destruct (negb (existsb _ _)); [done|].
  destruct (length (bodyRows t) <? 2)%nat; [done|].
  destruct (fold_left _ (bodyRows t) _) as [parsed totalMV] eqn:Hfold.
  assert (Hparsed :
    Forall (fun x => V1.p_ticker x <> []
                     /\ existsb (fun c => isLower c || isDigit c) (V1.p_ticker x) = false)
      parsed).
  { change parsed with (fst (parsed, totalMV)). rewrite <- Hfold.
    apply scrapeRows1_tickers; [done | constructor]. }
  apply (fillWeights_tickers _ totalMV) in Hparsed.
  set (filled := V1.fillWeights parsed totalMV) in *.
  destruct (List.filter _ filled) as [|x0 rest] eqn:Hcleaned; [done|].
  intros [= <-]. split; [done|]. rewrite <- Hcleaned.
  apply List.Forall_forall. intros x Hx. apply filter_In in Hx as [Hin Hkeep].
  apply andb_true_iff in Hkeep as [[_ Hfin]%andb_true_iff Hpos].
  destruct (proj1 (List.Forall_forall _ _) Hparsed x Hin) as [Hne Hchars].
  split; [done|]. split.
  - apply List.Forall_forall. intros c Hc.
    assert (Hboth : isLower c || isDigit c = false).
    { destruct (isLower c || isDigit c) eqn:Hb; [|done].
      rewrite <- Hchars. symmetry. apply existsb_exists. by exists c. }
    by apply orb_false_iff in Hboth.
  - destruct (V1.p_weight x) as [w|]; [|done]. exists w. split; [done|].
    cbn in Hpos. apply bool_decide_eq_true in Hpos. by rewrite Z2Qc_inj_0 in Hpos.
Qed.

(** The table that the loop keeps: the first of those with the most
    rows. *)
Lemma fold_better (tables : list table) (best0 : option (list V1.parsedRow)) :
  match fold_left V1.better tables best0 with
  | None => best0 = None /\ Forall (fun t => V1.scrapeTable t = None) tables
  | Some best =>
      (best0 = Some best
       /\ Forall (fun t => forall rows, V1.scrapeTable t = Some rows
                                        -> (length rows <= length best)%nat) tables)
      \/ exists before t after,
           tables = before ++ t :: after
           /\ V1.scrapeTable t = Some best
           /\ (forall b, best0 = Some b -> (length b < length best)%nat)
           /\ Forall (fun t => forall rows, V1.scrapeTable t = Some rows
                                            -> (length rows < length best)%nat) before
           /\ Forall (fun t => forall rows, V1.scrapeTable t = Some rows
                                            -> (length rows <= length best)%nat) after
  end.
Proof.
  revert best0. induction tables as [|t tables IH]; intros best0; cbn [fold_left].
  - destruct best0 as [b|]; [left|]; by repeat constructor.
  - specialize (IH (V1.better best0 t)).
    destruct (fold_left V1.better tables (V1.better best0 t)) as [best|].
    + unfold V1.better in IH.
      destruct IH as [[Hb Hall]|(before & t' & after & -> & Ht' & Hb & Hbefore & Hafter)].
      * destruct (V1.scrapeTable t) as [cleaned|] eqn:Ht.
        -- destruct best0 as [b|].
           ++ destruct (length b <? length cleaned)%nat eqn:Hlt.
              ** injection Hb as ->. right. exists [], t, tables.
                 split; [done|]. split; [done|]. split; [|split; [constructor | done]].
                 intros b' [= <-]. by apply Nat.ltb_lt.
              ** left. split; [done|]. constructor; [|done].
                 intros rows Hrows. rewrite Ht in Hrows. injection Hrows as <-.
                 injection Hb as <-. by apply Nat.ltb_ge.
           ++ injection Hb as ->. right. exists [], t, tables.
              split; [done|]. split; [done|]. split; [done|]. split; [constructor | done].
        -- left. split; [done|]. constructor; [|done].
           intros rows Hrows. by rewrite Ht in Hrows.
      * right. exists (t :: before), t', after.
        split; [done|]. split; [done|]. split; [|split; [|done]].
        -- intros b ->. destruct (V1.scrapeTable t) as [cleaned|] eqn:Ht.
           ++ destruct (length b <? length cleaned)%nat eqn:Hlt.
              ** apply Nat.ltb_lt in Hlt. specialize (Hb _ eq_refl). lia.
              ** by apply Hb.
           ++ by apply Hb.
        -- constructor; [|done]. intros rows Hrows. rewrite Hrows in Hb.
           destruct best0 as [b|].
           ++ destruct (length b <? length rows)%nat eqn:Hlt.
              ** by apply Hb.
              ** apply Nat.ltb_ge in Hlt. specialize (Hb _ eq_refl). lia.
           ++ by apply Hb.
    + destruct IH as [Hb Hall]. unfold V1.better in Hb.
      destruct (V1.scrapeTable t) as [cleaned|] eqn:Ht.
      * destruct best0 as [b|]; [|done]. by destruct (length b <? length cleaned)%nat.
      * split; [done|]. by constructor.
Qed.

(** The line of the holdings field for a row of the kept table. *)
Lemma holdingLine1_row (x : V1.parsedRow) (w : Qc) :
  V1.p_weight x = Fin w ->
  V1.holdingLine
    (V1.ScrapedHolding (V1.p_ticker x)
       (numToFixed 2 (V1.p_weight x * of_Z 100)%num ++ chars "%"))
  = V1.p_ticker x ++ chars ", " ++ toFixed 2 (w * Qc_of_Z 100) ++ chars "%".
Proof. intros ->. reflexivity. Qed.

(** X23.  The scrape button of the first script reports that nothing was
    found exactly when no table of the page gives a row; otherwise it
    keeps the first of the tables that give the most rows, counts its rows,
    and writes one line per row: the ticker, which is not empty and has no
    small letter and no digit, and the weight, which is positive, as a
    percentage with two decimals (for weights that [toFixed] writes in
    decimals). *)
Theorem scrape_keeps_the_largest_table (tables : list table) :
  (V1.mb_scrape tables = V1.NothingFound
   <-> Forall (fun t => V1.scrapeTable t = None) tables)
  /\ forall text count,
       V1.mb_scrape tables = V1.Found text count ->
       exists before t after best,
         tables = before ++ t :: after
         /\ V1.scrapeTable t = Some best
         /\ Forall (fun t' => forall rows, V1.scrapeTable t' = Some rows
                                           -> (length rows < length best)%nat) before
         /\ Forall (fun t' => forall rows, V1.scrapeTable t' = Some rows
                                           -> (length rows <= length best)%nat) after
         /\ count = length best
         /\ (Forall plainPercent best ->
             text = joinWith [lf]
                      (map (fun x => V1.p_ticker x ++ chars ", "
                                     ++ toFixed 2 (real (V1.p_weight x) * Qc_of_Z 100)
                                     ++ chars "%")
                         best))
         /\ Forall (fun x =>
                      V1.p_ticker x <> []
                      /\ Forall (fun c => isLower c = false /\ isDigit c = false)
                           (V1.p_ticker x)
                      /\ exists w, V1.p_weight x = Fin w /\ 0 < w)
              best.
Proof.
  pose proof (fold_better tables None) as Hfold.
  unfold V1.mb_scrape, V1.scrapeHoldingsFromPage.
  destruct (fold_left V1.better tables None) as [best|].
  - destruct Hfold as [[? _]|(before & t & after & Htables & Ht & _ & Hbefore & Hafter)];
      [done|].
    destruct (scrapeTable1_shape t best Ht) as [Hne Hshape].
    change (default [] (Some best)) with best. rewrite fmap_map.
    remember (map (fun x => V1.ScrapedHolding (V1.p_ticker x)
                              (numToFixed 2 (V1.p_weight x * of_Z 100)%num ++ chars "%"))
                best) as found eqn:Hfound.
    destruct found as [|h rest].
    { destruct best; [by destruct Hne | done]. }
    cbv beta iota. split.
    + split; [done|]. intros Hnone. rewrite Htables in Hnone.
      apply Forall_app in Hnone as [_ Hnone]. apply Forall_cons in Hnone as [Hnone _].
      by rewrite Ht in Hnone.
    + intros text count Heq.
      assert (text = joinWith [lf] (V1.holdingLine <$> h :: rest)) as -> by congruence.
      assert (count = length (h :: rest)) as -> by congruence.
      clear Heq. rewrite Hfound. exists before, t, after, best.
      split; [done|]. split; [done|]. split; [done|]. split; [done|].
      split; [by rewrite length_map|]. split; [|done]. intros _.
      rewrite fmap_map, map_map. f_equal. apply map_ext_in. intros x Hx.
      destruct (proj1 (List.Forall_forall _ _) Hshape x Hx) as (_ & _ & w & Hw & _).
      rewrite (holdingLine1_row x w Hw), Hw. done.
  - destruct Hfold as [_ Hnone]. cbn [default fmap list_fmap]. split; [done|].
    intros text count. done.
Qed.

Lemma splitLines_one (l : list ascii) :
  Forall (fun c => c <> lf /\ c <> cr) l -> JsString.splitLines l = [l].
Proof.
  induction 1 as [|c l [Hlf Hcr] Hl IH]; [done|]. cbn [JsString.splitLines].
  rewrite bool_decide_eq_false_2 by done.
  assert (Hc : bool_decide (c = cr) = false) by (by apply bool_decide_eq_false_2).
  rewrite Hc, IH. cbn. by destruct l.
Qed.

Lemma splitLines_cons (l rest : list ascii) :
  Forall (fun c => c <> lf /\ c <> cr) l ->
  JsString.splitLines (l ++ lf :: rest) = l :: JsString.splitLines rest.
Proof.
  induction 1 as [|c l [Hlf Hcr] Hl IH]; cbn [app].
  - cbn [JsString.splitLines]. by rewrite bool_decide_eq_true_2.
  - cbn [JsString.splitLines].
    rewrite bool_decide_eq_false_2 by done.
    assert (Hc : bool_decide (c = cr) = false) by (by apply bool_decide_eq_false_2).
    rewrite Hc, IH. cbn. by destruct l.
Qed.

Lemma splitLines_joinWith (ls : list (list ascii)) :
  ls <> [] -> Forall (Forall (fun c => c <> lf /\ c <> cr)) ls ->
  JsString.splitLines (joinWith [lf] ls) = ls.
Proof.
  intros Hne Hls. induction Hls as [|l ls Hl Hls IH]; [done|].
  destruct ls as [|l' ls]; cbn [joinWith].
  - by apply splitLines_one.
  - cbn [app]. rewrite splitLines_cons by done. f_equal. by apply IH.
Qed.

Lemma no_space_no_break (c : ascii) : isSpace c = false -> c <> lf /\ c <> cr.
Proof. intros Hc. split; intros ->; done. Qed.

(** A line of the holdings field of the first script, [ticker, weight%]. *)
Lemma line1_clean (t body : list ascii) :
  t <> [] -> forallb plain t = true -> Forall (fun c => numeric c = true) body ->
  Forall (fun c => c <> lf /\ c <> cr) (t ++ chars ", " ++ body ++ chars "%")
  /\ JsString.trim (t ++ chars ", " ++ body ++ chars "%")
     = t ++ chars ", " ++ body ++ chars "%".
Proof.
  intros Hne Ht Hbody. split.
  - apply Forall_app. split.
    { eapply Forall_impl; [by apply plain_no_spaces|]. apply no_space_no_break. }
    cbn [chars list_ascii_of_string app]. constructor; [done|]. constructor; [done|].
    apply Forall_app. split; [|by repeat constructor].
    eapply Forall_impl; [by apply numeric_no_spaces|]. apply no_space_no_break.
  - apply trim_id.
    + destruct t as [|c t]; [done|]. cbn. cbn in Ht.
      apply andb_true_iff in Ht as [Hc _]. by destruct (plain_facts c Hc).
    + rewrite !rev_app_distr. done.
Qed.

Lemma split_line1 (t body : list ascii) :
  forallb plain t = true ->
  Forall (fun c => numeric c = true) body ->
  JsString.trim <$> JsString.split comma (t ++ chars ", " ++ body ++ chars "%")
  = [t; body ++ chars "%"].
Proof.
  intros Ht Hbody. cbn [chars list_ascii_of_string app].
  rewrite split_app by (by apply plain_no_comma).
  rewrite split_plain.
  - cbn [fmap list_fmap].
    change (JsString.trim (" "%char :: body ++ ["%"%char]))
      with (JsString.trim (body ++ ["%"%char])).
    rewrite (trim_no_spaces (body ++ _)).
    + by rewrite trim_no_spaces by (by apply plain_no_spaces).
    + apply Forall_app. split; [by apply numeric_no_spaces | by repeat constructor].
  - rewrite elem_of_cons, elem_of_app. intros [H|[H|H]]; [done| |].
    + by apply numeric_no_comma in H.
    + apply elem_of_cons in H as [H|H]; [done | by apply elem_of_nil in H].
Qed.

Lemma safeNum1_percentage (d : nat) (q : Qc) :
  V1.safeNum (Some (toFixed d q ++ chars "%")) = Fin (rounded d q).
Proof.
  unfold V1.safeNum. cbn [fmap option_fmap option_map compose Number].
  unfold JsString.dropMoneyChars. rewrite List.filter_app.
  fold (JsString.dropMoneyChars (toFixed d q)).
  rewrite dropMoneyChars_numeric by apply numeric_toFixed.
  cbn [chars list_ascii_of_string List.filter].
  rewrite (bool_decide_eq_true_2 ("%"%char = "%"%char)) by done.
  rewrite !orb_true_r. cbn [negb]. rewrite app_nil_r.
  rewrite trim_no_spaces by apply numeric_no_spaces, numeric_toFixed.
  by rewrite toNumber_toFixed.
Qed.

Lemma hasPercent_percentage (body : list ascii) :
  JsString.hasPercent (body ++ chars "%") = true.
Proof.
  unfold JsString.hasPercent. rewrite existsb_app. cbn.
  by rewrite orb_true_r.
Qed.

(** What the first script reads in a line that it wrote. *)
Lemma parseHolding1_line (t : list ascii) (w : Qc) :
  t <> [] -> forallb plain t = true ->
  V1.parseHolding (t ++ chars ", " ++ toFixed 2 (w * Qc_of_Z 100) ++ chars "%")
  = if decide (0 < asPercent w) then Some (Holding (str t) (Fin (asPercent w))) else None.
Proof.
  intros Hne Ht. unfold V1.parseHolding. cbv zeta.
  rewrite split_line1 by (done || apply numeric_toFixed).
  cbn [length Nat.ltb Nat.leb lookup list_lookup from_option default id].
  rewrite safeNum1_percentage, hasPercent_percentage. cbn [isFinite negb].
  rewrite ndiv_of_Z by done. fold (asPercent w). cbn [ngt of_Z].
  rewrite Z2Qc_inj_0. destruct (decide (0 < asPercent w)) as [Hq|Hq].
  - by rewrite bool_decide_eq_true_2.
  - by rewrite bool_decide_eq_false_2.
Qed.

Lemma parseHoldings1_lines (rows : list V1.parsedRow) :
  rows <> [] ->
  Forall (fun x => V1.p_ticker x <> [] /\ forallb plain (V1.p_ticker x) = true) rows ->
  V1.parseHoldings
    (str (joinWith [lf]
            (map (fun x => V1.p_ticker x ++ chars ", "
                           ++ toFixed 2 (real (V1.p_weight x) * Qc_of_Z 100) ++ chars "%")
               rows)))
  = omap (fun x =>
            if decide (0 < asPercent (real (V1.p_weight x)))
            then Some (Holding (str (V1.p_ticker x))
                         (Fin (asPercent (real (V1.p_weight x)))))
            else None)
      rows.
Proof.
  intros Hne Hrows. unfold V1.parseHoldings. cbv zeta. rewrite chars_str.
  assert (Hlines :
    Forall (fun x =>
              Forall (fun c => c <> lf /\ c <> cr)
                (V1.p_ticker x ++ chars ", "
                 ++ toFixed 2 (real (V1.p_weight x) * Qc_of_Z 100) ++ chars "%")
              /\ JsString.trim
                   (V1.p_ticker x ++ chars ", "
                    ++ toFixed 2 (real (V1.p_weight x) * Qc_of_Z 100) ++ chars "%")
                 = V1.p_ticker x ++ chars ", "
                   ++ toFixed 2 (real (V1.p_weight x) * Qc_of_Z 100) ++ chars "%")
      rows).
  { eapply Forall_impl; [exact Hrows|]. intros x [Ht Hp].
    apply line1_clean; try done. apply numeric_toFixed. }
  rewrite splitLines_joinWith.
  - rewrite fmap_map, map_map.
    rewrite (map_ext_in _ (fun x => V1.p_ticker x ++ chars ", "
                                    ++ toFixed 2 (real (V1.p_weight x) * Qc_of_Z 100)
                                    ++ chars "%")).
    + rewrite filter_keeps_all.
      * apply omap_map_ext. eapply Forall_impl; [exact Hrows|]. intros x [Ht Hp].
        by apply parseHolding1_line.
      * apply List.Forall_map. eapply Forall_impl; [exact Hrows|]. intros x [Ht _].
        cbn beta. by destruct (V1.p_ticker x).
    + intros x Hx. by destruct (proj1 (List.Forall_forall _ _) Hlines x Hx).
  - by destruct rows.
  - apply List.Forall_map. eapply Forall_impl; [exact Hlines|]. by intros x [Hx _].
Qed.

(** X24.  The holdings field that the scrape button of the first script
    fills reads back, when the tickers hold no white space and no comma
    and the weights are such that [toFixed] writes them in decimals, as
    the rows of the kept table in their order, each weight rounded to a
    percentage with two decimals; a row whose weight rounds to zero is
    left out, and a weight that is read back is within 0.00005 of the
    weight of the row. *)
Theorem scraped_rows_read_back (tables : list table) (text : list ascii) (count : nat) :
  V1.mb_scrape tables = V1.Found text count ->
  Forall (fun x => forallb plain (V1.p_ticker x) = true) (keptRows tables) ->
  Forall plainPercent (keptRows tables) ->
  V1.parseHoldings (str text)
  = omap (fun x =>
            if decide (0 < asPercent (real (V1.p_weight x)))
            then Some (Holding (str (V1.p_ticker x))
                         (Fin (asPercent (real (V1.p_weight x)))))
            else None)
      (keptRows tables)
  /\ Forall (fun x =>
               asPercent (real (V1.p_weight x)) - real (V1.p_weight x) ≤ / Qc_of_Z 20000
               /\ real (V1.p_weight x) - asPercent (real (V1.p_weight x))
                  ≤ / Qc_of_Z 20000)
       (keptRows tables).
Proof.
  intros Hfound Hplain _.
  split; [|apply List.Forall_forall; intros x _; apply asPercent_near].
  pose proof (fold_better tables None) as Hfold.
  unfold V1.mb_scrape, V1.scrapeHoldingsFromPage in Hfound.
  fold (keptRows tables) in Hfound. unfold keptRows in *.
  destruct (fold_left V1.better tables None) as [best|]; [|done].
  destruct Hfold as [[? _]|(before & t & after & Htables & Ht & _ & Hbefore & Hafter)];
    [done|].
  destruct (scrapeTable1_shape t best Ht) as [Hne Hshape].
  change (default [] (Some best)) with best in *. rewrite fmap_map in Hfound.
  remember (map (fun x => V1.ScrapedHolding (V1.p_ticker x)
                            (numToFixed 2 (V1.p_weight x * of_Z 100)%num ++ chars "%"))
              best) as found eqn:Heq.
  destruct found as [|h rest]; [done|].
  assert (text = joinWith [lf] (V1.holdingLine <$> h :: rest)) as -> by congruence.
  clear Hfound. rewrite Heq, fmap_map, map_map.
  rewrite (map_ext_in _ (fun x => V1.p_ticker x ++ chars ", "
                                  ++ toFixed 2 (real (V1.p_weight x) * Qc_of_Z 100)
                                  ++ chars "%")).
  - apply parseHoldings1_lines; [done|].
    apply List.Forall_forall. intros x Hx. split.
    + by destruct (proj1 (List.Forall_forall _ _) Hshape x Hx).
    + exact (proj1 (List.Forall_forall _ _) Hplain x Hx).
  - intros x Hx.
    destruct (proj1 (List.Forall_forall _ _) Hshape x Hx) as (_ & _ & w & Hw & _).
    rewrite (holdingLine1_row x w Hw), Hw. done.
Qed.

(** The sample table of weights, scraped and read back. *)
Lemma scraped_rows_read_back_witness :
  V1.parseHoldings (str (chars "AAPL, 25.00%" ++ lf :: chars "MSFT, 75.00%"))
  = omap (fun x =>
            if decide (0 < asPercent (real (V1.p_weight x)))
            then Some (Holding (str (V1.p_ticker x))
                         (Fin (asPercent (real (V1.p_weight x)))))
            else None)
      (keptRows [weight_table]).
Proof.
  apply (proj1 (scraped_rows_read_back [weight_table] _ 2 ltac:(vm_compute; reflexivity)
                  ltac:(by_compute) ltac:(by_compute))).
Defined.

(** * Weights from market values, first script *)

(** Without a weight column, [scrapeRow] leaves every weight undefined and
    adds up the market values that are numbers. *)
Lemma scrapeRow1_values (symIdx mvIdx : Z) (acc : list V1.parsedRow * num)
    (tds : list cell) :
  Forall (fun x => V1.p_weight x = NaN) (fst acc)
  /\ snd acc = Fin (total_of (map (fun x => real (V1.p_mv x)) (fst acc))) ->
  Forall (fun x => V1.p_weight x = NaN) (fst (V1.scrapeRow symIdx (-1) mvIdx acc tds))
  /\ snd (V1.scrapeRow symIdx (-1) mvIdx acc tds)
     = Fin (total_of (map (fun x => real (V1.p_mv x))
                        (fst (V1.scrapeRow symIdx (-1) mvIdx acc tds)))).
Proof.
  intros [Hw Hsum]. unfold V1.scrapeRow. cbv zeta.
  destruct (Z.of_nat (length tds) <? _)%Z; [done|].
  destruct (negb (truthy _) || _); [done|].
  change (-1 =? -1)%Z with true. cbv iota. cbn [isFinite negb andb fst snd].
  split.
  - apply Forall_app. split; [done|]. by repeat constructor.
  - rewrite map_app, total_of_app. cbn [map V1.p_mv].
    destruct (negb (mvIdx =? -1)%Z); cbn [isFinite].
    + destruct (V1.safeNum _) as [m|]; cbn [isFinite real]; rewrite Hsum.
      * cbn [nadd lift2]. f_equal. rewrite total_of_cons, total_of_nil. ring.
      * f_equal. rewrite total_of_cons, total_of_nil. ring.
    + rewrite Hsum. cbn [real]. f_equal. rewrite total_of_cons, total_of_nil. ring.
Qed.

Lemma scrapeRows1_values (symIdx mvIdx : Z) (rows : list (list cell))
    (acc : list V1.parsedRow * num) :
  Forall (fun x => V1.p_weight x = NaN) (fst acc)
  /\ snd acc = Fin (total_of (map (fun x => real (V1.p_mv x)) (fst acc))) ->
  Forall (fun x => V1.p_weight x = NaN)
    (fst (fold_left (V1.scrapeRow symIdx (-1) mvIdx) rows acc))
  /\ snd (fold_left (V1.scrapeRow symIdx (-1) mvIdx) rows acc)
     = Fin (total_of (map (fun x => real (V1.p_mv x))
                        (fst (fold_left (V1.scrapeRow symIdx (-1) mvIdx) rows acc)))).
Proof.
  revert acc. induction rows as [|tds rows IH]; intros acc Hacc; [done|].
  cbn [fold_left]. by apply IH, scrapeRow1_values.
Qed.

Lemma total_of_filter_le {A} (f : A -> Qc) (keep : A -> bool) (l : list A) :
  Forall (fun x => keep x = false -> f x ≤ 0) l ->
  total_of (map f l) ≤ total_of (map f (List.filter keep l)).
Proof.
  induction 1 as [|x l Hx _ IH]; [done|]. cbn [map List.filter].
  destruct (keep x); cbn [map]; rewrite ?total_of_cons.
  - by apply Qcplus_le_mono_l.
  - rewrite <- (Qcplus_0_l (total_of (map f (List.filter keep l)))).
    apply Qcplus_le_compat; [by apply Hx | done].
Qed.

(** X25.  A table without a weight column gives weights from the market
    values.  Let [T] be the sum of the market values of all the rows that
    the loop collects: the negative values are in it, the values that are
    no numbers are not.  When the table gives rows, [T] is positive and the
    rows are the collected rows of positive market value [m], in their
    order, each with the weight [m / T].  The rows that are not positive
    count in [T] and are then dropped, so [T] is at most the sum of the
    values that are kept and the weights add up to one at least. *)
Theorem weights_from_market_values (t : table) (cleaned : list V1.parsedRow) :
  headerIndex V1.weightLike ((fun th => JsString.trim (chars th)) <$> headers t) = (-1)%Z ->
  V1.scrapeTable t = Some cleaned ->
  0 < collectedValue t
  /\ cleaned = omap (weighed (collectedValue t)) (collected t)
  /\ Forall (fun x => exists m,
               V1.p_mv x = Fin m /\ 0 < m
               /\ V1.p_weight x = Fin (m / collectedValue t))
       cleaned
  /\ collectedValue t ≤ total_of (map (fun x => real (V1.p_mv x)) cleaned)
  /\ 1 ≤ total_of (map (fun x => real (V1.p_weight x)) cleaned).
Proof.
  intros Hidx. unfold collectedValue, collected, V1.scrapeTable. cbv zeta. rewrite Hidx.
  destruct (negb (V1.symbolLike _)); [done|].
  destruct (negb (existsb _ _)); [done|].
  destruct (length (bodyRows t) <? 2)%nat; [done|].
  set (symIdx := headerIndex V1.symbolLike _).
  set (mvIdx := headerIndex V1.valueLike _).
  destruct (scrapeRows1_values symIdx mvIdx (bodyRows t) ([], of_Z 0)) as [Hw Hsum].
  { split; [constructor|]. unfold of_Z. by rewrite Z2Qc_inj_0. }
  assert (Hticker :
    Forall (fun x => V1.p_ticker x <> [])
      (fst (fold_left (V1.scrapeRow symIdx (-1) mvIdx) (bodyRows t) ([], of_Z 0)))).
  { apply scrapeRows1_tickers; [done | constructor]. }
  destruct (fold_left _ (bodyRows t) _) as [parsed totalMV].
  cbn [fst snd] in Hw, Hsum, Hticker |- *. subst totalMV.
  set (T := total_of (map (fun x => real (V1.p_mv x)) parsed)) in *.
  unfold V1.fillWeights.
  destruct (existsb _ parsed && ngt (Fin T) (of_Z 0)) eqn:Hcond.
  2:{ rewrite filter_none; [done|]. intros x Hx.
      rewrite (proj1 (List.Forall_forall _ _) Hw x Hx). cbn. by rewrite andb_false_r. }
  apply andb_true_iff in Hcond as [_ HT]. cbn in HT.
  apply bool_decide_eq_true in HT. rewrite Z2Qc_inj_0 in HT.
  assert (HT0 : T <> 0) by (intros H0; rewrite H0 in HT; by apply Qclt_not_eq in HT).
  rewrite fmap_map.
  set (fill := fun p : V1.parsedRow =>
                 if negb (isFinite (V1.p_weight p)) && isFinite (V1.p_mv p)
                 then V1.ParsedRow (V1.p_ticker p) (V1.p_mv p / Fin T)%num (V1.p_mv p)
                 else p).
  set (keep := fun x : V1.parsedRow =>
                 truthy (Some (V1.p_ticker x)) && isFinite (V1.p_weight x)
                 && ngt (V1.p_weight x) (of_Z 0)).
  assert (Hfilled :
    Forall (fun x =>
              V1.p_ticker x <> []
              /\ ((V1.p_weight x = NaN /\ V1.p_mv x = NaN)
                  \/ exists m, V1.p_mv x = Fin m /\ V1.p_weight x = Fin (m / T)))
      (map fill parsed)).
  { apply List.Forall_map, List.Forall_forall. intros p Hp.
    pose proof (proj1 (List.Forall_forall _ _) Hw p Hp) as Hwp.
    pose proof (proj1 (List.Forall_forall _ _) Hticker p Hp) as Htp.
    unfold fill. rewrite Hwp. cbn [isFinite negb andb].
    destruct (V1.p_mv p) as [m|] eqn:Hm; cbn [isFinite V1.p_ticker V1.p_weight V1.p_mv].
    - split; [done|]. right. exists m. split; [done|]. by rewrite ndiv_Fin.
    - split; [done|]. left. by rewrite Hwp, Hm. }
  assert (Hmv : map (fun x => real (V1.p_mv x)) (map fill parsed)
                = map (fun x => real (V1.p_mv x)) parsed).
  { rewrite map_map. apply map_ext. intros p. unfold fill. by destruct (_ && _). }
  assert (Hkept :
    Forall (fun x => exists m,
              V1.p_mv x = Fin m /\ 0 < m /\ V1.p_weight x = Fin (m / T))
      (List.filter keep (map fill parsed))).
  { apply List.Forall_forall. intros x Hx. apply filter_In in Hx as [Hx Hk].
    destruct (proj1 (List.Forall_forall _ _) Hfilled x Hx) as [_ [[Hwx _]|(m & Hm & Hwx)]].
    - unfold keep in Hk. rewrite Hwx in Hk. cbn in Hk. by rewrite andb_false_r in Hk.
    - exists m. split; [done|]. split; [|done].
      unfold keep in Hk. rewrite Hwx in Hk. apply andb_true_iff in Hk as [_ Hk].
      cbn in Hk. apply bool_decide_eq_true in Hk. rewrite Z2Qc_inj_0 in Hk.
      destruct (Qclt_le_dec 0 m) as [?|Hle]; [done|]. exfalso.
      assert (Hn : m / T ≤ 0).
      { unfold Qcdiv. rewrite <- (Qcmult_0_l (/ T)).
        apply Qcmult_le_mono_pos_r; [by apply Qcinv_pos | done]. }
      by apply Qcle_not_lt in Hn. }
  assert (Hle : T ≤ total_of (map (fun x => real (V1.p_mv x))
                                (List.filter keep (map fill parsed)))).
  { unfold T at 1. rewrite <- Hmv. apply total_of_filter_le.
    apply List.Forall_forall. intros x Hx Hk.
    destruct (proj1 (List.Forall_forall _ _) Hfilled x Hx)
      as [Htx [[_ Hmx]|(m & Hm & Hwx)]].
    - by rewrite Hmx.
    - rewrite Hm. cbn [real]. unfold keep in Hk. rewrite Hwx in Hk.
      destruct (V1.p_ticker x); [done|]. cbn in Hk.
      apply bool_decide_eq_false in Hk. rewrite Z2Qc_inj_0 in Hk.
      apply Qcnot_lt_le in Hk.
      destruct (Qclt_le_dec 0 m) as [Hpos|?]; [|done]. exfalso.
      assert (Hp : 0 < m / T) by (apply Qcmult_pos_pos; [done | by apply Qcinv_pos]).
      by apply Qcle_not_lt in Hk. }
  assert (Homap : List.filter keep (map fill parsed) = omap (weighed T) parsed).
  { clear Hfilled Hmv Hkept Hle. clearbody T.
    induction parsed as [|p ps IH]; [done|].
    apply Forall_cons in Hw as [Hwp Hw]. apply Forall_cons in Hticker as [Htp Hticker].
    cbn [map List.filter]. rewrite (IH Hw Hticker). clear IH.
    change (omap (weighed T) (p :: ps))
      with (match weighed T p with
            | Some y => y :: omap (weighed T) ps
            | None => omap (weighed T) ps
            end).
    set (others := omap (weighed T) ps).
    unfold fill at 1 2, keep, weighed. destruct p as [tk w mv].
    cbn [V1.p_ticker V1.p_weight V1.p_mv] in *. subst w.
    destruct tk as [|c tk]; [done|].
    destruct mv as [m|]; cbn [isFinite negb andb truthy V1.p_ticker V1.p_weight V1.p_mv];
      [|done].
    rewrite ndiv_Fin by done. unfold of_Z. cbn [isFinite ngt andb]. rewrite Z2Qc_inj_0.
    destruct (decide (0 < m)) as [Hm|Hm].
    - rewrite bool_decide_eq_true_2; [done|].
      apply Qcmult_pos_pos; [done | by apply Qcinv_pos].
    - rewrite bool_decide_eq_false_2; [done|]. apply Qcle_not_lt.
      unfold Qcdiv. rewrite <- (Qcmult_0_l (/ T)).
      apply Qcmult_le_mono_pos_r; [by apply Qcinv_pos | by apply Qcnot_lt_le]. }
  rewrite <- Homap.
  destruct (List.filter keep (map fill parsed)) as [|x0 rest] eqn:Hcleaned; [done|].
  intros [= <-]. split; [done|]. split; [done|]. split; [done|]. split; [done|].
  assert (Hweights :
    map (fun x => real (V1.p_weight x)) (x0 :: rest)
    = map (fun x => real (V1.p_mv x) / T) (x0 :: rest)).
  { apply map_ext_in. intros x Hx.
    destruct (proj1 (List.Forall_forall _ _) Hkept x Hx) as (m & Hm & _ & Hwx).
    by rewrite Hm, Hwx. }
  rewrite Hweights, (total_of_map_div (fun x => real (V1.p_mv x))).
  unfold Qcdiv. rewrite <- (Qcmult_inv_r T) at 1 by done.
  apply Qcmult_le_mono_pos_r; [by apply Qcinv_pos | done].
Qed.

(** A table with a position sold short: the total is 300 - 100 + 200, the
    row of the negative value is dropped, and the weights of the two rows
    that are kept are 3/4 and 1/2. *)
Lemma weights_from_market_values_witness :
  collected short_table
  = [V1.ParsedRow (chars "AAPL") NaN (of_Z 300);
     V1.ParsedRow (chars "TSLA") NaN (of_Z (-100));
     V1.ParsedRow (chars "MSFT") NaN (of_Z 200)]
  /\ collectedValue short_table = Qc_of_Z 400
  /\ V1.scrapeTable short_table
     = Some [V1.ParsedRow (chars "AAPL") (Fin (Q2Qc (3 # 4))) (of_Z 300);
             V1.ParsedRow (chars "MSFT") (Fin (Q2Qc (1 # 2))) (of_Z 200)]
  /\ (0 < collectedValue short_table
      /\ keptRows [short_table]
         = omap (weighed (collectedValue short_table)) (collected short_table)
      /\ Forall (fun x => exists m,
                   V1.p_mv x = Fin m /\ 0 < m
                   /\ V1.p_weight x = Fin (m / collectedValue short_table))
           (keptRows [short_table])
      /\ collectedValue short_table
         ≤ total_of (map (fun x => real (V1.p_mv x)) (keptRows [short_table]))
      /\ 1 ≤ total_of (map (fun x => real (V1.p_weight x)) (keptRows [short_table]))).
Proof.
  split; [by_compute|]. split; [by_compute|]. split; [by_compute|].
  apply (weights_from_market_values short_table (keptRows [short_table])).
  - reflexivity.
  - vm_compute. reflexivity.
Defined.

(** * The holdings field in both scripts *)

Lemma dropSpaces_app_spaces (pre l : list ascii) :
  Forall (fun c => isSpace c = true) pre -> dropSpaces (pre ++ l) = dropSpaces l.
Proof. induction 1 as [|c pre Hc _ IH]; cbn [app dropSpaces]; [done|]. by rewrite Hc. Qed.

Lemma dropSpaces_nil_spaces (l : list ascii) :
  dropSpaces l = [] -> Forall (fun c => isSpace c = true) l.
Proof.
  induction l as [|c l IH]; cbn [dropSpaces]; [constructor|].
  destruct (isSpace c) eqn:Hc; [|done]. intros H. constructor; [done | by apply IH].
Qed.

Lemma dropSpaces_app_kept (l s : list ascii) :
  dropSpaces l <> [] -> dropSpaces (l ++ s) = dropSpaces l ++ s.
Proof.
  induction l as [|c l IH]; cbn [app dropSpaces]; [done|].
  destruct (isSpace c); [apply IH | done].
Qed.

Lemma dropSpaces_spaces (l : list ascii) :
  Forall (fun c => isSpace c = true) l -> dropSpaces l = [].
Proof. induction 1 as [|c l Hc _ IH]; cbn [dropSpaces]; [done|]. by rewrite Hc. Qed.

(** White space around a text does not show after [trim]. *)
Lemma trim_pad (pre l suf : list ascii) :
  Forall (fun c => isSpace c = true) pre ->
  Forall (fun c => isSpace c = true) suf ->
  JsString.trim (pre ++ l ++ suf) = JsString.trim l.
Proof.
  intros Hpre Hsuf. unfold JsString.trim. f_equal.
  rewrite dropSpaces_app_spaces by done.
  destruct (decide (dropSpaces l = [])) as [Hl|Hl].
  - rewrite Hl. rewrite (dropSpaces_spaces (l ++ suf)); [done|].
    apply Forall_app. split; [by apply dropSpaces_nil_spaces | done].
  - rewrite dropSpaces_app_kept by done. rewrite rev_app_distr.
    apply dropSpaces_app_spaces. by apply List.Forall_rev.
Qed.

Lemma dropSpaces_prefix (l : list ascii) :
  exists pre, l = pre ++ dropSpaces l /\ Forall (fun c => isSpace c = true) pre.
Proof.
  induction l as [|c l (pre & IH & Hpre)]; cbn [dropSpaces]; [by exists []|].
  destruct (isSpace c) eqn:Hc.
  - exists (c :: pre). split; [cbn; by f_equal | by constructor].
  - by exists [].
Qed.

(** A text is its trimmed form with white space around. *)
Lemma trim_decompose (l : list ascii) :
  exists pre suf,
    l = pre ++ JsString.trim l ++ suf
    /\ Forall (fun c => isSpace c = true) pre
    /\ Forall (fun c => isSpace c = true) suf.
Proof.
  destruct (dropSpaces_prefix l) as (pre & Hl & Hpre).
  destruct (dropSpaces_prefix (rev (dropSpaces l))) as (suf & Hr & Hsuf).
  exists pre, (rev suf). split; [|split; [done | by apply List.Forall_rev]].
  unfold JsString.trim. rewrite <- rev_app_distr, <- Hr, rev_involutive. exact Hl.
Qed.

Lemma split_nonempty (sep : ascii) (l : list ascii) : JsString.split sep l <> [].
Proof.
  induction l as [|c l IH]; cbn [JsString.split]; [done|].
  destruct (bool_decide (c = sep)); [done|]. by destruct (JsString.split sep l).
Qed.

Lemma splitLines_nonempty (l : list ascii) : JsString.splitLines l <> [].
Proof.
  destruct l as [|c l]; cbn [JsString.splitLines]; [done|].
  destruct (bool_decide (c = lf)); [done|].
  destruct l as [|d l]; [by destruct (JsString.splitLines [])|].
  destruct (bool_decide (c = cr) && bool_decide (d = lf)); [done|].
  by destruct (JsString.splitLines (d :: l)).
Qed.

Lemma consHead_padded (c : ascii) (xs ys : list (list ascii)) :
  xs <> [] ->
  Forall2 (fun a b => exists s, Forall (fun c => isSpace c = true) s /\ b = a ++ s) xs ys ->
  Forall2 (fun a b => exists s, Forall (fun c => isSpace c = true) s /\ b = a ++ s)
    (JsString.consHead c xs) (JsString.consHead c ys).
Proof.
  intros Hne H. destruct H as [|a b xs ys (s & Hs & ->) H]; [done|].
  cbn [JsString.consHead]. constructor; [|done]. by exists s.
Qed.

(** The pieces of [split(/\r?\n/)] are those of [split("\n")] without a
    carriage return at their end. *)
Lemma splitLines_split_fuel (n : nat) (l : list ascii) :
  (length l <= n)%nat ->
  Forall2 (fun a b => exists s, Forall (fun c => isSpace c = true) s /\ b = a ++ s)
    (JsString.splitLines l) (JsString.split lf l).
Proof.
  revert l. induction n as [|n IH]; intros l Hn.
  { destruct l; [|cbn in Hn; lia]. cbn. constructor; [|constructor].
    by exists []. }
  destruct l as [|c l].
  { cbn. constructor; [|constructor]. by exists []. }
  cbn [length] in Hn. cbn [JsString.splitLines JsString.split].
  destruct (bool_decide (c = lf)) eqn:Hc.
  { constructor; [by exists [] | apply IH; lia]. }
  destruct l as [|d l].
  { cbn. constructor; [|constructor]. by exists []. }
  destruct (bool_decide (c = cr) && bool_decide (d = lf)) eqn:Hcr.
  - apply andb_true_iff in Hcr as [->%bool_decide_eq_true ->%bool_decide_eq_true].
    cbn [JsString.split]. rewrite bool_decide_eq_true_2 by done.
    cbn [JsString.consHead]. constructor.
    + exists [cr]. split; [by repeat constructor | done].
    + apply IH. cbn [length] in Hn. lia.
  - apply consHead_padded; [apply splitLines_nonempty|]. apply IH. lia.
Qed.

Lemma splitLines_split (l : list ascii) :
  Forall2 (fun a b => exists s, Forall (fun c => isSpace c = true) s /\ b = a ++ s)
    (JsString.splitLines l) (JsString.split lf l).
Proof. by apply (splitLines_split_fuel (length l)). Qed.

Lemma split_pad_r (sep : ascii) (l suf : list ascii) :
  isSpace sep = false ->
  Forall (fun c => isSpace c = true) suf ->
  Forall2 (fun a b => exists s, Forall (fun c => isSpace c = true) s /\ b = a ++ s)
    (JsString.split sep l) (JsString.split sep (l ++ suf)).
Proof.
  intros Hsep Hsuf. induction l as [|c l IH]; cbn [app].
  - rewrite (split_plain sep suf).
    + cbn. constructor; [|constructor]. by exists suf.
    + intros Hin. apply list_elem_of_In in Hin.
      rewrite (proj1 (List.Forall_forall _ _) Hsuf _ Hin) in Hsep. done.
  - cbn [JsString.split]. destruct (bool_decide (c = sep)).
    + constructor; [by exists [] | done].
    + apply consHead_padded; [apply split_nonempty | done].
Qed.

Lemma trim_padded (xs ys : list (list ascii)) :
  Forall2 (fun a b => exists s, Forall (fun c => isSpace c = true) s /\ b = a ++ s) xs ys ->
  JsString.trim <$> ys = JsString.trim <$> xs.
Proof.
  induction 1 as [|a b xs ys (s & Hs & ->) _ IH]; [done|].
  cbn [fmap list_fmap]. f_equal; [|exact IH].
  apply (trim_pad [] a s); [constructor | done].
Qed.

Lemma split_pad_l (sep : ascii) (pre l : list ascii) :
  isSpace sep = false ->
  Forall (fun c => isSpace c = true) pre ->
  JsString.trim <$> JsString.split sep (pre ++ l) = JsString.trim <$> JsString.split sep l.
Proof.
  intros Hsep. induction 1 as [|c pre Hc _ IH]; [done|].
  cbn [app JsString.split].
  rewrite bool_decide_eq_false_2 by (intros ->; by rewrite Hc in Hsep).
  pose proof (split_nonempty sep (pre ++ l)) as Hne.
  destruct (JsString.split sep (pre ++ l)) as [|h t]; [done|].
  cbn [JsString.consHead]. rewrite <- IH. cbn [fmap list_fmap]. f_equal.
  unfold JsString.trim. cbn [dropSpaces]. by rewrite Hc.
Qed.

(** The trimmed pieces of a line do not depend on the white space around
    the line. *)
Lemma parts_pad (sep : ascii) (pre l suf : list ascii) :
  isSpace sep = false ->
  Forall (fun c => isSpace c = true) pre ->
  Forall (fun c => isSpace c = true) suf ->
  JsString.trim <$> JsString.split sep (pre ++ l ++ suf)
  = JsString.trim <$> JsString.split sep l.
Proof.
  intros Hsep Hpre Hsuf. rewrite split_pad_l by done.
  by apply trim_padded, split_pad_r.
Qed.

Lemma parts_of_padded (a b : list ascii) :
  (exists s, Forall (fun c => isSpace c = true) s /\ b = a ++ s) ->
  JsString.trim b = JsString.trim a
  /\ JsString.trim <$> JsString.split comma b
     = JsString.trim <$> JsString.split comma (JsString.trim a).
Proof.
  intros (s & Hs & ->). split.
  - apply (trim_pad [] a s); [constructor | done].
  - destruct (trim_decompose a) as (pre & suf & Ha & Hpre & Hsuf).
    rewrite Ha at 1. rewrite <- !app_assoc.
    apply parts_pad; [done | done |]. by apply Forall_app.
Qed.

Lemma str_nil_iff (l : list ascii) : str l = "" <-> l = [].
Proof. split; [by destruct l | by intros ->]. Qed.

(** One line in both scripts: the second script reads what the first
    reads, unless the ticker is empty. *)
Lemma parseHolding_both (line1 line2 : list ascii) :
  JsString.trim <$> JsString.split comma line2
  = JsString.trim <$> JsString.split comma line1 ->
  V2.parseHolding line2
  = match V1.parseHolding line1 with
    | Some h => if bool_decide (h_ticker h <> "") then Some h else None
    | None => None
    end.
Proof.
  intros Hparts. unfold V1.parseHolding, V2.parseHolding. cbv zeta. rewrite Hparts.
  destruct (JsString.trim <$> JsString.split comma line1) as [|t [|r parts]];
    cbn [length Nat.ltb Nat.leb lookup list_lookup default from_option id truthy andb];
    [done | by destruct t |].
  unfold V1.safeNum, V2.safeNum. cbn [fmap option_fmap option_map].
  destruct (Number _) as [q|]; cbn [isFinite negb].
  - destruct (ngt _ _) eqn:Hpos; cbn [negb].
    + destruct t as [|c t]; cbn [truthy andb h_ticker].
      * by rewrite bool_decide_eq_false_2 by (intros H; by apply H).
      * by rewrite bool_decide_eq_true_2.
    + by rewrite andb_false_r.
  - destruct (JsString.hasPercent r); cbn; by rewrite andb_false_r.
Qed.

Lemma omap_filter_related {A B} (f1 f2 : list ascii -> option A) (g : A -> option B)
    (h : list ascii -> option B) (xs ys : list (list ascii)) :
  Forall2 (fun a b =>
             JsString.trim b = JsString.trim a
             /\ h b = match f1 (JsString.trim a) with Some x => g x | None => None end)
    xs ys ->
  omap h (List.filter (fun x => truthy (Some (JsString.trim x))) ys)
  = omap (fun x => match f1 x with Some x => g x | None => None end)
      (List.filter (fun l => truthy (Some l)) (JsString.trim <$> xs)).
Proof.
  induction 1 as [|a b xs ys [Htrim Hh] _ IH]; [done|].
  cbn [fmap list_fmap List.filter]. rewrite Htrim.
  destruct (truthy (Some (JsString.trim a))); [|exact IH].
  cbn [omap list_omap]. rewrite Hh, IH. done.
Qed.

Lemma omap_then_filter {A} (f : list ascii -> option A) (keep : A -> bool)
    (l : list (list ascii)) :
  omap (fun x => match f x with
                 | Some h => if keep h then Some h else None
                 | None => None
                 end) l
  = List.filter keep (omap f l).
Proof.
  induction l as [|x l IH]; [done|]. cbn [omap list_omap].
  destruct (f x) as [h|]; [|exact IH].
  cbn [List.filter]. destruct (keep h); by rewrite IH.
Qed.

(** X26.  The two scripts read the same holdings in one text, except that the
    first script keeps a line whose ticker is empty and the second leaves
    it out. *)
Theorem parseHoldings_of_both_versions (text : string) :
  V2.parseHoldings text
  = List.filter (fun h => bool_decide (h_ticker h <> "")) (V1.parseHoldings text).
Proof.
  unfold V1.parseHoldings, V2.parseHoldings. cbv zeta.
  rewrite <- omap_then_filter.
  apply (omap_filter_related V1.parseHolding V1.parseHolding
           (fun h => if bool_decide (h_ticker h <> "") then Some h else None)).
  eapply Forall2_impl; [apply splitLines_split|].
  intros a b Hab. destruct (parts_of_padded a b Hab) as [Htrim Hparts].
  split; [done|]. by apply parseHolding_both.
Qed.

(** A line without a ticker, in both scripts. *)
Lemma parseHoldings_empty_ticker :
  V1.parseHoldings ", 5" = [Holding "" (of_Z 5)] /\ V2.parseHoldings ", 5" = [].
Proof. by_compute. Qed.

(** * The lookback of the first script *)

Lemma nmin_of_Z (x y : Z) : nmin (of_Z x) (of_Z y) = of_Z (Z.min x y).
Proof.
  unfold nmin, of_Z. destruct (decide (Qc_of_Z x ≤ Qc_of_Z y)) as [H|H].
  - apply Z2Qc_inj_le in H. by rewrite Z.min_l.
  - assert (Hlt : (y < x)%Z).
    { apply Z.nle_gt. intros Hle. apply H. by apply (proj1 (Z2Qc_inj_le x y)). }
    by rewrite Z.min_r by lia.
Qed.

Lemma nmax_of_Z (x y : Z) : nmax (of_Z x) (of_Z y) = of_Z (Z.max x y).
Proof.
  unfold nmax, of_Z. destruct (decide (Qc_of_Z x ≤ Qc_of_Z y)) as [H|H].
  - apply Z2Qc_inj_le in H. by rewrite Z.max_r.
  - assert (Hlt : (y < x)%Z).
    { apply Z.nle_gt. intros Hle. apply H. by apply (proj1 (Z2Qc_inj_le x y)). }
    by rewrite Z.max_l by lia.
Qed.

Lemma floor_of_Z (z : Z) : floor (of_Z z) = of_Z z.
Proof.
  unfold floor, of_Z. do 2 f_equal.
  transitivity (Qfloor (inject_Z z)); [|apply Qfloor_Z].
  apply Qfloor_comp. unfold Qc_of_Z, Q2Qc. cbn [this].
  first [apply Qred_correct | reflexivity].
Qed.

(** X27.  Whatever the lookback field holds, the first script works with a
    whole number of days from 60 to 1500: the number of the field rounded
    down and brought into that range, and 252 when the field holds no
    number or zero. *)
Theorem lookback_is_clamped (lookbackInput : string) :
  (exists days : Z,
      V1.lookback lookbackInput = of_Z days /\ (60 <= days <= 1500)%Z)
  /\ (forall q,
        V1.safeNum (Some (chars lookbackInput)) = Fin q -> q <> 0 ->
        V1.lookback lookbackInput = of_Z (Z.max 60 (Z.min 1500 (Qfloor q))))
  /\ (V1.safeNum (Some (chars lookbackInput)) = NaN
      \/ V1.safeNum (Some (chars lookbackInput)) = Fin 0 ->
      V1.lookback lookbackInput = of_Z 252).
Proof.
  unfold V1.lookback, V1.DEFAULT_LOOKBACK_DAYS.
  destruct (V1.safeNum (Some (chars lookbackInput))) as [q|]; cbn [orElse].
  - destruct (decide (q = 0)) as [->|Hq].
    + rewrite floor_of_Z, nmin_of_Z, nmax_of_Z. split; [|split].
      * eexists. split; [reflexivity|]. lia.
      * intros q [= <-] H. done.
      * intros _. reflexivity.
    + cbn [floor]. rewrite nmin_of_Z, nmax_of_Z. split; [|split].
      * eexists. split; [reflexivity|]. lia.
      * by intros q' [= <-] _.
      * intros [H|[= H]]; done.
  - rewrite floor_of_Z, nmin_of_Z, nmax_of_Z. split; [|split].
    + eexists. split; [reflexivity|]. lia.
    + intros q H. done.
    + intros _. reflexivity.
Qed.

(** * The keys of the cache *)

Lemma app_sep_inj (sep : ascii) (a a' r r' : list ascii) :
  sep ∉ a -> sep ∉ a' ->
  a ++ sep :: r = a' ++ sep :: r' -> a = a' /\ r = r'.
Proof.
  revert a'. induction a as [|c a IH]; intros [|c' a'] Ha Ha'; cbn [app].
  - by intros [= <-].
  - intros [= <- _]. exfalso. apply Ha', list_elem_of_here.
  - intros [= -> _]. exfalso. apply Ha, list_elem_of_here.
  - intros [= <- H]. destruct (IH a') as [-> ->]; try done.
    + intros Hin. by apply Ha, list_elem_of_further.
    + intros Hin. by apply Ha', list_elem_of_further.
Qed.

Lemma cacheKey_chars (source symbol market : string) (lookback : Z) :
  chars (V2.cacheKey source symbol market lookback)
  = chars V2.CACHE_PREFIX
    ++ chars source ++ "_"%char :: chars symbol ++ "_"%char :: chars market
    ++ "_"%char :: chars (pretty lookback).
Proof.
  unfold V2.cacheKey. rewrite !chars_app. reflexivity.
Qed.

(** X28.  Two holdings share a cache entry only when they agree in source,
    symbol, market and lookback, as long as none of the first three holds
    an underscore. *)
Theorem cacheKey_injective (source symbol market source' symbol' market' : string)
    (lookback lookback' : Z) :
  Forall (fun s => "_"%char ∉ chars s) [source; symbol; market; source'; symbol'; market'] ->
  V2.cacheKey source symbol market lookback
  = V2.cacheKey source' symbol' market' lookback' ->
  source = source' /\ symbol = symbol' /\ market = market' /\ lookback = lookback'.
Proof.
  intros Hclean Hkey.
  apply Forall_cons in Hclean as [Hs Hclean]. apply Forall_cons in Hclean as [Hy Hclean].
  apply Forall_cons in Hclean as [Hm Hclean]. apply Forall_cons in Hclean as [Hs' Hclean].
  apply Forall_cons in Hclean as [Hy' Hclean]. apply Forall_cons in Hclean as [Hm' _].
  apply (f_equal chars) in Hkey. rewrite !cacheKey_chars in Hkey.
  apply app_inv_head in Hkey.
  apply app_sep_inj in Hkey as [Hsource Hkey]; [|done..].
  apply app_sep_inj in Hkey as [Hsymbol Hkey]; [|done..].
  apply app_sep_inj in Hkey as [Hmarket Hkey]; [|done..].
  apply chars_inj in Hsource, Hsymbol, Hmarket, Hkey.
  by apply (inj pretty) in Hkey.
Qed.

(** The yahoo keys of two sample tickers against the sample market. *)
Lemma cacheKey_injective_witness :
  "yahoo" = "yahoo" /\ "AAPL" = "AAPL" /\ "SPY" = "SPY" /\ 252%Z = 252%Z.
Proof.
  apply (cacheKey_injective "yahoo" "AAPL" "SPY" "yahoo" "AAPL" "SPY" 252 252).
  - repeat constructor; by_compute.
  - reflexivity.
Defined.

(** With underscores two holdings can share a key. *)
Lemma cacheKey_collision :
  V2.cacheKey "yahoo" "A_B" "C" 252 = V2.cacheKey "yahoo" "A" "B_C" 252.
Proof. reflexivity. Qed.
